(** * Entity resolution / weighted fuzzy matching engine (cbs_match_bot)

    A shallow embedding of
      - app/components/WeightageComponent.py  (WeightCalculator),
      - app/components/FuzzyMatchComponent.py (FuzzyMatcherComponent),
      - app/Utils.py                          (standardize_date_format,
                                               parse_value, get_remarks,
                                               compare_two_stirngs_in_df),
      - app/Constants.py                      (policy constants, code tables),
      - app/WeightageProcess.py               (the tickets of a run),
    together with the properties of the specification that concern them.

    Modelling conventions.
      - Python [str] is [string]; only the ASCII range is modelled (a code
        point above 127 is treated as a non-alphanumeric character).
      - Python [float] is an exact rational [Q]; [round(x, 2)] is rounding to
        the nearest hundredth, ties to even.  Sums and products are exact, so
        a value of the program can differ from the value here by the rounding
        error of binary floating point (0.56 + 0.33 + 0.11 is
        1.0000000000000002 in the program and 1 here), and [round] can differ
        where the exact value is a tie that the nearest double is not
        (round(1/40, 2) is 0.03 in the program and 0.02 here).
      - A Python [dict] is an association list in insertion order with
        first-match lookup.
      - A pandas DataFrame is a list of column names and a list of rows; the
        index labels are taken to be unique, so that selecting by label and
        selecting by position coincide. *)

From Stdlib Require Import List String Ascii Bool Arith ZArith QArith Qabs.
From Stdlib Require Import Lia Lqa Permutation Sorted.
Import ListNotations.

Set Warnings "-abstract-large-number".
Open Scope string_scope.

(* ====================================================================== *)
(** * Python string primitives *)
(* ====================================================================== *)

Module PyStr.

Definition code (c : ascii) : nat := nat_of_ascii c.

Definition is_digit (c : ascii) : bool :=
  (48 <=? code c)%nat && (code c <=? 57)%nat.
Definition is_upper (c : ascii) : bool :=
  (65 <=? code c)%nat && (code c <=? 90)%nat.
Definition is_lower (c : ascii) : bool :=
  (97 <=? code c)%nat && (code c <=? 122)%nat.
Definition is_alpha (c : ascii) : bool := is_upper c || is_lower c.
Definition is_alnum (c : ascii) : bool := is_digit c || is_alpha c.

(** The class [\w] of regular expressions: letters, digits and the underscore. *)
Definition is_word (c : ascii) : bool := is_alnum c || Ascii.eqb c "_"%char.

(** [str.isspace] on the ASCII range: TAB, LF, VT, FF, CR, FS, GS, RS, US
    and the space character. *)
Definition is_space (c : ascii) : bool :=
  ((9 <=? code c)%nat && (code c <=? 13)%nat)
  || ((28 <=? code c)%nat && (code c <=? 32)%nat).

Definition lower_char (c : ascii) : ascii :=
  if is_upper c then ascii_of_nat (code c + 32) else c.
Definition upper_char (c : ascii) : ascii :=
  if is_lower c then ascii_of_nat (code c - 32) else c.

Fixpoint map_chars (f : ascii -> ascii) (s : string) : string :=
  match s with
  | EmptyString => EmptyString
  | String c r => String (f c) (map_chars f r)
  end.

Fixpoint filter_chars (p : ascii -> bool) (s : string) : string :=
  match s with
  | EmptyString => EmptyString
  | String c r => if p c then String c (filter_chars p r) else filter_chars p r
  end.

Fixpoint all_chars (p : ascii -> bool) (s : string) : bool :=
  match s with
  | EmptyString => true
  | String c r => p c && all_chars p r
  end.

(** [s.lower()] *)
Definition lower (s : string) : string := map_chars lower_char s.

(** Removal of a leading, resp. trailing, run of characters in a class. *)
Fixpoint lstrip_by (p : ascii -> bool) (s : string) : string :=
  match s with
  | EmptyString => EmptyString
  | String c r => if p c then lstrip_by p r else s
  end.

Fixpoint rstrip_by (p : ascii -> bool) (s : string) : string :=
  match s with
  | EmptyString => EmptyString
  | String c r =>
      match rstrip_by p r with
      | EmptyString => if p c then EmptyString else String c EmptyString
      | r' => String c r'
      end
  end.

(** [s.strip()] *)
Definition strip (s : string) : string := lstrip_by is_space (rstrip_by is_space s).

Definition is_blank (c : ascii) : bool := Ascii.eqb c " "%char.

(** [s.replace(" ", "")] *)
Definition remove_blanks (s : string) : string :=
  filter_chars (fun c => negb (is_blank c)) s.

(** [s.split(sep)] for a one-character separator. *)
Fixpoint split (sep : ascii) (s : string) : list string :=
  match s with
  | EmptyString => [EmptyString]
  | String c r =>
      if Ascii.eqb c sep then EmptyString :: split sep r
      else match split sep r with
           | [] => [String c EmptyString]
           | w :: ws => String c w :: ws
           end
  end.

(** [sep.join(parts)] *)
Fixpoint join (sep : string) (parts : list string) : string :=
  match parts with
  | [] => EmptyString
  | [p] => p
  | p :: ps => p ++ sep ++ join sep ps
  end.

Fixpoint repeat_char (c : ascii) (n : nat) : string :=
  match n with
  | O => EmptyString
  | S k => String c (repeat_char c k)
  end.

(** [s.zfill(width)]: left padding with zeros, after a leading sign. *)
Definition zfill (width : nat) (s : string) : string :=
  let pad := repeat_char "0"%char (width - String.length s) in
  match s with
  | String c r =>
      if Ascii.eqb c "+"%char || Ascii.eqb c "-"%char
      then String c (pad ++ r)
      else pad ++ s
  | EmptyString => pad
  end.

Definition str_in (x : string) (l : list string) : bool :=
  existsb (String.eqb x) l.

(** [s.upper()] *)
Definition upper (s : string) : string := map_chars upper_char s.

(** [s.find(sub) >= 0]: [sub] occurs in [s]. *)
Fixpoint contains (s sub : string) : bool :=
  String.prefix sub s
  || match s with
     | EmptyString => false
     | String _ r => contains r sub
     end.

(** [re.sub(r"\s+", " ", s)]: every maximal run of white space becomes one
    blank; [in_run] tells that the scan is inside such a run. *)
Fixpoint collapse_from (in_run : bool) (s : string) : string :=
  match s with
  | EmptyString => EmptyString
  | String c r =>
      if is_space c then
        if in_run then collapse_from true r
        else String " "%char (collapse_from true r)
      else String c (collapse_from false r)
  end.

Definition collapse_spaces (s : string) : string := collapse_from false s.

End PyStr.

(* ====================================================================== *)
(** * Python numbers: floats as rationals, [round(x, 2)] *)
(* ====================================================================== *)

Module PyNum.

(** Rounding to the nearest integer, ties to even. *)
Definition round_half_even (q : Q) : Z :=
  let n := Qnum q in
  let d := Zpos (Qden q) in
  let f := (n / d)%Z in
  let r2 := (2 * (n mod d))%Z in
  if (r2 <? d)%Z then f
  else if (d <? r2)%Z then (f + 1)%Z
  else if Z.even f then f else (f + 1)%Z.

(** [round(x, 2)] *)
Definition round2 (q : Q) : Q := round_half_even (q * 100) # 100.

(** [sum(values)] *)
Definition qsum (l : list Q) : Q := fold_right Qplus 0 l.

Definition Qgeb (a b : Q) : bool := Qle_bool b a.
Definition Qgtb (a b : Q) : bool := negb (Qle_bool a b).

End PyNum.

(* ====================================================================== *)
(** * Python dictionaries *)
(* ====================================================================== *)

Module PyDict.

Definition dict (V : Type) : Type := list (string * V).

Fixpoint get {V} (d : dict V) (k : string) : option V :=
  match d with
  | [] => None
  | (k', v) :: r => if String.eqb k k' then Some v else get r k
  end.

Definition mem {V} (d : dict V) (k : string) : bool :=
  match get d k with Some _ => true | None => false end.

(** [d[k] = v]: overwrite in place, or append a new key. *)
Fixpoint set {V} (d : dict V) (k : string) (v : V) : dict V :=
  match d with
  | [] => [(k, v)]
  | (k', v') :: r =>
      if String.eqb k k' then (k', v) :: r else (k', v') :: set r k v
  end.

(** [d.update(e)] *)
Definition update {V} (d e : dict V) : dict V :=
  fold_left (fun acc kv => set acc (fst kv) (snd kv)) e d.

Definition keys {V} (d : dict V) : list string := map fst d.
Definition values {V} (d : dict V) : list V := map snd d.

End PyDict.

(* ====================================================================== *)
(** * WeightageComponent.py: [WeightCalculator] *)
(* ====================================================================== *)

Module WeightCalculator.
Import PyStr PyNum.

(** key = field, value = name of the Excel column *)
Definition FIELD_MAPPING : PyDict.dict string :=
  [ ("citizenship_no", "Citizenship Number");
    ("grandfathers_name", "Grandfathers Name");
    ("fathers_name", "Fathers Name");
    ("name", "Name");
    ("dob", "DOB");
    ("account_no", "Account Number");
    ("pan_no", "PAN");
    ("spouse_name", "Spouse Name");
    ("registration_no", "Registration") ].

Definition ENTITY_CONDITIONS : PyDict.dict (list string) :=
  [ ("institutional", ["name"; "pan_no"; "registration_no"]);
    ("account", ["name"; "account_no"]);
    ("individual", ["name"; "fathers_name"; "dob"; "citizenship_no";
                    "grandfathers_name"; "spouse_name"]) ].

(** The exceptions [get_weights] raises. *)
Inductive error : Type :=
| TableEmpty            (* ValueError("Weightage table is empty or could not be loaded") *)
| NoConditions          (* ValueError("No conditions provided") *)
| InvalidEntity         (* ValueError("Invalid entity: ...") *)
| UnknownEntity         (* ValueError("Unknown entity type: ...") *)
| InvalidConditionError (* InvalidConditionError(...) *).

Inductive result (A : Type) : Type :=
| Ok (a : A)
| Raise (e : error).
Arguments Ok {A} a.
Arguments Raise {A} e.

(** One row of the weightage sheet.  [Condition] is [None] when the cell is
    not a string; a weight cell is [None] when it is NaN, and a weight column
    that the sheet does not have is a key that [weight_cells] does not have. *)
Record weight_row : Type := {
  Entity : string;
  Condition : option string;
  Condition_Set : list string;
  weight_cells : PyDict.dict (option Q)
}.

Definition weight_table : Type := list weight_row.

(** Equality of two frozensets. *)
Definition frozenset_eqb (a b : list string) : bool :=
  forallb (fun x => str_in x b) a && forallb (fun x => str_in x a) b.

Definition _normalize_condition (condition_str : string) : list string :=
  if String.eqb condition_str "" then []
  else map (fun field => lower (strip field))
           (filter (fun field => negb (String.eqb (strip field) ""))
                   (split ","%char condition_str)).

Definition _preprocess_data (df : weight_table) : weight_table :=
  map (fun r =>
         {| Entity := Entity r;
            Condition := Condition r;
            Condition_Set := match Condition r with
                             | Some x => _normalize_condition x
                             | None => []
                             end;
            weight_cells := weight_cells r |}) df.

(** [WeightCalculator.__init__]: the table read from the sheet ([[]] when the
    load failed), preprocessed when it is not empty. *)
Definition init (loaded : weight_table) : weight_table :=
  match loaded with
  | [] => []
  | _ => _preprocess_data loaded
  end.

Definition weight_of (weights : PyDict.dict Q) (k : string) : Q :=
  match PyDict.get weights k with Some w => w | None => 0 end.

(** [max(keys, key=f)]: the first key at which [f] is largest. *)
Fixpoint max_by (f : string -> Q) (best : string) (rest : list string) : string :=
  match rest with
  | [] => best
  | k :: ks => if Qgtb (f k) (f best) then max_by f k ks else max_by f best ks
  end.

Definition _adjust_for_rounding (weights : PyDict.dict Q) (valid_fields : list string)
  : PyDict.dict Q :=
  match weights, valid_fields with
  | [], _ => weights
  | _, [] => weights
  | _, _ =>
      let weight_sum := qsum (PyDict.values weights) in
      if Qeq_bool weight_sum 0 || Qeq_bool (round2 weight_sum) 1 then weights
      else
        let diff := round2 (1 - weight_sum) in
        let valid_weight_fields :=
          filter (fun k => str_in k valid_fields && Qgtb (weight_of weights k) 0)
                 (PyDict.keys weights) in
        match valid_weight_fields with
        | [] => weights
        | k0 :: ks =>
            let max_key := max_by (weight_of weights) k0 ks in
            PyDict.set weights max_key (round2 (weight_of weights max_key + diff))
        end
  end.

Definition _get_equal_weights (conditions : list string) : PyDict.dict Q :=
  match conditions with
  | [] => []
  | _ =>
      let count := List.length conditions in
      let weight := round2 (1 / inject_Z (Z.of_nat count)) in
      let result := fold_left (fun d cond => PyDict.set d cond weight) conditions [] in
      _adjust_for_rounding result conditions
  end.

Definition excel_name (cond : string) : string :=
  match PyDict.get FIELD_MAPPING cond with Some x => x | None => "" end.

(** The loop that collects the positive weights of the matched row: one
    turn, on [(raw_weights, total_weight)], and the loop. *)
Definition collect_step (row : weight_row) (acc : PyDict.dict Q * Q) (key : string)
  : PyDict.dict Q * Q :=
  match PyDict.get (weight_cells row) (excel_name key) with
  | Some (Some weight) =>
      if Qgtb weight 0
      then (PyDict.set (fst acc) key weight, snd acc + weight)
      else acc
  | _ => acc
  end.

Definition collect_raw (row : weight_row) (valid_conditions : list string)
  : PyDict.dict Q * Q :=
  fold_left (collect_step row) valid_conditions ([], 0).

(** [{key: float(round(weight / total_weight, 2)) for key, weight in ...}] *)
Definition normalize (raw_weights : PyDict.dict Q) (total_weight : Q) : PyDict.dict Q :=
  map (fun kw => (fst kw, round2 (snd kw / total_weight))) raw_weights.

(** One turn of the loop that gives a missing applicable field the weight 0. *)
Definition fill_missing (entity_specific_conditions : list string)
  (normalized_weights : PyDict.dict Q) (key : string) : PyDict.dict Q :=
  if str_in key entity_specific_conditions && negb (PyDict.mem normalized_weights key)
  then PyDict.set normalized_weights key 0
  else normalized_weights.

(** The second half of [get_weights]: the lookup of the row of the entity and
    of the condition set, and the weights it gives. *)
Definition lookup_weights (df : weight_table) (entity : string)
  (entity_specific_conditions conditions valid_conditions : list string)
  : PyDict.dict Q :=
  let excel_conditions := map excel_name valid_conditions in
  let condition_set := _normalize_condition (join "," excel_conditions) in
  let matches :=
    filter (fun r => String.eqb (lower (Entity r)) entity
                     && frozenset_eqb (Condition_Set r) condition_set) df in
  match matches with
  | [] => _get_equal_weights valid_conditions
  | row :: _ =>
      let raw_weights := fst (collect_raw row valid_conditions) in
      let total_weight := snd (collect_raw row valid_conditions) in
      if Qeq_bool total_weight 0 then _get_equal_weights valid_conditions
      else
        let normalized_weights := normalize raw_weights total_weight in
        let normalized_weights :=
          fold_left (fill_missing entity_specific_conditions)
                    conditions normalized_weights in
        _adjust_for_rounding normalized_weights valid_conditions
  end.

Definition get_weights (df : weight_table) (entity : string) (conditions : list string)
  : result (PyDict.dict Q) :=
  match df with
  | [] => Raise TableEmpty
  | _ =>
  match conditions with
  | [] => Raise NoConditions
  | _ =>
  if String.eqb entity "" then Raise InvalidEntity else
  let entity := lower (strip entity) in
  if negb (PyDict.mem ENTITY_CONDITIONS entity) then Raise UnknownEntity else
  let entity_specific_conditions :=
    match PyDict.get ENTITY_CONDITIONS entity with Some l => l | None => [] end in
  let valid_conditions :=
    filter (fun cond => PyDict.mem FIELD_MAPPING cond
                        && str_in cond entity_specific_conditions) conditions in
  match valid_conditions with
  | [] => Raise InvalidConditionError
  | _ => Ok (lookup_weights df entity entity_specific_conditions conditions
                            valid_conditions)
  end end end.

(** [Series.unique()]: the values in the order of their first appearance;
    NaN counts as one value. *)
Fixpoint unique_from {A} (eqb : A -> A -> bool) (seen l : list A) : list A :=
  match l with
  | [] => []
  | x :: r =>
      if existsb (eqb x) seen then unique_from eqb seen r
      else x :: unique_from eqb (x :: seen) r
  end.

Definition unique {A} (eqb : A -> A -> bool) (l : list A) : list A :=
  unique_from eqb [] l.

Definition condition_eqb (a b : option string) : bool :=
  match a, b with
  | Some x, Some y => String.eqb x y
  | None, None => true
  | _, _ => false
  end.

Definition get_all_entities (df : weight_table) : list string :=
  match df with
  | [] => []
  | _ => unique String.eqb (map Entity df)
  end.

(** [entity] is [None] for a call without the argument. *)
Definition get_all_conditions (df : weight_table) (entity : option string)
  : list (option string) :=
  match df with
  | [] => []
  | _ =>
      match entity with
      | Some (String c e) =>
          let entity := lower (String c e) in
          let filtered_df :=
            filter (fun r => String.eqb (lower (Entity r)) entity) df in
          unique condition_eqb (map Condition filtered_df)
      | _ => unique condition_eqb (map Condition df)
      end
  end.

End WeightCalculator.

(* ====================================================================== *)
(** * rapidfuzz: [utils.default_process], [fuzz.ratio], [process.cdist] *)
(* ====================================================================== *)

Module RapidFuzz.
Import PyStr PyNum.

(** [utils.default_process]: every character that is not a word character
    (the class [\W]) becomes a blank, the blanks at both ends are stripped and
    the letters are lower-cased. *)
Definition process_char (c : ascii) : ascii :=
  if is_word c then lower_char c else " "%char.

Definition default_process (s : string) : string :=
  lstrip_by is_blank (rstrip_by is_blank (map_chars process_char s)).

(** Length of a longest common subsequence. *)
Fixpoint lcs_length (a : string) : string -> nat :=
  match a with
  | EmptyString => fun _ => O
  | String x a' =>
      fix inner (b : string) : nat :=
        match b with
        | EmptyString => O
        | String y b' =>
            if Ascii.eqb x y then S (lcs_length a' b')
            else Nat.max (lcs_length a' b) (inner b')
        end
  end.

(** [fuzz.ratio]: the normalized Indel similarity, in percent:
    [100 * (1 - (|a| + |b| - 2 lcs) / (|a| + |b|))], and 100 for two empty
    strings. *)
Definition ratio (a b : string) : Q :=
  let total := (String.length a + String.length b)%nat in
  match total with
  | O => 100
  | _ => (200 * Z.of_nat (lcs_length a b)) # (Pos.of_nat total)
  end.

(** The nearest integer, ties away from zero: C's [llround], with which the
    scores are converted for an integer [dtype]. *)
Definition llround (q : Q) : Z :=
  let n := Qnum q in
  let d := Zpos (Qden q) in
  if (0 <=? n)%Z then ((2 * n + d) / (2 * d))%Z
  else (- ((2 * (- n) + d) / (2 * d)))%Z.

(** One entry of [process.cdist(..., scorer=fuzz.ratio, dtype=np.uint8)]: the
    score rounded to an integer and stored in eight bits. *)
Definition cdist_uint8 (a b : string) : Z :=
  (llround (ratio a b)) mod 256.

End RapidFuzz.

(* ====================================================================== *)
(** * Constants.py *)
(* ====================================================================== *)

Module Constants.
Local Open Scope string_scope.
Local Open Scope list_scope.

(** Letter action codes. *)
Definition CODE_1 : PyDict.dict string :=
  [ ("Nepal Rastra Bank", "NRB"); ("Direct Letter", "DIR"); ("FIU Analysis", "FIU") ].

Definition CODE_3 : PyDict.dict string :=
  [ ("Commission for the Investigation of Abuse of Authority", "CIA");
    ("Department of Money Laundering Investigation", "DML");
    ("Nepal Police Headquarter", "PHQ");
    ("Central Investigation Bureau", "CIB");
    ("Police Office", "NPO");
    ("Area Police Office", "APO");
    ("Metropolitan Police Office", "MPO");
    ("District Police Office", "DPO");
    ("Inland Revenue Department", "IRD");
    ("Department of Revenue Investigation", "DRI");
    ("Large Tax-Payer Office", "LTP");
    ("Medium Tax-Payer Office", "MTP");
    ("Taxpayer Service Office", "TSO");
    ("Nepal Rastra Bank", "NRB");
    ("Financial Intelligence Unit", "FIU");
    ("Province Police Office", "PPO");
    ("Supreme Court of Nepal", "SCO");
    ("District Court", "DCO");
    ("Kathmandu Upatyaka Aparadh Anusandhan Karyalaya", "MPCD");
    ("Others", "O") ].

Definition CODE_4 : PyDict.dict string :=
  [ ("Debit Restriction", "D");
    ("Credit Restriction", "C");
    ("Account Block", "B");
    ("Account Release", "R") ].

Definition CODE_5 : PyDict.dict string :=
  [ ("Vat Evasion", "VE");
    ("Tax Evasion ", "TE");
    ("Cheque Fraud", "CF");
    ("Bribery/Corruption", "BR");
    ("Banking Offence", "BO");
    ("Fraudulence", "FR");
    ("Criminal activity", "CA");
    ("Others", "O") ].

(** key = standard field, value = (CBS field name, QuickXtract field name) *)
Definition FIELD_MAPPING : PyDict.dict (string * string) :=
  [ ("name", ("ACCT_NAME", "name"));
    ("fathers_name", ("CUST_FATHERS_NAME", "fathers_name"));
    ("grandfathers_name", ("CUST_GRANDFATHERS_NAME", "grandfathers_name"));
    ("citizenship_no", ("CTZ_NUMBER", "citizenship_no"));
    ("spouse_name", ("CUST_SPOUSE_NAME", "spouse_name"));
    ("citizenship_issue_date", ("CTZ_ISSUE_DATE", "issue_date"));
    ("pan_number", ("PAN", "pan_no"));
    ("registration_no", ("REGISTRATION", "registration_no"));
    ("account_no", ("ACCT_NUMBER", "account_no"));
    ("nid", ("NID_NUMBER", "nid"));
    ("dob", ("CUST_DOB", "dob")) ].

Definition PREFILTER_THRESHOLD : Q := 0.70.
Definition MAX_CANDIDATES_AFTER_PREFILTER : nat := 100.

End Constants.

(* ====================================================================== *)
(** * Utils.py *)
(* ====================================================================== *)

Module Utils.
Import PyStr.
Local Open Scope nat_scope.

(** The fields [datetime.strptime] fills in; the defaults are
    1900-01-01 00:00:00. *)
Record datetime : Type := {
  year : nat; month : nat; day : nat;
  hour : nat; minute : nat; second : nat
}.

Definition epoch : datetime :=
  {| year := 1900; month := 1; day := 1; hour := 0; minute := 0; second := 0 |}.

Inductive directive : Type := dY | dm | dd | dH | dM | dS | db | dB.

Inductive item : Type :=
| Dir (d : directive)
| Lit (c : ascii)
| Blank.            (* a run of white space in the format: the regex \s+ *)

Definition directive_of_char (c : ascii) : option directive :=
  if Ascii.eqb c "Y" then Some dY else
  if Ascii.eqb c "m" then Some dm else
  if Ascii.eqb c "d" then Some dd else
  if Ascii.eqb c "H" then Some dH else
  if Ascii.eqb c "M" then Some dM else
  if Ascii.eqb c "S" then Some dS else
  if Ascii.eqb c "b" then Some db else
  if Ascii.eqb c "B" then Some dB else None.

(** The format string as the sequence of its regex pieces. *)
Fixpoint parse_format (f : string) : list item :=
  match f with
  | EmptyString => []
  | String c r =>
      if Ascii.eqb c "%" then
        match r with
        | String k r' =>
            match directive_of_char k with
            | Some d => Dir d :: parse_format r'
            | None => Lit c :: parse_format r
            end
        | EmptyString => [Lit c]
        end
      else if is_space c then
        match parse_format r with
        | Blank :: rest => Blank :: rest
        | rest => Blank :: rest
        end
      else Lit c :: parse_format r
  end.

Definition digit_val (c : ascii) : nat := code c - 48.

Definition in_range (lo hi : nat) (c : ascii) : bool :=
  (lo <=? code c)%nat && (code c <=? hi)%nat.

(** One alternative of a directive's regex: the value it reads and the rest
    of the input. *)
Definition alt : Type := string -> option (nat * string).

(** Two characters, the first in [lo1..hi1], the second in [lo2..hi2]. *)
Definition two (lo1 hi1 lo2 hi2 : nat) : alt := fun s =>
  match s with
  | String a (String b r) =>
      if in_range lo1 hi1 a && in_range lo2 hi2 b
      then Some (10 * digit_val a + digit_val b, r)%nat else None
  | _ => None
  end.

(** One character in [lo..hi]. *)
Definition one (lo hi : nat) : alt := fun s =>
  match s with
  | String a r => if in_range lo hi a then Some (digit_val a, r) else None
  | _ => None
  end.

(** A blank and one character in [1-9]. *)
Definition blank_one : alt := fun s =>
  match s with
  | String a (String b r) =>
      if is_blank a && in_range 49 57 b then Some (digit_val b, r) else None
  | _ => None
  end.

(** [\d\d\d\d] *)
Definition four_digits : alt := fun s =>
  match s with
  | String a (String b (String c (String d r))) =>
      if is_digit a && is_digit b && is_digit c && is_digit d
      then Some (1000 * digit_val a + 100 * digit_val b
                 + 10 * digit_val c + digit_val d, r)%nat
      else None
  | _ => None
  end.

(** A month name, compared without regard to case. *)
Fixpoint word (w : string) (s : string) : option string :=
  match w with
  | EmptyString => Some s
  | String x w' =>
      match s with
      | String y s' => if Ascii.eqb x (lower_char y) then word w' s' else None
      | EmptyString => None
      end
  end.

Definition name_alt (w : string) (value : nat) : alt := fun s =>
  match word w s with Some r => Some (value, r) | None => None end.

(** Full month names, longest first, as the regex lists them. *)
Definition full_months : list alt :=
  [ name_alt "september" 9; name_alt "february" 2; name_alt "november" 11;
    name_alt "december" 12; name_alt "january" 1; name_alt "october" 10;
    name_alt "august" 8; name_alt "march" 3; name_alt "april" 4;
    name_alt "june" 6; name_alt "july" 7; name_alt "may" 5 ].

Definition abbr_months : list alt :=
  [ name_alt "jan" 1; name_alt "feb" 2; name_alt "mar" 3; name_alt "apr" 4;
    name_alt "may" 5; name_alt "jun" 6; name_alt "jul" 7; name_alt "aug" 8;
    name_alt "sep" 9; name_alt "oct" 10; name_alt "nov" 11; name_alt "dec" 12 ].

(** The regex of each directive, as its ordered alternatives:
    %d 3[0-1]|[1-2]\d|0[1-9]|[1-9]| [1-9]    %m 1[0-2]|0[1-9]|[1-9]
    %H 2[0-3]|[0-1]\d|\d     %M [0-5]\d|\d    %S 6[0-1]|[0-5]\d|\d
    %Y \d\d\d\d. *)
Definition alternatives (d : directive) : list alt :=
  match d with
  | dY => [four_digits]
  | dm => [two 49 49 48 50; two 48 48 49 57; one 49 57]
  | dd => [two 51 51 48 49; two 49 50 48 57; two 48 48 49 57; one 49 57; blank_one]
  | dH => [two 50 50 48 51; two 48 49 48 57; one 48 57]
  | dM => [two 48 53 48 57; one 48 57]
  | dS => [two 54 54 48 49; two 48 53 48 57; one 48 57]
  | db => abbr_months
  | dB => full_months
  end.

Definition store (d : directive) (v : nat) (t : datetime) : datetime :=
  match d with
  | dY => {| year := v; month := month t; day := day t;
             hour := hour t; minute := minute t; second := second t |}
  | dm | db | dB =>
          {| year := year t; month := v; day := day t;
             hour := hour t; minute := minute t; second := second t |}
  | dd => {| year := year t; month := month t; day := v;
             hour := hour t; minute := minute t; second := second t |}
  | dH => {| year := year t; month := month t; day := day t;
             hour := v; minute := minute t; second := second t |}
  | dM => {| year := year t; month := month t; day := day t;
             hour := hour t; minute := v; second := second t |}
  | dS => {| year := year t; month := month t; day := day t;
             hour := hour t; minute := minute t; second := v |}
  end.

(** Ordered choice with backtracking into the continuation [k]. *)
Fixpoint first_alt {R} (alts : list alt) (k : nat -> string -> option R) (s : string)
  : option R :=
  match alts with
  | [] => None
  | a :: rest =>
      match a s with
      | Some (v, r) =>
          match k v r with
          | Some x => Some x
          | None => first_alt rest k s
          end
      | None => first_alt rest k s
      end
  end.

(** [\s+]: greedy, giving characters back when the continuation fails. *)
Fixpoint blanks {R} (k : string -> option R) (s : string) : option R :=
  match s with
  | String c r =>
      if is_space c then
        match blanks k r with
        | Some x => Some x
        | None => k r
        end
      else None
  | EmptyString => None
  end.

(** [format_regex.match(data_string)]: the first way the regex matches a
    prefix of the input, with what is left of the input. *)
Fixpoint regex_match (fmt : list item) (t : datetime) (s : string)
  : option (datetime * string) :=
  match fmt with
  | [] => Some (t, s)
  | Lit c :: fmt' =>
      match s with
      | String c' r => if Ascii.eqb c c' then regex_match fmt' t r else None
      | EmptyString => None
      end
  | Blank :: fmt' => blanks (regex_match fmt' t) s
  | Dir d :: fmt' =>
      first_alt (alternatives d) (fun v r => regex_match fmt' (store d v t) r) s
  end.

Definition is_leap (y : nat) : bool :=
  ((y mod 4 =? 0) && negb (y mod 100 =? 0) || (y mod 400 =? 0))%nat.

Definition days_in_month (y m : nat) : nat :=
  match m with
  | 2 => if is_leap y then 29 else 28
  | 4 | 6 | 9 | 11 => 30
  | _ => 31
  end.

(** What the [datetime] constructor accepts. *)
Definition valid_datetime (t : datetime) : bool :=
  ((1 <=? year t) && (year t <=? 9999)
   && (1 <=? month t) && (month t <=? 12)
   && (1 <=? day t) && (day t <=? days_in_month (year t) (month t))
   && (hour t <=? 23) && (minute t <=? 59) && (second t <=? 59))%nat.

(** [datetime.strptime(data_string, format)]; [None] stands for ValueError. *)
Definition strptime (data_string format : string) : option datetime :=
  match regex_match (parse_format format) epoch data_string with
  | Some (t, EmptyString) => if valid_datetime t then Some t else None
  | _ => None           (* no match, or unconverted data remains *)
  end.

Definition digit_char (n : nat) : ascii := ascii_of_nat (48 + n mod 10).

Definition pad2 (n : nat) : string :=
  String (digit_char (n / 10)) (String (digit_char n) EmptyString).

Definition pad4 (n : nat) : string :=
  String (digit_char (n / 1000)) (String (digit_char (n / 100))
    (String (digit_char (n / 10)) (String (digit_char n) EmptyString))).

(** [t.strftime("%Y%m%d")] *)
Definition strftime_Ymd (t : datetime) : string :=
  pad4 (year t) ++ pad2 (month t) ++ pad2 (day t).

Definition date_formats : list string :=
  [ "%Y-%m-%d %H:%M:%S";
    "%Y-%m-%d";
    "%d/%m/%Y";
    "%m/%d/%Y";
    "%Y/%m/%d";
    "%Y%m%d";
    "%d-%m-%Y";
    "%m-%d-%Y";
    "%b %d, %Y";
    "%d %b %Y";
    "%B %d, %Y";
    "%d %B %Y";
    "%Y.%m.%d";
    "%d.%m.%Y";
    "%m.%d.%Y";
    "%Y/%m/%d %H:%M:%S";
    "%d-%b-%Y";
    "%d-%B-%Y";
    "%Y-%b-%d";
    "%Y-%B-%d" ].

(** The loop over the layouts: the first one that parses wins. *)
Fixpoint try_formats (formats : list string) (date_obj : string) : option string :=
  match formats with
  | [] => None
  | date_format :: rest =>
      match strptime date_obj date_format with
      | Some t => Some (strftime_Ymd t)
      | None => try_formats rest date_obj
      end
  end.

Definition standardize_date_format (date_obj : string) : option string :=
  if String.eqb date_obj "" then None
  else try_formats date_formats date_obj.

(** ** [parse_value] *)

(** The longest prefix of characters of a class, and what follows it. *)
Fixpoint take_while (p : ascii -> bool) (s : string) : string :=
  match s with
  | String c r => if p c then String c (take_while p r) else EmptyString
  | EmptyString => EmptyString
  end.

Fixpoint drop_while (p : ascii -> bool) (s : string) : string :=
  match s with
  | String c r => if p c then drop_while p r else s
  | EmptyString => EmptyString
  end.

(** [re.findall(r"[class]*", s)]: every maximal run of the class, an empty
    match where the run stops, and an empty match at every other character
    and at the end of the string. *)
Fixpoint findall_star (p : ascii -> bool) (s : string) : list string :=
  match s with
  | EmptyString => [EmptyString]
  | String c r =>
      if p c then
        match r with
        | String d _ =>
            if p d then
              match findall_star p r with
              | w :: ws => String c w :: ws
              | [] => [String c EmptyString]
              end
            else String c EmptyString :: findall_star p r
        | EmptyString => String c EmptyString :: findall_star p r
        end
      else EmptyString :: findall_star p r
  end.

(** Exactly [n] characters of a class at the start of a string. *)
Fixpoint take_exact (p : ascii -> bool) (n : nat) (s : string) : option string :=
  match n with
  | O => Some EmptyString
  | S k =>
      match s with
      | String c r =>
          if p c then option_map (String c) (take_exact p k r) else None
      | EmptyString => None
      end
  end.

(** [re.search(r"[class]{n}", s)]: the first place where [n] characters of
    the class follow one another. *)
Fixpoint search_exact (p : ascii -> bool) (n : nat) (s : string) : option string :=
  match take_exact p n s with
  | Some m => Some m
  | None =>
      match s with
      | String _ r => search_exact p n r
      | EmptyString => None
      end
  end.

(** [re.search(r"[class]+", s)]: the first maximal run of the class. *)
Definition search_plus (p : ascii -> bool) (s : string) : option string :=
  match take_while p (drop_while (fun c => negb (p c)) s) with
  | EmptyString => None
  | m => Some m
  end.

(** [re.search(r"[class]*", s)]: the run at the start of the string, which
    may be empty. *)
Definition search_star (p : ascii -> bool) (s : string) : option string :=
  Some (take_while p s).

Definition is_name_char (c : ascii) : bool := is_alpha c || is_blank c.
Definition is_citizenship_char (c : ascii) : bool :=
  is_digit c || Ascii.eqb c "/"%char || Ascii.eqb c "-"%char.

Definition parse_value (value type : string) : string :=
  let value := strip value in
  if String.eqb type "name" then
    join " " (findall_star is_name_char value)
  else
    let result :=
      if String.eqb type "client_code" then Some (search_exact is_digit 8 value)
      else if String.eqb type "main_code" then Some (search_exact is_alnum 10 value)
      else if String.eqb type "citizenship_no"
           then Some (search_star is_citizenship_char value)
      else if String.eqb type "fuzzy_match" then Some (search_plus is_digit value)
      else None in
    match result with
    | Some (Some m) => m
    | _ => EmptyString
    end.

(** ** [get_remarks] *)

(** The exceptions [get_remarks] can leave with. *)
Inductive remarks_error : Type :=
| IndexError
| NoStatusFound (accnt_status : string)
| UnboundLocalError
| KeyError (key : string).

Inductive result (A : Type) : Type :=
| Ok (a : A)
| Raise (e : remarks_error).
Arguments Ok {A} a.
Arguments Raise {A} e.

(** [s.lower().replace(" ", "").strip()] *)
Definition squeeze (s : string) : string := strip (remove_blanks (lower s)).

(** [for index, item in enumerate(keys): if test(item): x = keys[index]; break] *)
Definition first_key (test : string -> bool) (keys : list string) (x : string)
  : string :=
  match List.find test keys with
  | Some k => k
  | None => x
  end.

(** The loop over the status names: it returns at once on an information
    request, stops at the first name found in the status, and counts the names
    it passed. *)
Inductive status_outcome : Type :=
| Information
| Status (block_status : option string) (no_status_count : nat).

Fixpoint status_loop (accnt_status : string) (status_keys : list string)
                     (no_status_count : nat) : status_outcome :=
  match status_keys with
  | [] => Status None no_status_count
  | item :: rest =>
      if contains (strip (lower accnt_status)) "information" then Information
      else if contains accnt_status (squeeze item)
           then Status (Some item) no_status_count
           else status_loop accnt_status rest (S no_status_count)
  end.

Definition get_remarks (source extracted_code agency accnt_status cases
                        chalani_no : string) : result string :=
  let extracted_code := squeeze extracted_code in
  let agency := squeeze agency in
  let accnt_status := squeeze accnt_status in
  let cases := squeeze cases in
  let agency_keys := PyDict.keys Constants.CODE_3 in
  let status_keys := PyDict.keys Constants.CODE_4 in
  let cases_keys := PyDict.keys Constants.CODE_5 in
  match (if contains extracted_code "NRB" || contains extracted_code "nrb"
         then nth_error (split "-"%char extracted_code) 1
         else Some chalani_no) with
  | None => Raise IndexError
  | Some code2 =>
      let agency :=
        first_key (fun item => contains (squeeze item) agency) agency_keys agency in
      match status_loop accnt_status status_keys 0 with
      | Information => Ok ""
      | Status block_status no_status_count =>
          if no_status_count =? List.length status_keys
          then Raise (NoStatusFound accnt_status)
          else
            let cases :=
              first_key (fun item => contains cases (squeeze item)) cases_keys cases in
            match block_status with
            | None => Raise UnboundLocalError
            | Some block_status =>
                match PyDict.get Constants.CODE_1 source with
                | None => Raise (KeyError source)
                | Some c1 =>
                match PyDict.get Constants.CODE_3 agency with
                | None => Raise (KeyError agency)
                | Some c3 =>
                match PyDict.get Constants.CODE_4 block_status with
                | None => Raise (KeyError block_status)
                | Some c4 =>
                match PyDict.get Constants.CODE_5 cases with
                | None => Raise (KeyError cases)
                | Some c5 =>
                    Ok (c1 ++ "/" ++ c3 ++ "/" ++ code2 ++ "/" ++ c4 ++ "/" ++ c5)%string
                end end end end
            end
      end
  end.

(** ** [compare_two_stirngs_in_df] *)

(** [Levenshtein.ratio]: [(|a| + |b| - d) / (|a| + |b|)] for the edit distance
    [d] in which a substitution costs two, that is [2 lcs / (|a| + |b|)], and
    1 for two empty strings. *)
Definition Levenshtein_ratio (a b : string) : Q :=
  let lensum := (String.length a + String.length b)%nat in
  match lensum with
  | O => 1%Q
  | _ => ((2 * Z.of_nat (RapidFuzz.lcs_length a b)) # (Pos.of_nat lensum))%Q
  end.

(** The keyword arguments are the two the function asks for, each present or
    not; the result [None] is NaN. *)
Definition compare_two_stirngs_in_df (string1 : string)
    (string2 : option string) (soundex : option bool) : option Q :=
  match string2, soundex with
  | Some string2, Some _ =>
      let string2 := strip string2 in
      let string1 := upper (collapse_spaces string1) in
      let string2 := upper (collapse_spaces string2) in
      let similarity := Levenshtein_ratio (strip string1) (strip string2) in
      Some (PyNum.round2 (similarity * 100)%Q)
  | _, _ => None
  end.

End Utils.

(* ====================================================================== *)
(** * FuzzyMatchComponent.py: data *)
(* ====================================================================== *)

Module Data.
Import PyStr.

(** A value of the source record: [None], a string, or a nested dictionary
    of optional strings (the [individual_details] / [institution_details]
    sub-objects). *)
Inductive value : Type :=
| VNone
| VStr (s : string)
| VDict (d : PyDict.dict (option string)).

Definition record : Type := PyDict.dict value.

Definition of_scalar (x : option string) : value :=
  match x with Some s => VStr s | None => VNone end.

(** Python truthiness. *)
Definition truthy (v : value) : bool :=
  match v with
  | VNone => false
  | VStr s => negb (String.eqb s "")
  | VDict d => match d with [] => false | _ => true end
  end.

Definition repr_scalar (x : option string) : string :=
  match x with Some s => "'" ++ s ++ "'" | None => "None" end.

(** [str(v)].  A dictionary is rendered as Python prints one whose strings
    need no escaping. *)
Definition py_str (v : value) : string :=
  match v with
  | VNone => "None"
  | VStr s => s
  | VDict d =>
      "{" ++ join ", " (map (fun kv => "'" ++ fst kv ++ "': " ++ repr_scalar (snd kv)) d)
          ++ "}"
  end.

(** A cell of the reference data: a string, or [None] for NaN. *)
Definition cell : Type := option string.

Definition fillna (c : cell) : string :=
  match c with Some s => s | None => "" end.

(** [astype(str)] *)
Definition astype_str (c : cell) : string :=
  match c with Some s => s | None => "nan" end.

(** A row maps column names to cells. *)
Definition row : Type := PyDict.dict cell.

Record DataFrame : Type := {
  columns : list string;
  rows : list row
}.

(** [df.empty]: an axis of length zero. *)
Definition empty (df : DataFrame) : bool :=
  match columns df, rows df with
  | _ :: _, _ :: _ => false
  | _, _ => true
  end.

(** [df[col]] as the list of its cells. *)
Definition cell_of (col : string) (r : row) : cell :=
  match PyDict.get r col with Some c => c | None => None end.

Definition series (col : string) (rs : list row) : list cell :=
  map (cell_of col) rs.

(** Boolean indexing [df[mask]]. *)
Fixpoint select {A} (l : list A) (mask : list bool) : list A :=
  match l, mask with
  | x :: l', b :: mask' => if b then x :: select l' mask' else select l' mask'
  | _, _ => []
  end.

(** One row of the frame [match] returns. *)
Record match_row : Type := {
  cbs_row : row;
  total_score : Q;
  match_status : string;
  criteria : PyDict.dict Q;
  field_scores : PyDict.dict Q
}.

Inductive status : Type := Matched | Unmatched | Error.

End Data.

(* ====================================================================== *)
(** * FuzzyMatchComponent.py: [FuzzyMatcherComponent] *)
(* ====================================================================== *)

Module FuzzyMatcherComponent.
Import PyStr PyNum Data.
Local Open Scope Q_scope.

(** ** Similarity and preprocessing *)

Definition _preprocess_text (text : string) : string :=
  let cleaned_text := remove_blanks (strip text) in
  RapidFuzz.default_process cleaned_text.

Definition _preprocess_dataframe_column (series : list cell) : list string :=
  map (fun c => _preprocess_text (fillna c)) series.

Definition zeros {A} (index : list A) : list Q := map (fun _ => 0) index.

Definition _calculate_batch_text_similarity (series : list cell) (query_value : string)
  : list Q :=
  match series with
  | [] => zeros series
  | _ =>
      if String.eqb query_value "" then zeros series
      else
        let processed_query := _preprocess_text query_value in
        if String.eqb processed_query "" then zeros series
        else
          let processed_series := _preprocess_dataframe_column series in
          let similarities :=
            map (fun s => RapidFuzz.cdist_uint8 s processed_query) processed_series in
          map (fun k => inject_Z k / 100) similarities
  end.

(** [date_series.apply(standardize_date_format).fillna("")] on one cell; a
    NaN cell is the string "nan" to [standardize_date_format]. *)
Definition standardize_cell (c : cell) : string :=
  match Utils.standardize_date_format (astype_str c) with
  | Some d => d
  | None => ""
  end.

Definition _calculate_batch_date_similarity (date_series : list cell) (query_date : string)
  : list Q :=
  match date_series with
  | [] => zeros date_series
  | _ =>
      if String.eqb query_date "" then zeros date_series
      else
        match Utils.standardize_date_format query_date with
        | None => zeros date_series
        | Some std_query_date =>
            let std_date_series := map standardize_cell date_series in
            let similarities :=
              map (fun s => RapidFuzz.cdist_uint8 s std_query_date) std_date_series in
            map (fun k => inject_Z k / 100) similarities
        end
  end.

(** ** Criteria, entity type and weights *)

Definition get_value (r : record) (k : string) : value :=
  match PyDict.get r k with Some v => v | None => VNone end.

Definition _determine_entity_type (r : record) : string :=
  match get_value r "entity_type" with
  | VStr s => if String.eqb s "" then
                if truthy (get_value r "company_registration_number")
                   || truthy (get_value r "company_name")
                then "institution" else "individual"
              else lower s
  | _ =>
      if truthy (get_value r "company_registration_number")
         || truthy (get_value r "company_name")
      then "institution" else "individual"
  end.

Definition _get_available_criteria (mapped_record : record) : list string :=
  map fst (filter (fun kv => truthy (snd kv)) mapped_record).

(** The engine's own fallback: [{crit: 1.0 / len(available_criteria)}]. *)
Definition fallback_weights (available_criteria : list string) : PyDict.dict Q :=
  fold_left
    (fun d crit => PyDict.set d crit (1 / inject_Z (Z.of_nat (List.length available_criteria))))
    available_criteria [].

Definition _get_normalized_weights (df : WeightCalculator.weight_table)
  (r : record) (available_criteria : list string) : PyDict.dict Q :=
  let entity_type := _determine_entity_type r in
  match WeightCalculator.get_weights df entity_type available_criteria with
  | WeightCalculator.Ok weights => weights
  | WeightCalculator.Raise _ => fallback_weights available_criteria
  end.

(** ** [match] *)

Definition prefilter_fields : list (string * Q) :=
  [ ("account_no", 0.7); ("citizenship_no", 0.4);
    ("registration_no", 0.5); ("name", 0.5) ].

Definition date_criteria : list string :=
  [ "citizenship_issue_date"; "registration_date"; "pan_issue_date"; "dob" ].

Definition mapping : Type := PyDict.dict (string * string).

(** [cbs_field, _ = field_mapping.get(field, (None, None))], with [None] also
    for an empty name, which the code treats alike. *)
Definition cbs_field_of (field_mapping : mapping) (field : string) : option string :=
  match PyDict.get field_mapping field with
  | Some (cbs_field, _) => if String.eqb cbs_field "" then None else Some cbs_field
  | None => None
  end.

(** Step 2: one level of nesting is merged into the top level. *)
Definition details (r : record) (k : string) : option record :=
  match get_value r k with
  | VDict d => Some (map (fun kv => (fst kv, of_scalar (snd kv))) d)
  | _ => None
  end.

Definition flatten (entity_type : string) (source_record : record) : record :=
  if String.eqb entity_type "individual" then
    match details source_record "individual_details" with
    | Some d => PyDict.update source_record d
    | None => source_record
    end
  else if String.eqb entity_type "institution" then
    match details source_record "institution_details" with
    | Some d => PyDict.update source_record d
    | None => source_record
    end
  else source_record.

(** Step 3: the flattened record under the standard field names. *)
Definition source_dict_lower (flat_source_record : record) : PyDict.dict string :=
  fold_left
    (fun d k => if String.eqb k "" then d else PyDict.set d (lower k) k)
    (PyDict.keys flat_source_record) [].

Definition map_record (field_mapping : mapping) (flat_source_record : record) : record :=
  let lowered := source_dict_lower flat_source_record in
  fold_left
    (fun mapped_record (entry : string * (string * string)) =>
       let std_field := fst entry in
       let src_field := snd (snd entry) in
       match PyDict.get lowered (lower src_field) with
       | Some original_key =>
           PyDict.set mapped_record std_field (get_value flat_source_record original_key)
       | None => mapped_record
       end)
    field_mapping [].

(** Step 5, first part: the account numbers of the copy are padded. *)
Definition pad_account_column (field_mapping : mapping) (df : DataFrame) : DataFrame :=
  match cbs_field_of field_mapping "account_no" with
  | Some account_cbs_field =>
      if str_in account_cbs_field (columns df) then
        {| columns := columns df;
           rows := map (fun r => PyDict.set r account_cbs_field
                                   (Some (zfill 16 (astype_str (cell_of account_cbs_field r)))))
                       (rows df) |}
      else df
  | None => df
  end.

(** Is [source_value] NaN or the empty string? *)
Definition missing_value (v : value) : bool :=
  match v with
  | VNone => true
  | VStr s => String.eqb s ""
  | VDict _ => false
  end.

(** The query string a criterion is compared with. *)
Definition query_text (criterion : string) (source_value : value) : string :=
  if String.eqb criterion "account_no" then zfill 16 (py_str source_value)
  else py_str source_value.

Section Cascade.

Variable field_mapping : mapping.
Variable mapped_record : record.
Variable available_criteria : list string.
Variable cols : list string.

(** The reference column a field is compared on, when none of the
    [missing_reasons] applies. *)
Definition usable_column (field : string) : option string :=
  match cbs_field_of field_mapping field with
  | None => None
  | Some cbs_field =>
      if missing_value (get_value mapped_record field) then None
      else if str_in cbs_field cols then Some cbs_field
      else None
  end.

(** One pass of the prefilter: the rows whose similarity on [field] reaches
    [threshold]. *)
Definition prefilter_pass (field : string) (threshold : Q) (cbs_field : string)
  (potential_matches : list row) : list row :=
  let source_value := query_text field (get_value mapped_record field) in
  let similarities :=
    _calculate_batch_text_similarity (series cbs_field potential_matches) source_value in
  select potential_matches (map (fun s => Qgeb s threshold) similarities).

(** The loop over [prefilter_fields]. *)
Fixpoint cascade (fields : list (string * Q)) (potential_matches : list row) : list row :=
  match fields with
  | [] => potential_matches
  | (field, threshold) :: rest =>
      if negb (str_in field available_criteria)
         || match potential_matches with [] => true | _ => false end
      then cascade rest potential_matches
      else
        match usable_column field with
        | None => cascade rest potential_matches
        | Some cbs_field =>
            let potential_matches :=
              prefilter_pass field threshold cbs_field potential_matches in
            let count_after := List.length potential_matches in
            if (count_after <=? Constants.MAX_CANDIDATES_AFTER_PREFILTER)%nat
            then potential_matches
            else cascade rest potential_matches
        end
  end.

(** Step 6: the similarity vector of every criterion that can be scored. *)
Definition score_criterion (potential_matches : list row) (criterion : string)
  : option (list Q) :=
  match cbs_field_of field_mapping criterion with
  | None => None
  | Some cbs_field =>
      let source_value := get_value mapped_record criterion in
      if missing_value source_value || negb (str_in cbs_field cols) then None
      else if str_in criterion date_criteria then
        Some (_calculate_batch_date_similarity
                (series cbs_field potential_matches) (py_str source_value))
      else
        Some (_calculate_batch_text_similarity
                (series cbs_field potential_matches) (query_text criterion source_value))
  end.

Definition similarity_scores (potential_matches : list row) : PyDict.dict (list Q) :=
  fold_left
    (fun scores criterion =>
       match score_criterion potential_matches criterion with
       | Some v => PyDict.set scores criterion v
       | None => scores
       end)
    available_criteria [].

End Cascade.

(** Element-wise operations on aligned vectors. *)
Fixpoint vec_add (a b : list Q) : list Q :=
  match a, b with
  | x :: a', y :: b' => (x + y) :: vec_add a' b'
  | _, _ => []
  end.

Definition vec_scale (a : list Q) (w : Q) : list Q := map (fun x => x * w) a.

(** Step 7: the weighted sum. *)
Definition total_scores {A} (index : list A) (weights : PyDict.dict Q)
  (scores : PyDict.dict (list Q)) : list Q :=
  fold_left
    (fun total (cw : string * Q) =>
       match PyDict.get scores (fst cw) with
       | Some v => vec_add total (vec_scale v (snd cw))
       | None => total
       end)
    weights (zeros index).

(** Step 8: every row with its total and its per-criterion scores. *)
Definition scores_at (scores : PyDict.dict (list Q)) (i : nat) : PyDict.dict Q :=
  map (fun cv => (fst cv ++ "_score", nth i (snd cv) 0)) scores.

Definition annotate (potential_matches : list row) (weights : PyDict.dict Q)
  (scores : PyDict.dict (list Q)) (total : list Q) : list match_row :=
  map (fun irt : nat * (row * Q) =>
         {| cbs_row := fst (snd irt);
            total_score := snd (snd irt);
            match_status := "Matched";
            criteria := weights;
            field_scores := scores_at scores (fst irt) |})
      (combine (seq 0 (List.length potential_matches)) (combine potential_matches total)).

(** Rows taken in the order an argsort gives. *)
Definition take_order {A} (l : list A) (order : list nat) : list A :=
  flat_map (fun i => match nth_error l i with Some x => [x] | None => [] end) order.

Section Match.

(** [INDIVIDUAL_FIELD_MAPPING], [INSTITUTION_FIELD_MAPPING] and
    [MAX_MATCHES_TO_STORE] are imported from [app.Constants], which does not
    define them: they are parameters here.  [argsort_desc] is the order in
    which [sort_values("total_score", ascending=False)] puts the positions
    of a score vector. *)
Variable INDIVIDUAL_FIELD_MAPPING : mapping.
Variable INSTITUTION_FIELD_MAPPING : mapping.
Variable MAX_MATCHES_TO_STORE : nat.
Variable argsort_desc : list Q -> list nat.

(** The table of the [WeightCalculator] the component holds. *)
Variable weightage_df : WeightCalculator.weight_table.

Definition select_mapping (entity_type : string) : mapping :=
  if String.eqb entity_type "individual"
  then INDIVIDUAL_FIELD_MAPPING else INSTITUTION_FIELD_MAPPING.

(** Steps 1 to 4 of [match], as functions of the source record. *)
Definition field_mapping_of (source_record : record) : mapping :=
  select_mapping (_determine_entity_type source_record).

Definition mapped_record_of (source_record : record) : record :=
  map_record (field_mapping_of source_record)
             (flatten (_determine_entity_type source_record) source_record).

Definition available_criteria_of (source_record : record) : list string :=
  _get_available_criteria (mapped_record_of source_record).

Definition weights_of (source_record : record) : PyDict.dict Q :=
  _get_normalized_weights weightage_df source_record (available_criteria_of source_record).

(** Step 5: the candidates the prefilter stage leaves. *)
Definition prefilter (cbs_data : DataFrame) (source_record : record) : list row :=
  let potential_matches := pad_account_column (field_mapping_of source_record) cbs_data in
  cascade (field_mapping_of source_record) (mapped_record_of source_record)
          (available_criteria_of source_record) (columns potential_matches)
          prefilter_fields (rows potential_matches).

(** Steps 6 and 7: the candidates whose total reaches the threshold, with
    their scores. *)
Definition score_and_threshold (cbs_data : DataFrame) (source_record : record)
  (potential_matches : list row) (final_threshold : Q) : list match_row :=
  let cols := columns (pad_account_column (field_mapping_of source_record) cbs_data) in
  let scores :=
    similarity_scores (field_mapping_of source_record) (mapped_record_of source_record)
                      (available_criteria_of source_record) cols potential_matches in
  let total := total_scores potential_matches (weights_of source_record) scores in
  let annotated := annotate potential_matches (weights_of source_record) scores total in
  select annotated (map (fun s => Qgeb s final_threshold) total).

(** Step 8: [matches.sort_values("total_score", ascending=False)
    .head(MAX_MATCHES_TO_STORE)], and the empty frame when nothing matched. *)
Definition rank (matches : list match_row) : list match_row :=
  match matches with
  | [] => []
  | _ =>
      firstn MAX_MATCHES_TO_STORE
        (take_order matches (argsort_desc (map total_score matches)))
  end.

(** [match]; the empty list is the empty DataFrame. *)
Definition match_ (cbs_data : DataFrame) (source_record : record) (final_threshold : Q)
  : list match_row :=
  if empty cbs_data then []
  else
    match available_criteria_of source_record with
    | [] => []
    | _ =>
        match prefilter cbs_data source_record with
        | [] => []
        | candidates =>
            rank (score_and_threshold cbs_data source_record candidates final_threshold)
        end
    end.

(** [match] with the prefilter stage left out: every row is scored. *)
Definition match_unfiltered (cbs_data : DataFrame) (source_record : record)
  (final_threshold : Q) : list match_row :=
  if empty cbs_data then []
  else
    match available_criteria_of source_record with
    | [] => []
    | _ =>
        let potential_matches :=
          pad_account_column (field_mapping_of source_record) cbs_data in
        rank (score_and_threshold cbs_data source_record (rows potential_matches)
                                  final_threshold)
    end.

(** [get_ticket_matches]: the status, the matches and the ticket name.  The
    [except] branch, which answers "Error", is reached by an exception only,
    and [match] lets none escape. *)
Definition get_ticket_matches (cbs_data : DataFrame) (source_data : record)
  (ticket_id : string) (final_threshold : Q) : status * list match_row * string :=
  let source_data :=
    PyDict.set source_data "entity_type" (VStr (_determine_entity_type source_data)) in
  let entity_type := py_str (get_value source_data "entity_type") in
  let name_field :=
    if String.eqb entity_type "individual" then "person_name" else "company_name" in
  let flat_source_record := flatten entity_type source_data in
  let name :=
    match PyDict.get flat_source_record name_field with
    | Some v => py_str v
    | None => ""
    end in
  let ticket_name := "ticket_" ++ ticket_id ++ "_" ++ remove_blanks name in
  let matches := match_ cbs_data source_data final_threshold in
  match matches with
  | [] => (Unmatched, [], ticket_name)
  | _ => (Matched, matches, ticket_name)
  end.

End Match.

End FuzzyMatcherComponent.

(* ====================================================================== *)
(** * WeightageProcess.py: the tickets of a run *)
(* ====================================================================== *)

(** The parts of [WeightageProcess.execute_run] and [execute_run_item] that
    compute: which of the pending tickets a run processes, and which frame of
    reference data a ticket is matched against.  The calls of the ticket API
    and the reporting around them are left out. *)
Module WeightageProcess.
Import PyStr PyNum Data FuzzyMatcherComponent.
Local Open Scope list_scope.

(** [t.get("entity_type") == name] *)
Definition entity_type_is (name : string) (t : record) : bool :=
  match PyDict.get t "entity_type" with
  | Some (VStr s) => String.eqb s name
  | _ => false
  end.

(** [execute_run]: [individual_tickets[:2] + institution_tickets[:2]]. *)
Definition select_tickets (pending_tickets : list record) : list record :=
  let individual_tickets := filter (entity_type_is "individual") pending_tickets in
  let institution_tickets := filter (entity_type_is "institution") pending_tickets in
  firstn 2 individual_tickets ++ firstn 2 institution_tickets.

(** [execute_run_item]: the frame handed to [get_ticket_matches]. *)
Definition frame_for (cbs_view_df institution_df : DataFrame) (ticket : record)
  : DataFrame :=
  if entity_type_is "institution" ticket then institution_df else cbs_view_df.

End WeightageProcess.

(* ====================================================================== *)
(** * [match] on a store of objects *)
(* ====================================================================== *)

(** The frames are Python objects: a name is bound to an address, [copy()]
    and boolean indexing make a new object, and a column assignment changes
    the object at an address.  This module follows [match] statement by
    statement on a store, to state what a call leaves unchanged. *)
Module Store.
Import PyStr PyNum Data FuzzyMatcherComponent.
Local Open Scope list_scope.
Local Open Scope Q_scope.

Inductive object : Type :=
| Frame (df : DataFrame)                          (* a frame of reference data *)
| Weights (df : WeightCalculator.weight_table)    (* the frame of the weightage sheet *)
| Matches (ms : list match_row).                  (* a frame with the score columns *)

Definition heap : Type := list object.
Definition ref : Type := nat.

(** Computations on the store. *)
Definition M (A : Type) : Type := heap -> A * heap.

Definition ret {A} (a : A) : M A := fun h => (a, h).

Definition bind {A B} (m : M A) (k : A -> M B) : M B :=
  fun h => let r := m h in k (fst r) (snd r).

Notation "x <- m ;; k" := (bind m (fun x => k))
  (at level 61, m at next level, right associativity).

(** A new object, at the next address. *)
Definition alloc (o : object) : M ref := fun h => (List.length h, h ++ [o]).

Definition read (r : ref) : M (option object) := fun h => (nth_error h r, h).

Fixpoint update (h : heap) (r : ref) (o : object) : heap :=
  match h, r with
  | [], _ => []
  | _ :: rest, O => o :: rest
  | x :: rest, S r' => x :: update rest r' o
  end.

(** The object at an address is replaced. *)
Definition write (r : ref) (o : object) : M unit := fun h => (tt, update h r o).

Definition read_frame (r : ref) : M (option DataFrame) :=
  o <- read r ;;
  ret (match o with Some (Frame df) => Some df | _ => None end).

(** [df.copy()] *)
Definition copy_frame (df : DataFrame) : M ref := alloc (Frame df).

(** [df[mask]] *)
Definition index_frame (df : DataFrame) (mask : list bool) : M ref :=
  alloc (Frame {| columns := columns df; rows := select (rows df) mask |}).

(** [df[mask].copy()] *)
Definition index_and_copy (df : DataFrame) (mask : list bool) : M ref :=
  indexed <- index_frame df mask ;;
  o <- read_frame indexed ;;
  match o with
  | Some selected => copy_frame selected
  | None => ret indexed
  end.

(** [self.weightage_manager.get_weights], which reads [self.df], behind the
    [try] of [_get_normalized_weights]. *)
Definition _get_normalized_weights_st (self_df : ref) (source_record : record)
  (available_criteria : list string) : M (PyDict.dict Q) :=
  o <- read self_df ;;
  match o with
  | Some (Weights df) => ret (_get_normalized_weights df source_record available_criteria)
  | _ => ret (fallback_weights available_criteria)
  end.

(** [potential_matches[account_cbs_field] = ...str.zfill(16)] *)
Definition pad_account_st (field_mapping : mapping) (potential_matches : ref) : M unit :=
  o <- read_frame potential_matches ;;
  match o with
  | Some df =>
      match cbs_field_of field_mapping "account_no" with
      | Some account_cbs_field =>
          if str_in account_cbs_field (columns df)
          then write potential_matches (Frame (pad_account_column field_mapping df))
          else ret tt
      | None => ret tt
      end
  | None => ret tt
  end.

(** The prefilter loop; [potential_matches] is bound to a new object after
    each pass. *)
Fixpoint cascade_st (field_mapping : mapping) (mapped_record : record)
  (available_criteria : list string) (fields : list (string * Q))
  (potential_matches : ref) : M ref :=
  match fields with
  | [] => ret potential_matches
  | (field, threshold) :: rest =>
      o <- read_frame potential_matches ;;
      match o with
      | None => ret potential_matches
      | Some df =>
          if negb (str_in field available_criteria)
             || match rows df with [] => true | _ => false end
          then cascade_st field_mapping mapped_record available_criteria rest
                          potential_matches
          else
            match usable_column field_mapping mapped_record (columns df) field with
            | None => cascade_st field_mapping mapped_record available_criteria rest
                                 potential_matches
            | Some cbs_field =>
                let source_value := query_text field (get_value mapped_record field) in
                let similarities :=
                  _calculate_batch_text_similarity (series cbs_field (rows df))
                                                   source_value in
                filtered <- index_and_copy df (map (fun s => Qgeb s threshold) similarities) ;;
                o' <- read_frame filtered ;;
                let count_after :=
                  match o' with Some df' => List.length (rows df') | None => O end in
                if (count_after <=? Constants.MAX_CANDIDATES_AFTER_PREFILTER)%nat
                then ret filtered
                else cascade_st field_mapping mapped_record available_criteria rest
                                filtered
            end
      end
  end.

Section Match.

Variable INDIVIDUAL_FIELD_MAPPING : mapping.
Variable INSTITUTION_FIELD_MAPPING : mapping.
Variable MAX_MATCHES_TO_STORE : nat.
Variable argsort_desc : list Q -> list nat.

(** [match] on the store: [self_df] is the address of the weightage frame and
    [cbs_data] the address of the reference frame.  A failure of a lookup
    stands for the exception that the [except] branch turns into the empty
    frame. *)
Definition match_st (self_df cbs_data : ref) (source_record : record)
  (final_threshold : Q) : M (list match_row) :=
  o <- read_frame cbs_data ;;
  match o with
  | None => ret []
  | Some cbs =>
      if empty cbs then ret []
      else
        let field_mapping :=
          field_mapping_of INDIVIDUAL_FIELD_MAPPING INSTITUTION_FIELD_MAPPING
                           source_record in
        let mapped_record :=
          mapped_record_of INDIVIDUAL_FIELD_MAPPING INSTITUTION_FIELD_MAPPING
                           source_record in
        let available_criteria :=
          available_criteria_of INDIVIDUAL_FIELD_MAPPING INSTITUTION_FIELD_MAPPING
                                source_record in
        match available_criteria with
        | [] => ret []
        | _ =>
            weights <- _get_normalized_weights_st self_df source_record
                                                  available_criteria ;;
            potential_matches <- copy_frame cbs ;;
            _ <- pad_account_st field_mapping potential_matches ;;
            potential_matches <- cascade_st field_mapping mapped_record
                                   available_criteria prefilter_fields
                                   potential_matches ;;
            o <- read_frame potential_matches ;;
            match o with
            | None => ret []
            | Some candidates =>
                match rows candidates with
                | [] => ret []
                | _ =>
                    let scores :=
                      similarity_scores field_mapping mapped_record available_criteria
                                        (columns candidates) (rows candidates) in
                    let total := total_scores (rows candidates) weights scores in
                    let mask := map (fun s => Qgeb s final_threshold) total in
                    matches <- index_and_copy candidates mask ;;
                    o <- read_frame matches ;;
                    match o with
                    | None => ret []
                    | Some selected =>
                        match rows selected with
                        | [] => ret []
                        | _ =>
                            let annotated :=
                              select (annotate (rows candidates) weights scores total)
                                     mask in
                            _ <- write matches (Matches annotated) ;;
                            let ranked :=
                              firstn MAX_MATCHES_TO_STORE
                                (take_order annotated
                                   (argsort_desc (map total_score annotated))) in
                            _ <- alloc (Matches ranked) ;;
                            ret ranked
                        end
                    end
                end
            end
        end
  end.

End Match.

End Store.

(* ====================================================================== *)
(** * A stable descending argsort, and sample data *)
(* ====================================================================== *)

Module Examples.
Import Data.
Local Open Scope Q_scope.

(** Insertion of a position before the first one whose score is not larger:
    among equal scores the earlier position stays first. *)
Fixpoint insert_desc (x : nat * Q) (l : list (nat * Q)) : list (nat * Q) :=
  match l with
  | [] => [x]
  | y :: l' =>
      if Qle_bool (snd y) (snd x) then x :: y :: l'
      else y :: insert_desc x l'
  end.

Definition sort_desc (l : list (nat * Q)) : list (nat * Q) :=
  fold_right insert_desc [] l.

(** The positions of a score vector, by decreasing score, ties in their
    original order: what a stable sort gives. *)
Definition stable_argsort_desc (scores : list Q) : list nat :=
  map fst (sort_desc (combine (seq 0 (List.length scores)) scores)).

Definition sample_weights : WeightCalculator.weight_table :=
  WeightCalculator.init
    [ {| WeightCalculator.Entity := "Individual";
         WeightCalculator.Condition := Some "Name, Citizenship Number, DOB";
         WeightCalculator.Condition_Set := [];
         WeightCalculator.weight_cells :=
           [ ("Name", Some (1 # 3)); ("Citizenship Number", Some (1 # 3));
             ("DOB", Some (1 # 3)); ("Fathers Name", None) ] |};
      {| WeightCalculator.Entity := "Institutional";
         WeightCalculator.Condition := Some "Name, Registration";
         WeightCalculator.Condition_Set := [];
         WeightCalculator.weight_cells :=
           [ ("Name", Some (4 # 10)); ("Registration", Some (6 # 10)) ] |} ].

Definition sample_columns : list string := ["CIF_ID"; "ACCT_NAME"; "ACCT_NUMBER"].

Definition row_acme_1 : row :=
  [("CIF_ID", Some "1"); ("ACCT_NAME", Some "Acme Ltd"); ("ACCT_NUMBER", Some "123")].
Definition row_acme_2 : row :=
  [("CIF_ID", Some "2"); ("ACCT_NAME", Some "ACME LTD"); ("ACCT_NUMBER", Some "456")].
Definition row_other : row :=
  [("CIF_ID", Some "3"); ("ACCT_NAME", Some "Zenith"); ("ACCT_NUMBER", None)].

Definition row_acme_3 : row :=
  [("CIF_ID", Some "4"); ("ACCT_NAME", Some "acme  ltd"); ("ACCT_NUMBER", Some "789")].

Definition sample_cbs : DataFrame :=
  {| columns := sample_columns;
     rows := [row_acme_1; row_other; row_acme_2; row_acme_3] |}.

(** The same frame with its rows in another order. *)
Definition sample_cbs_permuted : DataFrame :=
  {| columns := sample_columns;
     rows := [row_acme_3; row_acme_2; row_other; row_acme_1] |}.

(** A query whose entity type is not one the weight table knows. *)
Definition alien_record : record :=
  [("entity_type", VStr "alien"); ("name", VStr "ACME LTD")].

Definition institution_record : record :=
  [("entity_type", VStr "institution"); ("name", VStr "ACME LTD")].

(** A person with an account number that no row of [sample_cbs] has;
    [account_no] is not a condition of the entity type individual, so it gets
    no weight. *)
Definition account_holder_record : record :=
  [ ("entity_type", VStr "individual"); ("name", VStr "ACME LTD");
    ("account_no", VStr "99999") ].

End Examples.

(* ====================================================================== *)
(** * The notions the properties are stated with *)
(* ====================================================================== *)

(** ** Classes of characters *)

Module TextSpec.
Import PyStr.

Definition lower_word (c : ascii) : bool :=
  is_digit c || is_lower c || Ascii.eqb c "_"%char.

Definition lower_word_or_blank (c : ascii) : bool := lower_word c || is_blank c.

Definition word_or_blank (c : ascii) : bool := is_word c || is_blank c.

Definition not_blank (c : ascii) : bool := negb (is_blank c).

End TextSpec.

(** ** Similarities of one cell *)

Module SimilaritySpec.
Import PyStr PyNum RapidFuzz Data FuzzyMatcherComponent.

(** A whole number of hundredths between 0 and 1. *)
Definition percentage (v : Q) : Prop :=
  exists k : Z, (0 <= k <= 100)%Z /\ (v == inject_Z k / 100)%Q.

(** The text similarity of one cell, as the batch computes it. *)
Definition text_similarity (query_value : string) (c : cell) : Q :=
  if String.eqb query_value "" then 0
  else if String.eqb (_preprocess_text query_value) "" then 0
  else inject_Z (cdist_uint8 (_preprocess_text (fillna c)) (_preprocess_text query_value)) / 100.

Definition date_similarity (query_date : string) (c : cell) : Q :=
  if String.eqb query_date "" then 0
  else match Utils.standardize_date_format query_date with
       | None => 0
       | Some std_query_date =>
           inject_Z (cdist_uint8 (standardize_cell c) std_query_date) / 100
       end.

End SimilaritySpec.

(** ** Weights *)

Module WeightSpec.
Import PyStr PyNum WeightCalculator.
Local Open Scope list_scope.
Local Open Scope Q_scope.

(** The fields applicable to an entity type. *)
Definition applicable (entity : string) : list string :=
  match PyDict.get ENTITY_CONDITIONS entity with Some l => l | None => [] end.

Definition known_entity (entity : string) : bool :=
  PyDict.mem ENTITY_CONDITIONS (lower (strip entity)).

(** A whole number of hundredths. *)
Definition hundredth (v : Q) : Prop := exists z : Z, v == z # 100.

(** What the weights are like before the rounding adjustment. *)
Record well_formed (w : PyDict.dict Q) (valid_fields : list string) : Prop := {
  wf_nodup : NoDup (PyDict.keys w);
  wf_hundredths : Forall hundredth (PyDict.values w);
  wf_nonneg : Forall (fun v => 0 <= v) (PyDict.values w);
  wf_positive : Exists (fun v => 0 < v) (PyDict.values w);
  wf_keys : forall k, In k (PyDict.keys w) -> In k valid_fields
}.

Definition valid_conditions_of (entity : string) (conditions : list string) : list string :=
  filter (fun cond => PyDict.mem FIELD_MAPPING cond
                      && str_in cond (applicable (lower (strip entity)))) conditions.



End WeightSpec.

(** ** The score of one row *)

Module RowSpec.
Import PyStr PyNum Data FuzzyMatcherComponent SimilaritySpec.
Local Open Scope list_scope.
Local Open Scope Q_scope.

Section Rows.

Variable field_mapping : mapping.
Variable mapped_record : record.
Variable available_criteria : list string.
Variable cols : list string.

(** [score_criterion] on a single row. *)
Definition row_scorer (criterion : string) : option (row -> Q) :=
  match cbs_field_of field_mapping criterion with
  | None => None
  | Some cbs_field =>
      let source_value := get_value mapped_record criterion in
      if missing_value source_value || negb (str_in cbs_field cols) then None
      else if str_in criterion date_criteria then
        Some (fun r => date_similarity (py_str source_value) (cell_of cbs_field r))
      else
        Some (fun r => text_similarity (query_text criterion source_value)
                                       (cell_of cbs_field r))
  end.

Definition row_scorers : PyDict.dict (row -> Q) :=
  fold_left
    (fun scorers criterion =>
       match row_scorer criterion with
       | Some f => PyDict.set scorers criterion f
       | None => scorers
       end)
    available_criteria [].

(** The weighted sum of one row. *)
Definition row_total (weights : PyDict.dict Q) (r : row) : Q :=
  fold_left
    (fun total (cw : string * Q) =>
       match PyDict.get row_scorers (fst cw) with
       | Some f => total + f r * snd cw
       | None => total
       end)
    weights 0.

Definition annotate_row (weights : PyDict.dict Q) (r : row) : match_row :=
  {| cbs_row := r;
     total_score := row_total weights r;
     match_status := "Matched";
     criteria := weights;
     field_scores := map (fun cf => (fst cf ++ "_score", snd cf r))%string row_scorers |}.

(** The vectors of a dictionary of row functions. *)
Definition vectors (pm : list row) (scorers : PyDict.dict (row -> Q)) : PyDict.dict (list Q) :=
  map (fun cf => (fst cf, map (snd cf) pm)) scorers.

End Rows.

End RowSpec.

(** ** The prefilter and the candidates of a query *)

Module EngineSpec.
Import PyStr PyNum Data FuzzyMatcherComponent SimilaritySpec RowSpec.
Local Open Scope list_scope.
Local Open Scope Q_scope.

(** Does a row pass the prefilter of [field] on column [cbs_field]? *)
Definition passes (mapped_record : record) (field : string) (threshold : Q)
  (cbs_field : string) (r : row) : bool :=
  Qgeb (text_similarity (query_text field (get_value mapped_record field))
                        (cell_of cbs_field r))
       threshold.

(** The prefilter cascade as the specification words it: over the fields it
    can be applied to, in their order, each pass discards the rows below the
    threshold, and the cascade stops after a pass that leaves no more than
    the cap. *)
Fixpoint spec_cascade (mapped_record : record) (passes_of : list (string * Q * string))
  (candidates : list row) : list row :=
  match passes_of with
  | [] => candidates
  | (field, threshold, cbs_field) :: rest =>
      let remaining := filter (passes mapped_record field threshold cbs_field) candidates in
      if (List.length remaining <=? Constants.MAX_CANDIDATES_AFTER_PREFILTER)%nat
      then remaining
      else spec_cascade mapped_record rest remaining
  end.

(** The prefilter fields present in the condition set whose reference column
    exists, with that column. *)
Definition eligible (field_mapping : mapping) (mapped_record : record)
  (available_criteria cols : list string) (fields : list (string * Q))
  : list (string * Q * string) :=
  flat_map
    (fun ft =>
       if str_in (fst ft) available_criteria then
         match usable_column field_mapping mapped_record cols (fst ft) with
         | Some cbs_field => [(fst ft, snd ft, cbs_field)]
         | None => []
         end
       else [])
    fields.

(** The weight a field has in the total, and the most the other scored
    fields can add to it. *)
Definition positive_part (w : Q) : Q := if Qle_bool 0 w then w else 0.

Definition field_weight (weights : PyDict.dict Q) (field : string) : Q :=
  qsum (map snd (filter (fun cw => String.eqb (fst cw) field) weights)).

Definition others_max {F} (scorers : PyDict.dict F) (weights : PyDict.dict Q)
  (field : string) : Q :=
  qsum (map (fun cw => positive_part (snd cw))
            (filter (fun cw => negb (String.eqb (fst cw) field)
                               && PyDict.mem scorers (fst cw)) weights)).

(** The prefilter threshold of a field is at most the similarity the field
    must reach for the total to reach [final_threshold] when every other
    field scores 1: [threshold <= (final_threshold - others_max) / weight]. *)
Definition within_contribution {F} (scorers : PyDict.dict F) (weights : PyDict.dict Q)
  (final_threshold : Q) (field : string) (threshold : Q) : bool :=
  Qgtb (field_weight weights field) 0
  && Qle_bool (threshold * field_weight weights field + others_max scorers weights field)
              final_threshold.

Section Match.

Variable INDIVIDUAL_FIELD_MAPPING : mapping.
Variable INSTITUTION_FIELD_MAPPING : mapping.
Variable weightage_df : WeightCalculator.weight_table.

Local Abbreviation fm_of := (field_mapping_of INDIVIDUAL_FIELD_MAPPING INSTITUTION_FIELD_MAPPING).
Local Abbreviation mr_of := (mapped_record_of INDIVIDUAL_FIELD_MAPPING INSTITUTION_FIELD_MAPPING).
Local Abbreviation av_of := (available_criteria_of INDIVIDUAL_FIELD_MAPPING INSTITUTION_FIELD_MAPPING).
Local Abbreviation w_of :=
  (weights_of INDIVIDUAL_FIELD_MAPPING INSTITUTION_FIELD_MAPPING weightage_df).

(** The padded copy of the reference data [match] works on. *)
Definition working_copy (cbs_data : DataFrame) (source_record : record) : DataFrame :=
  pad_account_column (fm_of source_record) cbs_data.

Definition scorers_of (cbs_data : DataFrame) (source_record : record)
  : PyDict.dict (row -> Q) :=
  row_scorers (fm_of source_record) (mr_of source_record) (av_of source_record)
              (columns (working_copy cbs_data source_record)).

(** The total score full scoring gives a row. *)
Definition total_of (cbs_data : DataFrame) (source_record : record) (r : row) : Q :=
  row_total (fm_of source_record) (mr_of source_record) (av_of source_record)
            (columns (working_copy cbs_data source_record)) (w_of source_record) r.

Definition reaches (cbs_data : DataFrame) (source_record : record)
  (final_threshold : Q) (r : row) : bool :=
  Qgeb (total_of cbs_data source_record r) final_threshold.

Definition annotate_of (cbs_data : DataFrame) (source_record : record) (r : row)
  : match_row :=
  annotate_row (fm_of source_record) (mr_of source_record) (av_of source_record)
               (columns (working_copy cbs_data source_record)) (w_of source_record) r.

(** The prefilter passes that apply to a query. *)
Definition eligible_of (cbs_data : DataFrame) (source_record : record)
  : list (string * Q * string) :=
  eligible (fm_of source_record) (mr_of source_record) (av_of source_record)
           (columns (working_copy cbs_data source_record)) prefilter_fields.

(** The precondition of the soundness property: every prefilter threshold
    that applies is within the contribution of its field. *)
Definition prefilter_within_contribution (cbs_data : DataFrame) (source_record : record)
  (final_threshold : Q) : bool :=
  forallb
    (fun ftc : string * Q * string =>
       within_contribution (scorers_of cbs_data source_record) (w_of source_record)
                           final_threshold (fst (fst ftc)) (snd (fst ftc)))
    (eligible_of cbs_data source_record).

(** The matches before they are ranked: the rows that reach the threshold,
    with their scores. *)
Definition candidates_of (cbs_data : DataFrame) (source_record : record)
  (final_threshold : Q) : list match_row :=
  if empty cbs_data then []
  else
    match av_of source_record with
    | [] => []
    | _ =>
        score_and_threshold INDIVIDUAL_FIELD_MAPPING INSTITUTION_FIELD_MAPPING
          weightage_df cbs_data source_record
          (prefilter INDIVIDUAL_FIELD_MAPPING INSTITUTION_FIELD_MAPPING
                     cbs_data source_record)
          final_threshold
    end.

End Match.

End EngineSpec.

(** ** Ranking *)

Module RankSpec.
Import PyStr PyNum Data FuzzyMatcherComponent.
Local Open Scope list_scope.
Local Open Scope Q_scope.

(** What is asked of the sort: the positions of the vector, each once, the
    scores at them in decreasing order.  Nothing is asked of the order of
    equal scores. *)
Definition is_argsort_desc (argsort : list Q -> list nat) : Prop :=
  forall scores,
    Permutation (argsort scores) (seq 0 (List.length scores))
    /\ StronglySorted (fun a b => b <= a) (map (fun i => nth i scores 0) (argsort scores)).

Definition by_score_desc (a b : match_row) : Prop := total_score b <= total_score a.

Definition pair_desc (a b : nat * Q) : Prop := snd b <= snd a.

Section Ranking.

Variable argsort_desc : list Q -> list nat.

(** The matches in the order of the sort, before [head]. *)
Definition sorted_matches (matches : list match_row) : list match_row :=
  take_order matches (argsort_desc (map total_score matches)).

End Ranking.

End RankSpec.

(** ** What a date string begins with *)

Module DateSpec.
Import PyStr Utils.
Local Open Scope list_scope.
Local Open Scope nat_scope.

(** One or two characters of a day or a month, and what follows. *)
Definition short_field (s r : string) : Prop :=
  (exists x, s = String x r /\ is_digit x = true)
  \/ (exists x y, s = String x (String y r)
                  /\ is_digit y = true /\ (is_digit x || is_blank x) = true).

(** A day or a month, then a character of the class [p]. *)
Definition begins_short_then (p : ascii -> bool) (s : string) : Prop :=
  exists c r, short_field s (String c r) /\ p c = true.

(** Four digits. *)
Definition begins_year (s : string) : Prop :=
  exists a b c d r,
    s = String a (String b (String c (String d r)))
    /\ is_digit a = true /\ is_digit b = true /\ is_digit c = true /\ is_digit d = true.

(** A character that is neither a digit nor a blank. *)
Definition begins_name (s : string) : Prop :=
  exists y r, s = String y r /\ is_digit y = false /\ is_blank y = false.

(** What a layout lets a string begin with. *)
Inductive beginning : Type :=
| Year
| Name
| ShortLiteral (c : ascii)
| ShortBlank.

Definition begins (b : beginning) (s : string) : Prop :=
  match b with
  | Year => begins_year s
  | Name => begins_name s
  | ShortLiteral c => begins_short_then (Ascii.eqb c) s
  | ShortBlank => begins_short_then is_space s
  end.

Definition beginning_of (fmt : list item) : option beginning :=
  match fmt with
  | Dir dY :: _ => Some Year
  | Dir db :: _ | Dir dB :: _ => Some Name
  | Dir dd :: Lit c :: _ | Dir dm :: Lit c :: _ => Some (ShortLiteral c)
  | Dir dd :: Blank :: _ | Dir dm :: Blank :: _ => Some ShortBlank
  | _ => None
  end.

(** Two beginnings no string can have at once. *)
Definition exclusive (a b : beginning) : bool :=
  match a, b with
  | Year, ShortLiteral c | ShortLiteral c, Year => negb (is_digit c)
  | Year, ShortBlank | ShortBlank, Year => true
  | Name, ShortLiteral _ | ShortLiteral _, Name => true
  | Name, ShortBlank | ShortBlank, Name => true
  | ShortLiteral c, ShortLiteral c' =>
      negb (is_digit c) && negb (is_digit c') && negb (Ascii.eqb c c')
  | ShortLiteral c, ShortBlank | ShortBlank, ShortLiteral c =>
      negb (is_digit c) && negb (is_space c)
  | _, _ => false
  end.

(** The layouts before position [n] all begin in a way that [f] excludes. *)
Definition excluded_before (f : string) (formats : list string) : bool :=
  match beginning_of (parse_format f) with
  | None => false
  | Some a =>
      forallb (fun g => match beginning_of (parse_format g) with
                        | Some b => exclusive a b
                        | None => false
                        end) formats
  end.

End DateSpec.

(** ** Stores *)

Module StoreSpec.
Import PyStr PyNum Data FuzzyMatcherComponent Store.
Local Open Scope list_scope.
Local Open Scope Q_scope.

(** The store [h] is [h0] with new objects after it. *)
Definition extends (h0 h : heap) : Prop := exists ext, h = h0 ++ ext.

(** A computation that, from a store that extends [h0], leaves the objects
    of [h0] as they are, and whose result satisfies [Q]. *)
Definition keeps (h0 : heap) {A} (m : M A) (Q : A -> Prop) : Prop :=
  forall h, extends h0 h -> extends h0 (snd (m h)) /\ Q (fst (m h)).

(** An address that is not one of [h0]. *)
Definition fresh (h0 : heap) (r : ref) : Prop := (List.length h0 <= r)%nat.

End StoreSpec.

(** ** The remark of a letter action *)

Module RemarksSpec.
Import PyStr Utils.
Local Open Scope list_scope.

(** The third part of a remark: the second dash-separated piece of a code
    that mentions the central bank, the dispatch number otherwise. *)
Definition code2_of (extracted_code chalani_no : string) : option string :=
  if contains extracted_code "nrb"
  then nth_error (split "-"%char extracted_code) 1
  else Some chalani_no.

(** The five table lookups of the last line, from left to right. *)
Definition lookup_all (source agency code2 block_status cases : string)
  : result string :=
  match PyDict.get Constants.CODE_1 source with
  | None => Raise (KeyError source)
  | Some c1 =>
  match PyDict.get Constants.CODE_3 agency with
  | None => Raise (KeyError agency)
  | Some c3 =>
  match PyDict.get Constants.CODE_4 block_status with
  | None => Raise (KeyError block_status)
  | Some c4 =>
  match PyDict.get Constants.CODE_5 cases with
  | None => Raise (KeyError cases)
  | Some c5 => Ok (c1 ++ "/" ++ c3 ++ "/" ++ code2 ++ "/" ++ c4 ++ "/" ++ c5)%string
  end end end end.

(** [get_remarks] by cases, without the loop counter. *)
Definition remarks_of (source extracted_code agency accnt_status cases
                       chalani_no : string) : result string :=
  match code2_of (squeeze extracted_code) chalani_no with
  | None => Raise IndexError
  | Some code2 =>
      if contains (squeeze accnt_status) "information" then Ok ""
      else
        match List.find (fun item => contains (squeeze accnt_status) (squeeze item))
                        (PyDict.keys Constants.CODE_4) with
        | None => Raise (NoStatusFound (squeeze accnt_status))
        | Some block_status =>
            lookup_all source
              (first_key (fun item => contains (squeeze item) (squeeze agency))
                         (PyDict.keys Constants.CODE_3) (squeeze agency))
              code2 block_status
              (first_key (fun item => contains (squeeze cases) (squeeze item))
                         (PyDict.keys Constants.CODE_5) (squeeze cases))
        end
  end.

End RemarksSpec.

(* ====================================================================== *)
(** * Properties: text normalization *)
(* ====================================================================== *)

Module TextFacts.
Import PyStr RapidFuzz FuzzyMatcherComponent TextSpec.

Ltac by_cases_on_char c :=
  destruct c as [[|] [|] [|] [|] [|] [|] [|] [|]];
  vm_compute; try reflexivity; try discriminate; auto.

Lemma process_char_class (c : ascii) :
  lower_word_or_blank (process_char c) = true.
Proof. by_cases_on_char c. Qed.

Lemma process_char_word (c : ascii) :
  is_word c = true -> lower_word (process_char c) = true.
Proof. by_cases_on_char c. Qed.

Lemma process_char_fixed (c : ascii) :
  lower_word c = true -> process_char c = c.
Proof. by_cases_on_char c. Qed.

Lemma lower_word_not_space (c : ascii) :
  lower_word c = true -> is_space c = false.
Proof. by_cases_on_char c. Qed.

Lemma lower_word_not_blank (c : ascii) :
  lower_word c = true -> is_blank c = false.
Proof. by_cases_on_char c. Qed.

Lemma all_chars_impl (p q : ascii -> bool) (s : string) :
  (forall c, p c = true -> q c = true) ->
  all_chars p s = true -> all_chars q s = true.
Proof.
  intros Hpq. induction s as [|c s IH]; simpl; [reflexivity|].
  rewrite !andb_true_iff. intros [Hc Hs]. split; auto.
Qed.

Lemma all_chars_lstrip (p q : ascii -> bool) (s : string) :
  all_chars p s = true -> all_chars p (lstrip_by q s) = true.
Proof.
  induction s as [|c s IH]; simpl; [reflexivity|].
  intros H. destruct (q c); [|exact H].
  apply andb_true_iff in H. apply IH, H.
Qed.

Lemma all_chars_rstrip (p q : ascii -> bool) (s : string) :
  all_chars p s = true -> all_chars p (rstrip_by q s) = true.
Proof.
  induction s as [|c s IH]; simpl; [reflexivity|].
  intros H. apply andb_true_iff in H. destruct H as [Hc Hs].
  specialize (IH Hs).
  destruct (rstrip_by q s) as [|d r].
  - destruct (q c); simpl; [reflexivity|]. now rewrite Hc.
  - simpl in *. now rewrite Hc, IH.
Qed.

Lemma all_chars_filter (p q : ascii -> bool) (s : string) :
  all_chars p s = true -> all_chars p (filter_chars q s) = true.
Proof.
  induction s as [|c s IH]; simpl; [reflexivity|].
  intros H. apply andb_true_iff in H. destruct H as [Hc Hs].
  destruct (q c); simpl; [rewrite Hc|]; auto.
Qed.

Lemma all_chars_filter_self (q : ascii -> bool) (s : string) :
  all_chars q (filter_chars q s) = true.
Proof.
  induction s as [|c s IH]; simpl; [reflexivity|].
  destruct (q c) eqn:E; simpl; [rewrite E|]; auto.
Qed.

Lemma all_chars_and (p q : ascii -> bool) (s : string) :
  all_chars p s = true -> all_chars q s = true ->
  all_chars (fun c => p c && q c) s = true.
Proof.
  induction s as [|c s IH]; simpl; [reflexivity|].
  rewrite !andb_true_iff. intros [? ?] [? ?]. auto.
Qed.

Lemma all_chars_map (p : ascii -> bool) (f : ascii -> ascii) (s : string) :
  (forall c, p (f c) = true) -> all_chars p (map_chars f s) = true.
Proof.
  intros H. induction s as [|c s IH]; simpl; [reflexivity|].
  now rewrite H, IH.
Qed.

Lemma lstrip_none (q : ascii -> bool) (s : string) :
  all_chars (fun c => negb (q c)) s = true -> lstrip_by q s = s.
Proof.
  destruct s as [|c s]; simpl; [reflexivity|].
  intros H. apply andb_true_iff in H. destruct H as [Hc _].
  destruct (q c); [discriminate | reflexivity].
Qed.

Lemma rstrip_none (q : ascii -> bool) (s : string) :
  all_chars (fun c => negb (q c)) s = true -> rstrip_by q s = s.
Proof.
  induction s as [|c s IH]; simpl; [reflexivity|].
  intros H. apply andb_true_iff in H. destruct H as [Hc Hs].
  rewrite (IH Hs). destruct s; [|reflexivity].
  destruct (q c); [discriminate | reflexivity].
Qed.

Lemma filter_all (q : ascii -> bool) (s : string) :
  all_chars q s = true -> filter_chars q s = s.
Proof.
  induction s as [|c s IH]; simpl; [reflexivity|].
  intros H. apply andb_true_iff in H. destruct H as [Hc Hs].
  now rewrite Hc, (IH Hs).
Qed.

Lemma map_fixed (p : ascii -> bool) (f : ascii -> ascii) (s : string) :
  (forall c, p c = true -> f c = c) ->
  all_chars p s = true -> map_chars f s = s.
Proof.
  intros Hf. induction s as [|c s IH]; simpl; [reflexivity|].
  intros H. apply andb_true_iff in H. destruct H as [Hc Hs].
  now rewrite (Hf c Hc), (IH Hs).
Qed.

(** The normal form has lower-case letters, digits, underscores and blanks
    only. *)
Lemma preprocess_text_class (x : string) :
  all_chars lower_word_or_blank (_preprocess_text x) = true.
Proof.
  unfold _preprocess_text, default_process.
  apply all_chars_lstrip, all_chars_rstrip, all_chars_map, process_char_class.
Qed.

(** A string of lower-case letters, digits and underscores is its own normal
    form. *)
Lemma preprocess_text_fixed (s : string) :
  all_chars lower_word s = true -> _preprocess_text s = s.
Proof.
  intros H. unfold _preprocess_text, default_process, strip, remove_blanks.
  assert (Hsp : all_chars (fun c => negb (is_space c)) s = true).
  { revert H. apply all_chars_impl. intros c Hc.
    now rewrite (lower_word_not_space c Hc). }
  assert (Hbl : all_chars (fun c => negb (is_blank c)) s = true).
  { revert H. apply all_chars_impl. intros c Hc.
    now rewrite (lower_word_not_blank c Hc). }
  rewrite (rstrip_none _ _ Hsp), (lstrip_none _ _ Hsp), (filter_all _ _ Hbl).
  rewrite (map_fixed lower_word process_char s process_char_fixed H).
  now rewrite (rstrip_none _ _ Hbl), (lstrip_none _ _ Hbl).
Qed.

(** The normal form of a string of word characters and blanks has no
    blank. *)
Lemma preprocess_text_of_words (s : string) :
  all_chars word_or_blank s = true ->
  all_chars lower_word (_preprocess_text s) = true.
Proof.
  intros H. unfold _preprocess_text, default_process.
  apply all_chars_lstrip, all_chars_rstrip.
  assert (Hal : all_chars is_word (remove_blanks (strip s)) = true).
  { unfold remove_blanks, strip.
    assert (H1 : all_chars word_or_blank
                   (filter_chars (fun c => negb (is_blank c))
                      (lstrip_by is_space (rstrip_by is_space s))) = true)
      by now apply all_chars_filter, all_chars_lstrip, all_chars_rstrip.
    pose proof (all_chars_filter_self (fun c => negb (is_blank c))
                  (lstrip_by is_space (rstrip_by is_space s))) as H2.
    pose proof (all_chars_and _ _ _ H1 H2) as H3.
    revert H3. apply all_chars_impl. intros c Hc.
    unfold word_or_blank in Hc.
    destruct (is_word c); [reflexivity|]. destruct (is_blank c); discriminate. }
  revert Hal. generalize (remove_blanks (strip s)). intros t.
  induction t as [|c t IH]; simpl; [reflexivity|].
  rewrite !andb_true_iff. intros [Hc Ht]. split; [|now apply IH].
  now apply process_char_word.
Qed.

Lemma lower_word_is_word (c : ascii) :
  lower_word_or_blank c = true -> word_or_blank c = true.
Proof. by_cases_on_char c. Qed.

Lemma preprocess_text_twice_class (x : string) :
  all_chars lower_word (_preprocess_text (_preprocess_text x)) = true.
Proof.
  apply preprocess_text_of_words.
  generalize (preprocess_text_class x). apply all_chars_impl.
  exact lower_word_is_word.
Qed.

(** C8, as the specification states it, fails: a punctuation mark becomes a
    blank in the first pass, and the second pass removes that blank. *)
Lemma preprocess_text_not_idempotent :
  _preprocess_text "a-b" = "a b"
  /\ _preprocess_text (_preprocess_text "a-b") = "ab"
  /\ _preprocess_text (_preprocess_text "a-b") <> _preprocess_text "a-b".
Proof. repeat split; try reflexivity. vm_compute. discriminate. Qed.

(** C8, amended: two passes of [_preprocess_text] reach a fixed point on
    every string; one pass is already a fixed point exactly when it leaves no
    blank, which is the case of every string made of letters, digits,
    underscores and blanks. *)
Theorem preprocess_text_idempotent_after_one_pass :
  (forall x, _preprocess_text (_preprocess_text (_preprocess_text x))
             = _preprocess_text (_preprocess_text x))
  /\ (forall x, _preprocess_text (_preprocess_text x) = _preprocess_text x
                <-> all_chars not_blank (_preprocess_text x) = true)
  /\ (forall x, all_chars word_or_blank x = true ->
                _preprocess_text (_preprocess_text x) = _preprocess_text x).
Proof.
  split; [|split].
  - intros x. apply preprocess_text_fixed, preprocess_text_twice_class.
  - intros x. split.
    + intros E. rewrite <- E.
      generalize (preprocess_text_twice_class x). apply all_chars_impl.
      intros c Hc. unfold not_blank. now rewrite (lower_word_not_blank c Hc).
    + intros Hnb. apply preprocess_text_fixed.
      pose proof (all_chars_and _ _ _ (preprocess_text_class x) Hnb) as H.
      revert H. apply all_chars_impl. intros c Hc.
      unfold lower_word_or_blank, not_blank in Hc.
      destruct (lower_word c); [reflexivity|].
      destruct (is_blank c); discriminate.
  - intros x Hx. apply preprocess_text_fixed.
    now apply preprocess_text_of_words.
Qed.

Lemma preprocess_text_idempotent_witness :
  all_chars word_or_blank "Ram Bahadur 07" = true
  /\ _preprocess_text (_preprocess_text "Ram Bahadur 07") = _preprocess_text "Ram Bahadur 07".
Proof.
  split; [reflexivity|].
  apply (proj2 (proj2 preprocess_text_idempotent_after_one_pass)). reflexivity.
Defined.

End TextFacts.

(* ====================================================================== *)
(** * Properties: rounding *)
(* ====================================================================== *)

Module RoundFacts.
Import PyNum.
Local Open Scope Z_scope.

(** The rounded value is within one half of the rational. *)
Lemma round_half_even_spec (q : Q) :
  2 * round_half_even q * Zpos (Qden q) - Zpos (Qden q) <= 2 * Qnum q
  /\ 2 * Qnum q <= 2 * round_half_even q * Zpos (Qden q) + Zpos (Qden q).
Proof.
  unfold round_half_even.
  set (n := Qnum q). set (d := Zpos (Qden q)).
  assert (Hd : 0 < d) by (unfold d; lia).
  pose proof (Z.div_mod n d ltac:(lia)) as Hdm.
  pose proof (Z.mod_pos_bound n d Hd) as Hm.
  destruct (2 * (n mod d) <? d) eqn:E1.
  - apply Z.ltb_lt in E1. nia.
  - apply Z.ltb_ge in E1.
    destruct (d <? 2 * (n mod d)) eqn:E2.
    + apply Z.ltb_lt in E2. nia.
    + apply Z.ltb_ge in E2. destruct (Z.even (n / d)); nia.
Qed.

Lemma round_half_even_le (q : Q) (z : Z) :
  (q <= inject_Z z)%Q -> round_half_even q <= z.
Proof.
  intros H. unfold Qle in H. simpl in H.
  pose proof (round_half_even_spec q) as [H1 _].
  assert (Hd : 0 < Zpos (Qden q)) by lia. nia.
Qed.

Lemma round_half_even_ge (q : Q) (z : Z) :
  (inject_Z z <= q)%Q -> z <= round_half_even q.
Proof.
  intros H. unfold Qle in H. simpl in H.
  pose proof (round_half_even_spec q) as [_ H2].
  assert (Hd : 0 < Zpos (Qden q)) by lia. nia.
Qed.

(** An integer is its own rounding. *)
Lemma round_half_even_integer (q : Q) (z : Z) :
  (q == inject_Z z)%Q -> round_half_even q = z.
Proof.
  intros H. apply Z.le_antisymm.
  - apply round_half_even_le. rewrite H. apply Qle_refl.
  - apply round_half_even_ge. rewrite H. apply Qle_refl.
Qed.

(** A rational that rounds to at most zero is at most one half. *)
Lemma round_half_even_nonpos (q : Q) :
  round_half_even q <= 0 -> (q <= 1 # 2)%Q.
Proof.
  intros H. unfold Qle. simpl.
  pose proof (round_half_even_spec q) as [_ H2].
  assert (Hd : 0 < Zpos (Qden q)) by lia. nia.
Qed.

Lemma round2_hundredths (q : Q) (z : Z) :
  (q == z # 100)%Q -> (round2 q == z # 100)%Q.
Proof.
  intros H. unfold round2.
  rewrite (round_half_even_integer (q * 100) z); [reflexivity|].
  rewrite H. unfold Qeq. simpl. lia.
Qed.

Lemma round2_is_hundredths (q : Q) :
  round2 q = (round_half_even (q * 100) # 100)%Q.
Proof. reflexivity. Qed.

End RoundFacts.

(* ====================================================================== *)
(** * Properties: per-field similarity *)
(* ====================================================================== *)

Module SimilarityFacts.
Import PyStr PyNum RapidFuzz Data FuzzyMatcherComponent SimilaritySpec.

Lemma lcs_length_bound (a b : string) :
  (lcs_length a b <= String.length a /\ lcs_length a b <= String.length b)%nat.
Proof.
  revert b. induction a as [|x a IHa]; intros b; [simpl; lia|].
  induction b as [|y b IHb]; [simpl; lia|].
  change (lcs_length (String x a) (String y b))
    with (if Ascii.eqb x y then S (lcs_length a b)
          else Nat.max (lcs_length a (String y b)) (lcs_length (String x a) b)).
  destruct (Ascii.eqb x y).
  - destruct (IHa b). simpl. lia.
  - destruct (IHa (String y b)) as [H1 H2]. destruct IHb as [H3 H4].
    simpl String.length in *. lia.
Qed.

Lemma ratio_range (a b : string) : (0 <= ratio a b /\ ratio a b <= 100)%Q.
Proof.
  unfold ratio. destruct (lcs_length_bound a b) as [Ha Hb].
  destruct (String.length a + String.length b)%nat as [|n] eqn:E.
  - split; unfold Qle; simpl; lia.
  - assert (H : Zpos (Pos.of_nat (S n)) = Z.of_nat (S n)).
    { rewrite <- positive_nat_Z, Nat2Pos.id by lia. reflexivity. }
    split; unfold Qle; cbn [Qnum Qden].
    + lia.
    + rewrite H. lia.
Qed.

Lemma llround_range (q : Q) (z : Z) :
  (0 <= z)%Z -> (0 <= q /\ q <= inject_Z z)%Q -> (0 <= llround q <= z)%Z.
Proof.
  intros Hz [Hlo Hhi]. unfold Qle in Hlo, Hhi. simpl in Hlo, Hhi.
  unfold llround.
  assert (Hd : (0 < Zpos (Qden q))%Z) by lia.
  assert (Hn : (0 <= Qnum q)%Z) by lia.
  destruct (0 <=? Qnum q)%Z eqn:E; [|apply Z.leb_gt in E; lia].
  split.
  - apply Z.div_pos; lia.
  - apply Z.lt_succ_r. apply Z.div_lt_upper_bound; lia.
Qed.

Lemma cdist_uint8_range (a b : string) : (0 <= cdist_uint8 a b <= 100)%Z.
Proof.
  unfold cdist_uint8.
  pose proof (llround_range (ratio a b) 100 ltac:(lia) (ratio_range a b)).
  rewrite Z.mod_small; lia.
Qed.

Lemma percentage_range (v : Q) : percentage v -> (0 <= v /\ v <= 1)%Q.
Proof.
  intros [k [Hk Hv]]. rewrite Hv. unfold Qdiv, Qmult, Qinv, Qle. simpl. lia.
Qed.

Lemma percentage_zero : percentage 0.
Proof. exists 0%Z. split; [lia | reflexivity]. Qed.

Lemma percentage_cdist (a b : string) : percentage (inject_Z (cdist_uint8 a b) / 100).
Proof. exists (cdist_uint8 a b). split; [apply cdist_uint8_range | reflexivity]. Qed.

Lemma zeros_percentage {A} (l : list A) : Forall percentage (zeros l).
Proof. unfold zeros. apply Forall_map, Forall_forall. intros; apply percentage_zero. Qed.

Lemma batch_text_percentage (series : list cell) (query_value : string) :
  Forall percentage (_calculate_batch_text_similarity series query_value).
Proof.
  unfold _calculate_batch_text_similarity.
  destruct series as [|c series]; [constructor|].
  destruct (String.eqb query_value ""); [apply zeros_percentage|].
  destruct (String.eqb (_preprocess_text query_value) ""); [apply zeros_percentage|].
  unfold _preprocess_dataframe_column. rewrite !map_map.
  apply Forall_map, Forall_forall. intros; apply percentage_cdist.
Qed.

Lemma batch_date_percentage (date_series : list cell) (query_date : string) :
  Forall percentage (_calculate_batch_date_similarity date_series query_date).
Proof.
  unfold _calculate_batch_date_similarity.
  destruct date_series as [|c series]; [constructor|].
  destruct (String.eqb query_date ""); [apply zeros_percentage|].
  destruct (Utils.standardize_date_format query_date); [|apply zeros_percentage].
  rewrite !map_map. apply Forall_map, Forall_forall. intros; apply percentage_cdist.
Qed.

Lemma batch_text_map (series : list cell) (query_value : string) :
  _calculate_batch_text_similarity series query_value
  = map (text_similarity query_value) series.
Proof.
  unfold _calculate_batch_text_similarity, text_similarity, zeros.
  destruct series as [|c series]; [reflexivity|].
  destruct (String.eqb query_value ""); [reflexivity|].
  destruct (String.eqb (_preprocess_text query_value) ""); [reflexivity|].
  unfold _preprocess_dataframe_column. now rewrite !map_map.
Qed.

Lemma batch_date_map (date_series : list cell) (query_date : string) :
  _calculate_batch_date_similarity date_series query_date
  = map (date_similarity query_date) date_series.
Proof.
  unfold _calculate_batch_date_similarity, date_similarity, zeros.
  destruct date_series as [|c series]; [reflexivity|].
  destruct (String.eqb query_date ""); [reflexivity|].
  destruct (Utils.standardize_date_format query_date); [|reflexivity].
  now rewrite !map_map.
Qed.

(** C10: every value of the batch text and date similarity is a whole number
    of hundredths in [0, 1]; the value of a cell is the eight-bit percentage
    of its comparison divided by 100, so two cells whose percentages agree
    have the same value. *)
Theorem batch_similarity_is_percentage :
  (forall series query_value,
      Forall (fun v => percentage v /\ (0 <= v /\ v <= 1)%Q)
             (_calculate_batch_text_similarity series query_value))
  /\ (forall date_series query_date,
      Forall (fun v => percentage v /\ (0 <= v /\ v <= 1)%Q)
             (_calculate_batch_date_similarity date_series query_date))
  /\ (forall query_value c1 c2,
      cdist_uint8 (_preprocess_text (fillna c1)) (_preprocess_text query_value)
      = cdist_uint8 (_preprocess_text (fillna c2)) (_preprocess_text query_value) ->
      _calculate_batch_text_similarity [c1] query_value
      = _calculate_batch_text_similarity [c2] query_value).
Proof.
  split; [|split].
  - intros. eapply Forall_impl; [|apply batch_text_percentage].
    intros v Hv. split; [exact Hv | now apply percentage_range].
  - intros. eapply Forall_impl; [|apply batch_date_percentage].
    intros v Hv. split; [exact Hv | now apply percentage_range].
  - intros q c1 c2 H. rewrite !batch_text_map. simpl. unfold text_similarity.
    now rewrite H.
Qed.

End SimilarityFacts.

(* ====================================================================== *)
(** * Properties: dictionaries and sums *)
(* ====================================================================== *)

Module DictFacts.
Import PyStr PyNum.
Local Open Scope list_scope.

Lemma str_in_In (x : string) (l : list string) : str_in x l = true <-> In x l.
Proof.
  unfold str_in. rewrite existsb_exists. split.
  - intros [y [Hy He]]. apply String.eqb_eq in He. now subst.
  - intros H. exists x. split; [assumption | apply String.eqb_refl].
Qed.


Section Dict.
Context {V : Type}.
Implicit Types (d : PyDict.dict V) (k : string) (v : V).

Lemma get_In_keys d k : PyDict.get d k <> None <-> In k (PyDict.keys d).
Proof.
  induction d as [|[k' v'] d IH]; simpl; [tauto|].
  destruct (String.eqb k k') eqn:E.
  - apply String.eqb_eq in E. subst. split; [auto | discriminate].
  - apply String.eqb_neq in E. rewrite IH. split; [auto|].
    intros [H|H]; [congruence | exact H].
Qed.

Lemma mem_In_keys d k : PyDict.mem d k = true <-> In k (PyDict.keys d).
Proof.
  rewrite <- get_In_keys. unfold PyDict.mem.
  destruct (PyDict.get d k); split; intros; congruence.
Qed.

Lemma mem_false_keys d k : PyDict.mem d k = false <-> ~ In k (PyDict.keys d).
Proof.
  rewrite <- mem_In_keys. destruct (PyDict.mem d k); split; intros; congruence.
Qed.

Lemma get_set_same d k v : PyDict.get (PyDict.set d k v) k = Some v.
Proof.
  induction d as [|[k' v'] d IH]; simpl.
  - now rewrite String.eqb_refl.
  - destruct (String.eqb k k') eqn:E; simpl; rewrite E; auto.
Qed.

Lemma get_set_other d k k' v :
  k' <> k -> PyDict.get (PyDict.set d k v) k' = PyDict.get d k'.
Proof.
  intros Hne. induction d as [|[k0 v0] d IH]; simpl.
  - apply String.eqb_neq in Hne. now rewrite Hne.
  - destruct (String.eqb k k0) eqn:E; simpl.
    + apply String.eqb_eq in E. subst k0.
      apply String.eqb_neq in Hne. now rewrite Hne.
    + destruct (String.eqb k' k0); auto.
Qed.

Lemma keys_set_in d k v :
  In k (PyDict.keys d) -> PyDict.keys (PyDict.set d k v) = PyDict.keys d.
Proof.
  induction d as [|[k' v'] d IH]; simpl; [tauto|].
  intros H. destruct (String.eqb k k') eqn:E; simpl; [reflexivity|].
  apply String.eqb_neq in E. f_equal. apply IH.
  destruct H as [H|H]; [congruence | exact H].
Qed.

Lemma keys_set_notin d k v :
  ~ In k (PyDict.keys d) -> PyDict.keys (PyDict.set d k v) = PyDict.keys d ++ [k].
Proof.
  induction d as [|[k' v'] d IH]; simpl; [reflexivity|].
  intros H. destruct (String.eqb k k') eqn:E; simpl.
  - apply String.eqb_eq in E. subst. tauto.
  - f_equal. apply IH. tauto.
Qed.

Lemma keys_set_incl d k v k' :
  In k' (PyDict.keys (PyDict.set d k v)) <-> k' = k \/ In k' (PyDict.keys d).
Proof.
  destruct (in_dec string_dec k (PyDict.keys d)) as [Hin|Hnin].
  - rewrite (keys_set_in _ _ _ Hin). split; [auto|]. intros [ -> |H]; auto.
  - rewrite (keys_set_notin _ _ _ Hnin), in_app_iff. simpl. split.
    + intros [H|[H|[]]]; auto.
    + intros [H|H]; auto.
Qed.

(** The values of a dictionary after [d[k] = v]. *)
Lemma values_set_in d k v :
  In k (PyDict.keys d) ->
  exists d1 v0 d2,
    d = d1 ++ (k, v0) :: d2
    /\ PyDict.get d k = Some v0
    /\ PyDict.set d k v = d1 ++ (k, v) :: d2.
Proof.
  induction d as [|[k' v'] d IH]; simpl; [tauto|].
  intros H. destruct (String.eqb k k') eqn:E.
  - apply String.eqb_eq in E. subst k'.
    exists [], v', d. simpl. auto.
  - apply String.eqb_neq in E.
    destruct H as [H|H]; [congruence|].
    destruct (IH H) as [d1 [v0 [d2 [H1 [H2 H3]]]]].
    exists ((k', v') :: d1), v0, d2. simpl. rewrite H1 at 1. rewrite H3. auto.
Qed.

End Dict.

Local Open Scope Q_scope.

Lemma qsum_cons (x : Q) (l : list Q) : qsum (x :: l) = x + qsum l.
Proof. reflexivity. Qed.

Lemma qsum_app (a b : list Q) : qsum (a ++ b) == qsum a + qsum b.
Proof.
  induction a as [|x a IH].
  - change (qsum ([] ++ b)) with (qsum b). change (qsum []) with 0. ring.
  - change (qsum ((x :: a) ++ b)) with (x + qsum (a ++ b)).
    rewrite qsum_cons, IH. ring.
Qed.

Lemma qsum_nonneg (l : list Q) : Forall (fun x => 0 <= x) l -> 0 <= qsum l.
Proof.
  induction 1 as [|x l Hx Hl IH]; [apply Qle_refl|].
  rewrite qsum_cons. cbv beta in Hx. lra.
Qed.

Lemma qsum_bound (l : list Q) (b : Q) :
  Forall (fun x => x <= b) l -> qsum l <= inject_Z (Z.of_nat (List.length l)) * b.
Proof.
  induction 1 as [|x l Hx Hl IH].
  - change (qsum []) with 0. change (inject_Z (Z.of_nat (List.length (@nil Q)))) with 0. lra.
  - rewrite qsum_cons.
    change (List.length (x :: l)) with (S (List.length l)).
    rewrite Nat2Z.inj_succ. unfold Z.succ. rewrite inject_Z_plus.
    change (inject_Z 1) with 1. cbv beta in Hx. lra.
Qed.

Lemma qsum_pos (l : list Q) :
  Forall (fun x => 0 <= x) l -> Exists (fun x => 0 < x) l -> 0 < qsum l.
Proof.
  intros Hall Hex. induction Hex as [x l Hx | x l Hex IH].
  - inversion Hall; subst. pose proof (qsum_nonneg l H2). rewrite qsum_cons. lra.
  - inversion Hall; subst. specialize (IH H2). rewrite qsum_cons. cbv beta in *. lra.
Qed.

Lemma qsum_set (d : PyDict.dict Q) (k : string) (v : Q) :
  In k (PyDict.keys d) ->
  qsum (PyDict.values (PyDict.set d k v))
  == qsum (PyDict.values d) - WeightCalculator.weight_of d k + v.
Proof.
  intros H. destruct (values_set_in d k v H) as [d1 [v0 [d2 [H1 [H2 H3]]]]].
  unfold WeightCalculator.weight_of. rewrite H2, H3. rewrite H1.
  unfold PyDict.values. rewrite !map_app, !qsum_app.
  cbn [map snd]. rewrite !qsum_cons. ring.
Qed.

End DictFacts.

(* ====================================================================== *)
(** * Properties: weight resolution *)
(* ====================================================================== *)

Module WeightFacts.
Import PyStr PyNum WeightCalculator WeightSpec DictFacts.
Local Open Scope list_scope.
Local Open Scope Q_scope.

Lemma known_entity_cases (e : string) :
  PyDict.mem ENTITY_CONDITIONS e = true ->
  e = "institutional" \/ e = "account" \/ e = "individual".
Proof.
  unfold PyDict.mem, ENTITY_CONDITIONS, PyDict.get.
  destruct (String.eqb e "institutional") eqn:E1;
    [apply String.eqb_eq in E1; auto|].
  destruct (String.eqb e "account") eqn:E2;
    [apply String.eqb_eq in E2; auto|].
  destruct (String.eqb e "individual") eqn:E3;
    [apply String.eqb_eq in E3; auto|].
  discriminate.
Qed.

Lemma applicable_mapped (e c : string) :
  In c (applicable e) -> PyDict.mem FIELD_MAPPING c = true.
Proof.
  unfold applicable. destruct (PyDict.get ENTITY_CONDITIONS e) as [l|] eqn:E; [|intros []].
  assert (Hm : PyDict.mem ENTITY_CONDITIONS e = true)
    by (unfold PyDict.mem; now rewrite E).
  destruct (known_entity_cases e Hm) as [ -> |[ -> | -> ]];
    vm_compute in E; injection E as <-; simpl;
    intros H; repeat (destruct H as [ <- |H]; [reflexivity|]); destruct H.
Qed.

Lemma applicable_length (e : string) : (List.length (applicable e) <= 6)%nat.
Proof.
  unfold applicable. destruct (PyDict.get ENTITY_CONDITIONS e) as [l|] eqn:E; [|simpl; lia].
  assert (Hm : PyDict.mem ENTITY_CONDITIONS e = true)
    by (unfold PyDict.mem; now rewrite E).
  destruct (known_entity_cases e Hm) as [ -> |[ -> | -> ]];
    vm_compute in E; injection E as <-; simpl; lia.
Qed.

Lemma hundredth_round2 (q : Q) : hundredth (round2 q).
Proof. exists (round_half_even (q * 100)). reflexivity. Qed.

Lemma hundredth_zero : hundredth 0.
Proof. exists 0%Z. reflexivity. Qed.

Lemma hundredth_plus (a b : Q) : hundredth a -> hundredth b -> hundredth (a + b).
Proof.
  intros [x Hx] [y Hy]. exists (x + y)%Z. rewrite Hx, Hy.
  unfold Qeq, Qplus. simpl. lia.
Qed.

Lemma hundredth_minus (a b : Q) : hundredth a -> hundredth b -> hundredth (a - b).
Proof.
  intros [x Hx] [y Hy]. exists (x - y)%Z. rewrite Hx, Hy.
  unfold Qeq, Qminus, Qplus, Qopp. simpl. lia.
Qed.

Lemma hundredth_qsum (l : list Q) : Forall hundredth l -> hundredth (qsum l).
Proof.
  induction 1 as [|x l Hx Hl IH]; [apply hundredth_zero|].
  rewrite qsum_cons. now apply hundredth_plus.
Qed.

(** [round(x, 2)] leaves a whole number of hundredths as it is. *)
Lemma round2_fixed (q : Q) : hundredth q -> round2 q == q.
Proof.
  intros [z Hz]. rewrite Hz at 2. now apply RoundFacts.round2_hundredths.
Qed.

Lemma max_by_in (f : string -> Q) (ks : list string) (k0 : string) :
  In (max_by f k0 ks) (k0 :: ks).
Proof.
  revert k0. induction ks as [|k ks IH]; intros k0; simpl; [auto|].
  destruct (Qgtb (f k) (f k0)).
  - destruct (IH k) as [H|H]; auto.
  - destruct (IH k0) as [H|H]; auto.
Qed.

Lemma max_by_max (f : string -> Q) (ks : list string) (k0 : string) :
  forall k, In k (k0 :: ks) -> f k <= f (max_by f k0 ks).
Proof.
  revert k0. induction ks as [|k' ks IH]; intros k0 k Hk.
  - destruct Hk as [ <- |[]]. apply Qle_refl.
  - simpl. unfold Qgtb. destruct (Qle_bool (f k') (f k0)) eqn:E; simpl.
    + apply Qle_bool_iff in E.
      destruct Hk as [ <- |[ <- |Hk]].
      * apply IH. now left.
      * apply Qle_trans with (f k0); [exact E | apply IH; now left].
      * apply IH. now right.
    + assert (Hlt : f k0 < f k').
      { apply Qnot_le_lt. intros H. apply Qle_bool_iff in H. congruence. }
      destruct Hk as [ <- |[ <- |Hk]].
      * apply Qle_trans with (f k'); [now apply Qlt_le_weak | apply IH; now left].
      * apply IH. now left.
      * apply IH. now right.
Qed.

Lemma get_In_values {V} (d : PyDict.dict V) (k : string) (v : V) :
  PyDict.get d k = Some v -> In v (PyDict.values d).
Proof.
  induction d as [|[k' v'] d IH]; simpl; [discriminate|].
  destruct (String.eqb k k'); [intros [= ->]; auto | auto].
Qed.

Lemma In_get_nodup {V} (d : PyDict.dict V) (k : string) (v : V) :
  NoDup (PyDict.keys d) -> In (k, v) d -> PyDict.get d k = Some v.
Proof.
  induction d as [|[k' v'] d IH]; simpl; [tauto|].
  intros Hnd [H|H].
  - injection H as -> ->. now rewrite String.eqb_refl.
  - inversion Hnd as [|? ? Hnin Hnd']; subst.
    destruct (String.eqb k k') eqn:E.
    + apply String.eqb_eq in E. subst k'.
      exfalso. apply Hnin. unfold PyDict.keys.
      change k with (fst (k, v)). now apply in_map.
    + now apply IH.
Qed.

Lemma weight_of_hundredth (w : PyDict.dict Q) (k : string) :
  Forall hundredth (PyDict.values w) -> hundredth (weight_of w k).
Proof.
  intros H. unfold weight_of. destruct (PyDict.get w k) as [v|] eqn:E.
  - rewrite Forall_forall in H. apply H. eapply get_In_values, E.
  - apply hundredth_zero.
Qed.

Lemma weight_of_nonpos_or_positive (w : PyDict.dict Q) (k : string) :
  Qgtb (weight_of w k) 0 = true <-> 0 < weight_of w k.
Proof.
  unfold Qgtb. split.
  - intros H. apply Qnot_le_lt. intros Hle. apply Qle_bool_iff in Hle.
    rewrite Hle in H. discriminate.
  - intros H. destruct (Qle_bool (weight_of w k) 0) eqn:E; [|reflexivity].
    apply Qle_bool_iff in E. lra.
Qed.

(** The key [_adjust_for_rounding] picks, when it changes the weights. *)
Lemma positive_key_exists (w : PyDict.dict Q) (valid_fields : list string) :
  well_formed w valid_fields ->
  exists k, In k (PyDict.keys w) /\ In k valid_fields /\ 0 < weight_of w k.
Proof.
  intros [Hnd _ _ Hpos Hkeys].
  apply Exists_exists in Hpos. destruct Hpos as [v [Hin Hv]].
  unfold PyDict.values in Hin. apply in_map_iff in Hin.
  destruct Hin as [[k v'] [Hv' Hin]]. simpl in Hv'. subst v'.
  assert (Hk : In k (PyDict.keys w)).
  { unfold PyDict.keys. change k with (fst (k, v)). now apply in_map. }
  exists k. split; [exact Hk|]. split; [now apply Hkeys|].
  unfold weight_of. now rewrite (In_get_nodup w k v Hnd Hin).
Qed.

Lemma adjust_unfold (w : PyDict.dict Q) (valid_fields : list string) :
  w <> [] -> valid_fields <> [] ->
  _adjust_for_rounding w valid_fields =
  let weight_sum := qsum (PyDict.values w) in
  if Qeq_bool weight_sum 0 || Qeq_bool (round2 weight_sum) 1 then w
  else
    let diff := round2 (1 - weight_sum) in
    match filter (fun k => str_in k valid_fields && Qgtb (weight_of w k) 0)
                 (PyDict.keys w) with
    | [] => w
    | k0 :: ks =>
        let max_key := max_by (weight_of w) k0 ks in
        PyDict.set w max_key (round2 (weight_of w max_key + diff))
    end.
Proof.
  intros Hw Hv. destruct w; [congruence|]. destruct valid_fields; [congruence|].
  reflexivity.
Qed.

(** Rule 5: when the rounded weights do not sum to one, the residual goes to
    one key, and no key has a larger weight than that one. *)
Lemma adjust_for_rounding_spec (w : PyDict.dict Q) (valid_fields : list string) :
  well_formed w valid_fields ->
  (qsum (PyDict.values w) == 1 /\ _adjust_for_rounding w valid_fields = w)
  \/ (~ qsum (PyDict.values w) == 1
      /\ exists k,
          In k (PyDict.keys w)
          /\ (forall k', In k' (PyDict.keys w) -> weight_of w k' <= weight_of w k)
          /\ _adjust_for_rounding w valid_fields
             = PyDict.set w k
                 (round2 (weight_of w k + round2 (1 - qsum (PyDict.values w))))
          /\ round2 (weight_of w k + round2 (1 - qsum (PyDict.values w)))
             == weight_of w k + (1 - qsum (PyDict.values w))).
Proof.
  intros Hwf. pose proof Hwf as [Hnd Hh Hnn Hpos Hkeys].
  destruct (positive_key_exists w valid_fields Hwf) as [k1 [Hk1 [Hv1 Hp1]]].
  assert (Hw : w <> []) by (intros ->; destruct Hk1).
  assert (Hv : valid_fields <> []) by (intros ->; destruct Hv1).
  rewrite (adjust_unfold w valid_fields Hw Hv). cbv zeta.
  set (s := qsum (PyDict.values w)).
  assert (Hs : hundredth s) by now apply hundredth_qsum.
  assert (Hspos : 0 < s) by now apply qsum_pos.
  assert (E0 : Qeq_bool s 0 = false).
  { destruct (Qeq_bool s 0) eqn:E; [|reflexivity].
    apply Qeq_bool_iff in E. lra. }
  rewrite E0. simpl orb.
  destruct (Qeq_bool (round2 s) 1) eqn:E1.
  - left. split; [|reflexivity].
    apply Qeq_bool_iff in E1. now rewrite <- (round2_fixed s Hs).
  - right. split.
    { intros H1. rewrite <- (round2_fixed s Hs) in H1.
      apply Qeq_bool_iff in H1. congruence. }
    set (candidates := filter (fun k => str_in k valid_fields && Qgtb (weight_of w k) 0)
                              (PyDict.keys w)).
    assert (Hcand : forall k, In k candidates <->
                              In k (PyDict.keys w) /\ 0 < weight_of w k).
    { intros k. unfold candidates. rewrite filter_In, andb_true_iff,
        str_in_In, weight_of_nonpos_or_positive. split.
      - tauto.
      - intros [H1 H2]. auto. }
    assert (Hin1 : In k1 candidates) by (apply Hcand; auto).
    destruct candidates as [|k0 ks] eqn:Ec; [destruct Hin1|].
    set (m := max_by (weight_of w) k0 ks).
    assert (Hm : In m (k0 :: ks)) by apply max_by_in.
    apply Hcand in Hm. destruct Hm as [Hmk Hmp].
    exists m. split; [exact Hmk|]. split; [|split; [reflexivity|]].
    + intros k' Hk'. destruct (Qlt_le_dec 0 (weight_of w k')) as [Hp|Hn].
      * apply max_by_max. apply Hcand. auto.
      * lra.
    + assert (H1 : hundredth (1 - s)).
      { apply hundredth_minus; [exists 100%Z; reflexivity | exact Hs]. }
      assert (H2 : hundredth (weight_of w m + round2 (1 - s))).
      { apply hundredth_plus; [now apply weight_of_hundredth | apply hundredth_round2]. }
      rewrite (round2_fixed _ H2), (round2_fixed _ H1). reflexivity.
Qed.

Lemma adjust_for_rounding_sum (w : PyDict.dict Q) (valid_fields : list string) :
  well_formed w valid_fields ->
  qsum (PyDict.values (_adjust_for_rounding w valid_fields)) == 1.
Proof.
  intros Hwf.
  destruct (adjust_for_rounding_spec w valid_fields Hwf)
    as [[Hs ->] | [Hs [k [Hk [_ [-> Hr]]]]]]; [exact Hs|].
  rewrite (qsum_set w k _ Hk), Hr. ring.
Qed.

Lemma adjust_for_rounding_keys (w : PyDict.dict Q) (valid_fields : list string) :
  well_formed w valid_fields ->
  PyDict.keys (_adjust_for_rounding w valid_fields) = PyDict.keys w.
Proof.
  intros Hwf.
  destruct (adjust_for_rounding_spec w valid_fields Hwf)
    as [[Hs ->] | [Hs [k [Hk [_ [-> Hr]]]]]]; [reflexivity|].
  now apply keys_set_in.
Qed.

Lemma set_notin {V} (d : PyDict.dict V) (k : string) (v : V) :
  ~ In k (PyDict.keys d) -> PyDict.set d k v = d ++ [(k, v)].
Proof.
  induction d as [|[k' v'] d IH]; simpl; [reflexivity|].
  intros H. destruct (String.eqb k k') eqn:E.
  - apply String.eqb_eq in E. subst. tauto.
  - f_equal. apply IH. tauto.
Qed.

Lemma keys_app {V} (a b : PyDict.dict V) :
  PyDict.keys (a ++ b) = PyDict.keys a ++ PyDict.keys b.
Proof. apply map_app. Qed.

Lemma values_app {V} (a b : PyDict.dict V) :
  PyDict.values (a ++ b) = PyDict.values a ++ PyDict.values b.
Proof. apply map_app. Qed.

Lemma nodup_snoc (l : list string) (k : string) :
  NoDup l -> ~ In k l -> NoDup (l ++ [k]).
Proof.
  intros Hnd Hnin. induction Hnd as [|x l Hx Hnd IH]; simpl.
  - constructor; [intros [] | constructor].
  - constructor.
    + rewrite in_app_iff. simpl. intros [H|[H|[]]]; [tauto|].
      subst. apply Hnin. now left.
    + apply IH. intros H. apply Hnin. now right.
Qed.

(** ** Equal weighting *)

Lemma fold_set_fresh (w : Q) (conds : list string) :
  forall d0 : PyDict.dict Q,
    NoDup conds ->
    (forall c, In c conds -> ~ In c (PyDict.keys d0)) ->
    fold_left (fun d cond => PyDict.set d cond w) conds d0
    = d0 ++ map (fun c => (c, w)) conds.
Proof.
  induction conds as [|c conds IH]; intros d0 Hnd Hfresh; simpl.
  - now rewrite app_nil_r.
  - inversion Hnd as [|? ? Hc Hnd']; subst.
    rewrite (set_notin d0 c w) by (apply Hfresh; now left).
    rewrite IH; [now rewrite <- app_assoc | exact Hnd' |].
    intros c' Hc'. rewrite keys_app, in_app_iff. simpl.
    intros [H|[H|[]]].
    + apply (Hfresh c'); [now right | exact H].
    + subst. tauto.
Qed.

Lemma reciprocal_rounds_up (n : nat) :
  (1 <= n <= 100)%nat -> 0 < round2 (1 / inject_Z (Z.of_nat n)).
Proof.
  intros Hn. unfold round2.
  assert (H : (1 <= round_half_even (1 / inject_Z (Z.of_nat n) * 100))%Z).
  { apply RoundFacts.round_half_even_ge.
    destruct n as [|m]; [lia|].
    unfold Qle, Qdiv, Qmult, Qinv, inject_Z. cbn [Qnum Qden Z.of_nat].
    rewrite !Pos2Z.inj_mul, Zpos_P_of_succ_nat. lia. }
  unfold Qlt. cbn [Qnum Qden]. lia.
Qed.

Lemma equal_weights_well_formed (conds : list string) :
  conds <> [] -> NoDup conds -> (List.length conds <= 100)%nat ->
  let weight := round2 (1 / inject_Z (Z.of_nat (List.length conds))) in
  well_formed (fold_left (fun d cond => PyDict.set d cond weight) conds []) conds
  /\ PyDict.keys (fold_left (fun d cond => PyDict.set d cond weight) conds []) = conds.
Proof.
  intros Hne Hnd Hlen weight.
  rewrite (fold_set_fresh weight conds [] Hnd) by (intros c _ []).
  cbn [app].
  assert (Hk : PyDict.keys (map (fun c => (c, weight)) conds) = conds).
  { unfold PyDict.keys. rewrite map_map. simpl. apply map_id. }
  assert (Hv : PyDict.values (map (fun c => (c, weight)) conds)
               = map (fun _ => weight) conds).
  { unfold PyDict.values. now rewrite map_map. }
  assert (Hpos : 0 < weight).
  { apply reciprocal_rounds_up. split; [|exact Hlen].
    destruct conds; [congruence | simpl; lia]. }
  split; [|exact Hk]. constructor.
  - now rewrite Hk.
  - rewrite Hv. apply Forall_map, Forall_forall. intros; apply hundredth_round2.
  - rewrite Hv. apply Forall_map, Forall_forall. intros. lra.
  - rewrite Hv. destruct conds as [|c conds]; [congruence|].
    simpl. now constructor.
  - now rewrite Hk.
Qed.

(** ** Weights of the matched row *)

Lemma collect_step_cases (row : weight_row) (acc : PyDict.dict Q * Q) (key : string) :
  collect_step row acc key = acc
  \/ exists weight,
      0 < weight
      /\ collect_step row acc key = (PyDict.set (fst acc) key weight, snd acc + weight).
Proof.
  unfold collect_step.
  destruct (PyDict.get (weight_cells row) (excel_name key)) as [[weight|]|]; auto.
  destruct (Qgtb weight 0) eqn:Eg; auto.
  right. exists weight. split; [|reflexivity].
  unfold Qgtb in Eg. apply Qnot_le_lt. intros Hle.
  apply Qle_bool_iff in Hle. rewrite Hle in Eg. discriminate.
Qed.

Lemma collect_raw_invariant (row : weight_row) (l : list string) :
  forall acc : PyDict.dict Q * Q,
    NoDup l ->
    (forall c, In c l -> ~ In c (PyDict.keys (fst acc))) ->
    NoDup (PyDict.keys (fst acc)) ->
    Forall (fun v => 0 < v) (PyDict.values (fst acc)) ->
    snd acc == qsum (PyDict.values (fst acc)) ->
    let r := fold_left (collect_step row) l acc in
    NoDup (PyDict.keys (fst r))
    /\ (forall k, In k (PyDict.keys (fst r)) -> In k (PyDict.keys (fst acc)) \/ In k l)
    /\ Forall (fun v => 0 < v) (PyDict.values (fst r))
    /\ snd r == qsum (PyDict.values (fst r)).
Proof.
  induction l as [|key l IH]; intros acc Hnd Hfresh Hk Hv Hs; cbn [fold_left].
  - cbv zeta. auto.
  - inversion Hnd as [|? ? Hkey Hnd']; subst. cbv zeta.
    destruct (collect_step_cases row acc key) as [E | [weight [Hw E]]]; rewrite E.
    + destruct (IH acc Hnd') as [H1 [H2 [H3 H4]]]; auto.
      * intros c Hc. apply Hfresh. now right.
      * repeat split; auto. intros k Hk'. destruct (H2 k Hk'); auto.
        right. now right.
    + assert (Hfk : ~ In key (PyDict.keys (fst acc))) by (apply Hfresh; now left).
      destruct (IH (PyDict.set (fst acc) key weight, snd acc + weight) Hnd')
        as [H1 [H2 [H3 H4]]]; cbn [fst snd].
      * intros c Hc. rewrite (keys_set_notin _ _ _ Hfk), in_app_iff. simpl.
        intros [H|[H|[]]].
        -- apply (Hfresh c); [now right | exact H].
        -- subst. tauto.
      * rewrite (keys_set_notin _ _ _ Hfk). now apply nodup_snoc.
      * rewrite (set_notin _ _ _ Hfk), values_app. apply Forall_app. split; [exact Hv|].
        constructor; [exact Hw | constructor].
      * rewrite (set_notin _ _ _ Hfk), values_app, qsum_app.
        cbn [PyDict.values map snd]. rewrite qsum_cons. change (qsum []) with 0.
        rewrite Hs. ring.
      * repeat split; auto.
        intros k Hk'. destruct (H2 k Hk') as [H|H]; cbn [fst] in H.
        -- rewrite (keys_set_notin _ _ _ Hfk), in_app_iff in H. simpl in H.
           destruct H as [H|[H|[]]]; [now left | subst; right; now left].
        -- right. now right.
Qed.

Lemma collect_raw_spec (row : weight_row) (valid : list string) :
  NoDup valid ->
  NoDup (PyDict.keys (fst (collect_raw row valid)))
  /\ (forall k, In k (PyDict.keys (fst (collect_raw row valid))) -> In k valid)
  /\ Forall (fun v => 0 < v) (PyDict.values (fst (collect_raw row valid)))
  /\ snd (collect_raw row valid) == qsum (PyDict.values (fst (collect_raw row valid))).
Proof.
  intros Hnd. unfold collect_raw.
  destruct (collect_raw_invariant row valid ([], 0) Hnd) as [H1 [H2 [H3 H4]]];
    cbn [fst snd PyDict.keys PyDict.values map]; auto.
  - constructor.
  - reflexivity.
  - repeat split; auto. intros k Hk. destruct (H2 k Hk) as [[]|H]; exact H.
Qed.

Lemma qsum_div (ws : list Q) (t : Q) :
  qsum (map (fun w => w / t) ws) == qsum ws / t.
Proof.
  induction ws as [|w ws IH].
  - change (qsum (map (fun w => w / t) [])) with 0. change (qsum []) with 0.
    unfold Qdiv. ring.
  - change (map (fun w => w / t) (w :: ws)) with (w / t :: map (fun w => w / t) ws).
    rewrite !qsum_cons, IH. unfold Qdiv. ring.
Qed.

Lemma positive_dec (x : Q) : {0 < x} + {~ 0 < x}.
Proof.
  destruct (Qlt_le_dec 0 x) as [H|H]; [now left | right].
  now apply Qle_not_lt.
Qed.

(** At least one of fewer than 200 positive weights keeps a positive share
    after rounding. *)
Lemma normalize_positive (ws : list Q) (total : Q) :
  Forall (fun v => 0 < v) ws -> ws <> [] -> total == qsum ws ->
  (List.length ws < 200)%nat ->
  Exists (fun v => 0 < v) (map (fun w => round2 (w / total)) ws).
Proof.
  intros Hpos Hne Htot Hlen.
  destruct (Exists_dec (fun v => 0 < v) (map (fun w => round2 (w / total)) ws) positive_dec)
    as [H|H]; [exact H | exfalso].
  apply Forall_Exists_neg in H.
  assert (Htpos : 0 < total).
  { rewrite Htot. apply qsum_pos.
    - eapply Forall_impl; [|exact Hpos]. intros v Hv. cbv beta in Hv. lra.
    - destruct ws as [|w ws]; [congruence|]. inversion Hpos; subst. now constructor. }
  assert (Hsmall : Forall (fun x => x <= 1 # 200) (map (fun w => w / total) ws)).
  { apply Forall_map. rewrite Forall_map in H. rewrite Forall_forall in H |- *.
    intros w Hw. specialize (H w Hw). cbv beta in H.
    assert (Hr : (round_half_even (w / total * 100) <= 0)%Z).
    { destruct (Z_le_gt_dec (round_half_even (w / total * 100)) 0) as [Hle|Hgt];
        [exact Hle|].
      exfalso. apply H. unfold round2, Qlt. cbn [Qnum Qden]. lia. }
    apply RoundFacts.round_half_even_nonpos in Hr. lra. }
  apply qsum_bound in Hsmall. rewrite length_map, qsum_div in Hsmall.
  assert (Hone : qsum ws / total == 1).
  { rewrite <- Htot. unfold Qdiv. apply Qmult_inv_r. lra. }
  rewrite Hone in Hsmall.
  assert (Hn : inject_Z (Z.of_nat (List.length ws)) <= 199).
  { change 199 with (inject_Z 199). rewrite <- Zle_Qle. lia. }
  lra.
Qed.

Lemma normalize_well_formed (raw : PyDict.dict Q) (total : Q) (valid : list string) :
  NoDup (PyDict.keys raw) ->
  (forall k, In k (PyDict.keys raw) -> In k valid) ->
  Forall (fun v => 0 < v) (PyDict.values raw) ->
  total == qsum (PyDict.values raw) -> ~ total == 0 ->
  (List.length raw < 200)%nat ->
  well_formed (normalize raw total) valid.
Proof.
  intros Hnd Hk Hpos Htot Hnz Hlen.
  assert (Hkeys : PyDict.keys (normalize raw total) = PyDict.keys raw).
  { unfold normalize, PyDict.keys. rewrite map_map. reflexivity. }
  assert (Hvals : PyDict.values (normalize raw total)
                  = map (fun w => round2 (w / total)) (PyDict.values raw)).
  { unfold normalize, PyDict.values. rewrite !map_map. reflexivity. }
  assert (Hne : PyDict.values raw <> []).
  { intros E. rewrite E in Htot. apply Hnz. exact Htot. }
  assert (Htpos : 0 < total).
  { rewrite Htot. apply qsum_pos.
    - eapply Forall_impl; [|exact Hpos]. intros v Hv. cbv beta in Hv. lra.
    - destruct (PyDict.values raw) as [|w ws]; [congruence|].
      inversion Hpos; subst. now constructor. }
  constructor.
  - now rewrite Hkeys.
  - rewrite Hvals. apply Forall_map, Forall_forall. intros; apply hundredth_round2.
  - rewrite Hvals. apply Forall_map. eapply Forall_impl; [|exact Hpos].
    intros w Hw. cbv beta in Hw.
    assert (H0 : (0 <= round_half_even (w / total * 100))%Z).
    { apply RoundFacts.round_half_even_ge. change (inject_Z 0) with 0.
      apply Qmult_le_0_compat; [|lra].
      apply Qlt_le_weak, Qlt_shift_div_l; lra. }
    unfold round2, Qle. cbn [Qnum Qden]. lia.
  - rewrite Hvals. apply normalize_positive; auto.
    unfold PyDict.values. now rewrite length_map.
  - intros k. rewrite Hkeys. apply Hk.
Qed.

Lemma values_set_notin {V} (d : PyDict.dict V) (k : string) (v : V) :
  ~ In k (PyDict.keys d) -> PyDict.values (PyDict.set d k v) = PyDict.values d ++ [v].
Proof. intros H. now rewrite (set_notin d k v H), values_app. Qed.

Lemma fill_missing_well_formed (esc valid : list string) (d : PyDict.dict Q) (key : string) :
  (str_in key esc = true -> In key valid) ->
  well_formed d valid -> well_formed (fill_missing esc d key) valid.
Proof.
  intros Hkey Hwf. unfold fill_missing.
  destruct (str_in key esc && negb (PyDict.mem d key)) eqn:E; [|exact Hwf].
  apply andb_true_iff in E. destruct E as [E1 E2].
  apply negb_true_iff, mem_false_keys in E2.
  destruct Hwf as [Hnd Hh Hnn Hpos Hkeys]. constructor.
  - rewrite (keys_set_notin _ _ _ E2). now apply nodup_snoc.
  - rewrite (values_set_notin _ _ _ E2). apply Forall_app. split; [exact Hh|].
    constructor; [apply hundredth_zero | constructor].
  - rewrite (values_set_notin _ _ _ E2). apply Forall_app. split; [exact Hnn|].
    constructor; [apply Qle_refl | constructor].
  - rewrite (values_set_notin _ _ _ E2). apply Exists_app. now left.
  - intros k. rewrite (keys_set_notin _ _ _ E2), in_app_iff. simpl.
    intros [H|[H|[]]]; [now apply Hkeys | subst; auto].
Qed.

Lemma fill_missing_keys (esc : list string) (d : PyDict.dict Q) (key k : string) :
  In k (PyDict.keys d) -> In k (PyDict.keys (fill_missing esc d key)).
Proof.
  intros H. unfold fill_missing.
  destruct (str_in key esc && negb (PyDict.mem d key)); [|exact H].
  apply keys_set_incl. now right.
Qed.

Lemma fill_missing_adds (esc : list string) (d : PyDict.dict Q) (key : string) :
  str_in key esc = true -> In key (PyDict.keys (fill_missing esc d key)).
Proof.
  intros H. unfold fill_missing. rewrite H. simpl.
  destruct (PyDict.mem d key) eqn:E; simpl.
  - now apply mem_In_keys.
  - apply keys_set_incl. now left.
Qed.

Lemma fill_all_spec (esc valid : list string) (l : list string) :
  forall d,
    (forall key, In key l -> str_in key esc = true -> In key valid) ->
    well_formed d valid ->
    well_formed (fold_left (fill_missing esc) l d) valid
    /\ (forall k, In k (PyDict.keys d) ->
                  In k (PyDict.keys (fold_left (fill_missing esc) l d)))
    /\ (forall key, In key l -> str_in key esc = true ->
                    In key (PyDict.keys (fold_left (fill_missing esc) l d))).
Proof.
  induction l as [|key l IH]; intros d Hl Hwf; cbn [fold_left].
  - split; [exact Hwf|]. split; [auto|]. intros key [].
  - destruct (IH (fill_missing esc d key)) as [H1 [H2 H3]].
    + intros k Hk. apply Hl. now right.
    + apply fill_missing_well_formed; [|exact Hwf]. apply Hl. now left.
    + split; [exact H1|]. split.
      * intros k Hk. apply H2. now apply fill_missing_keys.
      * intros k [ <- |Hk] Hesc.
        -- apply H2. now apply fill_missing_adds.
        -- now apply H3.
Qed.

(** ** [get_weights] *)

Lemma valid_conditions_In (entity : string) (conditions : list string) (c : string) :
  In c (valid_conditions_of entity conditions)
  <-> In c conditions /\ In c (applicable (lower (strip entity))).
Proof.
  unfold valid_conditions_of. rewrite filter_In, andb_true_iff, str_in_In. split.
  - tauto.
  - intros [H1 H2]. repeat split; auto. eapply applicable_mapped, H2.
Qed.

Lemma valid_conditions_length (entity : string) (conditions : list string) :
  NoDup conditions ->
  (List.length (valid_conditions_of entity conditions) <= 6)%nat.
Proof.
  intros Hnd.
  apply Nat.le_trans with (List.length (applicable (lower (strip entity))));
    [|apply applicable_length].
  apply NoDup_incl_length.
  - now apply NoDup_filter.
  - intros c Hc. now apply valid_conditions_In in Hc.
Qed.

Lemma equal_weights_spec (valid : list string) :
  valid <> [] -> NoDup valid -> (List.length valid <= 100)%nat ->
  exists w0,
    _get_equal_weights valid = _adjust_for_rounding w0 valid
    /\ well_formed w0 valid
    /\ (forall c, In c valid -> In c (PyDict.keys w0)).
Proof.
  intros Hne Hnd Hlen.
  destruct (equal_weights_well_formed valid Hne Hnd Hlen) as [Hwf Hk].
  eexists. split; [|split; [exact Hwf|]].
  - unfold _get_equal_weights. destruct valid; [congruence | reflexivity].
  - intros c Hc. now rewrite Hk.
Qed.

Lemma lookup_weights_spec (df : weight_table) (entity : string)
  (conditions : list string) (e : string) :
  NoDup conditions ->
  valid_conditions_of entity conditions <> [] ->
  exists w0,
    lookup_weights df e (applicable (lower (strip entity))) conditions
                   (valid_conditions_of entity conditions)
    = _adjust_for_rounding w0 (valid_conditions_of entity conditions)
    /\ well_formed w0 (valid_conditions_of entity conditions)
    /\ (forall c, In c (valid_conditions_of entity conditions) -> In c (PyDict.keys w0)).
Proof.
  intros Hnd Hne.
  set (valid := valid_conditions_of entity conditions) in *.
  assert (Hvnd : NoDup valid) by now apply NoDup_filter.
  assert (Hvlen : (List.length valid <= 6)%nat) by now apply valid_conditions_length.
  assert (Hequal := equal_weights_spec valid Hne Hvnd ltac:(lia)).
  unfold lookup_weights. cbv zeta.
  destruct (filter _ df) as [|row rest]; [exact Hequal|].
  destruct (Qeq_bool (snd (collect_raw row valid)) 0) eqn:E0; [exact Hequal|].
  destruct (collect_raw_spec row valid Hvnd) as [H1 [H2 [H3 H4]]].
  assert (Hnz : ~ snd (collect_raw row valid) == 0).
  { intros H. apply Qeq_bool_iff in H. congruence. }
  assert (Hrawlen : (List.length (fst (collect_raw row valid)) < 200)%nat).
  { assert (Hl : (List.length (PyDict.keys (fst (collect_raw row valid)))
                  <= List.length valid)%nat) by now apply NoDup_incl_length.
    unfold PyDict.keys in Hl. rewrite length_map in Hl. lia. }
  pose proof (normalize_well_formed _ _ valid H1 H2 H3 H4 Hnz Hrawlen) as Hwf.
  destruct (fill_all_spec (applicable (lower (strip entity))) valid conditions
              (normalize (fst (collect_raw row valid)) (snd (collect_raw row valid))))
    as [G1 [G2 G3]]; [|exact Hwf|].
  - intros key Hk Hesc. apply valid_conditions_In. split; [exact Hk|].
    now apply str_in_In.
  - eexists. split; [reflexivity|]. split; [exact G1|].
    intros c Hc. apply valid_conditions_In in Hc. destruct Hc as [Hc1 Hc2].
    apply G3; [exact Hc1 | now apply str_in_In].
Qed.

Lemma known_entity_not_empty (entity : string) :
  known_entity entity = true -> String.eqb entity "" = false.
Proof.
  intros H. destruct (String.eqb entity "") eqn:E; [|reflexivity].
  apply String.eqb_eq in E. subst. vm_compute in H. discriminate.
Qed.

Lemma get_weights_known (df : weight_table) (entity : string) (conditions : list string) :
  df <> [] -> known_entity entity = true ->
  valid_conditions_of entity conditions <> [] ->
  get_weights df entity conditions
  = Ok (lookup_weights df (lower (strip entity)) (applicable (lower (strip entity)))
                       conditions (valid_conditions_of entity conditions)).
Proof.
  intros Hdf Hknown Hvalid. unfold get_weights.
  destruct df as [|r0 df']; [congruence|].
  destruct conditions as [|c0 cs]; [now elim Hvalid|].
  rewrite (known_entity_not_empty entity Hknown).
  unfold known_entity in Hknown. rewrite Hknown. cbn [negb]. cbv zeta.
  fold (applicable (lower (strip entity))).
  fold (valid_conditions_of entity (c0 :: cs)).
  destruct (valid_conditions_of entity (c0 :: cs)); [congruence | reflexivity].
Qed.







End WeightFacts.

(* ====================================================================== *)
(** * Properties: the matching engine, row by row *)
(* ====================================================================== *)

Module RowFacts.
Import PyStr PyNum Data FuzzyMatcherComponent SimilaritySpec RowSpec.
Import SimilarityFacts DictFacts.
Local Open Scope list_scope.
Local Open Scope Q_scope.

(** ** Boolean indexing *)

Lemma select_map {A} (p : A -> bool) (l : list A) :
  select l (map p l) = filter p l.
Proof.
  induction l as [|x l IH]; simpl; [reflexivity|].
  destruct (p x); now rewrite IH.
Qed.

Lemma select_map_map {A B} (g : A -> B) (p : A -> bool) (l : list A) :
  select (map g l) (map p l) = map g (filter p l).
Proof.
  induction l as [|x l IH]; simpl; [reflexivity|].
  destruct (p x); simpl; now rewrite IH.
Qed.

Lemma filter_filter_implies {A} (p q : A -> bool) (l : list A) :
  (forall x, In x l -> p x = true -> q x = true) ->
  filter p (filter q l) = filter p l.
Proof.
  induction l as [|x l IH]; intros H; simpl; [reflexivity|].
  assert (IH' : filter p (filter q l) = filter p l).
  { apply IH. intros y Hy. apply H. now right. }
  destruct (q x) eqn:Eq; simpl.
  - now rewrite IH'.
  - destruct (p x) eqn:Ep; [|exact IH'].
    rewrite (H x (or_introl eq_refl) Ep) in Eq. discriminate.
Qed.

(** ** The similarity of one row on one criterion *)

Section Rows.

Variable field_mapping : mapping.
Variable mapped_record : record.
Variable available_criteria : list string.
Variable cols : list string.

Local Abbreviation row_scorer := (RowSpec.row_scorer field_mapping mapped_record cols).
Local Abbreviation row_scorers :=
  (RowSpec.row_scorers field_mapping mapped_record available_criteria cols).
Local Abbreviation row_total :=
  (RowSpec.row_total field_mapping mapped_record available_criteria cols).
Local Abbreviation annotate_row :=
  (RowSpec.annotate_row field_mapping mapped_record available_criteria cols).

Lemma score_criterion_map (pm : list row) (criterion : string) :
  score_criterion field_mapping mapped_record cols pm criterion
  = option_map (fun f => map f pm) (row_scorer criterion).
Proof.
  unfold score_criterion, row_scorer.
  destruct (cbs_field_of field_mapping criterion) as [cbs_field|]; [|reflexivity].
  cbv zeta.
  destruct (missing_value (get_value mapped_record criterion)
            || negb (str_in cbs_field cols)); [reflexivity|].
  destruct (str_in criterion date_criteria); simpl; unfold series.
  - now rewrite batch_date_map, map_map.
  - now rewrite batch_text_map, map_map.
Qed.

Lemma vectors_set (pm : list row) (scorers : PyDict.dict (row -> Q))
  (c : string) (f : row -> Q) :
  PyDict.set (vectors pm scorers) c (map f pm) = vectors pm (PyDict.set scorers c f).
Proof.
  induction scorers as [|[c' f'] scorers IH]; simpl; [reflexivity|].
  destruct (String.eqb c c'); simpl; [reflexivity|]. now rewrite IH.
Qed.

Lemma vectors_get (pm : list row) (scorers : PyDict.dict (row -> Q)) (c : string) :
  PyDict.get (vectors pm scorers) c
  = option_map (fun f => map f pm) (PyDict.get scorers c).
Proof.
  induction scorers as [|[c' f'] scorers IH]; simpl; [reflexivity|].
  destruct (String.eqb c c'); [reflexivity | exact IH].
Qed.

Lemma similarity_scores_map (pm : list row) :
  similarity_scores field_mapping mapped_record available_criteria cols pm
  = vectors pm row_scorers.
Proof.
  unfold similarity_scores, row_scorers.
  change (@nil (string * list Q)) with (vectors pm []).
  generalize (@nil (string * (row -> Q))).
  induction available_criteria as [|c l IH]; intros d; simpl; [reflexivity|].
  rewrite score_criterion_map. destruct (row_scorer c) as [f|]; simpl.
  - rewrite vectors_set. apply IH.
  - apply IH.
Qed.

Lemma vec_add_scale_map (g f : row -> Q) (w : Q) (pm : list row) :
  vec_add (map g pm) (vec_scale (map f pm) w) = map (fun r => g r + f r * w) pm.
Proof.
  unfold vec_scale. induction pm as [|r pm IH]; simpl; [reflexivity|].
  now rewrite IH.
Qed.

Lemma total_scores_map (pm : list row) (weights : PyDict.dict Q) :
  total_scores pm weights (vectors pm row_scorers) = map (row_total weights) pm.
Proof.
  unfold total_scores, row_total, zeros.
  assert (H : forall g : row -> Q,
    fold_left
      (fun total (cw : string * Q) =>
         match PyDict.get (vectors pm row_scorers) (fst cw) with
         | Some v => vec_add total (vec_scale v (snd cw))
         | None => total
         end) weights (map g pm)
    = map (fun r =>
             fold_left
               (fun total (cw : string * Q) =>
                  match PyDict.get row_scorers (fst cw) with
                  | Some f => total + f r * snd cw
                  | None => total
                  end) weights (g r)) pm).
  { induction weights as [|[c w] weights IH]; intros g; simpl; [reflexivity|].
    rewrite vectors_get. destruct (PyDict.get row_scorers c) as [f|]; simpl.
    - rewrite vec_add_scale_map. apply (IH (fun r => g r + f r * w)).
    - apply IH. }
  apply (H (fun _ => 0)).
Qed.

Lemma scores_at_vectors (pre pm : list row) (r : row) :
  scores_at (vectors (pre ++ r :: pm) row_scorers) (List.length pre)
  = map (fun cf => (fst cf ++ "_score", snd cf r))%string row_scorers.
Proof.
  unfold scores_at, vectors. rewrite map_map. apply map_ext.
  intros [c f]. simpl. f_equal.
  rewrite map_app. simpl.
  rewrite app_nth2; rewrite length_map; [|lia].
  now rewrite Nat.sub_diag.
Qed.

Lemma annotate_map_from (weights : PyDict.dict Q) (pm : list row) :
  forall pre,
    map (fun irt : nat * (row * Q) =>
           {| cbs_row := fst (snd irt);
              total_score := snd (snd irt);
              match_status := "Matched";
              criteria := weights;
              field_scores := scores_at (vectors (pre ++ pm) row_scorers) (fst irt) |})
        (combine (seq (List.length pre) (List.length pm))
                 (combine pm (map (row_total weights) pm)))
    = map (annotate_row weights) pm.
Proof.
  induction pm as [|r pm IH]; intros pre; simpl; [reflexivity|].
  f_equal.
  - unfold annotate_row. f_equal. apply scores_at_vectors.
  - specialize (IH (pre ++ [r])).
    rewrite <- app_assoc, length_app in IH. simpl in IH.
    rewrite Nat.add_1_r in IH. exact IH.
Qed.

Lemma annotate_map (weights : PyDict.dict Q) (pm : list row) :
  annotate pm weights (vectors pm row_scorers) (map (row_total weights) pm)
  = map (annotate_row weights) pm.
Proof. exact (annotate_map_from weights pm []). Qed.

End Rows.

End RowFacts.

(* ====================================================================== *)
(** * Properties: prefilter cascade and scoring *)
(* ====================================================================== *)

Module EngineFacts.
Import PyStr PyNum Data FuzzyMatcherComponent SimilaritySpec RowSpec EngineSpec.
Import SimilarityFacts DictFacts RowFacts.
Local Open Scope list_scope.
Local Open Scope Q_scope.

Lemma prefilter_pass_filter (mapped_record : record) (field : string) (threshold : Q)
  (cbs_field : string) (pm : list row) :
  prefilter_pass mapped_record field threshold cbs_field pm
  = filter (passes mapped_record field threshold cbs_field) pm.
Proof.
  unfold prefilter_pass, passes, series.
  rewrite batch_text_map, !map_map. apply select_map.
Qed.

Lemma filter_empty_length {A} (p : A -> bool) (l : list A) :
  l = [] -> filter p l = [].
Proof. now intros ->. Qed.

(** The source's loop and the specification's cascade agree. *)
Lemma cascade_refines_spec (field_mapping : mapping) (mapped_record : record)
  (available_criteria cols : list string) (fields : list (string * Q)) :
  forall pm,
    cascade field_mapping mapped_record available_criteria cols fields pm
    = spec_cascade mapped_record
        (eligible field_mapping mapped_record available_criteria cols fields) pm.
Proof.
  induction fields as [|[field threshold] fields IH]; intros pm; [reflexivity|].
  cbn [cascade eligible flat_map fst snd].
  fold (eligible field_mapping mapped_record available_criteria cols fields).
  destruct (str_in field available_criteria) eqn:Ea; cbn [negb orb].
  - destruct (usable_column field_mapping mapped_record cols field) as [cbs_field|] eqn:Eu.
    + cbn [app spec_cascade]. rewrite <- prefilter_pass_filter.
      destruct pm as [|r pm].
      * cbv zeta. rewrite IH. rewrite prefilter_pass_filter. cbn [filter List.length].
        cbn. destruct (eligible _ _ _ _ fields) as [|[[f t] c] rest]; reflexivity.
      * cbv zeta.
        destruct (List.length _ <=? Constants.MAX_CANDIDATES_AFTER_PREFILTER)%nat;
          [reflexivity | apply IH].
    + cbn [app]. destruct pm; apply IH.
  - cbn [app]. apply IH.
Qed.

(** The cascade keeps, in their order, the rows a predicate selects, and that
    predicate holds of every row that passes all the eligible fields. *)
Lemma spec_cascade_is_filter (mapped_record : record)
  (passes_of : list (string * Q * string)) :
  forall pm,
    exists q : row -> bool,
      spec_cascade mapped_record passes_of pm = filter q pm
      /\ (forall r,
             (forall f t c, In (f, t, c) passes_of -> passes mapped_record f t c r = true) ->
             q r = true)
      /\ (forall r, q r = true ->
             exists f t c, (In (f, t, c) passes_of /\ passes mapped_record f t c r = true)
                           \/ passes_of = []).
Proof.
  induction passes_of as [|[[f t] c] rest IH]; intros pm.
  - exists (fun _ => true). cbn [spec_cascade]. split; [|split].
    + induction pm as [|r pm IHpm]; simpl; [reflexivity | now rewrite <- IHpm].
    + reflexivity.
    + intros r _. exists "", 0, "". now right.
  - cbn [spec_cascade]. cbv zeta.
    destruct (List.length _ <=? Constants.MAX_CANDIDATES_AFTER_PREFILTER)%nat.
    + exists (passes mapped_record f t c). split; [reflexivity|]. split.
      * intros r H. apply H. now left.
      * intros r H. exists f, t, c. left. split; [now left | exact H].
    + destruct (IH (filter (passes mapped_record f t c) pm)) as [q [Hq [Hall Hsome]]].
      exists (fun r => passes mapped_record f t c r && q r). split; [|split].
      * rewrite Hq. clear. induction pm as [|r pm IHpm]; simpl; [reflexivity|].
        destruct (passes mapped_record f t c r); simpl; [|exact IHpm].
        destruct (q r); now rewrite IHpm.
      * intros r H. apply andb_true_iff. split.
        -- apply H. now left.
        -- apply Hall. intros f' t' c' Hin. apply H. now right.
      * intros r H. apply andb_true_iff in H. destruct H as [H _].
        exists f, t, c. left. split; [now left | exact H].
Qed.

Lemma eligible_In (field_mapping : mapping) (mapped_record : record)
  (available_criteria cols : list string) (fields : list (string * Q))
  (f : string) (t : Q) (c : string) :
  In (f, t, c) (eligible field_mapping mapped_record available_criteria cols fields)
  <-> In (f, t) fields /\ str_in f available_criteria = true
      /\ usable_column field_mapping mapped_record cols f = Some c.
Proof.
  unfold eligible. rewrite in_flat_map. split.
  - intros [[f' t'] [Hin H]]. cbn [fst snd] in H.
    destruct (str_in f' available_criteria) eqn:Ea; [|destruct H].
    destruct (usable_column field_mapping mapped_record cols f') as [c'|] eqn:Eu;
      [|destruct H].
    destruct H as [H|[]]. injection H as -> -> ->. auto.
  - intros [Hin [Ha Hu]]. exists (f, t). split; [exact Hin|].
    cbn [fst snd]. rewrite Ha, Hu. now left.
Qed.

(** ** The total of a row and the share of one field *)

Lemma text_similarity_range (q : string) (c : cell) :
  0 <= text_similarity q c /\ text_similarity q c <= 1.
Proof.
  apply percentage_range. unfold text_similarity.
  destruct (String.eqb q ""); [apply percentage_zero|].
  destruct (String.eqb (_preprocess_text q) ""); [apply percentage_zero|].
  apply percentage_cdist.
Qed.

Lemma date_similarity_range (q : string) (c : cell) :
  0 <= date_similarity q c /\ date_similarity q c <= 1.
Proof.
  apply percentage_range. unfold date_similarity.
  destruct (String.eqb q ""); [apply percentage_zero|].
  destruct (Utils.standardize_date_format q); [|apply percentage_zero].
  apply percentage_cdist.
Qed.

Section Totals.

Variable field_mapping : mapping.
Variable mapped_record : record.
Variable available_criteria : list string.
Variable cols : list string.

Let scorers := row_scorers field_mapping mapped_record available_criteria cols.

Lemma row_scorer_range (c : string) (f : row -> Q) (r : row) :
  row_scorer field_mapping mapped_record cols c = Some f -> 0 <= f r /\ f r <= 1.
Proof.
  unfold row_scorer.
  destruct (cbs_field_of field_mapping c) as [cbs_field|]; [|discriminate].
  cbv zeta.
  destruct (missing_value (get_value mapped_record c) || negb (str_in cbs_field cols));
    [discriminate|].
  destruct (str_in c date_criteria); intros [= <-].
  - apply date_similarity_range.
  - apply text_similarity_range.
Qed.

Lemma row_scorers_get_gen (l : list string) (c : string) :
  forall d : PyDict.dict (row -> Q),
    PyDict.get
      (fold_left
         (fun scorers criterion =>
            match row_scorer field_mapping mapped_record cols criterion with
            | Some f => PyDict.set scorers criterion f
            | None => scorers
            end) l d) c
    = if str_in c l
      then match row_scorer field_mapping mapped_record cols c with
           | Some f => Some f
           | None => PyDict.get d c
           end
      else PyDict.get d c.
Proof.
  induction l as [|x l IH]; intros d; [reflexivity|].
  cbn [fold_left]. rewrite IH. unfold str_in. cbn [existsb].
  fold (str_in c l).
  destruct (String.eqb c x) eqn:E.
  - apply String.eqb_eq in E. subst x. cbn [orb].
    destruct (row_scorer field_mapping mapped_record cols c) as [f|] eqn:Er.
    + destruct (str_in c l); [reflexivity | apply get_set_same].
    + destruct (str_in c l); reflexivity.
  - apply String.eqb_neq in E. cbn [orb].
    assert (Hd : PyDict.get
                   match row_scorer field_mapping mapped_record cols x with
                   | Some f => PyDict.set d x f
                   | None => d
                   end c = PyDict.get d c).
    { destruct (row_scorer field_mapping mapped_record cols x); [|reflexivity].
      now apply get_set_other. }
    now rewrite Hd.
Qed.

Lemma row_scorers_get (c : string) :
  PyDict.get scorers c
  = if str_in c available_criteria
    then row_scorer field_mapping mapped_record cols c else None.
Proof.
  unfold scorers, row_scorers. rewrite row_scorers_get_gen.
  destruct (str_in c available_criteria); [|reflexivity].
  now destruct (row_scorer field_mapping mapped_record cols c).
Qed.

Lemma scorers_range (c : string) (f : row -> Q) (r : row) :
  PyDict.get scorers c = Some f -> 0 <= f r /\ f r <= 1.
Proof.
  rewrite row_scorers_get. destruct (str_in c available_criteria); [|discriminate].
  apply row_scorer_range.
Qed.

Lemma positive_part_bound (s w : Q) : 0 <= s -> s <= 1 -> s * w <= positive_part w.
Proof.
  intros H0 H1. unfold positive_part. destruct (Qle_bool 0 w) eqn:E.
  - apply Qle_bool_iff in E. nra.
  - assert (w < 0).
    { apply Qnot_le_lt. intros H. apply Qle_bool_iff in H. congruence. }
    nra.
Qed.

(** The total is at most the share of [field] plus all the others can add. *)
Lemma row_total_bound (weights : PyDict.dict Q) (field : string) (sf : row -> Q) (r : row) :
  PyDict.get scorers field = Some sf ->
  row_total field_mapping mapped_record available_criteria cols weights r
  <= sf r * field_weight weights field + others_max scorers weights field.
Proof.
  intros Hsf. unfold row_total. fold scorers.
  assert (H : forall a,
    fold_left
      (fun total (cw : string * Q) =>
         match PyDict.get scorers (fst cw) with
         | Some f => total + f r * snd cw
         | None => total
         end) weights a
    <= a + (sf r * field_weight weights field + others_max scorers weights field)).
  { induction weights as [|[c w] weights IH]; intros a.
    - unfold field_weight, others_max. cbn. lra.
    - cbn [fold_left fst snd]. unfold field_weight, others_max in *.
      cbn [filter fst snd].
      destruct (String.eqb c field) eqn:E.
      + apply String.eqb_eq in E. subst c. rewrite Hsf. cbn [negb andb map snd].
        rewrite qsum_cons. eapply Qle_trans; [apply IH|]. lra.
      + cbn [negb andb].
        destruct (PyDict.get scorers c) as [g|] eqn:Eg.
        * assert (Hm : PyDict.mem scorers c = true)
            by (unfold PyDict.mem; now rewrite Eg).
          rewrite Hm. cbn [map snd]. rewrite qsum_cons.
          destruct (scorers_range c g r Eg) as [G0 G1].
          pose proof (positive_part_bound (g r) w G0 G1).
          eapply Qle_trans; [apply IH|]. lra.
        * assert (Hm : PyDict.mem scorers c = false)
            by (unfold PyDict.mem; now rewrite Eg).
          rewrite Hm. apply IH. }
  specialize (H 0). lra.
Qed.

(** A row whose total reaches the final threshold passes the prefilter of
    every field whose threshold is within its contribution. *)
Lemma reaches_threshold_passes (weights : PyDict.dict Q) (final_threshold : Q)
  (field : string) (threshold : Q) (cbs_field : string) (r : row) :
  str_in field available_criteria = true ->
  str_in field date_criteria = false ->
  usable_column field_mapping mapped_record cols field = Some cbs_field ->
  within_contribution scorers weights final_threshold field threshold = true ->
  Qgeb (row_total field_mapping mapped_record available_criteria cols weights r)
       final_threshold = true ->
  passes mapped_record field threshold cbs_field r = true.
Proof.
  intros Ha Hd Hu Hw Hr.
  set (sf := fun r => text_similarity (query_text field (get_value mapped_record field))
                                      (cell_of cbs_field r)).
  assert (Hget : PyDict.get scorers field = Some sf).
  { rewrite row_scorers_get, Ha. unfold row_scorer. unfold usable_column in Hu.
    destruct (cbs_field_of field_mapping field) as [col|]; [|discriminate].
    destruct (missing_value (get_value mapped_record field)); [discriminate|].
    destruct (str_in col cols) eqn:Ec; [|discriminate].
    injection Hu as ->. cbn [orb negb]. cbv zeta. rewrite Hd. reflexivity. }
  pose proof (row_total_bound weights field sf r Hget) as Hb.
  unfold within_contribution in Hw. apply andb_true_iff in Hw. destruct Hw as [Hw1 Hw2].
  apply Qle_bool_iff in Hw2.
  assert (Hpos : 0 < field_weight weights field).
  { unfold Qgtb in Hw1. apply Qnot_le_lt. intros H. apply Qle_bool_iff in H.
    rewrite H in Hw1. discriminate. }
  unfold Qgeb in Hr. apply Qle_bool_iff in Hr.
  unfold passes, Qgeb. fold (sf r). apply Qle_bool_iff.
  destruct (Qlt_le_dec (sf r) threshold) as [Hlt|Hge]; [|exact Hge].
  exfalso.
  assert (sf r * field_weight weights field < threshold * field_weight weights field)
    by (apply Qmult_lt_compat_r; assumption).
  lra.
Qed.

End Totals.

(** ** [match] *)

Section MatchFacts.

Variable INDIVIDUAL_FIELD_MAPPING : mapping.
Variable INSTITUTION_FIELD_MAPPING : mapping.
Variable MAX_MATCHES_TO_STORE : nat.
Variable argsort_desc : list Q -> list nat.
Variable weightage_df : WeightCalculator.weight_table.

Local Abbreviation fm_of := (field_mapping_of INDIVIDUAL_FIELD_MAPPING INSTITUTION_FIELD_MAPPING).
Local Abbreviation mr_of := (mapped_record_of INDIVIDUAL_FIELD_MAPPING INSTITUTION_FIELD_MAPPING).
Local Abbreviation av_of := (available_criteria_of INDIVIDUAL_FIELD_MAPPING INSTITUTION_FIELD_MAPPING).
Local Abbreviation w_of :=
  (weights_of INDIVIDUAL_FIELD_MAPPING INSTITUTION_FIELD_MAPPING weightage_df).

Local Abbreviation working_copy :=
  (EngineSpec.working_copy INDIVIDUAL_FIELD_MAPPING INSTITUTION_FIELD_MAPPING).
Local Abbreviation scorers_of :=
  (EngineSpec.scorers_of INDIVIDUAL_FIELD_MAPPING INSTITUTION_FIELD_MAPPING).
Local Abbreviation total_of :=
  (EngineSpec.total_of INDIVIDUAL_FIELD_MAPPING INSTITUTION_FIELD_MAPPING weightage_df).
Local Abbreviation reaches :=
  (EngineSpec.reaches INDIVIDUAL_FIELD_MAPPING INSTITUTION_FIELD_MAPPING weightage_df).
Local Abbreviation annotate_of :=
  (EngineSpec.annotate_of INDIVIDUAL_FIELD_MAPPING INSTITUTION_FIELD_MAPPING weightage_df).
Local Abbreviation eligible_of :=
  (EngineSpec.eligible_of INDIVIDUAL_FIELD_MAPPING INSTITUTION_FIELD_MAPPING).
Local Abbreviation prefilter_within_contribution :=
  (EngineSpec.prefilter_within_contribution
     INDIVIDUAL_FIELD_MAPPING INSTITUTION_FIELD_MAPPING weightage_df).
Local Abbreviation candidates_of :=
  (EngineSpec.candidates_of INDIVIDUAL_FIELD_MAPPING INSTITUTION_FIELD_MAPPING weightage_df).

Lemma score_and_threshold_rows (cbs_data : DataFrame) (source_record : record)
  (pm : list row) (final_threshold : Q) :
  score_and_threshold INDIVIDUAL_FIELD_MAPPING INSTITUTION_FIELD_MAPPING
    weightage_df cbs_data source_record pm final_threshold
  = map (annotate_of cbs_data source_record)
        (filter (reaches cbs_data source_record final_threshold) pm).
Proof.
  unfold score_and_threshold. cbv zeta.
  rewrite similarity_scores_map, total_scores_map, annotate_map, map_map.
  apply select_map_map.
Qed.

Lemma prefilter_spec (cbs_data : DataFrame) (source_record : record) :
  prefilter INDIVIDUAL_FIELD_MAPPING INSTITUTION_FIELD_MAPPING cbs_data source_record
  = spec_cascade (mr_of source_record) (eligible_of cbs_data source_record)
                 (rows (working_copy cbs_data source_record)).
Proof. unfold prefilter. cbv zeta. apply cascade_refines_spec. Qed.

Lemma prefilter_fields_not_dates (f : string) (t : Q) :
  In (f, t) prefilter_fields -> str_in f date_criteria = false.
Proof.
  unfold prefilter_fields. simpl.
  intros [H|[H|[H|[H|[]]]]]; injection H as <- <-; reflexivity.
Qed.

Lemma rank_nil : rank MAX_MATCHES_TO_STORE argsort_desc [] = [].
Proof. reflexivity. Qed.

Lemma match_is_rank (cbs_data : DataFrame) (source_record : record) (final_threshold : Q) :
  match_ INDIVIDUAL_FIELD_MAPPING INSTITUTION_FIELD_MAPPING MAX_MATCHES_TO_STORE
         argsort_desc weightage_df cbs_data source_record final_threshold
  = rank MAX_MATCHES_TO_STORE argsort_desc
         (candidates_of cbs_data source_record final_threshold).
Proof.
  unfold match_, candidates_of.
  destruct (empty cbs_data); [reflexivity|].
  destruct (av_of source_record); [reflexivity|].
  destruct (prefilter _ _ cbs_data source_record) eqn:E; [|reflexivity].
  now rewrite score_and_threshold_rows.
Qed.

(** C1: when every prefilter threshold that applies is within the
    contribution of its field to the final threshold, the prefilter cascade
    discards no row that full scoring puts at or above the final threshold:
    such a row is still a candidate, the rows that reach the threshold are
    the same with and without the prefilter, and [match] returns what it
    returns when every row is scored. *)
Theorem prefilter_cascade_sound
  (cbs_data : DataFrame) (source_record : record) (final_threshold : Q) :
  prefilter_within_contribution cbs_data source_record final_threshold = true ->
  (forall r, In r (rows (working_copy cbs_data source_record)) ->
             reaches cbs_data source_record final_threshold r = true ->
             In r (prefilter INDIVIDUAL_FIELD_MAPPING INSTITUTION_FIELD_MAPPING
                             cbs_data source_record))
  /\ filter (reaches cbs_data source_record final_threshold)
            (prefilter INDIVIDUAL_FIELD_MAPPING INSTITUTION_FIELD_MAPPING
                       cbs_data source_record)
     = filter (reaches cbs_data source_record final_threshold)
              (rows (working_copy cbs_data source_record))
  /\ match_ INDIVIDUAL_FIELD_MAPPING INSTITUTION_FIELD_MAPPING MAX_MATCHES_TO_STORE
            argsort_desc weightage_df cbs_data source_record final_threshold
     = match_unfiltered INDIVIDUAL_FIELD_MAPPING INSTITUTION_FIELD_MAPPING
         MAX_MATCHES_TO_STORE argsort_desc weightage_df cbs_data source_record
         final_threshold.
Proof.
  intros Hpre. unfold prefilter_within_contribution in Hpre.
  rewrite forallb_forall in Hpre.
  destruct (spec_cascade_is_filter (mr_of source_record)
              (eligible_of cbs_data source_record)
              (rows (working_copy cbs_data source_record))) as [q [Hq [Hall _]]].
  assert (Hkeep : forall r, reaches cbs_data source_record final_threshold r = true ->
                            q r = true).
  { intros r Hr. apply Hall. intros f t c Hin.
    pose proof (Hpre _ Hin) as Hw. cbn [fst snd] in Hw.
    apply eligible_In in Hin. destruct Hin as [Hf [Ha Hu]].
    eapply reaches_threshold_passes; eauto.
    now apply (prefilter_fields_not_dates f t). }
  assert (Hfilter :
    filter (reaches cbs_data source_record final_threshold)
           (prefilter INDIVIDUAL_FIELD_MAPPING INSTITUTION_FIELD_MAPPING
                      cbs_data source_record)
    = filter (reaches cbs_data source_record final_threshold)
             (rows (working_copy cbs_data source_record))).
  { rewrite prefilter_spec, Hq. apply filter_filter_implies. intros r _. apply Hkeep. }
  split; [|split; [exact Hfilter|]].
  - intros r Hin Hr. rewrite prefilter_spec, Hq. apply filter_In. auto.
  - rewrite match_is_rank. unfold candidates_of, match_unfiltered.
    destruct (empty cbs_data); [reflexivity|].
    destruct (av_of source_record); [reflexivity|].
    cbv zeta. rewrite !score_and_threshold_rows. fold (working_copy cbs_data source_record).
    now rewrite Hfilter.
Qed.



(** [get_ticket_matches] answers "Unmatched" exactly when [match] returns the
    empty frame, and "Matched" with the frame otherwise. *)
Lemma get_ticket_matches_status (cbs_data : DataFrame) (source_data : record)
  (ticket_id : string) (final_threshold : Q) :
  let answer :=
    get_ticket_matches INDIVIDUAL_FIELD_MAPPING INSTITUTION_FIELD_MAPPING
      MAX_MATCHES_TO_STORE argsort_desc weightage_df cbs_data source_data ticket_id
      final_threshold in
  let matches :=
    match_ INDIVIDUAL_FIELD_MAPPING INSTITUTION_FIELD_MAPPING MAX_MATCHES_TO_STORE
      argsort_desc weightage_df cbs_data
      (PyDict.set source_data "entity_type" (VStr (_determine_entity_type source_data)))
      final_threshold in
  (matches = [] /\ fst (fst answer) = Unmatched /\ snd (fst answer) = [])
  \/ (matches <> [] /\ fst (fst answer) = Matched /\ snd (fst answer) = matches).
Proof.
  cbv zeta. unfold get_ticket_matches. cbv zeta.
  destruct (match_ _ _ _ _ _ cbs_data _ final_threshold) as [|m ms].
  - left. auto.
  - right. repeat split; auto. discriminate.
Qed.

End MatchFacts.


End EngineFacts.

(* ====================================================================== *)
(** * Properties: entity types *)
(* ====================================================================== *)

Module EntityFacts.
Import PyStr PyNum Data WeightCalculator FuzzyMatcherComponent WeightSpec.
Import DictFacts WeightFacts.
Local Open Scope list_scope.
Local Open Scope Q_scope.

(** C3 fails on the code: [ENTITY_CONDITIONS] has the key 'institutional',
    and the matcher and its caller name the type 'institution', which
    [get_weights] therefore rejects whatever the table and the conditions. *)
Theorem institution_is_unknown_to_get_weights :
  (forall row df cond conditions,
      get_weights (row :: df) "institution" (cond :: conditions) = Raise UnknownEntity)
  /\ known_entity "institution" = false
  /\ known_entity "institutional" = true
  /\ known_entity "individual" = true
  /\ known_entity "account" = true
  /\ _determine_entity_type [("company_name", VStr "Acme Ltd")] = "institution".
Proof. repeat split; reflexivity. Qed.

Lemma lower_char_idempotent (c : ascii) : lower_char (lower_char c) = lower_char c.
Proof. destruct c as [[|] [|] [|] [|] [|] [|] [|] [|]]; reflexivity. Qed.

Lemma lower_idempotent (s : string) : lower (lower s) = lower s.
Proof.
  unfold lower. induction s as [|c s IH]; simpl; [reflexivity|].
  now rewrite lower_char_idempotent, IH.
Qed.

Lemma lower_not_empty (s : string) : String.eqb s "" = false -> String.eqb (lower s) "" = false.
Proof. destruct s; [discriminate | reflexivity]. Qed.

Lemma determine_entity_type_cases (r : record) :
  _determine_entity_type r = "institution"
  \/ _determine_entity_type r = "individual"
  \/ exists s, String.eqb s "" = false /\ _determine_entity_type r = lower s.
Proof.
  unfold _determine_entity_type.
  set (company := truthy (get_value r "company_registration_number")
                  || truthy (get_value r "company_name")).
  destruct (get_value r "entity_type") as [|s|d].
  - destruct company; auto.
  - destruct (String.eqb s "") eqn:E.
    + destruct company; auto.
    + right. right. exists s. auto.
  - destruct company; auto.
Qed.

Lemma determine_entity_type_not_empty (r : record) :
  String.eqb (_determine_entity_type r) "" = false.
Proof.
  destruct (determine_entity_type_cases r) as [->|[->|[s [Hs ->]]]];
    [reflexivity | reflexivity | now apply lower_not_empty].
Qed.

Lemma determine_entity_type_lower (r : record) :
  lower (_determine_entity_type r) = _determine_entity_type r.
Proof.
  destruct (determine_entity_type_cases r) as [->|[->|[s [Hs ->]]]];
    [reflexivity | reflexivity | apply lower_idempotent].
Qed.

(** The entity type [get_ticket_matches] writes into the record is the one
    [match] reads back. *)
Lemma determine_entity_type_stored (r : record) :
  _determine_entity_type
    (PyDict.set r "entity_type" (VStr (_determine_entity_type r)))
  = _determine_entity_type r.
Proof.
  unfold _determine_entity_type at 1. unfold get_value at 1.
  rewrite get_set_same. rewrite determine_entity_type_not_empty.
  apply determine_entity_type_lower.
Qed.

Lemma get_weights_unknown (df : weight_table) (entity : string) (conditions : list string) :
  known_entity entity = false ->
  (exists err, get_weights df entity conditions = Raise err)
  /\ (df <> [] -> conditions <> [] -> String.eqb entity "" = false ->
      get_weights df entity conditions = Raise UnknownEntity).
Proof.
  intros Hk. unfold known_entity in Hk. unfold get_weights.
  destruct df as [|r0 df]; [split; [eauto | congruence]|].
  destruct conditions as [|c0 cs]; [split; [eauto | congruence]|].
  destruct (String.eqb entity "") eqn:E; [split; [eauto | congruence]|].
  rewrite Hk. cbn [negb]. split; [eauto | reflexivity].
Qed.

Section Unknown.

Variable INDIVIDUAL_FIELD_MAPPING : mapping.
Variable INSTITUTION_FIELD_MAPPING : mapping.
Variable MAX_MATCHES_TO_STORE : nat.
Variable argsort_desc : list Q -> list nat.
Variable weightage_df : weight_table.

(** C4, amended: for a query whose entity type the weight table does not
    know, [get_weights] fails (with UnknownEntity on a loaded table), but
    [_get_normalized_weights] answers the equal weights [1/n] in its place,
    [match] goes on with the institution field mapping, and
    [get_ticket_matches] answers "Matched" or "Unmatched" as for any other
    query, never "Error". *)
Theorem unknown_entity_falls_back_to_equal_weights
  (cbs_data : DataFrame) (source_data : record) (ticket_id : string)
  (final_threshold : Q) :
  known_entity (_determine_entity_type source_data) = false ->
  let stored :=
    PyDict.set source_data "entity_type" (VStr (_determine_entity_type source_data)) in
  let answer :=
    get_ticket_matches INDIVIDUAL_FIELD_MAPPING INSTITUTION_FIELD_MAPPING
      MAX_MATCHES_TO_STORE argsort_desc weightage_df cbs_data source_data ticket_id
      final_threshold in
  (forall available_criteria,
      weightage_df <> [] -> available_criteria <> [] ->
      get_weights weightage_df (_determine_entity_type stored) available_criteria
      = Raise UnknownEntity)
  /\ (forall available_criteria,
         _get_normalized_weights weightage_df stored available_criteria
         = fallback_weights available_criteria)
  /\ field_mapping_of INDIVIDUAL_FIELD_MAPPING INSTITUTION_FIELD_MAPPING stored
     = INSTITUTION_FIELD_MAPPING
  /\ fst (fst answer) <> Error
  /\ (fst (fst answer) = Matched
      <-> match_ INDIVIDUAL_FIELD_MAPPING INSTITUTION_FIELD_MAPPING MAX_MATCHES_TO_STORE
            argsort_desc weightage_df cbs_data stored final_threshold <> []).
Proof.
  intros Hk. cbv zeta.
  rewrite determine_entity_type_stored.
  split; [|split; [|split; [|split]]].
  - intros av Hdf Hav.
    apply (get_weights_unknown weightage_df _ av Hk); auto.
    apply determine_entity_type_not_empty.
  - intros av. unfold _get_normalized_weights. rewrite determine_entity_type_stored.
    destruct (proj1 (get_weights_unknown weightage_df _ av Hk)) as [err ->].
    reflexivity.
  - unfold field_mapping_of, select_mapping. rewrite determine_entity_type_stored.
    destruct (String.eqb (_determine_entity_type source_data) "individual") eqn:E;
      [|reflexivity].
    apply String.eqb_eq in E. rewrite E in Hk. vm_compute in Hk. discriminate.
  - destruct (EngineFacts.get_ticket_matches_status INDIVIDUAL_FIELD_MAPPING
                INSTITUTION_FIELD_MAPPING MAX_MATCHES_TO_STORE argsort_desc weightage_df
                cbs_data source_data ticket_id final_threshold)
      as [[_ [-> _]] | [_ [-> _]]]; discriminate.
  - destruct (EngineFacts.get_ticket_matches_status INDIVIDUAL_FIELD_MAPPING
                INSTITUTION_FIELD_MAPPING MAX_MATCHES_TO_STORE argsort_desc weightage_df
                cbs_data source_data ticket_id final_threshold)
      as [[Hm [-> _]] | [Hm [-> _]]].
    + rewrite Hm. split; [discriminate | congruence].
    + split; [intros _; exact Hm | reflexivity].
Qed.

End Unknown.

(** C4, as the specification states it, fails: the query [alien_record] has
    an entity type that [get_weights] rejects, and [get_ticket_matches]
    answers "Matched", with the weight 1 on its one criterion. *)
Lemma unknown_entity_is_matched :
  get_weights Examples.sample_weights "alien" ["name"] = Raise UnknownEntity
  /\ fst (fst (get_ticket_matches Constants.FIELD_MAPPING Constants.FIELD_MAPPING 2
                 Examples.stable_argsort_desc Examples.sample_weights
                 Examples.sample_cbs Examples.alien_record "7" (85 # 100)))
     = Matched
  /\ map criteria
         (snd (fst (get_ticket_matches Constants.FIELD_MAPPING Constants.FIELD_MAPPING 2
                      Examples.stable_argsort_desc Examples.sample_weights
                      Examples.sample_cbs Examples.alien_record "7" (85 # 100))))
     = [[("name", 1 / 1)]; [("name", 1 / 1)]].
Proof. repeat split; vm_compute; reflexivity. Qed.

Lemma unknown_entity_witness :
  known_entity (_determine_entity_type Examples.alien_record) = false
  /\ _get_normalized_weights Examples.sample_weights
       (PyDict.set Examples.alien_record "entity_type"
          (VStr (_determine_entity_type Examples.alien_record))) ["name"]
     = fallback_weights ["name"].
Proof.
  split; [reflexivity|].
  apply (unknown_entity_falls_back_to_equal_weights
           Constants.FIELD_MAPPING Constants.FIELD_MAPPING 2
           Examples.stable_argsort_desc Examples.sample_weights
           Examples.sample_cbs Examples.alien_record "7" (85 # 100)).
  reflexivity.
Defined.

End EntityFacts.

(* ====================================================================== *)
(** * Properties: ranking and the order of the reference rows *)
(* ====================================================================== *)

Module RankFacts.
Import PyStr PyNum Data FuzzyMatcherComponent RowSpec EngineSpec RankSpec.
Import DictFacts RowFacts EngineFacts.
Local Open Scope list_scope.
Local Open Scope Q_scope.

Lemma Permutation_filter {A} (p : A -> bool) (l l' : list A) :
  Permutation l l' -> Permutation (filter p l) (filter p l').
Proof.
  induction 1 as [|x l l' H IH|x y l|l l' l'' H1 IH1 H2 IH2]; simpl.
  - constructor.
  - destruct (p x); [now constructor | exact IH].
  - destruct (p x), (p y); try apply Permutation_refl.
    + apply perm_swap.
  - now apply Permutation_trans with (filter p l').
Qed.

Lemma take_order_seq {A} (l : list A) :
  forall pre,
    flat_map (fun i => match nth_error (pre ++ l) i with Some x => [x] | None => [] end)
             (seq (List.length pre) (List.length l)) = l.
Proof.
  induction l as [|x l IH]; intros pre; [reflexivity|].
  cbn [List.length seq flat_map].
  rewrite nth_error_app2 by lia. rewrite Nat.sub_diag. cbn [nth_error app].
  f_equal. specialize (IH (pre ++ [x])).
  rewrite <- app_assoc, length_app in IH. cbn [List.length app] in IH.
  rewrite Nat.add_1_r in IH. exact IH.
Qed.

Lemma take_order_perm {A} (l : list A) (order : list nat) :
  Permutation order (seq 0 (List.length l)) -> Permutation (take_order l order) l.
Proof.
  intros H. unfold take_order.
  eapply Permutation_trans; [apply Permutation_flat_map, H|].
  pose proof (take_order_seq l []) as E. cbn [app List.length] in E.
  rewrite E. apply Permutation_refl.
Qed.

Lemma take_order_scores {A} (f : A -> Q) (l : list A) (order : list nat) :
  (forall i, In i order -> (i < List.length l)%nat) ->
  map f (take_order l order) = map (fun i => nth i (map f l) 0) order.
Proof.
  unfold take_order. induction order as [|i order IH]; intros H; [reflexivity|].
  cbn [flat_map map]. rewrite map_app, IH by (intros j Hj; apply H; now right).
  assert (Hi : (i < List.length l)%nat) by (apply H; now left).
  destruct (nth_error l i) as [x|] eqn:E.
  - cbn [map app]. f_equal.
    symmetry. apply nth_error_nth. now apply map_nth_error.
  - apply nth_error_None in E. lia.
Qed.

Lemma StronglySorted_map_inv {A B} (R : B -> B -> Prop) (f : A -> B) (l : list A) :
  StronglySorted R (map f l) -> StronglySorted (fun a b => R (f a) (f b)) l.
Proof.
  induction l as [|x l IH]; intros H; [constructor|].
  cbn [map] in H. apply StronglySorted_inv in H. destruct H as [H1 H2].
  constructor; [now apply IH|].
  rewrite Forall_map in H2. exact H2.
Qed.

Lemma Forall_firstn {A} (P : A -> Prop) (n : nat) (l : list A) :
  Forall P l -> Forall P (firstn n l).
Proof.
  revert n. induction l as [|x l IH]; intros [|n] H; cbn [firstn]; try constructor.
  - now inversion H.
  - apply IH. now inversion H.
Qed.

Lemma StronglySorted_firstn {A} (R : A -> A -> Prop) (n : nat) (l : list A) :
  StronglySorted R l -> StronglySorted R (firstn n l).
Proof.
  revert n. induction l as [|x l IH]; intros [|n] H; cbn [firstn]; try constructor.
  - apply IH. now apply StronglySorted_inv in H.
  - apply Forall_firstn. now apply StronglySorted_inv in H.
Qed.

Section Ranking.

Variable MAX_MATCHES_TO_STORE : nat.
Variable argsort_desc : list Q -> list nat.
Hypothesis argsort_ok : is_argsort_desc argsort_desc.

Local Abbreviation sorted_matches := (RankSpec.sorted_matches argsort_desc).

Lemma sorted_matches_perm (matches : list match_row) :
  Permutation (sorted_matches matches) matches.
Proof.
  unfold sorted_matches. apply take_order_perm.
  destruct (argsort_ok (map total_score matches)) as [H _].
  now rewrite length_map in H.
Qed.

Lemma sorted_matches_sorted (matches : list match_row) :
  StronglySorted by_score_desc (sorted_matches matches).
Proof.
  unfold sorted_matches, by_score_desc.
  apply (StronglySorted_map_inv (fun a b => b <= a) total_score).
  destruct (argsort_ok (map total_score matches)) as [Hp Hs].
  rewrite take_order_scores; [exact Hs|].
  intros i Hi. apply (Permutation_in _ Hp) in Hi. apply in_seq in Hi.
  rewrite length_map in Hi. lia.
Qed.

Lemma rank_firstn (matches : list match_row) :
  rank MAX_MATCHES_TO_STORE argsort_desc matches
  = firstn MAX_MATCHES_TO_STORE (sorted_matches matches).
Proof.
  unfold rank. destruct matches as [|m ms]; [|reflexivity].
  pose proof (sorted_matches_perm []) as H. apply Permutation_sym, Permutation_nil in H.
  rewrite H. now rewrite firstn_nil.
Qed.

Lemma rank_sorted (matches : list match_row) :
  StronglySorted by_score_desc (rank MAX_MATCHES_TO_STORE argsort_desc matches).
Proof. rewrite rank_firstn. apply StronglySorted_firstn, sorted_matches_sorted. Qed.

Lemma rank_length (matches : list match_row) :
  List.length (rank MAX_MATCHES_TO_STORE argsort_desc matches)
  = Nat.min MAX_MATCHES_TO_STORE (List.length matches).
Proof.
  rewrite rank_firstn, length_firstn.
  now rewrite (Permutation_length (sorted_matches_perm matches)).
Qed.

Lemma rank_all (matches : list match_row) :
  (List.length matches <= MAX_MATCHES_TO_STORE)%nat ->
  Permutation (rank MAX_MATCHES_TO_STORE argsort_desc matches) matches.
Proof.
  intros H. rewrite rank_firstn, firstn_all2.
  - apply sorted_matches_perm.
  - now rewrite (Permutation_length (sorted_matches_perm matches)).
Qed.

End Ranking.

(** ** The stable sort is such a sort *)

Lemma insert_desc_perm (x : nat * Q) (l : list (nat * Q)) :
  Permutation (Examples.insert_desc x l) (x :: l).
Proof.
  induction l as [|y l IH]; cbn [Examples.insert_desc]; [apply Permutation_refl|].
  destruct (Qle_bool (snd y) (snd x)); [apply Permutation_refl|].
  eapply Permutation_trans; [apply perm_skip, IH | apply perm_swap].
Qed.

Lemma sort_desc_perm (l : list (nat * Q)) : Permutation (Examples.sort_desc l) l.
Proof.
  unfold Examples.sort_desc. induction l as [|x l IH]; cbn [fold_right]; [constructor|].
  eapply Permutation_trans; [apply insert_desc_perm | now apply perm_skip].
Qed.

Lemma insert_desc_sorted (x : nat * Q) (l : list (nat * Q)) :
  StronglySorted pair_desc l -> StronglySorted pair_desc (Examples.insert_desc x l).
Proof.
  induction l as [|y l IH]; intros H; cbn [Examples.insert_desc].
  - constructor; constructor.
  - apply StronglySorted_inv in H. destruct H as [Hl Hy].
    destruct (Qle_bool (snd y) (snd x)) eqn:E.
    + apply Qle_bool_iff in E. constructor.
      * now constructor.
      * constructor; [exact E|].
        eapply Forall_impl; [|exact Hy]. intros z Hz. unfold pair_desc in *.
        now apply Qle_trans with (snd y).
    + assert (Hlt : snd x < snd y).
      { apply Qnot_le_lt. intros Hle. apply Qle_bool_iff in Hle. congruence. }
      constructor; [now apply IH|].
      apply (Permutation_Forall (Permutation_sym (insert_desc_perm x l))).
      constructor; [|exact Hy]. unfold pair_desc. now apply Qlt_le_weak.
Qed.

Lemma sort_desc_sorted (l : list (nat * Q)) : StronglySorted pair_desc (Examples.sort_desc l).
Proof.
  unfold Examples.sort_desc. induction l as [|x l IH]; cbn [fold_right]; [constructor|].
  now apply insert_desc_sorted.
Qed.

Lemma map_fst_combine_seq (scores : list Q) :
  forall start, map fst (combine (seq start (List.length scores)) scores)
                = seq start (List.length scores).
Proof.
  induction scores as [|q scores IH]; intros start; [reflexivity|].
  cbn [List.length seq combine map fst]. now rewrite IH.
Qed.

Lemma combine_seq_nth (scores : list Q) :
  forall start i q,
    In (i, q) (combine (seq start (List.length scores)) scores) ->
    (start <= i)%nat /\ nth (i - start) scores 0 = q.
Proof.
  induction scores as [|q0 scores IH]; intros start i q H; [destruct H|].
  cbn [List.length seq combine] in H. destruct H as [H|H].
  - injection H as <- <-. rewrite Nat.sub_diag. split; [lia | reflexivity].
  - destruct (IH (S start) i q H) as [H1 H2]. split; [lia|].
    replace (i - start)%nat with (S (i - S start)) by lia. exact H2.
Qed.

Lemma StronglySorted_map {A B} (R : B -> B -> Prop) (f : A -> B) (l : list A) :
  StronglySorted (fun a b => R (f a) (f b)) l -> StronglySorted R (map f l).
Proof.
  induction 1 as [|x l Hl IH Hx]; cbn [map]; constructor; [exact IH|].
  now apply Forall_map.
Qed.

Lemma stable_argsort_is_argsort : is_argsort_desc Examples.stable_argsort_desc.
Proof.
  intros scores. unfold Examples.stable_argsort_desc.
  set (pairs := combine (seq 0 (List.length scores)) scores).
  split.
  - rewrite <- (map_fst_combine_seq scores 0). fold pairs.
    apply Permutation_map, sort_desc_perm.
  - rewrite map_map.
    assert (E : map (fun p => nth (fst p) scores 0) (Examples.sort_desc pairs)
                = map snd (Examples.sort_desc pairs)).
    { apply map_ext_in. intros [i q] Hin. cbn [fst snd].
      apply (Permutation_in _ (sort_desc_perm pairs)) in Hin.
      apply combine_seq_nth in Hin. destruct Hin as [_ Hin].
      now rewrite Nat.sub_0_r in Hin. }
    rewrite E. apply StronglySorted_map. apply sort_desc_sorted.
Qed.

(** ** The order of the reference rows *)

Lemma pad_columns (field_mapping : mapping) (df : DataFrame) :
  columns (pad_account_column field_mapping df) = columns df.
Proof.
  unfold pad_account_column.
  destruct (cbs_field_of field_mapping "account_no"); [|reflexivity].
  now destruct (str_in _ (columns df)).
Qed.

Lemma pad_rows_perm (field_mapping : mapping) (df df' : DataFrame) :
  columns df = columns df' -> Permutation (rows df) (rows df') ->
  Permutation (rows (pad_account_column field_mapping df))
              (rows (pad_account_column field_mapping df')).
Proof.
  intros Hc Hr. unfold pad_account_column.
  destruct (cbs_field_of field_mapping "account_no") as [c|]; [|exact Hr].
  rewrite <- Hc. destruct (str_in c (columns df)); [|exact Hr].
  cbn [rows]. now apply Permutation_map.
Qed.

Lemma empty_perm (df df' : DataFrame) :
  columns df = columns df' -> Permutation (rows df) (rows df') -> empty df = empty df'.
Proof.
  intros Hc Hr. unfold empty. rewrite <- Hc.
  destruct (columns df); [reflexivity|].
  destruct (rows df) as [|r rs].
  - apply Permutation_nil in Hr. now rewrite Hr.
  - destruct (rows df'); [|reflexivity].
    apply Permutation_sym, Permutation_nil in Hr. discriminate.
Qed.

Lemma spec_cascade_perm (mapped_record : record) (passes_of : list (string * Q * string)) :
  forall pm pm',
    Permutation pm pm' ->
    Permutation (spec_cascade mapped_record passes_of pm)
                (spec_cascade mapped_record passes_of pm').
Proof.
  induction passes_of as [|[[f t] c] rest IH]; intros pm pm' H; [exact H|].
  cbn [spec_cascade]. cbv zeta.
  pose proof (Permutation_filter (passes mapped_record f t c) pm pm' H) as Hf.
  rewrite (Permutation_length Hf).
  destruct (List.length _ <=? Constants.MAX_CANDIDATES_AFTER_PREFILTER)%nat;
    [exact Hf | now apply IH].
Qed.

Section RowOrder.

Variable INDIVIDUAL_FIELD_MAPPING : mapping.
Variable INSTITUTION_FIELD_MAPPING : mapping.
Variable MAX_MATCHES_TO_STORE : nat.
Variable argsort_desc : list Q -> list nat.
Variable weightage_df : WeightCalculator.weight_table.

Local Abbreviation candidates :=
  (candidates_of INDIVIDUAL_FIELD_MAPPING INSTITUTION_FIELD_MAPPING weightage_df).
Local Abbreviation run_match :=
  (match_ INDIVIDUAL_FIELD_MAPPING INSTITUTION_FIELD_MAPPING MAX_MATCHES_TO_STORE
          argsort_desc weightage_df).

Lemma working_copy_columns (cbs_data cbs_data' : DataFrame) (source_record : record) :
  columns cbs_data = columns cbs_data' ->
  columns (working_copy INDIVIDUAL_FIELD_MAPPING INSTITUTION_FIELD_MAPPING
             cbs_data source_record)
  = columns (working_copy INDIVIDUAL_FIELD_MAPPING INSTITUTION_FIELD_MAPPING
               cbs_data' source_record).
Proof. intros H. unfold working_copy. now rewrite !pad_columns. Qed.

(** The rows that reach the threshold, and their scores, do not depend on the
    order of the reference rows. *)
Lemma candidates_perm (cbs_data cbs_data' : DataFrame) (source_record : record)
  (final_threshold : Q) :
  columns cbs_data = columns cbs_data' ->
  Permutation (rows cbs_data) (rows cbs_data') ->
  Permutation (candidates cbs_data source_record final_threshold)
              (candidates cbs_data' source_record final_threshold).
Proof.
  intros Hc Hr. unfold candidates_of.
  rewrite <- (empty_perm cbs_data cbs_data' Hc Hr).
  destruct (empty cbs_data); [constructor|].
  destruct (available_criteria_of _ _ source_record); [constructor|].
  rewrite !score_and_threshold_rows, !prefilter_spec.
  unfold annotate_of, reaches, total_of, eligible_of.
  rewrite <- (working_copy_columns cbs_data cbs_data' source_record Hc).
  apply Permutation_map, Permutation_filter, spec_cascade_perm.
  unfold working_copy. now apply pad_rows_perm.
Qed.

(** C5, amended: permuting the reference rows changes neither the rows that
    reach the threshold nor their scores; [match] returns the first
    [MAX_MATCHES_TO_STORE] of them in the order of the sort, which is by
    decreasing total score; and when no more than [MAX_MATCHES_TO_STORE] rows
    reach the threshold, [match] returns the same rows, with the same scores,
    for both orders. *)
Theorem match_row_order_and_ranking
  (cbs_data cbs_data' : DataFrame) (source_record : record) (final_threshold : Q) :
  is_argsort_desc argsort_desc ->
  columns cbs_data = columns cbs_data' ->
  Permutation (rows cbs_data) (rows cbs_data') ->
  Permutation (candidates cbs_data source_record final_threshold)
              (candidates cbs_data' source_record final_threshold)
  /\ StronglySorted by_score_desc (run_match cbs_data source_record final_threshold)
  /\ (exists sorted,
         Permutation sorted (candidates cbs_data source_record final_threshold)
         /\ StronglySorted by_score_desc sorted
         /\ run_match cbs_data source_record final_threshold
            = firstn MAX_MATCHES_TO_STORE sorted)
  /\ List.length (run_match cbs_data source_record final_threshold)
     = Nat.min MAX_MATCHES_TO_STORE
               (List.length (candidates cbs_data source_record final_threshold))
  /\ ((List.length (candidates cbs_data source_record final_threshold)
       <= MAX_MATCHES_TO_STORE)%nat ->
      Permutation (run_match cbs_data source_record final_threshold)
                  (run_match cbs_data' source_record final_threshold)).
Proof.
  intros Hsort Hc Hr.
  pose proof (candidates_perm cbs_data cbs_data' source_record final_threshold Hc Hr)
    as Hperm.
  rewrite !match_is_rank.
  split; [exact Hperm|]. split; [now apply rank_sorted|]. split; [|split].
  - exists (sorted_matches argsort_desc
              (candidates cbs_data source_record final_threshold)).
    split; [now apply sorted_matches_perm|].
    split; [now apply sorted_matches_sorted | now apply rank_firstn].
  - now apply rank_length.
  - intros Hlen.
    eapply Permutation_trans; [now apply rank_all|].
    eapply Permutation_trans; [exact Hperm|].
    apply Permutation_sym, rank_all; [exact Hsort|].
    now rewrite <- (Permutation_length Hperm).
Qed.

End RowOrder.

(** C5, as the specification states it, fails: three rows of [sample_cbs]
    score 1.0 for the query, two are kept, and which two depends on the
    order of the rows, here with a stable sort. *)
Lemma match_depends_on_row_order :
  Permutation (rows Examples.sample_cbs) (rows Examples.sample_cbs_permuted)
  /\ map (fun m => (cell_of "CIF_ID" (cbs_row m), total_score m))
         (match_ Constants.FIELD_MAPPING Constants.FIELD_MAPPING 2
                 Examples.stable_argsort_desc Examples.sample_weights
                 Examples.sample_cbs Examples.institution_record (85 # 100))
     = [(Some "1", 100 # 100); (Some "2", 100 # 100)]
  /\ map (fun m => (cell_of "CIF_ID" (cbs_row m), total_score m))
         (match_ Constants.FIELD_MAPPING Constants.FIELD_MAPPING 2
                 Examples.stable_argsort_desc Examples.sample_weights
                 Examples.sample_cbs_permuted Examples.institution_record (85 # 100))
     = [(Some "4", 100 # 100); (Some "2", 100 # 100)].
Proof.
  split; [|split; vm_compute; reflexivity].
  exact (Permutation_rev (rows Examples.sample_cbs)).
Qed.

End RankFacts.

(* ====================================================================== *)
(** * The theorems at sample data *)
(* ====================================================================== *)

Module Instances.
Import PyStr PyNum Data WeightCalculator FuzzyMatcherComponent.
Local Open Scope list_scope.
Local Open Scope Q_scope.


Lemma prefilter_cascade_sound_witness :
  EngineSpec.prefilter_within_contribution Constants.FIELD_MAPPING Constants.FIELD_MAPPING
    Examples.sample_weights Examples.sample_cbs Examples.institution_record (85 # 100)
  = true
  /\ match_ Constants.FIELD_MAPPING Constants.FIELD_MAPPING 2
       Examples.stable_argsort_desc Examples.sample_weights
       Examples.sample_cbs Examples.institution_record (85 # 100)
     = match_unfiltered Constants.FIELD_MAPPING Constants.FIELD_MAPPING 2
         Examples.stable_argsort_desc Examples.sample_weights
         Examples.sample_cbs Examples.institution_record (85 # 100).
Proof.
  split; [reflexivity|].
  apply (EngineFacts.prefilter_cascade_sound Constants.FIELD_MAPPING Constants.FIELD_MAPPING
           2 Examples.stable_argsort_desc Examples.sample_weights
           Examples.sample_cbs Examples.institution_record (85 # 100)).
  reflexivity.
Defined.

(** The precondition of the soundness of the prefilter is needed: here
    [account_no] is prefiltered at 0.7 and has no weight, two rows that score
    1.0 when every row is scored fail its pass, and [match] returns one row
    where scoring every row returns three. *)
Lemma prefilter_unsound_without_precondition :
  EngineSpec.prefilter_within_contribution Constants.FIELD_MAPPING Constants.FIELD_MAPPING
    Examples.sample_weights Examples.sample_cbs Examples.account_holder_record (85 # 100)
  = false
  /\ weights_of Constants.FIELD_MAPPING Constants.FIELD_MAPPING Examples.sample_weights
       Examples.account_holder_record = [("name", 1.00)]
  /\ map (fun m => (cell_of "CIF_ID" (cbs_row m), total_score m))
         (match_ Constants.FIELD_MAPPING Constants.FIELD_MAPPING 5
            Examples.stable_argsort_desc Examples.sample_weights
            Examples.sample_cbs Examples.account_holder_record (85 # 100))
     = [(Some "4", 1.0000)]
  /\ map (fun m => (cell_of "CIF_ID" (cbs_row m), total_score m))
         (match_unfiltered Constants.FIELD_MAPPING Constants.FIELD_MAPPING 5
            Examples.stable_argsort_desc Examples.sample_weights
            Examples.sample_cbs Examples.account_holder_record (85 # 100))
     = [(Some "1", 1.0000); (Some "2", 1.0000); (Some "4", 1.0000)].
Proof. split; [|split; [|split]]; vm_compute; reflexivity. Qed.

Lemma match_row_order_witness :
  columns Examples.sample_cbs = columns Examples.sample_cbs_permuted
  /\ Permutation
       (EngineSpec.candidates_of Constants.FIELD_MAPPING Constants.FIELD_MAPPING
          Examples.sample_weights Examples.sample_cbs Examples.institution_record (85 # 100))
       (EngineSpec.candidates_of Constants.FIELD_MAPPING Constants.FIELD_MAPPING
          Examples.sample_weights Examples.sample_cbs_permuted Examples.institution_record
          (85 # 100)).
Proof.
  split; [reflexivity|].
  apply (RankFacts.match_row_order_and_ranking Constants.FIELD_MAPPING
           Constants.FIELD_MAPPING 2 Examples.stable_argsort_desc Examples.sample_weights
           Examples.sample_cbs Examples.sample_cbs_permuted Examples.institution_record
           (85 # 100) RankFacts.stable_argsort_is_argsort eq_refl
           (Permutation_rev (rows Examples.sample_cbs))).
Defined.

Lemma batch_similarity_witness :
  RapidFuzz.cdist_uint8 (_preprocess_text "Acme Ltd") (_preprocess_text "ACME LTD")
  = RapidFuzz.cdist_uint8 (_preprocess_text "acme  ltd") (_preprocess_text "ACME LTD")
  /\ _calculate_batch_text_similarity [Some "Acme Ltd"] "ACME LTD"
     = _calculate_batch_text_similarity [Some "acme  ltd"] "ACME LTD".
Proof.
  split; [reflexivity|].
  apply (proj2 (proj2 SimilarityFacts.batch_similarity_is_percentage)
           "ACME LTD" (Some "Acme Ltd") (Some "acme  ltd")).
  reflexivity.
Defined.


End Instances.

(* ====================================================================== *)
(** * Properties: date standardization *)
(* ====================================================================== *)

Module DateFacts.
Import PyStr Utils DateSpec.
Local Open Scope list_scope.
Local Open Scope nat_scope.

(** ** The first layout that parses gives the answer *)

Lemma try_formats_none (formats : list string) (s : string) :
  try_formats formats s = None <-> Forall (fun f => strptime s f = None) formats.
Proof.
  induction formats as [|f formats IH]; cbn [try_formats].
  - split; [constructor | reflexivity].
  - destruct (strptime s f) eqn:E.
    + split; [discriminate|]. intros H. inversion H; subst. congruence.
    + rewrite IH. split; [now constructor | intros H; now inversion H].
Qed.

Lemma try_formats_some (formats : list string) (s r : string) :
  try_formats formats s = Some r ->
  exists pre f post t,
    formats = pre ++ f :: post
    /\ Forall (fun g => strptime s g = None) pre
    /\ strptime s f = Some t
    /\ r = strftime_Ymd t.
Proof.
  induction formats as [|f formats IH]; cbn [try_formats]; [discriminate|].
  destruct (strptime s f) as [t|] eqn:E.
  - intros [= <-]. exists [], f, formats, t. repeat split; auto.
  - intros H. destruct (IH H) as [pre [g [post [t [H1 [H2 [H3 H4]]]]]]].
    exists (f :: pre), g, post, t. subst formats.
    split; [reflexivity|]. split; [now constructor|]. split; assumption.
Qed.

(** ** The canonical form is eight digits *)

Lemma digit_char_is_digit (n : nat) : is_digit (digit_char n) = true.
Proof.
  unfold is_digit, digit_char, code.
  pose proof (Nat.mod_upper_bound n 10 ltac:(lia)) as H.
  rewrite nat_ascii_embedding by lia.
  apply andb_true_iff. split; apply Nat.leb_le; lia.
Qed.

Lemma strftime_Ymd_shape (t : datetime) :
  String.length (strftime_Ymd t) = 8 /\ all_chars is_digit (strftime_Ymd t) = true.
Proof.
  unfold strftime_Ymd, pad4, pad2. cbn [String.append String.length all_chars].
  split; [reflexivity|]. now rewrite !digit_char_is_digit.
Qed.

(** ** What a string that a layout parses begins with *)

Lemma in_range_digit (lo hi : nat) (c : ascii) :
  48 <= lo -> hi <= 57 -> in_range lo hi c = true -> is_digit c = true.
Proof.
  unfold in_range, is_digit. intros Hlo Hhi H.
  apply andb_true_iff in H. destruct H as [H1 H2].
  apply Nat.leb_le in H1, H2. apply andb_true_iff. split; apply Nat.leb_le; lia.
Qed.

Lemma two_short (lo1 hi1 lo2 hi2 : nat) (s r : string) (v : nat) :
  48 <= lo1 -> hi1 <= 57 -> 48 <= lo2 -> hi2 <= 57 ->
  two lo1 hi1 lo2 hi2 s = Some (v, r) -> short_field s r.
Proof.
  intros H1 H2 H3 H4. unfold two. destruct s as [|a [|b s]]; try discriminate.
  destruct (in_range lo1 hi1 a && in_range lo2 hi2 b) eqn:E; [|discriminate].
  intros [= _ <-]. apply andb_true_iff in E. destruct E as [Ea Eb].
  right. exists a, b. split; [reflexivity|]. split.
  - now apply (in_range_digit lo2 hi2).
  - now rewrite (in_range_digit lo1 hi1 a).
Qed.

Lemma one_short (lo hi : nat) (s r : string) (v : nat) :
  48 <= lo -> hi <= 57 -> one lo hi s = Some (v, r) -> short_field s r.
Proof.
  intros H1 H2. unfold one. destruct s as [|a s]; [discriminate|].
  destruct (in_range lo hi a) eqn:E; [|discriminate].
  intros [= _ <-]. left. exists a. split; [reflexivity|].
  now apply (in_range_digit lo hi).
Qed.

Lemma blank_one_short (s r : string) (v : nat) :
  blank_one s = Some (v, r) -> short_field s r.
Proof.
  unfold blank_one. destruct s as [|a [|b s]]; try discriminate.
  destruct (is_blank a && in_range 49 57 b) eqn:E; [|discriminate].
  intros [= _ <-]. apply andb_true_iff in E. destruct E as [Ea Eb].
  right. exists a, b. split; [reflexivity|]. split.
  - apply (in_range_digit 49 57); [lia | lia | exact Eb].
  - rewrite Ea. apply orb_true_r.
Qed.

Lemma day_month_short (d : directive) (a : alt) (s r : string) (v : nat) :
  d = dd \/ d = dm -> In a (alternatives d) -> a s = Some (v, r) -> short_field s r.
Proof.
  intros [->| ->]; cbn [alternatives In]; intros H;
    repeat (destruct H as [ <- |H];
            [first [ apply two_short; lia | apply one_short; lia | apply blank_one_short ]|]);
    destruct H.
Qed.

Lemma first_alt_some {R} (alts : list alt) (k : nat -> string -> option R)
  (s : string) (x : R) :
  first_alt alts k s = Some x ->
  exists a v r, In a alts /\ a s = Some (v, r) /\ k v r = Some x.
Proof.
  induction alts as [|a alts IH]; cbn [first_alt]; [discriminate|].
  destruct (a s) as [[v r]|] eqn:Ea.
  - destruct (k v r) as [y|] eqn:Ek.
    + intros [= <-]. exists a, v, r. repeat split; auto. now left.
    + intros H. destruct (IH H) as [a' [v' [r' [H1 [H2 H3]]]]].
      exists a', v', r'. repeat split; auto. now right.
  - intros H. destruct (IH H) as [a' [v' [r' [H1 [H2 H3]]]]].
    exists a', v', r'. repeat split; auto. now right.
Qed.

Lemma blanks_some {R} (k : string -> option R) (s : string) (x : R) :
  blanks k s = Some x -> exists c r, s = String c r /\ is_space c = true.
Proof.
  destruct s as [|c r]; cbn [blanks]; [discriminate|].
  destruct (is_space c) eqn:E; [|discriminate]. intros _. exists c, r. auto.
Qed.

Lemma short_then_literal (d : directive) (c : ascii) (fmt : list item)
  (t : datetime) (s : string) (x : datetime * string) :
  d = dd \/ d = dm ->
  regex_match (Dir d :: Lit c :: fmt) t s = Some x ->
  begins_short_then (Ascii.eqb c) s.
Proof.
  intros Hd H. cbn [regex_match] in H.
  apply first_alt_some in H. destruct H as [a [v [r [Ha [Hs Hk]]]]].
  destruct r as [|c' r]; [discriminate|].
  destruct (Ascii.eqb c c') eqn:E; [|discriminate].
  exists c', r. split; [|exact E]. eapply day_month_short; eauto.
Qed.

Lemma short_then_blank (d : directive) (fmt : list item)
  (t : datetime) (s : string) (x : datetime * string) :
  d = dd \/ d = dm ->
  regex_match (Dir d :: Blank :: fmt) t s = Some x ->
  begins_short_then is_space s.
Proof.
  intros Hd H. cbn [regex_match] in H.
  apply first_alt_some in H. destruct H as [a [v [r [Ha [Hs Hk]]]]].
  apply blanks_some in Hk. destruct Hk as [c' [r' [-> E]]].
  exists c', r'. split; [|exact E]. eapply day_month_short; eauto.
Qed.

Lemma year_first (fmt : list item) (t : datetime) (s : string) (x : datetime * string) :
  regex_match (Dir dY :: fmt) t s = Some x -> begins_year s.
Proof.
  intros H. cbn [regex_match] in H.
  apply first_alt_some in H. destruct H as [a [v [r [Ha [Hs _]]]]].
  cbn [alternatives In] in Ha. destruct Ha as [ <- |[]].
  unfold four_digits in Hs. destruct s as [|a [|b [|c [|d s]]]]; try discriminate.
  destruct (is_digit a && is_digit b && is_digit c && is_digit d) eqn:E; [|discriminate].
  apply andb_true_iff in E. destruct E as [E Ed].
  apply andb_true_iff in E. destruct E as [E Ec].
  apply andb_true_iff in E. destruct E as [Ea Eb].
  exists a, b, c, d, s. auto.
Qed.

Lemma letter_is_no_digit (y : ascii) :
  is_lower (lower_char y) = true -> is_digit y = false /\ is_blank y = false.
Proof.
  destruct y as [[|] [|] [|] [|] [|] [|] [|] [|]]; vm_compute; intros H;
    first [discriminate H | split; reflexivity].
Qed.

Lemma name_alt_first (w : string) (x : ascii) (value : nat) (s r : string) (v : nat) :
  is_lower x = true ->
  name_alt (String x w) value s = Some (v, r) -> begins_name s.
Proof.
  intros Hx. unfold name_alt. cbn [word].
  destruct s as [|y s]; [discriminate|].
  destruct (Ascii.eqb x (lower_char y)) eqn:E; [|discriminate].
  intros _. apply Ascii.eqb_eq in E. subst x.
  destruct (letter_is_no_digit y Hx). exists y, s. auto.
Qed.

Lemma name_first (d : directive) (fmt : list item)
  (t : datetime) (s : string) (x : datetime * string) :
  d = db \/ d = dB ->
  regex_match (Dir d :: fmt) t s = Some x -> begins_name s.
Proof.
  intros Hd H. cbn [regex_match] in H.
  apply first_alt_some in H. destruct H as [a [v [r [Ha [Hs _]]]]].
  destruct Hd as [->| ->]; cbn [alternatives abbr_months full_months In] in Ha;
    repeat (destruct Ha as [ <- |Ha];
            [eapply name_alt_first; [|exact Hs]; reflexivity|]);
    destruct Ha.
Qed.

(** ** Layouts that exclude one another *)

Lemma year_excludes_short (p : ascii -> bool) (s : string) :
  (forall c, p c = true -> is_digit c = false) ->
  begins_year s -> begins_short_then p s -> False.
Proof.
  intros Hp [a [b [c [d [r [-> [Ha [Hb [Hc Hd]]]]]]]]] [c' [r' [Hs Hc']]].
  destruct Hs as [[x [E _]]|[x [y [E _]]]]; injection E; intros; subst.
  - rewrite (Hp _ Hc') in Hb. discriminate.
  - rewrite (Hp _ Hc') in Hc. discriminate.
Qed.

Lemma name_excludes_short (p : ascii -> bool) (s : string) :
  begins_name s -> begins_short_then p s -> False.
Proof.
  intros [y [r [-> [Hd Hb]]]] [c' [r' [Hs _]]].
  destruct Hs as [[x [E Hx]]|[x [z [E [_ Hx]]]]]; injection E; intros; subst.
  - congruence.
  - rewrite Hd, Hb in Hx. discriminate.
Qed.

Lemma short_excludes_short (p q : ascii -> bool) (s : string) :
  (forall c, p c = true -> is_digit c = false) ->
  (forall c, q c = true -> is_digit c = false) ->
  (forall c, p c = true -> q c = true -> False) ->
  begins_short_then p s -> begins_short_then q s -> False.
Proof.
  intros Hp Hq Hpq [c [r [Hs Hc]]] [c' [r' [Hs' Hc']]].
  destruct Hs as [[x [E _]]|[x [y [E [Hy _]]]]];
    destruct Hs' as [[x' [E' _]]|[x' [y' [E' [Hy' _]]]]];
    subst s; injection E'; intros; subst.
  - eauto.
  - rewrite (Hp _ Hc) in Hy'. discriminate.
  - rewrite (Hq _ Hc') in Hy. discriminate.
  - eauto.
Qed.

Lemma literal_no_digit (c x : ascii) :
  is_digit c = false -> Ascii.eqb c x = true -> is_digit x = false.
Proof. intros H E. apply Ascii.eqb_eq in E. now subst. Qed.

Lemma space_no_digit (x : ascii) : is_space x = true -> is_digit x = false.
Proof.
  destruct x as [[|] [|] [|] [|] [|] [|] [|] [|]]; vm_compute; intros H;
    first [discriminate H | reflexivity].
Qed.

Lemma literals_differ (c c' x : ascii) :
  Ascii.eqb c c' = false -> Ascii.eqb c x = true -> Ascii.eqb c' x = true -> False.
Proof.
  intros H E E'. apply Ascii.eqb_eq in E, E'. subst. rewrite Ascii.eqb_refl in H.
  discriminate.
Qed.

Lemma literal_no_space (c x : ascii) :
  is_space c = false -> is_space x = true -> Ascii.eqb c x = true -> False.
Proof. intros H E E'. apply Ascii.eqb_eq in E'. subst. congruence. Qed.

Lemma regex_match_begins (fmt : list item) (b : beginning)
  (t : datetime) (s : string) (x : datetime * string) :
  beginning_of fmt = Some b -> regex_match fmt t s = Some x -> begins b s.
Proof.
  destruct fmt as [|[d|c|] fmt]; try discriminate.
  destruct d; cbn [beginning_of].
  - intros [= <-]. apply year_first.
  - destruct fmt as [|[d'|c|] fmt]; try discriminate; intros [= <-].
    + apply short_then_literal. now right.
    + apply short_then_blank. now right.
  - destruct fmt as [|[d'|c|] fmt]; try discriminate; intros [= <-].
    + apply short_then_literal. now left.
    + apply short_then_blank. now left.
  - discriminate.
  - discriminate.
  - discriminate.
  - intros [= <-]. apply name_first. now left.
  - intros [= <-]. apply name_first. now right.
Qed.

Lemma exclusive_sound (a b : beginning) (s : string) :
  exclusive a b = true -> begins a s -> begins b s -> False.
Proof.
  destruct a as [| |c|], b as [| |c'|]; cbn [exclusive begins]; try discriminate;
    intros E Ha Hb.
  - apply negb_true_iff in E.
    eapply year_excludes_short; [|exact Ha|exact Hb].
    intros x. now apply literal_no_digit.
  - eapply year_excludes_short; [|exact Ha|exact Hb]. exact space_no_digit.
  - eapply name_excludes_short; eauto.
  - eapply name_excludes_short; eauto.
  - apply negb_true_iff in E.
    eapply year_excludes_short; [|exact Hb|exact Ha].
    intros x. now apply literal_no_digit.
  - eapply name_excludes_short; eauto.
  - apply andb_true_iff in E. destruct E as [E E3].
    apply andb_true_iff in E. destruct E as [E1 E2].
    apply negb_true_iff in E1, E2, E3.
    eapply (short_excludes_short (Ascii.eqb c) (Ascii.eqb c')); [| | |exact Ha|exact Hb].
    + intros x. now apply literal_no_digit.
    + intros x. now apply literal_no_digit.
    + intros x. now apply literals_differ.
  - apply andb_true_iff in E. destruct E as [E1 E2]. apply negb_true_iff in E1, E2.
    eapply (short_excludes_short (Ascii.eqb c) is_space); [| | |exact Ha|exact Hb].
    + intros x. now apply literal_no_digit.
    + exact space_no_digit.
    + intros x Hx Hs. eapply literal_no_space; eauto.
  - eapply year_excludes_short; [|exact Hb|exact Ha]. exact space_no_digit.
  - eapply name_excludes_short; eauto.
  - apply andb_true_iff in E. destruct E as [E1 E2]. apply negb_true_iff in E1, E2.
    eapply (short_excludes_short (Ascii.eqb c') is_space); [| | |exact Hb|exact Ha].
    + intros x. now apply literal_no_digit.
    + exact space_no_digit.
    + intros x Hx Hs. eapply literal_no_space; eauto.
Qed.

(** A layout cannot parse a string that a layout with another beginning
    parses. *)
Lemma strptime_exclusive (s f g : string) (a b : beginning) (t : datetime) :
  beginning_of (parse_format f) = Some a ->
  beginning_of (parse_format g) = Some b ->
  exclusive a b = true ->
  strptime s f = Some t -> strptime s g = None.
Proof.
  intros Ha Hb E Hf. destruct (strptime s g) as [t'|] eqn:Hg; [exfalso | reflexivity].
  unfold strptime in Hf, Hg.
  destruct (regex_match (parse_format f) epoch s) as [x|] eqn:Mf; [|discriminate].
  destruct (regex_match (parse_format g) epoch s) as [y|] eqn:Mg; [|discriminate].
  eapply exclusive_sound; [exact E | |].
  - eapply regex_match_begins; eauto.
  - eapply regex_match_begins; eauto.
Qed.

Lemma strptime_not_empty (s f : string) (a : beginning) (t : datetime) :
  beginning_of (parse_format f) = Some a ->
  strptime s f = Some t -> String.eqb s "" = false.
Proof.
  intros Ha Hf. unfold strptime in Hf.
  destruct (regex_match (parse_format f) epoch s) as [x|] eqn:Mf; [|discriminate].
  pose proof (regex_match_begins _ _ _ _ _ Ha Mf) as H.
  destruct a; cbn [begins] in H.
  - destruct H as [? [? [? [? [? [-> _]]]]]]. reflexivity.
  - destruct H as [? [? [-> _]]]. reflexivity.
  - destruct H as [? [? [[[? [-> _]]|[? [? [-> _]]]] _]]]; reflexivity.
  - destruct H as [? [? [[[? [-> _]]|[? [? [-> _]]]] _]]]; reflexivity.
Qed.

Lemma try_formats_skips (s f : string) (t : datetime) (pre post : list string) :
  excluded_before f pre = true ->
  strptime s f = Some t ->
  try_formats (pre ++ f :: post) s = Some (strftime_Ymd t).
Proof.
  unfold excluded_before.
  destruct (beginning_of (parse_format f)) as [a|] eqn:Ha; [|discriminate].
  intros Hpre Hf. induction pre as [|g pre IH]; cbn [app try_formats].
  - now rewrite Hf.
  - cbn [forallb] in Hpre. apply andb_true_iff in Hpre. destruct Hpre as [Hg Hpre].
    destruct (beginning_of (parse_format g)) as [b|] eqn:Hb; [|discriminate].
    rewrite (strptime_exclusive s f g a b t Ha Hb Hg Hf). now apply IH.
Qed.

(** A string that a day-first layout parses is read by that layout. *)
Lemma day_first_wins (s f : string) (t : datetime) (pre post : list string) :
  date_formats = pre ++ f :: post ->
  excluded_before f pre = true ->
  strptime s f = Some t ->
  standardize_date_format s = Some (strftime_Ymd t).
Proof.
  intros Hl Hpre Hf. unfold standardize_date_format.
  assert (Hne : String.eqb s "" = false).
  { unfold excluded_before in Hpre.
    destruct (beginning_of (parse_format f)) as [a|] eqn:Ha; [|discriminate].
    eapply strptime_not_empty; eauto. }
  rewrite Hne, Hl. now apply try_formats_skips.
Qed.

(** C7: [standardize_date_format] answers null exactly for the empty string
    and for a string that no layout of the list parses; otherwise its answer
    is the date of the first layout of the list that parses the string,
    written as eight digits YYYYMMDD; the answer is a function of the string
    alone; "01-02-2020" is read day first, as 1 February 2020, although the
    month-first layout parses it too; and whenever one of the day-first
    layouts %d/%m/%Y, %d-%m-%Y, %d.%m.%Y parses a string, the answer is the
    date that layout reads. *)
Theorem standardize_date_first_layout_wins :
  (forall s, standardize_date_format s = None
             <-> s = "" \/ Forall (fun f => strptime s f = None) date_formats)
  /\ (forall s r,
         standardize_date_format s = Some r ->
         exists pre f post t,
           date_formats = pre ++ f :: post
           /\ Forall (fun g => strptime s g = None) pre
           /\ strptime s f = Some t
           /\ r = strftime_Ymd t
           /\ String.length r = 8
           /\ all_chars is_digit r = true)
  /\ (forall s r1 r2,
         standardize_date_format s = r1 -> standardize_date_format s = r2 -> r1 = r2)
  /\ standardize_date_format "01-02-2020" = Some "20200201"
  /\ option_map strftime_Ymd (strptime "01-02-2020" "%m-%d-%Y") = Some "20200102"
  /\ (forall s t, strptime s "%d/%m/%Y" = Some t ->
                  standardize_date_format s = Some (strftime_Ymd t))
  /\ (forall s t, strptime s "%d-%m-%Y" = Some t ->
                  standardize_date_format s = Some (strftime_Ymd t))
  /\ (forall s t, strptime s "%d.%m.%Y" = Some t ->
                  standardize_date_format s = Some (strftime_Ymd t)).
Proof.
  split; [|split; [|split; [|split; [|split; [|split; [|split]]]]]].
  - intros s. unfold standardize_date_format.
    destruct (String.eqb s "") eqn:E.
    + apply String.eqb_eq in E. split; auto.
    + rewrite try_formats_none. apply String.eqb_neq in E. split; [auto|].
      intros [H|H]; [congruence | exact H].
  - intros s r H. unfold standardize_date_format in H.
    destruct (String.eqb s ""); [discriminate|].
    destruct (try_formats_some _ _ _ H) as [pre [f [post [t [H1 [H2 [H3 H4]]]]]]].
    exists pre, f, post, t. subst r.
    destruct (strftime_Ymd_shape t). repeat split; auto.
  - intros s r1 r2 H1 H2. congruence.
  - reflexivity.
  - reflexivity.
  - intros s t H.
    apply (day_first_wins s "%d/%m/%Y" t (firstn 2 date_formats) (skipn 3 date_formats));
      [reflexivity | reflexivity | exact H].
  - intros s t H.
    apply (day_first_wins s "%d-%m-%Y" t (firstn 6 date_formats) (skipn 7 date_formats));
      [reflexivity | reflexivity | exact H].
  - intros s t H.
    apply (day_first_wins s "%d.%m.%Y" t (firstn 13 date_formats) (skipn 14 date_formats));
      [reflexivity | reflexivity | exact H].
Qed.

Lemma standardize_date_witness :
  option_map strftime_Ymd (strptime "01-02-2020" "%d-%m-%Y") = Some "20200201"
  /\ standardize_date_format "01-02-2020" = Some "20200201".
Proof.
  split; [reflexivity|].
  apply (proj1 (proj2 (proj2 (proj2 (proj2 (proj2 (proj2
           standardize_date_first_layout_wins)))))) "01-02-2020"
           {| year := 2020; month := 2; day := 1; hour := 0; minute := 0; second := 0 |}).
  reflexivity.
Defined.

End DateFacts.

(* ====================================================================== *)
(** * Properties: what a call of [match] leaves unchanged *)
(* ====================================================================== *)

Module StoreFacts.
Import PyStr PyNum Data FuzzyMatcherComponent Store StoreSpec.
Local Open Scope list_scope.
Local Open Scope Q_scope.

Lemma extends_refl (h : heap) : extends h h.
Proof. exists []. now rewrite app_nil_r. Qed.

Lemma update_fresh (h0 ext : heap) (r : ref) (o : object) :
  fresh h0 r -> update (h0 ++ ext) r o = h0 ++ update ext (r - List.length h0)%nat o.
Proof.
  unfold fresh. revert r. induction h0 as [|x h0 IH]; intros r H.
  - cbn [app List.length]. now rewrite Nat.sub_0_r.
  - cbn [List.length] in *. destruct r as [|r]; [lia|].
    cbn [app update]. rewrite IH by lia. reflexivity.
Qed.

Lemma keeps_ret (h0 : heap) {A} (a : A) (Q : A -> Prop) :
  Q a -> keeps h0 (ret a) Q.
Proof. intros H h He. split; [exact He | exact H]. Qed.

Lemma keeps_bind (h0 : heap) {A B} (m : M A) (k : A -> M B)
  (Q : A -> Prop) (Q' : B -> Prop) :
  keeps h0 m Q -> (forall a, Q a -> keeps h0 (k a) Q') -> keeps h0 (bind m k) Q'.
Proof.
  intros Hm Hk h He. unfold bind. cbv zeta.
  destruct (Hm h He) as [H1 H2]. exact (Hk _ H2 _ H1).
Qed.

Lemma keeps_weaken (h0 : heap) {A} (m : M A) (Q Q' : A -> Prop) :
  (forall a, Q a -> Q' a) -> keeps h0 m Q -> keeps h0 m Q'.
Proof. intros HQ Hm h He. destruct (Hm h He). auto. Qed.

Lemma keeps_alloc (h0 : heap) (o : object) : keeps h0 (alloc o) (fresh h0).
Proof.
  intros h [ext ->]. unfold alloc, fresh. cbn [fst snd]. split.
  - exists (ext ++ [o]). now rewrite app_assoc.
  - rewrite length_app. lia.
Qed.

Lemma keeps_read (h0 : heap) (r : ref) : keeps h0 (read r) (fun _ => True).
Proof. intros h He. now split. Qed.

Lemma keeps_write (h0 : heap) (r : ref) (o : object) :
  fresh h0 r -> keeps h0 (write r o) (fun _ => True).
Proof.
  intros Hr h [ext ->]. unfold write. cbn [fst snd]. split; [|exact I].
  exists (update ext (r - List.length h0)%nat o). now apply update_fresh.
Qed.

Lemma keeps_read_frame (h0 : heap) (r : ref) : keeps h0 (read_frame r) (fun _ => True).
Proof.
  unfold read_frame. eapply keeps_bind; [apply keeps_read|].
  intros o _. now apply keeps_ret.
Qed.

Lemma keeps_index_and_copy (h0 : heap) (df : DataFrame) (mask : list bool) :
  keeps h0 (index_and_copy df mask) (fresh h0).
Proof.
  unfold index_and_copy. eapply keeps_bind; [apply keeps_alloc|].
  intros indexed Hi. eapply keeps_bind; [apply keeps_read_frame|].
  intros [selected|] _; [apply keeps_alloc | now apply keeps_ret].
Qed.

Lemma keeps_get_normalized_weights (h0 : heap) (self_df : ref) (source_record : record)
  (available_criteria : list string) :
  keeps h0 (_get_normalized_weights_st self_df source_record available_criteria)
        (fun _ => True).
Proof.
  unfold _get_normalized_weights_st. eapply keeps_bind; [apply keeps_read|].
  intros [[df|df|ms]|] _; now apply keeps_ret.
Qed.

Lemma keeps_pad_account (h0 : heap) (field_mapping : mapping) (pm : ref) :
  fresh h0 pm -> keeps h0 (pad_account_st field_mapping pm) (fun _ => True).
Proof.
  intros Hpm. unfold pad_account_st. eapply keeps_bind; [apply keeps_read_frame|].
  intros [df|] _; [|now apply keeps_ret].
  destruct (cbs_field_of field_mapping "account_no") as [c|]; [|now apply keeps_ret].
  destruct (str_in c (columns df)); [now apply keeps_write | now apply keeps_ret].
Qed.

Lemma keeps_cascade (h0 : heap) (field_mapping : mapping) (mapped_record : record)
  (available_criteria : list string) (fields : list (string * Q)) :
  forall pm,
    fresh h0 pm ->
    keeps h0 (cascade_st field_mapping mapped_record available_criteria fields pm)
          (fresh h0).
Proof.
  induction fields as [|[field threshold] fields IH]; intros pm Hpm; cbn [cascade_st].
  - now apply keeps_ret.
  - eapply keeps_bind; [apply keeps_read_frame|].
    intros [df|] _; [|now apply keeps_ret].
    destruct (negb (str_in field available_criteria)
              || match rows df with [] => true | _ => false end); [now apply IH|].
    destruct (usable_column field_mapping mapped_record (columns df) field) as [c|];
      [|now apply IH].
    cbv zeta. eapply keeps_bind; [apply keeps_index_and_copy|].
    intros filtered Hf. eapply keeps_bind; [apply keeps_read_frame|].
    intros o' _.
    destruct (_ <=? Constants.MAX_CANDIDATES_AFTER_PREFILTER)%nat;
      [now apply keeps_ret | now apply IH].
Qed.

Section MatchStore.

Variable INDIVIDUAL_FIELD_MAPPING : mapping.
Variable INSTITUTION_FIELD_MAPPING : mapping.
Variable MAX_MATCHES_TO_STORE : nat.
Variable argsort_desc : list Q -> list nat.

Local Abbreviation run_match_st :=
  (match_st INDIVIDUAL_FIELD_MAPPING INSTITUTION_FIELD_MAPPING MAX_MATCHES_TO_STORE
            argsort_desc).

Lemma keeps_match (h0 : heap) (self_df cbs_data : ref) (source_record : record)
  (final_threshold : Q) :
  keeps h0 (run_match_st self_df cbs_data source_record final_threshold) (fun _ => True).
Proof.
  unfold match_st. eapply keeps_bind; [apply keeps_read_frame|].
  intros [cbs|] _; [|now apply keeps_ret].
  destruct (empty cbs); [now apply keeps_ret|]. cbv zeta.
  destruct (available_criteria_of _ _ source_record) as [|c0 cs] eqn:Eav;
    [now apply keeps_ret|].
  eapply keeps_bind; [apply keeps_get_normalized_weights|]. intros weights _.
  eapply keeps_bind; [apply keeps_alloc|]. intros pm Hpm.
  eapply keeps_bind; [now apply keeps_pad_account|]. intros _ _.
  eapply keeps_bind; [now apply keeps_cascade|]. intros pm' Hpm'.
  eapply keeps_bind; [apply keeps_read_frame|].
  intros [candidates|] _; [|now apply keeps_ret].
  destruct (rows candidates) as [|r0 rs] eqn:Er; [now apply keeps_ret|].
  eapply keeps_bind; [apply keeps_index_and_copy|]. intros matches Hm.
  eapply keeps_bind; [apply keeps_read_frame|].
  intros [selected|] _; [|now apply keeps_ret].
  destruct (rows selected); [now apply keeps_ret|].
  eapply keeps_bind; [now apply keeps_write|]. intros _ _.
  eapply keeps_bind; [apply keeps_alloc|]. intros _ _.
  now apply keeps_ret.
Qed.

(** ** The result on the store is the result of [match_] *)

Lemma nth_error_alloc (h : heap) (o : object) :
  nth_error (h ++ [o]) (List.length h) = Some o.
Proof. rewrite nth_error_app2 by lia. now rewrite Nat.sub_diag. Qed.

Lemma nth_error_update_same (h : heap) (r : ref) (o x : object) :
  nth_error h r = Some x -> nth_error (update h r o) r = Some o.
Proof.
  revert r. induction h as [|y h IH]; intros [|r] H; try discriminate; cbn in *.
  - reflexivity.
  - now apply IH.
Qed.

Lemma run_read_frame (h : heap) (r : ref) (df : DataFrame) :
  nth_error h r = Some (Frame df) -> read_frame r h = (Some df, h).
Proof. intros H. unfold read_frame, bind, read, ret. cbn. now rewrite H. Qed.

Lemma run_bind {A B} (m : M A) (k : A -> M B) (h h' : heap) (a : A) :
  m h = (a, h') -> bind m k h = k a h'.
Proof. intros E. unfold bind. now rewrite E. Qed.

Lemma index_and_copy_spec (df : DataFrame) (mask : list bool) (h : heap) :
  exists r h',
    index_and_copy df mask h = (r, h')
    /\ nth_error h' r
       = Some (Frame {| columns := columns df; rows := select (rows df) mask |}).
Proof.
  unfold index_and_copy, index_frame.
  rewrite (run_bind _ _ h (h ++ [Frame {| columns := columns df;
                                          rows := select (rows df) mask |}])
             (List.length h)) by reflexivity.
  rewrite (run_bind _ _ _ _ _ (run_read_frame _ _ _ (nth_error_alloc h _))).
  unfold copy_frame, alloc. eexists. eexists. split; [reflexivity|].
  apply nth_error_alloc.
Qed.

Lemma pad_account_spec (field_mapping : mapping) (pm : ref) (df : DataFrame) (h : heap) :
  nth_error h pm = Some (Frame df) ->
  exists h',
    pad_account_st field_mapping pm h = (tt, h')
    /\ nth_error h' pm = Some (Frame (pad_account_column field_mapping df)).
Proof.
  intros H. unfold pad_account_st.
  rewrite (run_bind _ _ _ _ _ (run_read_frame h pm df H)).
  unfold pad_account_column.
  destruct (cbs_field_of field_mapping "account_no") as [c|];
    [|exists h; split; [reflexivity | exact H]].
  destruct (str_in c (columns df)); [|exists h; split; [reflexivity | exact H]].
  unfold write. eexists. split; [reflexivity|].
  eapply nth_error_update_same, H.
Qed.

Lemma cascade_st_spec (field_mapping : mapping) (mapped_record : record)
  (available_criteria : list string) (fields : list (string * Q)) :
  forall (h : heap) (pm : ref) (df : DataFrame),
    nth_error h pm = Some (Frame df) ->
    exists pm' h',
      cascade_st field_mapping mapped_record available_criteria fields pm h = (pm', h')
      /\ nth_error h' pm'
         = Some (Frame {| columns := columns df;
                          rows := cascade field_mapping mapped_record available_criteria
                                          (columns df) fields (rows df) |}).
Proof.
  induction fields as [|[field threshold] fields IH]; intros h pm df H.
  - cbn [cascade_st cascade]. exists pm, h. split; [reflexivity|]. now destruct df.
  - cbn [cascade_st cascade].
    rewrite (run_bind _ _ _ _ _ (run_read_frame h pm df H)).
    destruct (negb (str_in field available_criteria)
              || match rows df with [] => true | _ => false end);
      [exact (IH h pm df H)|].
    destruct (usable_column field_mapping mapped_record (columns df) field) as [c|];
      [|exact (IH h pm df H)].
    cbv zeta.
    set (mask := map (fun s => Qgeb s threshold)
                     (_calculate_batch_text_similarity (series c (rows df))
                        (query_text field (get_value mapped_record field)))).
    change (prefilter_pass mapped_record field threshold c (rows df))
      with (select (rows df) mask).
    destruct (index_and_copy_spec df mask h) as [filtered [h1 [E Hf]]].
    rewrite (run_bind _ _ _ _ _ E).
    rewrite (run_bind _ _ _ _ _ (run_read_frame _ _ _ Hf)). cbn [rows].
    destruct (_ <=? Constants.MAX_CANDIDATES_AFTER_PREFILTER)%nat.
    + exists filtered, h1. split; [reflexivity | exact Hf].
    + exact (IH h1 filtered _ Hf).
Qed.

Lemma select_nil_same_mask {A B} (f : A -> B) (p : A -> bool) (l : list A) :
  select l (map p l) = [] <-> select (map f l) (map p l) = [].
Proof.
  rewrite RowFacts.select_map, RowFacts.select_map_map.
  destruct (filter p l); cbn; split; intros; congruence.
Qed.

(** What [match_st] returns is what [match_] returns on the frames the two
    addresses hold. *)
Lemma match_st_result (h : heap) (self_df cbs_data : ref)
  (weightage_df : WeightCalculator.weight_table) (cbs : DataFrame)
  (source_record : record) (final_threshold : Q) :
  nth_error h self_df = Some (Weights weightage_df) ->
  nth_error h cbs_data = Some (Frame cbs) ->
  fst (run_match_st self_df cbs_data source_record final_threshold h)
  = match_ INDIVIDUAL_FIELD_MAPPING INSTITUTION_FIELD_MAPPING MAX_MATCHES_TO_STORE
           argsort_desc weightage_df cbs source_record final_threshold.
Proof.
  intros Hself Hcbs. unfold match_st, match_.
  rewrite (run_bind _ _ _ _ _ (run_read_frame h cbs_data cbs Hcbs)).
  destruct (empty cbs); [reflexivity|]. cbv zeta.
  destruct (available_criteria_of _ _ source_record) as [|c0 cs] eqn:Eav; [reflexivity|].
  rewrite <- Eav.
  assert (Hw : _get_normalized_weights_st self_df source_record
                 (available_criteria_of INDIVIDUAL_FIELD_MAPPING INSTITUTION_FIELD_MAPPING
                                        source_record) h
               = (weights_of INDIVIDUAL_FIELD_MAPPING INSTITUTION_FIELD_MAPPING
                             weightage_df source_record, h)).
  { unfold _get_normalized_weights_st.
    rewrite (run_bind _ _ h h (Some (Weights weightage_df)))
      by (unfold read; now rewrite Hself).
    reflexivity. }
  rewrite (run_bind _ _ _ _ _ Hw).
  rewrite (run_bind _ _ h (h ++ [Frame cbs]) (List.length h)) by reflexivity.
  destruct (pad_account_spec
              (field_mapping_of INDIVIDUAL_FIELD_MAPPING INSTITUTION_FIELD_MAPPING
                                source_record)
              (List.length h) cbs (h ++ [Frame cbs]) (nth_error_alloc h (Frame cbs)))
    as [h2 [Epad Hpad]].
  rewrite (run_bind _ _ _ _ _ Epad).
  destruct (cascade_st_spec
              (field_mapping_of INDIVIDUAL_FIELD_MAPPING INSTITUTION_FIELD_MAPPING
                                source_record)
              (mapped_record_of INDIVIDUAL_FIELD_MAPPING INSTITUTION_FIELD_MAPPING
                                source_record)
              (available_criteria_of INDIVIDUAL_FIELD_MAPPING INSTITUTION_FIELD_MAPPING
                                     source_record)
              prefilter_fields h2 (List.length h) _ Hpad) as [pm' [h3 [Ecas Hcas]]].
  rewrite (run_bind _ _ _ _ _ Ecas).
  fold (prefilter INDIVIDUAL_FIELD_MAPPING INSTITUTION_FIELD_MAPPING cbs source_record)
    in Hcas.
  rewrite (run_bind _ _ _ _ _ (run_read_frame _ _ _ Hcas)). cbn [rows columns].
  destruct (prefilter INDIVIDUAL_FIELD_MAPPING INSTITUTION_FIELD_MAPPING cbs source_record)
    as [|r0 rs] eqn:Epre; [reflexivity|].
  rewrite <- Epre. clear Hcas.
  set (pm := prefilter INDIVIDUAL_FIELD_MAPPING INSTITUTION_FIELD_MAPPING cbs source_record)
    in *.
  set (weights := weights_of INDIVIDUAL_FIELD_MAPPING INSTITUTION_FIELD_MAPPING
                             weightage_df source_record).
  set (candidates :=
         {| columns := columns (pad_account_column
                                  (field_mapping_of INDIVIDUAL_FIELD_MAPPING
                                     INSTITUTION_FIELD_MAPPING source_record) cbs);
            rows := pm |}).
  set (scores := similarity_scores _ _ _ _ pm).
  set (total := total_scores pm weights scores).
  set (mask := map (fun s => Qgeb s final_threshold) total).
  destruct (index_and_copy_spec candidates mask h3) as [matches [h4 [Eidx Hm]]].
  rewrite (run_bind _ _ _ _ _ Eidx).
  rewrite (run_bind _ _ _ _ _ (run_read_frame _ _ _ Hm)). cbn [rows columns].
  change (rows candidates) with pm.
  change (score_and_threshold INDIVIDUAL_FIELD_MAPPING INSTITUTION_FIELD_MAPPING
            weightage_df cbs source_record pm final_threshold)
    with (select (annotate pm weights scores total) mask).
  assert (Hnil : select pm mask = [] <->
                 select (annotate pm weights scores total) mask = []).
  { unfold mask, total, scores.
    rewrite RowFacts.similarity_scores_map, RowFacts.total_scores_map,
      RowFacts.annotate_map, map_map.
    apply select_nil_same_mask. }
  destruct (select pm mask) as [|s0 ss] eqn:Esel.
  - rewrite (proj1 Hnil eq_refl). reflexivity.
  - unfold rank.
    destruct (select (annotate pm weights scores total) mask) as [|a0 as0] eqn:Ea.
    + destruct Hnil as [_ Hnil]. specialize (Hnil eq_refl). discriminate.
    + reflexivity.
Qed.

(** C9: a call of [match] changes no object that was in the store before the
    call: the reference frame and the weightage frame, in particular, are
    after the call what they were before it (the account numbers are padded
    in a copy), while the call returns what [match_] returns on them. *)
Theorem match_leaves_the_store_unchanged
  (h : heap) (self_df cbs_data : ref) (source_record : record) (final_threshold : Q) :
  let after := snd (run_match_st self_df cbs_data source_record final_threshold h) in
  firstn (List.length h) after = h
  /\ (forall r o, nth_error h r = Some o -> nth_error after r = Some o)
  /\ (forall weightage_df cbs,
         nth_error h self_df = Some (Weights weightage_df) ->
         nth_error h cbs_data = Some (Frame cbs) ->
         nth_error after self_df = Some (Weights weightage_df)
         /\ nth_error after cbs_data = Some (Frame cbs)
         /\ fst (run_match_st self_df cbs_data source_record final_threshold h)
            = match_ INDIVIDUAL_FIELD_MAPPING INSTITUTION_FIELD_MAPPING
                     MAX_MATCHES_TO_STORE argsort_desc weightage_df cbs source_record
                     final_threshold).
Proof.
  cbv zeta.
  destruct (keeps_match h self_df cbs_data source_record final_threshold h
              (extends_refl h)) as [[ext Hext] _].
  rewrite Hext.
  assert (Hold : forall r o, nth_error h r = Some o -> nth_error (h ++ ext) r = Some o).
  { intros r o H. rewrite nth_error_app1; [exact H|].
    apply nth_error_Some. congruence. }
  split; [|split].
  - rewrite firstn_app, Nat.sub_diag, firstn_all. cbn [firstn]. apply app_nil_r.
  - exact Hold.
  - intros df cbs Hself Hcbs. split; [now apply Hold|]. split; [now apply Hold|].
    now apply match_st_result.
Qed.

End MatchStore.

(** The padding of the account numbers is visible in a new object of the
    store, and the reference frame at address 1 is as it was. *)
Lemma match_pads_a_copy :
  nth_error
    (snd (match_st Constants.FIELD_MAPPING Constants.FIELD_MAPPING 2
            Examples.stable_argsort_desc 0%nat 1%nat Examples.institution_record
            (85 # 100)
            [Weights Examples.sample_weights; Frame Examples.sample_cbs])) 1
  = Some (Frame Examples.sample_cbs)
  /\ nth_error
       (snd (match_st Constants.FIELD_MAPPING Constants.FIELD_MAPPING 2
               Examples.stable_argsort_desc 0%nat 1%nat Examples.institution_record
               (85 # 100)
               [Weights Examples.sample_weights; Frame Examples.sample_cbs])) 2
     = Some (Frame (pad_account_column Constants.FIELD_MAPPING Examples.sample_cbs)).
Proof.
  split.
  - apply (proj1 (proj2 (match_leaves_the_store_unchanged Constants.FIELD_MAPPING
             Constants.FIELD_MAPPING 2 Examples.stable_argsort_desc
             [Weights Examples.sample_weights; Frame Examples.sample_cbs]
             0%nat 1%nat Examples.institution_record (85 # 100)))).
    reflexivity.
  - vm_compute. reflexivity.
Defined.

End StoreFacts.

(* ====================================================================== *)
(** * Properties: what [match] returns *)
(* ====================================================================== *)

Module MatchInvariants.
Import PyStr PyNum Data FuzzyMatcherComponent SimilaritySpec RowSpec EngineSpec RankSpec.
Import DictFacts RowFacts EngineFacts.
Local Open Scope list_scope.
Local Open Scope Q_scope.

Lemma In_firstn {A} (n : nat) (l : list A) (x : A) : In x (firstn n l) -> In x l.
Proof.
  revert l. induction n as [|n IH]; intros [|y l] H; simpl in H; try contradiction.
  destruct H as [H|H]; [left; exact H | right; now apply IH].
Qed.

Lemma In_take_order {A} (l : list A) (order : list nat) (x : A) :
  In x (take_order l order) -> In x l.
Proof.
  unfold take_order. rewrite in_flat_map. intros [i [_ H]].
  destruct (nth_error l i) as [y|] eqn:E; [|contradiction].
  destruct H as [H|[]]. subst y. eapply nth_error_In; eauto.
Qed.

Lemma length_take_order_firstn {A} (n : nat) (l : list A) : (List.length (firstn n l) <= n)%nat.
Proof. rewrite length_firstn. apply Nat.le_min_l. Qed.

Section Returned.

Variable INDIVIDUAL_FIELD_MAPPING : mapping.
Variable INSTITUTION_FIELD_MAPPING : mapping.
Variable MAX_MATCHES_TO_STORE : nat.
Variable argsort_desc : list Q -> list nat.
Variable weightage_df : WeightCalculator.weight_table.

Local Abbreviation run_match :=
  (match_ INDIVIDUAL_FIELD_MAPPING INSTITUTION_FIELD_MAPPING MAX_MATCHES_TO_STORE
          argsort_desc weightage_df).
Local Abbreviation working_copy :=
  (EngineSpec.working_copy INDIVIDUAL_FIELD_MAPPING INSTITUTION_FIELD_MAPPING).
Local Abbreviation total_of :=
  (EngineSpec.total_of INDIVIDUAL_FIELD_MAPPING INSTITUTION_FIELD_MAPPING weightage_df).
Local Abbreviation candidates_of :=
  (EngineSpec.candidates_of INDIVIDUAL_FIELD_MAPPING INSTITUTION_FIELD_MAPPING weightage_df).

Lemma rank_incl (matches : list match_row) (m : match_row) :
  In m (rank MAX_MATCHES_TO_STORE argsort_desc matches) -> In m matches.
Proof.
  unfold rank. destruct matches as [|m0 ms]; [intros []|].
  intros H. apply In_firstn in H. now apply In_take_order in H.
Qed.

Lemma rank_short (matches : list match_row) :
  (List.length (rank MAX_MATCHES_TO_STORE argsort_desc matches) <= MAX_MATCHES_TO_STORE)%nat.
Proof.
  unfold rank. destruct matches; [simpl; lia | apply length_take_order_firstn].
Qed.

Lemma candidates_of_In (cbs_data : DataFrame) (source_record : record)
  (final_threshold : Q) (m : match_row) :
  In m (candidates_of cbs_data source_record final_threshold) ->
  exists r,
    In r (rows (working_copy cbs_data source_record))
    /\ reaches INDIVIDUAL_FIELD_MAPPING INSTITUTION_FIELD_MAPPING weightage_df
               cbs_data source_record final_threshold r = true
    /\ m = annotate_of INDIVIDUAL_FIELD_MAPPING INSTITUTION_FIELD_MAPPING weightage_df
                       cbs_data source_record r.
Proof.
  unfold EngineSpec.candidates_of.
  destruct (empty cbs_data); [intros []|].
  destruct (available_criteria_of _ _ source_record); [intros []|].
  rewrite score_and_threshold_rows, in_map_iff.
  intros [r [Hm Hr]]. apply filter_In in Hr. destruct Hr as [Hin Hreach].
  exists r. split; [|split; [exact Hreach | now symmetry]].
  rewrite prefilter_spec in Hin.
  destruct (spec_cascade_is_filter
              (mapped_record_of INDIVIDUAL_FIELD_MAPPING INSTITUTION_FIELD_MAPPING source_record)
              (eligible_of INDIVIDUAL_FIELD_MAPPING INSTITUTION_FIELD_MAPPING
                           cbs_data source_record)
              (rows (working_copy cbs_data source_record))) as [q [Hq _]].
  rewrite Hq in Hin. apply filter_In in Hin. tauto.
Qed.

(** X1: whatever the sort does, every row [match] returns is a row of the
    working copy of the reference data (the data with the account numbers
    padded), carries the total that full scoring gives that row, reaches
    [final_threshold], has the status Matched and the weights of the query as
    its criteria; and [match] returns at most [MAX_MATCHES_TO_STORE] rows. *)
Theorem match_returns_scored_reference_rows
  (cbs_data : DataFrame) (source_record : record) (final_threshold : Q) (m : match_row) :
  In m (run_match cbs_data source_record final_threshold) ->
  In (cbs_row m) (rows (working_copy cbs_data source_record))
  /\ total_score m = total_of cbs_data source_record (cbs_row m)
  /\ final_threshold <= total_score m
  /\ match_status m = "Matched"
  /\ criteria m
     = weights_of INDIVIDUAL_FIELD_MAPPING INSTITUTION_FIELD_MAPPING weightage_df
                  source_record
  /\ (List.length (run_match cbs_data source_record final_threshold)
      <= MAX_MATCHES_TO_STORE)%nat.
Proof.
  intros H. rewrite match_is_rank in *.
  apply rank_incl, candidates_of_In in H. destruct H as [r [Hin [Hreach ->]]].
  unfold annotate_of, annotate_row. cbn [cbs_row total_score match_status criteria].
  split; [exact Hin|]. split; [reflexivity|].
  split; [|split; [reflexivity|split; [reflexivity | apply rank_short]]].
  unfold reaches, Qgeb in Hreach. apply Qle_bool_iff in Hreach. exact Hreach.
Qed.

End Returned.

Lemma match_returns_witness :
  exists m,
    In m (match_ Constants.FIELD_MAPPING Constants.FIELD_MAPPING 2
            Examples.stable_argsort_desc Examples.sample_weights
            Examples.sample_cbs Examples.institution_record (85 # 100))
    /\ 85 # 100 <= total_score m
    /\ match_status m = "Matched".
Proof.
  destruct (match_ Constants.FIELD_MAPPING Constants.FIELD_MAPPING 2
              Examples.stable_argsort_desc Examples.sample_weights
              Examples.sample_cbs Examples.institution_record (85 # 100))
    as [|m l] eqn:E.
  - vm_compute in E. discriminate.
  - exists m.
    assert (H : In m (match_ Constants.FIELD_MAPPING Constants.FIELD_MAPPING 2
                        Examples.stable_argsort_desc Examples.sample_weights
                        Examples.sample_cbs Examples.institution_record (85 # 100)))
      by (rewrite E; left; reflexivity).
    destruct (match_returns_scored_reference_rows _ _ _ _ _ _ _ _ m H)
      as [_ [_ [H3 [H4 _]]]].
    split; [left; reflexivity|]. split; [exact H3 | exact H4].
Defined.

End MatchInvariants.

(* ====================================================================== *)
(** * Properties: the query record *)
(* ====================================================================== *)

Module RecordFacts.
Import PyStr PyNum Data FuzzyMatcherComponent.
Import DictFacts.
Local Open Scope list_scope.

Lemma set_keeps_nodup {V} (d : PyDict.dict V) (k : string) (v : V) :
  NoDup (PyDict.keys d) -> NoDup (PyDict.keys (PyDict.set d k v)).
Proof.
  intros H. destruct (in_dec string_dec k (PyDict.keys d)) as [Hin|Hout].
  - now rewrite keys_set_in.
  - rewrite keys_set_notin by exact Hout. now apply WeightFacts.nodup_snoc.
Qed.

Lemma map_record_keys (field_mapping : mapping) (flat : record) :
  NoDup (PyDict.keys (map_record field_mapping flat))
  /\ (forall k, In k (PyDict.keys (map_record field_mapping flat)) ->
                In k (PyDict.keys field_mapping)).
Proof.
  unfold map_record.
  set (step := fun (mapped_record : record) (entry : string * (string * string)) =>
                 match PyDict.get (source_dict_lower flat) (lower (snd (snd entry))) with
                 | Some original_key =>
                     PyDict.set mapped_record (fst entry) (get_value flat original_key)
                 | None => mapped_record
                 end).
  assert (G : forall l (d : record),
             NoDup (PyDict.keys d) ->
             NoDup (PyDict.keys (fold_left step l d))
             /\ (forall k, In k (PyDict.keys (fold_left step l d)) ->
                           In k (PyDict.keys d) \/ In k (PyDict.keys l))).
  { induction l as [|e l IH]; intros d Hd; simpl; [auto|].
    assert (Hs : NoDup (PyDict.keys (step d e))
                 /\ (forall k, In k (PyDict.keys (step d e)) ->
                               In k (PyDict.keys d) \/ k = fst e)).
    { unfold step.
      destruct (PyDict.get (source_dict_lower flat) (lower (snd (snd e)))); [|auto].
      split; [now apply set_keeps_nodup|].
      intros k Hk. apply keys_set_incl in Hk. tauto. }
    destruct Hs as [Hn Hk]. destruct (IH _ Hn) as [IH1 IH2].
    split; [exact IH1|]. intros k H. destruct (IH2 k H) as [H'|H']; [|auto].
    destruct (Hk k H') as [H''|H'']; [auto|]. right. left. now symmetry. }
  destruct (G field_mapping [] (NoDup_nil _)) as [G1 G2].
  split; [exact G1|]. intros k H. destruct (G2 k H) as [[]|H']. exact H'.
Qed.

Lemma NoDup_keys_filter {V} (p : string * V -> bool) (d : PyDict.dict V) :
  NoDup (PyDict.keys d) -> NoDup (PyDict.keys (filter p d)).
Proof.
  unfold PyDict.keys. induction d as [|[k v] d IH]; simpl; intros H; [constructor|].
  inversion H as [|? ? Hk Hd]; subst.
  destruct (p (k, v)); simpl; [|now apply IH].
  constructor; [|now apply IH].
  intros Hin. apply Hk. rewrite in_map_iff in *.
  destruct Hin as [x [Hx Hin]]. exists x. split; [exact Hx|].
  apply filter_In in Hin. tauto.
Qed.

Lemma available_criteria_spec (mapped_record : record) (c : string) :
  NoDup (PyDict.keys mapped_record) ->
  In c (_get_available_criteria mapped_record)
  <-> In c (PyDict.keys mapped_record) /\ truthy (get_value mapped_record c) = true.
Proof.
  intros Hn. unfold _get_available_criteria, get_value.
  change (map fst (filter (fun kv => truthy (snd kv)) mapped_record))
    with (PyDict.keys (filter (fun kv : string * value => truthy (snd kv)) mapped_record)).
  unfold PyDict.keys. rewrite in_map_iff. split.
  - intros [[k v] [Hk Hin]]. simpl in Hk. subst k. apply filter_In in Hin.
    destruct Hin as [Hin Ht]. simpl in Ht.
    rewrite (WeightFacts.In_get_nodup mapped_record c v Hn Hin).
    split; [|exact Ht]. apply in_map_iff. exists (c, v). auto.
  - intros [Hin Ht]. apply in_map_iff in Hin. destruct Hin as [[k v] [Hk Hin]].
    simpl in Hk. subst k.
    rewrite (WeightFacts.In_get_nodup mapped_record c v Hn Hin) in Ht.
    exists (c, v). split; [reflexivity|]. apply filter_In. auto.
Qed.

Section Criteria.

Variable INDIVIDUAL_FIELD_MAPPING : mapping.
Variable INSTITUTION_FIELD_MAPPING : mapping.

(** X2: the criteria [match] derives from a query record never repeat, each
    is a standard field of the field mapping in use, and each has a value in
    the mapped record that is neither missing nor empty; so the conditions
    handed to [get_weights] are duplicate-free. *)
Theorem available_criteria_are_mapped_fields (source_record : record) :
  NoDup (available_criteria_of INDIVIDUAL_FIELD_MAPPING INSTITUTION_FIELD_MAPPING
                               source_record)
  /\ forall c,
       In c (available_criteria_of INDIVIDUAL_FIELD_MAPPING INSTITUTION_FIELD_MAPPING
                                   source_record) ->
       In c (PyDict.keys (field_mapping_of INDIVIDUAL_FIELD_MAPPING
                                           INSTITUTION_FIELD_MAPPING source_record))
       /\ truthy (get_value (mapped_record_of INDIVIDUAL_FIELD_MAPPING
                                              INSTITUTION_FIELD_MAPPING source_record) c)
          = true
       /\ missing_value (get_value (mapped_record_of INDIVIDUAL_FIELD_MAPPING
                                      INSTITUTION_FIELD_MAPPING source_record) c)
          = false.
Proof.
  unfold available_criteria_of, mapped_record_of.
  set (fm := field_mapping_of INDIVIDUAL_FIELD_MAPPING INSTITUTION_FIELD_MAPPING
                              source_record).
  set (flat := flatten (_determine_entity_type source_record) source_record).
  destruct (map_record_keys fm flat) as [Hn Hk].
  split.
  - unfold _get_available_criteria.
    change (map fst (filter (fun kv => truthy (snd kv)) (map_record fm flat)))
      with (PyDict.keys (filter (fun kv : string * value => truthy (snd kv))
                                (map_record fm flat))).
    now apply NoDup_keys_filter.
  - intros c Hc. apply (available_criteria_spec _ c Hn) in Hc.
    destruct Hc as [Hin Ht]. split; [now apply Hk|]. split; [exact Ht|].
    destruct (get_value (map_record fm flat) c) as [|s|d]; simpl in *;
      [discriminate | | reflexivity].
    now destruct (String.eqb s "").
Qed.

End Criteria.

(** X3: the entity type of a record is never empty and is already in lower
    case; an [entity_type] that is a non-empty string decides it, whatever
    the other fields say; without one, a company name or registration number
    makes the record an institution and anything else an individual; and
    storing the entity type in the record, as [get_ticket_matches] does
    before it calls [match], does not change what [match] determines. *)
Theorem entity_type_is_stable (r : record) :
  _determine_entity_type r <> ""
  /\ lower (_determine_entity_type r) = _determine_entity_type r
  /\ _determine_entity_type
       (PyDict.set r "entity_type" (VStr (_determine_entity_type r)))
     = _determine_entity_type r
  /\ (forall s, get_value r "entity_type" = VStr s -> s <> "" ->
                _determine_entity_type r = lower s)
  /\ ((forall s, get_value r "entity_type" = VStr s -> s = "") ->
      _determine_entity_type r
      = if truthy (get_value r "company_registration_number")
           || truthy (get_value r "company_name")
        then "institution" else "individual").
Proof.
  split; [|split; [|split; [|split]]].
  - intros E. pose proof (EntityFacts.determine_entity_type_not_empty r) as H.
    rewrite E in H. discriminate.
  - apply EntityFacts.determine_entity_type_lower.
  - apply EntityFacts.determine_entity_type_stored.
  - intros s E Hs. unfold _determine_entity_type. rewrite E.
    apply String.eqb_neq in Hs. now rewrite Hs.
  - intros H. unfold _determine_entity_type.
    destruct (get_value r "entity_type") as [|s|d]; try reflexivity.
    rewrite (H s eq_refl). reflexivity.
Qed.

End RecordFacts.

(* ====================================================================== *)
(** * Properties: the similarity of equal and of missing values *)
(* ====================================================================== *)

Module SimilarityEdges.
Import PyStr PyNum RapidFuzz Data FuzzyMatcherComponent SimilaritySpec.
Import SimilarityFacts.
Local Open Scope list_scope.

Lemma lcs_length_refl (a : string) : lcs_length a a = String.length a.
Proof.
  induction a as [|x a IH]; [reflexivity|].
  change (lcs_length (String x a) (String x a))
    with (if Ascii.eqb x x then S (lcs_length a a)
          else Nat.max (lcs_length a (String x a)) (lcs_length (String x a) a)).
  rewrite Ascii.eqb_refl, IH. reflexivity.
Qed.

Lemma cdist_uint8_same (a : string) : cdist_uint8 a a = 100%Z.
Proof.
  unfold cdist_uint8, ratio. rewrite lcs_length_refl.
  destruct (String.length a) as [|n] eqn:E; [reflexivity|].
  replace (S n + S n)%nat with (S (n + S n)) by lia.
  unfold llround. cbn [Qnum Qden].
  set (k := Z.of_nat (S n)).
  assert (Hd : Zpos (Pos.of_nat (S (n + S n))) = (2 * k)%Z).
  { rewrite <- positive_nat_Z, Nat2Pos.id by lia. unfold k. lia. }
  rewrite Hd.
  assert (Hk : (0 < k)%Z) by (unfold k; lia).
  destruct (0 <=? 200 * k)%Z eqn:E0; [|apply Z.leb_gt in E0; lia].
  replace ((2 * (200 * k) + 2 * k) / (2 * (2 * k)))%Z with 100%Z; [reflexivity|].
  apply (Z.div_unique _ _ 100 (2 * k))%Z; lia.
Qed.

Lemma llround_zero (p : positive) : llround (0 # p) = 0%Z.
Proof.
  unfold llround. cbn [Qnum Qden].
  change (0 <=? 0)%Z with true. cbv iota.
  rewrite Z.mul_0_r, Z.add_0_l. apply Z.div_small. lia.
Qed.

Lemma cdist_uint8_empty (b : string) : b <> "" -> cdist_uint8 "" b = 0%Z.
Proof.
  intros Hb. unfold cdist_uint8, ratio. cbn [lcs_length String.length Nat.add].
  destruct (String.length b) as [|n] eqn:E.
  - destruct b; [congruence | discriminate].
  - change (200 * Z.of_nat 0)%Z with 0%Z. rewrite llround_zero. reflexivity.
Qed.

Lemma text_similarity_same (q : string) (c : cell) :
  q <> "" -> _preprocess_text q <> "" ->
  _preprocess_text (fillna c) = _preprocess_text q ->
  (text_similarity q c == 1)%Q.
Proof.
  intros Hq Hp E. unfold text_similarity.
  apply String.eqb_neq in Hq. apply String.eqb_neq in Hp. rewrite Hq, Hp, E.
  rewrite cdist_uint8_same. reflexivity.
Qed.

Lemma text_similarity_blank (q : string) (c : cell) :
  _preprocess_text (fillna c) = "" -> (text_similarity q c == 0)%Q.
Proof.
  intros E. unfold text_similarity.
  destruct (String.eqb q ""); [reflexivity|].
  destruct (String.eqb (_preprocess_text q) "") eqn:Hp; [reflexivity|].
  apply String.eqb_neq in Hp. rewrite E, (cdist_uint8_empty _ Hp). reflexivity.
Qed.

Lemma nth_error_map_some {A B} (f : A -> B) (l : list A) (i : nat) (x : A) :
  nth_error l i = Some x -> nth_error (map f l) i = Some (f x).
Proof. intros H. rewrite nth_error_map, H. reflexivity. Qed.

Lemma date_similarity_same (q d : string) (c : cell) :
  q <> "" ->
  Utils.standardize_date_format q = Some d ->
  Utils.standardize_date_format (astype_str c) = Some d ->
  (date_similarity q c == 1)%Q.
Proof.
  intros Hq Hd Hc. unfold date_similarity, standardize_cell.
  apply String.eqb_neq in Hq. rewrite Hq, Hd, Hc, cdist_uint8_same. reflexivity.
Qed.

Lemma standardized_not_empty (q d : string) :
  Utils.standardize_date_format q = Some d -> d <> "".
Proof.
  unfold Utils.standardize_date_format. destruct (String.eqb q ""); [discriminate|].
  intros H. apply DateFacts.try_formats_some in H.
  destruct H as [pre [f [post [t [_ [_ [_ ->]]]]]]].
  destruct (DateFacts.strftime_Ymd_shape t) as [Hl _].
  intros E. rewrite E in Hl. discriminate.
Qed.

Lemma date_similarity_unparsed (q : string) (c : cell) :
  Utils.standardize_date_format (astype_str c) = None ->
  (date_similarity q c == 0)%Q.
Proof.
  intros Hc. unfold date_similarity, standardize_cell.
  destruct (String.eqb q ""); [reflexivity|].
  destruct (Utils.standardize_date_format q) as [d|] eqn:Hd; [|reflexivity].
  rewrite Hc, (cdist_uint8_empty d (standardized_not_empty q d Hd)). reflexivity.
Qed.

(** X4: the batch text similarity gives one score per cell, in the order of
    the cells; a missing (NaN) cell, and any cell whose text normalizes to
    the empty string, scores 0; when the query is empty or normalizes to the
    empty string every score is 0; and a cell whose normalized text equals
    the normalized query scores exactly 1, whatever their case, blanks or
    punctuation were. *)
Theorem batch_text_similarity_edges (series : list cell) (query_value : string) :
  List.length (_calculate_batch_text_similarity series query_value) = List.length series
  /\ (query_value = "" \/ _preprocess_text query_value = "" ->
      _calculate_batch_text_similarity series query_value = zeros series)
  /\ forall i c,
       nth_error series i = Some c ->
       exists v,
         nth_error (_calculate_batch_text_similarity series query_value) i = Some v
         /\ (c = None -> v == 0)%Q
         /\ (_preprocess_text (fillna c) = "" -> v == 0)%Q
         /\ (query_value <> "" -> _preprocess_text query_value <> "" ->
             _preprocess_text (fillna c) = _preprocess_text query_value -> v == 1)%Q.
Proof.
  split; [|split].
  - rewrite batch_text_map. apply length_map.
  - intros H. unfold _calculate_batch_text_similarity.
    destruct series as [|c0 series]; [reflexivity|].
    destruct H as [-> | H]; [reflexivity|].
    destruct (String.eqb query_value ""); [reflexivity|].
    rewrite H. reflexivity.
  - intros i c Hc. rewrite batch_text_map.
    exists (text_similarity query_value c).
    split; [now apply nth_error_map_some|].
    split; [|split].
    + intros ->. now apply text_similarity_blank.
    + apply text_similarity_blank.
    + apply text_similarity_same.
Qed.

(** X5: the batch date similarity gives one score per cell; when the query
    is no date of any layout every score is 0; a missing (NaN) cell and a
    cell that is no date score 0; and a cell that denotes the date of the
    query scores exactly 1, in whatever layouts the two are written. *)
Theorem batch_date_similarity_edges (date_series : list cell) (query_date : string) :
  List.length (_calculate_batch_date_similarity date_series query_date)
  = List.length date_series
  /\ (Utils.standardize_date_format query_date = None ->
      _calculate_batch_date_similarity date_series query_date = zeros date_series)
  /\ forall i c,
       nth_error date_series i = Some c ->
       exists v,
         nth_error (_calculate_batch_date_similarity date_series query_date) i = Some v
         /\ (c = None -> v == 0)%Q
         /\ (Utils.standardize_date_format (astype_str c) = None -> v == 0)%Q
         /\ (forall d, Utils.standardize_date_format query_date = Some d ->
                       Utils.standardize_date_format (astype_str c) = Some d ->
                       v == 1)%Q.
Proof.
  split; [|split].
  - rewrite batch_date_map. apply length_map.
  - intros H. unfold _calculate_batch_date_similarity.
    destruct date_series as [|c0 l]; [reflexivity|].
    destruct (String.eqb query_date ""); [reflexivity|].
    rewrite H. reflexivity.
  - intros i c Hc. rewrite batch_date_map.
    exists (date_similarity query_date c).
    split; [now apply nth_error_map_some|].
    split; [|split].
    + intros ->. apply date_similarity_unparsed. vm_compute. reflexivity.
    + apply date_similarity_unparsed.
    + intros d Hq Hd. apply (date_similarity_same query_date d c); auto.
      intros ->. discriminate.
Qed.

End SimilarityEdges.

(* ====================================================================== *)
(** * Properties: the range of the weights *)
(* ====================================================================== *)

Module WeightBounds.
Import PyStr PyNum WeightCalculator WeightSpec.
Import DictFacts WeightFacts.
Local Open Scope list_scope.
Local Open Scope Q_scope.

(** Rounding to hundredths adds at most half a hundredth. *)
Lemma round2_upper (q : Q) : round2 q <= q + (1 # 200).
Proof.
  pose proof (RoundFacts.round_half_even_spec (q * 100)) as [H _].
  assert (H1 : inject_Z (round_half_even (q * 100)) <= q * 100 + (1 # 2)).
  { unfold Qle, Qplus, inject_Z. cbn [Qnum Qden].
    rewrite Pos2Z.inj_mul.
    set (r := round_half_even (q * 100)) in *.
    set (d := Zpos (Qden (q * 100))) in *.
    set (n := Qnum (q * 100)) in *. clearbody r d n. lia. }
  assert (H2 : round2 q == inject_Z (round_half_even (q * 100)) * (1 # 100)).
  { unfold round2, Qeq, Qmult, inject_Z. cbn [Qnum Qden]. lia. }
  rewrite H2. lra.
Qed.

Lemma inject_succ (n : nat) :
  inject_Z (Z.of_nat (S n)) == inject_Z (Z.of_nat n) + 1.
Proof. rewrite Nat2Z.inj_succ. unfold Z.succ. now rewrite inject_Z_plus. Qed.

Lemma qsum_round2_upper {A} (f : A -> Q) (l : list A) :
  qsum (map (fun x => round2 (f x)) l)
  <= qsum (map f l) + inject_Z (Z.of_nat (List.length l)) * (1 # 200).
Proof.
  induction l as [|x l IH].
  - cbn [map List.length Z.of_nat]. change (inject_Z 0) with 0.
    unfold qsum. cbn [fold_right]. lra.
  - cbn [map List.length]. rewrite !qsum_cons, inject_succ.
    pose proof (round2_upper (f x)). lra.
Qed.

Lemma qsum_constant {A} (w : Q) (l : list A) :
  qsum (map (fun _ => w) l) == inject_Z (Z.of_nat (List.length l)) * w.
Proof.
  induction l as [|x l IH].
  - cbn [map List.length Z.of_nat]. change (inject_Z 0) with 0.
    unfold qsum. cbn [fold_right]. lra.
  - cbn [map List.length]. rewrite qsum_cons, inject_succ, IH. lra.
Qed.

Lemma In_le_qsum (l : list Q) (v : Q) :
  Forall (fun x => 0 <= x) l -> In v l -> v <= qsum l.
Proof.
  induction l as [|x l IH]; intros Hl Hv; [destruct Hv|].
  inversion Hl as [|? ? Hx Hl']; subst. rewrite qsum_cons.
  pose proof (qsum_nonneg l Hl').
  destruct Hv as [->|Hv]; [lra|]. specialize (IH Hl' Hv). lra.
Qed.

Lemma values_le_weight (w : PyDict.dict Q) (k : string) :
  NoDup (PyDict.keys w) ->
  (forall k', In k' (PyDict.keys w) -> weight_of w k' <= weight_of w k) ->
  Forall (fun v => v <= weight_of w k) (PyDict.values w).
Proof.
  intros Hnd Hmax. apply Forall_forall. intros v Hv.
  unfold PyDict.values in Hv. apply in_map_iff in Hv.
  destruct Hv as [[k' v'] [E Hin]]. simpl in E. subst v'.
  assert (Hk' : In k' (PyDict.keys w)).
  { unfold PyDict.keys. apply in_map_iff. exists (k', v). auto. }
  specialize (Hmax k' Hk'). unfold weight_of at 1 in Hmax.
  now rewrite (In_get_nodup w k' v Hnd Hin) in Hmax.
Qed.

(** The weights before the adjustment exceed one by at most half a hundredth
    for each of them. *)
Lemma equal_weights_near_one (conds : list string) :
  conds <> [] -> NoDup conds ->
  let weight := round2 (1 / inject_Z (Z.of_nat (List.length conds))) in
  let w0 := fold_left (fun d cond => PyDict.set d cond weight) conds [] in
  qsum (PyDict.values w0) <= 1 + inject_Z (Z.of_nat (List.length w0)) * (1 # 200).
Proof.
  intros Hne Hnd weight w0. unfold w0.
  rewrite (fold_set_fresh weight conds [] Hnd) by (intros c _ []).
  cbn [app]. unfold PyDict.values. rewrite map_map, length_map. cbn [snd].
  rewrite qsum_constant.
  set (N := inject_Z (Z.of_nat (List.length conds))).
  assert (HN : 0 < N).
  { unfold N. change 0 with (inject_Z 0). rewrite <- Zlt_Qlt.
    destruct conds; [congruence | simpl; lia]. }
  pose proof (round2_upper (1 / N)) as Hr. fold weight in Hr.
  assert (H1 : N * weight <= N * (1 / N + (1 # 200))).
  { apply Qmult_le_l; [exact HN | exact Hr]. }
  assert (H2 : N * (1 / N) == 1) by (apply Qmult_div_r; lra).
  rewrite Qmult_plus_distr_r, H2 in H1. exact H1.
Qed.

Lemma normalize_near_one (raw : PyDict.dict Q) (total : Q) :
  total == qsum (PyDict.values raw) -> 0 < total ->
  qsum (PyDict.values (normalize raw total))
  <= 1 + inject_Z (Z.of_nat (List.length (normalize raw total))) * (1 # 200).
Proof.
  intros Htot Hpos.
  assert (Hvals : PyDict.values (normalize raw total)
                  = map (fun w => round2 (w / total)) (PyDict.values raw)).
  { unfold normalize, PyDict.values. rewrite !map_map. reflexivity. }
  assert (Hlen : List.length (normalize raw total) = List.length (PyDict.values raw)).
  { unfold normalize, PyDict.values. now rewrite !length_map. }
  rewrite Hvals, Hlen.
  pose proof (qsum_round2_upper (fun w => w / total) (PyDict.values raw)) as H.
  rewrite qsum_div in H.
  assert (Hone : qsum (PyDict.values raw) / total == 1).
  { rewrite <- Htot. unfold Qdiv. apply Qmult_inv_r. lra. }
  rewrite Hone in H. exact H.
Qed.

Lemma fill_missing_near_one (esc : list string) (l : list string) :
  forall d : PyDict.dict Q,
    qsum (PyDict.values d) <= 1 + inject_Z (Z.of_nat (List.length d)) * (1 # 200) ->
    qsum (PyDict.values (fold_left (fill_missing esc) l d))
    <= 1 + inject_Z (Z.of_nat (List.length (fold_left (fill_missing esc) l d)))
           * (1 # 200).
Proof.
  induction l as [|key l IH]; intros d Hd; cbn [fold_left]; [exact Hd|].
  apply IH. unfold fill_missing.
  destruct (str_in key esc && negb (PyDict.mem d key)) eqn:E; [|exact Hd].
  apply andb_true_iff in E. destruct E as [_ E].
  apply negb_true_iff, mem_false_keys in E.
  rewrite (values_set_notin _ _ _ E), (set_notin _ _ _ E), qsum_app, length_app.
  cbn [List.length]. rewrite Nat.add_1_r, inject_succ, qsum_cons.
  unfold qsum at 2. cbn [fold_right]. lra.
Qed.

Lemma lookup_weights_bounded (df : weight_table) (entity : string)
  (conditions : list string) (e : string) :
  NoDup conditions ->
  valid_conditions_of entity conditions <> [] ->
  exists w0,
    lookup_weights df e (applicable (lower (strip entity))) conditions
                   (valid_conditions_of entity conditions)
    = _adjust_for_rounding w0 (valid_conditions_of entity conditions)
    /\ well_formed w0 (valid_conditions_of entity conditions)
    /\ (forall c, In c (valid_conditions_of entity conditions) -> In c (PyDict.keys w0))
    /\ qsum (PyDict.values w0) <= 1 + inject_Z (Z.of_nat (List.length w0)) * (1 # 200).
Proof.
  intros Hnd Hne.
  set (valid := valid_conditions_of entity conditions) in *.
  assert (Hvnd : NoDup valid) by now apply NoDup_filter.
  assert (Hvlen : (List.length valid <= 6)%nat) by now apply valid_conditions_length.
  assert (Hequal :
    exists w0,
      _get_equal_weights valid = _adjust_for_rounding w0 valid
      /\ well_formed w0 valid
      /\ (forall c, In c valid -> In c (PyDict.keys w0))
      /\ qsum (PyDict.values w0)
         <= 1 + inject_Z (Z.of_nat (List.length w0)) * (1 # 200)).
  { destruct (equal_weights_well_formed valid Hne Hvnd ltac:(lia)) as [Hwf Hk].
    pose proof (equal_weights_near_one valid Hne Hvnd) as Hn. cbv zeta in Hwf, Hk, Hn.
    eexists. split; [|split; [exact Hwf | split; [|exact Hn]]].
    - unfold _get_equal_weights. destruct valid; [congruence | reflexivity].
    - intros c Hc. now rewrite Hk. }
  unfold lookup_weights. cbv zeta.
  destruct (filter _ df) as [|row rest]; [exact Hequal|].
  destruct (Qeq_bool (snd (collect_raw row valid)) 0) eqn:E0; [exact Hequal|].
  destruct (collect_raw_spec row valid Hvnd) as [H1 [H2 [H3 H4]]].
  assert (Hnz : ~ snd (collect_raw row valid) == 0).
  { intros H. apply Qeq_bool_iff in H. congruence. }
  assert (Hrawlen : (List.length (fst (collect_raw row valid)) < 200)%nat).
  { assert (Hl : (List.length (PyDict.keys (fst (collect_raw row valid)))
                  <= List.length valid)%nat) by now apply NoDup_incl_length.
    unfold PyDict.keys in Hl. rewrite length_map in Hl. lia. }
  pose proof (normalize_well_formed _ _ valid H1 H2 H3 H4 Hnz Hrawlen) as Hwf.
  assert (Htpos : 0 < snd (collect_raw row valid)).
  { assert (H0 : 0 <= snd (collect_raw row valid)).
    { rewrite H4. apply qsum_nonneg. eapply Forall_impl; [|exact H3].
      intros v Hv. cbv beta in Hv. lra. }
    destruct (Qlt_le_dec 0 (snd (collect_raw row valid))) as [Hp|Hn]; [exact Hp|].
    exfalso. apply Hnz. lra. }
  pose proof (normalize_near_one _ _ H4 Htpos) as Hnear.
  destruct (fill_all_spec (applicable (lower (strip entity))) valid conditions
              (normalize (fst (collect_raw row valid)) (snd (collect_raw row valid))))
    as [G1 [G2 G3]]; [|exact Hwf|].
  - intros key Hk Hesc. apply valid_conditions_In. split; [exact Hk|].
    now apply str_in_In.
  - eexists. split; [reflexivity|]. split; [exact G1|]. split.
    + intros c Hc. apply valid_conditions_In in Hc. destruct Hc as [Hc1 Hc2].
      apply G3; [exact Hc1 | now apply str_in_In].
    + now apply fill_missing_near_one.
Qed.

Lemma adjust_range (w0 : PyDict.dict Q) (valid : list string) :
  well_formed w0 valid -> (List.length w0 <= 6)%nat ->
  qsum (PyDict.values w0) <= 1 + inject_Z (Z.of_nat (List.length w0)) * (1 # 200) ->
  Forall (fun v => 0 <= v /\ v <= 1 /\ hundredth v)
         (PyDict.values (_adjust_for_rounding w0 valid)).
Proof.
  intros Hwf Hlen Hnear.
  pose proof (adjust_for_rounding_sum w0 valid Hwf) as Hsum.
  assert (Hnn : Forall (fun v => 0 <= v /\ hundredth v)
                       (PyDict.values (_adjust_for_rounding w0 valid))).
  { destruct Hwf as [Hnd Hh H0 Hpos Hkeys].
    assert (Hold : Forall (fun v => 0 <= v /\ hundredth v) (PyDict.values w0)).
    { apply Forall_forall. intros v Hv. rewrite Forall_forall in H0, Hh. auto. }
    destruct (adjust_for_rounding_spec w0 valid
                (Build_well_formed _ _ Hnd Hh H0 Hpos Hkeys))
      as [[_ Eadj]|[_ [k [Hk [Hmax [Eadj Hv]]]]]]; rewrite Eadj; [exact Hold|].
    destruct (values_set_in w0 k
                (round2 (weight_of w0 k + round2 (1 - qsum (PyDict.values w0)))) Hk)
      as [d1 [v0 [d2 [E [Hget Eset]]]]].
    rewrite Eset.
    rewrite E in Hold. unfold PyDict.values in Hold |- *.
    rewrite map_app in Hold |- *. cbn [map snd] in Hold |- *.
    apply Forall_app in Hold. destruct Hold as [Ho1 Ho2].
    apply Forall_inv_tail in Ho2.
    apply Forall_app. split; [exact Ho1|]. constructor; [|exact Ho2].
    split; [|apply hundredth_round2].
    rewrite Hv.
    pose proof (values_le_weight w0 k Hnd Hmax) as Hle.
    apply qsum_bound in Hle.
    assert (Hl : List.length (PyDict.values w0) = List.length w0)
      by (unfold PyDict.values; apply length_map).
    rewrite Hl in Hle.
    assert (H1 : (1 <= List.length w0)%nat).
    { destruct w0; [destruct Hk | simpl; lia]. }
    set (S0 := qsum (PyDict.values w0)) in *.
    set (wk := weight_of w0 k) in *.
    destruct (List.length w0) as [|[|[|[|[|[|[|n]]]]]]]; try lia;
      cbn [Z.of_nat Pos.of_succ_nat Pos.succ] in Hle, Hnear;
      unfold inject_Z in Hle, Hnear; lra. }
  apply Forall_forall. intros v Hv.
  rewrite Forall_forall in Hnn. destruct (Hnn v Hv) as [H0 Hh].
  split; [exact H0|]. split; [|exact Hh].
  rewrite <- Hsum. apply In_le_qsum; [|exact Hv].
  apply Forall_forall. intros x Hx. now destruct (Hnn x Hx).
Qed.

Lemma get_weights_ok_inv (df : weight_table) (entity : string)
  (conditions : list string) (w : PyDict.dict Q) :
  get_weights df entity conditions = Ok w ->
  df <> [] /\ known_entity entity = true
  /\ valid_conditions_of entity conditions <> []
  /\ w = lookup_weights df (lower (strip entity)) (applicable (lower (strip entity)))
                        conditions (valid_conditions_of entity conditions).
Proof.
  unfold get_weights. destruct df as [|r0 df]; [discriminate|].
  destruct conditions as [|c0 cs]; [discriminate|].
  destruct (String.eqb entity ""); [discriminate|].
  unfold known_entity.
  destruct (PyDict.mem ENTITY_CONDITIONS (lower (strip entity))); [|discriminate].
  cbn [negb]. cbv zeta.
  fold (applicable (lower (strip entity))).
  fold (valid_conditions_of entity (c0 :: cs)).
  destruct (valid_conditions_of entity (c0 :: cs)) eqn:E; [discriminate|].
  intros H. injection H as <-. repeat split; congruence.
Qed.

(** X6: when [get_weights] returns weights for a duplicate-free list of
    conditions, the keys of the result are exactly the conditions that apply
    to the entity type, each once, so that a condition that does not apply is
    dropped without an error; and every weight is a whole number of
    hundredths between 0 and 1, also the one the rounding residual was added
    to. *)
Theorem get_weights_in_unit_interval
  (df : weight_table) (entity : string) (conditions : list string) (w : PyDict.dict Q) :
  NoDup conditions ->
  get_weights df entity conditions = Ok w ->
  NoDup (PyDict.keys w)
  /\ (forall k, In k (PyDict.keys w)
                <-> In k conditions /\ In k (applicable (lower (strip entity))))
  /\ Forall (fun v => 0 <= v /\ v <= 1 /\ hundredth v) (PyDict.values w).
Proof.
  intros Hnd Hok.
  destruct (get_weights_ok_inv df entity conditions w Hok) as [_ [_ [Hne ->]]].
  destruct (lookup_weights_bounded df entity conditions (lower (strip entity)) Hnd Hne)
    as [w0 [-> [Hwf [Hall Hnear]]]].
  rewrite (adjust_for_rounding_keys w0 _ Hwf).
  split; [apply (wf_nodup _ _ Hwf)|]. split.
  - intros k. rewrite <- valid_conditions_In. split.
    + apply (wf_keys _ _ Hwf).
    + apply Hall.
  - apply adjust_range; [exact Hwf | | exact Hnear].
    assert (Hl : (List.length (PyDict.keys w0)
                  <= List.length (valid_conditions_of entity conditions))%nat).
    { apply NoDup_incl_length; [apply (wf_nodup _ _ Hwf)|].
      intros k. apply (wf_keys _ _ Hwf). }
    unfold PyDict.keys in Hl. rewrite length_map in Hl.
    pose proof (valid_conditions_length entity conditions Hnd). lia.
Qed.

Lemma get_weights_in_unit_interval_witness :
  exists w,
    get_weights Examples.sample_weights "Individual"
                ["name"; "dob"; "citizenship_no"; "account_no"] = Ok w
    /\ PyDict.keys w = ["name"; "dob"; "citizenship_no"]
    /\ Forall (fun v => 0 <= v /\ v <= 1 /\ hundredth v) (PyDict.values w).
Proof.
  eexists. split; [vm_compute; reflexivity|]. split; [reflexivity|].
  refine (proj2 (proj2 (get_weights_in_unit_interval Examples.sample_weights "Individual"
                          ["name"; "dob"; "citizenship_no"; "account_no"] _ _ _))).
  - repeat constructor; simpl; intuition discriminate.
  - vm_compute. reflexivity.
Defined.

End WeightBounds.

(* ====================================================================== *)
(** * Properties: the errors of [get_weights] *)
(* ====================================================================== *)

Module WeightErrors.
Import PyStr PyNum WeightCalculator WeightSpec.
Import DictFacts WeightFacts.
Local Open Scope list_scope.

Lemma lstrip_map (p : ascii -> bool) (f : ascii -> ascii) (s : string) :
  (forall c, p (f c) = p c) ->
  lstrip_by p (map_chars f s) = map_chars f (lstrip_by p s).
Proof.
  intros Hf. induction s as [|c r IH]; [reflexivity|].
  cbn [map_chars lstrip_by]. rewrite Hf. now destruct (p c).
Qed.

Lemma rstrip_map (p : ascii -> bool) (f : ascii -> ascii) (s : string) :
  (forall c, p (f c) = p c) ->
  rstrip_by p (map_chars f s) = map_chars f (rstrip_by p s).
Proof.
  intros Hf. induction s as [|c r IH]; [reflexivity|].
  cbn [map_chars rstrip_by]. rewrite IH, Hf.
  destruct (rstrip_by p r); cbn [map_chars]; [now destruct (p c) | reflexivity].
Qed.

Lemma lstrip_twice (p : ascii -> bool) (s : string) :
  lstrip_by p (lstrip_by p s) = lstrip_by p s.
Proof.
  induction s as [|c r IH]; [reflexivity|].
  cbn [lstrip_by]. destruct (p c) eqn:E; [exact IH|].
  cbn [lstrip_by]. now rewrite E.
Qed.

Lemma rstrip_twice (p : ascii -> bool) (s : string) :
  rstrip_by p (rstrip_by p s) = rstrip_by p s.
Proof.
  induction s as [|c r IH]; [reflexivity|].
  cbn [rstrip_by]. destruct (rstrip_by p r) as [|c' r'] eqn:E.
  - destruct (p c) eqn:Ec; [reflexivity|]. cbn [rstrip_by]. now rewrite Ec.
  - cbn [rstrip_by]. cbn [rstrip_by] in IH. rewrite IH. reflexivity.
Qed.

Lemma strip_sides_commute (p : ascii -> bool) (s : string) :
  rstrip_by p (lstrip_by p s) = lstrip_by p (rstrip_by p s).
Proof.
  induction s as [|c r IH]; [reflexivity|].
  cbn [lstrip_by rstrip_by]. destruct (p c) eqn:Ec.
  - rewrite IH. destruct (rstrip_by p r) as [|c' r'] eqn:E; [reflexivity|].
    cbn [lstrip_by]. now rewrite Ec.
  - cbn [rstrip_by].
    destruct (rstrip_by p r) as [|c' r'] eqn:E; rewrite ?Ec; cbn [lstrip_by];
      now rewrite Ec.
Qed.

Lemma strip_idempotent (s : string) : strip (strip s) = strip s.
Proof.
  unfold strip.
  rewrite (strip_sides_commute is_space (rstrip_by is_space s)).
  now rewrite rstrip_twice, lstrip_twice.
Qed.

Lemma lower_char_space (c : ascii) : is_space (lower_char c) = is_space c.
Proof. destruct c as [[|] [|] [|] [|] [|] [|] [|] [|]]; reflexivity. Qed.

Lemma strip_lower (s : string) : strip (lower s) = lower (strip s).
Proof.
  unfold strip, lower.
  rewrite rstrip_map by exact lower_char_space.
  now rewrite lstrip_map by exact lower_char_space.
Qed.

Lemma entity_normal_form (entity : string) :
  lower (strip (lower (strip entity))) = lower (strip entity).
Proof.
  now rewrite strip_lower, strip_idempotent, EntityFacts.lower_idempotent.
Qed.

(** X7: the checks of [get_weights] come in a fixed order.  An empty table
    is reported first, then an empty list of conditions, then an empty entity
    name, then an entity that is not a key of ENTITY_CONDITIONS once stripped
    and lower-cased (a name made of blanks only is such an unknown entity,
    not an invalid one), then a list with no condition that applies to the
    entity type; in every other case weights are returned, and conditions
    that do not apply are ignored.  The entity name counts up to case and
    surrounding whitespace. *)
Theorem get_weights_error_table
  (df : weight_table) (entity : string) (conditions : list string) :
  (df = [] -> get_weights df entity conditions = Raise TableEmpty)
  /\ (df <> [] -> conditions = [] ->
      get_weights df entity conditions = Raise NoConditions)
  /\ (df <> [] -> conditions <> [] -> entity = "" ->
      get_weights df entity conditions = Raise InvalidEntity)
  /\ (df <> [] -> conditions <> [] -> entity <> "" -> known_entity entity = false ->
      get_weights df entity conditions = Raise UnknownEntity)
  /\ (df <> [] -> conditions <> [] -> known_entity entity = true ->
      (forall c, In c conditions -> ~ In c (applicable (lower (strip entity)))) ->
      get_weights df entity conditions = Raise InvalidConditionError)
  /\ (df <> [] -> known_entity entity = true ->
      (exists c, In c conditions /\ In c (applicable (lower (strip entity)))) ->
      exists w, get_weights df entity conditions = Ok w)
  /\ (strip entity <> "" ->
      get_weights df entity conditions = get_weights df (lower (strip entity)) conditions).
Proof.
  split; [|split; [|split; [|split; [|split; [|split]]]]].
  - intros ->. reflexivity.
  - intros Hdf ->. destruct df; [congruence | reflexivity].
  - intros Hdf Hc ->. destruct df; [congruence|]. destruct conditions; [congruence|].
    reflexivity.
  - intros Hdf Hc He Hk. destruct df; [congruence|]. destruct conditions; [congruence|].
    unfold get_weights. apply String.eqb_neq in He. rewrite He.
    unfold known_entity in Hk. rewrite Hk. reflexivity.
  - intros Hdf Hc Hk Hnone. destruct df as [|r0 df]; [congruence|].
    destruct conditions as [|c0 cs]; [congruence|].
    unfold get_weights. rewrite (known_entity_not_empty entity Hk).
    unfold known_entity in Hk. rewrite Hk. cbn [negb]. cbv zeta.
    fold (applicable (lower (strip entity))).
    fold (valid_conditions_of entity (c0 :: cs)).
    destruct (valid_conditions_of entity (c0 :: cs)) as [|v vs] eqn:E; [reflexivity|].
    exfalso. assert (Hv : In v (valid_conditions_of entity (c0 :: cs)))
      by (rewrite E; now left).
    apply valid_conditions_In in Hv. destruct Hv as [H1 H2]. exact (Hnone v H1 H2).
  - intros Hdf Hk [c [H1 H2]]. eexists. apply get_weights_known; auto.
    intros E. assert (Hv : In c (valid_conditions_of entity conditions))
      by (apply valid_conditions_In; auto).
    rewrite E in Hv. destruct Hv.
  - intros Hs. unfold get_weights.
    destruct df as [|r0 df]; [reflexivity|].
    destruct conditions as [|c0 cs]; [reflexivity|].
    assert (He : String.eqb entity "" = false).
    { apply String.eqb_neq. intros ->. apply Hs. reflexivity. }
    assert (He' : String.eqb (lower (strip entity)) "" = false).
    { apply EntityFacts.lower_not_empty. now apply String.eqb_neq. }
    rewrite He, He', entity_normal_form. reflexivity.
Qed.

End WeightErrors.

(* ====================================================================== *)
(** * Properties: equal weights *)
(* ====================================================================== *)

Module EqualWeights.
Import PyStr PyNum WeightCalculator WeightSpec.
Import DictFacts WeightFacts.
Local Open Scope list_scope.
Local Open Scope Q_scope.

Lemma max_by_ties (f : string -> Q) (ks : list string) (k0 : string) :
  (forall k, In k ks -> f k <= f k0) -> max_by f k0 ks = k0.
Proof.
  revert k0. induction ks as [|k ks IH]; intros k0 H; [reflexivity|].
  cbn [max_by]. unfold Qgtb.
  assert (Hk : Qle_bool (f k) (f k0) = true) by (apply Qle_bool_iff, H; now left).
  rewrite Hk. cbn [negb]. apply IH. intros k' Hk'. apply H. now right.
Qed.

Lemma weight_of_constant (w : Q) (conds : list string) (c : string) :
  In c conds -> weight_of (map (fun c => (c, w)) conds) c = w.
Proof.
  unfold weight_of. induction conds as [|c0 conds IH]; [intros []|].
  intros H. cbn [map PyDict.get]. destruct (String.eqb c c0) eqn:E; [reflexivity|].
  destruct H as [->|H]; [rewrite String.eqb_refl in E; discriminate | now apply IH].
Qed.

Lemma filter_all_true {A} (p : A -> bool) (l : list A) :
  (forall x, In x l -> p x = true) -> filter p l = l.
Proof.
  induction l as [|x l IH]; intros H; [reflexivity|].
  cbn [filter]. rewrite (H x (or_introl eq_refl)). f_equal. apply IH.
  intros y Hy. apply H. now right.
Qed.

Lemma hundredth_reciprocal_sum (n : nat) (r : Q) :
  hundredth r -> hundredth (1 - inject_Z (Z.of_nat n) * r).
Proof.
  intros [z Hz]. exists (100 - Z.of_nat n * z)%Z. rewrite Hz.
  unfold Qeq, Qminus, Qplus, Qopp, Qmult, inject_Z. cbn [Qnum Qden]. lia.
Qed.

(** X8: for a duplicate-free list of at most 100 conditions,
    [_get_equal_weights] keeps the conditions in their order, gives every
    condition but the first the weight round(1/n, 2), and gives the first one
    what is left of 1: with three conditions 0.34, 0.33, 0.33, and with six
    0.15 and five times 0.17.  The weights sum to 1. *)
Theorem equal_weights_first_takes_residual (c0 : string) (cs : list string) :
  NoDup (c0 :: cs) -> (List.length (c0 :: cs) <= 100)%nat ->
  let r := round2 (1 / inject_Z (Z.of_nat (List.length (c0 :: cs)))) in
  let w := _get_equal_weights (c0 :: cs) in
  PyDict.keys w = c0 :: cs
  /\ weight_of w c0 == 1 - inject_Z (Z.of_nat (List.length cs)) * r
  /\ (forall c, In c cs -> weight_of w c = r)
  /\ qsum (PyDict.values w) == 1.
Proof.
  intros Hnd Hlen r w.
  set (conds := c0 :: cs) in *.
  assert (Hne : conds <> []) by discriminate.
  destruct (equal_weights_well_formed conds Hne Hnd Hlen) as [Hwf Hkeys].
  cbv zeta in Hwf, Hkeys. fold r in Hwf, Hkeys.
  assert (Hw : w = _adjust_for_rounding
                     (fold_left (fun d cond => PyDict.set d cond r) conds []) conds)
    by reflexivity.
  assert (Hsum : qsum (PyDict.values w) == 1)
    by (rewrite Hw; now apply adjust_for_rounding_sum).
  clearbody w. revert Hw Hwf Hkeys.
  rewrite (fold_set_fresh r conds [] Hnd) by (intros c _ []).
  cbn [app]. set (w0 := map (fun c => (c, r)) conds). intros Hw Hwf Hkeys.
  assert (Hall : forall c, In c conds -> weight_of w0 c = r)
    by (intros c Hc; now apply weight_of_constant).
  assert (Hs : qsum (PyDict.values w0)
               == inject_Z (Z.of_nat (List.length conds)) * r).
  { unfold w0, PyDict.values. rewrite map_map. cbn [snd]. apply WeightBounds.qsum_constant. }
  assert (Hr : hundredth r) by apply hundredth_round2.
  assert (Hrpos : 0 < r).
  { apply reciprocal_rounds_up. split; [simpl; lia | exact Hlen]. }
  assert (HN : inject_Z (Z.of_nat (List.length conds))
               == inject_Z (Z.of_nat (List.length cs)) + 1)
    by apply WeightBounds.inject_succ.
  assert (Hsh : hundredth (qsum (PyDict.values w0)))
    by (apply hundredth_qsum, (wf_hundredths _ _ Hwf)).
  assert (Hw0 : w0 <> []) by discriminate.
  rewrite (adjust_unfold w0 conds Hw0 Hne) in Hw. cbv zeta in Hw.
  assert (Hspos : 0 < qsum (PyDict.values w0)).
  { apply qsum_pos; [apply (wf_nonneg _ _ Hwf) | apply (wf_positive _ _ Hwf)]. }
  assert (E0 : Qeq_bool (qsum (PyDict.values w0)) 0 = false).
  { destruct (Qeq_bool (qsum (PyDict.values w0)) 0) eqn:E; [|reflexivity].
    apply Qeq_bool_iff in E. lra. }
  rewrite E0 in Hw. cbn [orb] in Hw.
  destruct (Qeq_bool (round2 (qsum (PyDict.values w0))) 1) eqn:E1.
  - subst w. apply Qeq_bool_iff in E1. rewrite (round2_fixed _ Hsh) in E1.
    split; [exact Hkeys|]. split; [|split; [|exact Hsum]].
    + rewrite (Hall c0 (or_introl eq_refl)). rewrite Hs, HN in E1. lra.
    + intros c Hc. apply Hall. now right.
  - assert (Hf : filter (fun k => str_in k conds && Qgtb (weight_of w0 k) 0)
                        (PyDict.keys w0) = c0 :: cs).
    { rewrite Hkeys. apply filter_all_true. intros k Hk.
      rewrite (Hall k Hk). apply andb_true_iff. split; [now apply str_in_In|].
      unfold Qgtb. destruct (Qle_bool r 0) eqn:E; [|reflexivity].
      apply Qle_bool_iff in E. lra. }
    rewrite Hf in Hw.
    assert (Hmax : max_by (weight_of w0) c0 cs = c0).
    { apply max_by_ties. intros k Hk.
      rewrite (Hall k (or_intror Hk)), (Hall c0 (or_introl eq_refl)). apply Qle_refl. }
    rewrite Hmax, (Hall c0 (or_introl eq_refl)) in Hw. subst w.
    assert (Hin0 : In c0 (PyDict.keys w0)) by (rewrite Hkeys; now left).
    split; [rewrite (keys_set_in _ _ _ Hin0); exact Hkeys|].
    split; [|split; [|exact Hsum]].
    + unfold weight_of. rewrite get_set_same.
      assert (H1 : hundredth (1 - qsum (PyDict.values w0))).
      { apply hundredth_minus; [exists 100%Z; reflexivity | exact Hsh]. }
      assert (H2 : hundredth (r + round2 (1 - qsum (PyDict.values w0)))).
      { apply hundredth_plus; [exact Hr | apply hundredth_round2]. }
      rewrite (round2_fixed _ H2), (round2_fixed _ H1), Hs, HN. lra.
    + intros c Hc. unfold weight_of. rewrite get_set_other.
      * apply (Hall c (or_intror Hc)).
      * intros ->. inversion Hnd; subst. contradiction.
Qed.

Lemma equal_weights_witness :
  PyDict.keys (_get_equal_weights ["name"; "dob"; "citizenship_no"])
  = ["name"; "dob"; "citizenship_no"]
  /\ weight_of (_get_equal_weights ["name"; "dob"; "citizenship_no"]) "name" == 34 # 100
  /\ weight_of (_get_equal_weights ["name"; "dob"; "citizenship_no"]) "dob" == 33 # 100.
Proof.
  destruct (equal_weights_first_takes_residual "name" ["dob"; "citizenship_no"])
    as [H1 [H2 [H3 _]]].
  - repeat constructor; simpl; intuition discriminate.
  - simpl. lia.
  - split; [exact H1|]. split.
    + rewrite H2. vm_compute. reflexivity.
    + rewrite (H3 "dob" (or_introl eq_refl)). vm_compute. reflexivity.
Defined.

End EqualWeights.

(* ====================================================================== *)
(** * Properties: condition sets *)
(* ====================================================================== *)

Module ConditionFacts.
Import PyStr PyNum WeightCalculator WeightSpec.
Import TextFacts WeightErrors.
Local Open Scope list_scope.

Lemma split_without_separator (sep : ascii) (x : string) :
  all_chars (fun c => negb (Ascii.eqb c sep)) x = true -> split sep x = [x].
Proof.
  induction x as [|c r IH]; [reflexivity|].
  cbn [all_chars split]. intros H. apply andb_true_iff in H. destruct H as [Hc Hr].
  apply negb_true_iff in Hc. rewrite Hc, (IH Hr). reflexivity.
Qed.

Lemma split_first (sep : ascii) (x rest : string) :
  all_chars (fun c => negb (Ascii.eqb c sep)) x = true ->
  split sep (x ++ String sep rest)%string = x :: split sep rest.
Proof.
  induction x as [|c r IH]; intros H.
  - cbn [String.append split]. now rewrite Ascii.eqb_refl.
  - cbn [all_chars] in H. apply andb_true_iff in H. destruct H as [Hc Hr].
    apply negb_true_iff in Hc.
    cbn [String.append split]. rewrite Hc, (IH Hr). reflexivity.
Qed.

Lemma split_join (sep : ascii) (l : list string) :
  l <> [] ->
  (forall x, In x l -> all_chars (fun c => negb (Ascii.eqb c sep)) x = true) ->
  split sep (join (String sep "") l) = l.
Proof.
  induction l as [|x l IH]; [congruence|]. intros _ H.
  destruct l as [|y l].
  - cbn [join]. apply split_without_separator, H. now left.
  - change (join (String sep "") (x :: y :: l))
      with (x ++ String sep "" ++ join (String sep "") (y :: l))%string.
    cbn [String.append].
    rewrite split_first by (apply H; now left).
    rewrite IH; [reflexivity | discriminate |].
    intros z Hz. apply H. now right.
Qed.

Lemma split_parts (sep : ascii) (s x : string) :
  In x (split sep s) -> all_chars (fun c => negb (Ascii.eqb c sep)) x = true.
Proof.
  revert x. induction s as [|c r IH]; intros x H.
  - destruct H as [<-|[]]. reflexivity.
  - cbn [split] in H. destruct (Ascii.eqb c sep) eqn:E.
    + destruct H as [<-|H]; [reflexivity | now apply IH].
    + destruct (split sep r) as [|w ws] eqn:Es.
      * destruct H as [<-|[]]. cbn [all_chars]. now rewrite E.
      * destruct H as [<-|H].
        -- cbn [all_chars]. rewrite E. cbn [negb andb]. apply IH. now left.
        -- apply IH. now right.
Qed.

Lemma join_not_empty (sep x : string) (l : list string) :
  x <> "" -> join sep (x :: l) <> "".
Proof.
  intros Hx. destruct x as [|c r]; [congruence|].
  destruct l; cbn [join String.append]; discriminate.
Qed.

Lemma lower_char_not_comma (c : ascii) :
  negb (Ascii.eqb c ","%char) = true -> negb (Ascii.eqb (lower_char c) ","%char) = true.
Proof. destruct c as [[|] [|] [|] [|] [|] [|] [|] [|]]; vm_compute; auto. Qed.

Lemma lower_keeps_class (p : ascii -> bool) (s : string) :
  (forall c, p c = true -> p (lower_char c) = true) ->
  all_chars p s = true -> all_chars p (lower s) = true.
Proof.
  intros Hp. induction s as [|c r IH]; [reflexivity|].
  cbn [all_chars lower map_chars]. intros H. apply andb_true_iff in H.
  destruct H as [Hc Hr]. apply andb_true_iff. split; [now apply Hp | now apply IH].
Qed.

Lemma normalize_condition_parts (s x : string) :
  In x (_normalize_condition s) ->
  x <> "" /\ strip x = x /\ lower x = x
  /\ all_chars (fun c => negb (Ascii.eqb c ","%char)) x = true.
Proof.
  unfold _normalize_condition. destruct (String.eqb s ""); [intros []|].
  rewrite in_map_iff. intros [f [<- Hf]]. apply filter_In in Hf.
  destruct Hf as [Hin Hne]. apply negb_true_iff in Hne.
  split; [|split; [|split]].
  - intros E. pose proof (EntityFacts.lower_not_empty _ Hne) as H.
    rewrite E in H. discriminate.
  - now rewrite strip_lower, strip_idempotent.
  - apply EntityFacts.lower_idempotent.
  - apply lower_keeps_class; [exact lower_char_not_comma|].
    unfold strip. apply all_chars_lstrip, all_chars_rstrip.
    now apply (split_parts ","%char s).
Qed.

(** X9: every member of a normalized condition set is a non-empty, stripped,
    lower-case name without a comma; normalizing the comma-joined text of a
    list of names without commas, none of them blank, gives these names
    stripped and lower-cased, in their order, which is how [get_weights]
    turns the Excel column names of the valid conditions into the set it
    looks up; and joining a normalized set and normalizing it again gives
    the same set. *)
Theorem normalize_condition_round_trip :
  (forall s x, In x (_normalize_condition s) ->
               x <> "" /\ strip x = x /\ lower x = x
               /\ all_chars (fun c => negb (Ascii.eqb c ","%char)) x = true)
  /\ (forall l,
        (forall x, In x l ->
                   all_chars (fun c => negb (Ascii.eqb c ","%char)) x = true
                   /\ strip x <> "") ->
        _normalize_condition (join "," l) = map (fun x => lower (strip x)) l)
  /\ (forall s,
        _normalize_condition (join "," (_normalize_condition s))
        = _normalize_condition s).
Proof.
  assert (Hjoin : forall l,
            (forall x, In x l ->
                       all_chars (fun c => negb (Ascii.eqb c ","%char)) x = true
                       /\ strip x <> "") ->
            _normalize_condition (join "," l) = map (fun x => lower (strip x)) l).
  { intros l Hl. destruct l as [|x l]; [reflexivity|].
    unfold _normalize_condition.
    assert (Hx : x <> "").
    { intros ->. destruct (Hl "" (or_introl eq_refl)) as [_ H]. now apply H. }
    pose proof (join_not_empty "," x l Hx) as Hj. apply String.eqb_neq in Hj.
    rewrite Hj, (split_join ","%char (x :: l)).
    - f_equal. apply EqualWeights.filter_all_true. intros y Hy.
      apply negb_true_iff, String.eqb_neq. now destruct (Hl y Hy).
    - discriminate.
    - intros y Hy. now destruct (Hl y Hy). }
  split; [exact normalize_condition_parts|]. split; [exact Hjoin|].
  intros s. rewrite Hjoin.
  - rewrite <- (map_id (_normalize_condition s)) at 2. apply map_ext_in.
    intros x Hx. destruct (normalize_condition_parts s x Hx) as [_ [H1 [H2 _]]].
    now rewrite H1, H2.
  - intros x Hx. destruct (normalize_condition_parts s x Hx) as [H0 [H1 [_ H3]]].
    split; [exact H3|]. now rewrite H1.
Qed.

End ConditionFacts.

(* ====================================================================== *)
(** * Properties: [parse_value] *)
(* ====================================================================== *)

Module ParseFacts.
Import PyStr Utils.
Import TextFacts.
Local Open Scope list_scope.
Local Open Scope nat_scope.

Lemma all_chars_app (p : ascii -> bool) (a b : string) :
  all_chars p (a ++ b)%string = all_chars p a && all_chars p b.
Proof.
  induction a as [|c a IH]; [reflexivity|].
  cbn [String.append all_chars]. now rewrite IH, andb_assoc.
Qed.

Lemma join_class (p : ascii -> bool) (sep : string) (l : list string) :
  all_chars p sep = true ->
  Forall (fun w => all_chars p w = true) l ->
  all_chars p (join sep l) = true.
Proof.
  intros Hsep. induction l as [|w l IH]; intros H; [reflexivity|].
  inversion H as [|? ? Hw Hl]; subst. destruct l as [|w' l]; [exact Hw|].
  change (join sep (w :: w' :: l)) with (w ++ sep ++ join sep (w' :: l))%string.
  rewrite !all_chars_app, Hw, Hsep. now apply IH.
Qed.

Lemma findall_star_class (p : ascii -> bool) (s : string) :
  Forall (fun w => all_chars p w = true) (findall_star p s).
Proof.
  induction s as [|c r IH]; [repeat constructor|].
  cbn [findall_star]. destruct (p c) eqn:Ec; [|now constructor].
  destruct r as [|d r']; [constructor; [cbn [all_chars]; now rewrite Ec | exact IH]|].
  destruct (p d) eqn:Ed.
  - destruct (findall_star p (String d r')) as [|w ws].
    + constructor; [cbn [all_chars]; now rewrite Ec | constructor].
    + inversion IH as [|? ? Hw Hws]; subst.
      constructor; [cbn [all_chars]; now rewrite Ec | exact Hws].
  - constructor; [cbn [all_chars]; now rewrite Ec | exact IH].
Qed.

Lemma findall_star_whole (p : ascii -> bool) (s : string) :
  s <> EmptyString -> all_chars p s = true ->
  findall_star p s = [s; EmptyString].
Proof.
  induction s as [|c r IH]; [congruence|]. intros _ H.
  cbn [all_chars] in H. apply andb_true_iff in H. destruct H as [Hc Hr].
  cbn [findall_star]. rewrite Hc. destruct r as [|d r']; [reflexivity|].
  assert (Hd : p d = true).
  { cbn [all_chars] in Hr. apply andb_true_iff in Hr. tauto. }
  rewrite Hd, IH; [reflexivity | discriminate | exact Hr].
Qed.

Lemma name_char_no_digit (c : ascii) : is_name_char c = true -> is_digit c = false.
Proof. destruct c as [[|] [|] [|] [|] [|] [|] [|] [|]]; vm_compute; auto. Qed.

(** X10: for the type "name", [parse_value] returns letters and blanks
    only, never a digit or a punctuation mark; a value that, once stripped,
    is already made of letters and blanks comes back with one blank added at
    its end (the empty match that [re.findall] reports after the last run),
    and a blank value gives the empty string. *)
Theorem parse_value_name :
  (forall value, all_chars is_name_char (parse_value value "name") = true)
  /\ (forall value,
        all_chars (fun c => negb (is_digit c)) (parse_value value "name") = true)
  /\ (forall value,
        strip value <> EmptyString ->
        all_chars is_name_char (strip value) = true ->
        parse_value value "name" = (strip value ++ " ")%string)
  /\ (forall value, strip value = EmptyString -> parse_value value "name" = EmptyString).
Proof.
  assert (H1 : forall value, all_chars is_name_char (parse_value value "name") = true).
  { intros value. unfold parse_value. cbn [String.eqb Ascii.eqb Bool.eqb andb].
    apply join_class; [reflexivity | apply findall_star_class]. }
  split; [exact H1|]. split; [|split].
  - intros value. eapply all_chars_impl; [|apply H1].
    intros c Hc. now rewrite (name_char_no_digit c Hc).
  - intros value Hne Hall. unfold parse_value.
    change (String.eqb "name" "name") with true. cbv iota zeta.
    rewrite (findall_star_whole _ _ Hne Hall). reflexivity.
  - intros value E. unfold parse_value.
    change (String.eqb "name" "name") with true. cbv iota zeta.
    rewrite E. reflexivity.
Qed.

Lemma take_exact_sound (p : ascii -> bool) (n : nat) :
  forall s m, take_exact p n s = Some m ->
    String.length m = n /\ all_chars p m = true /\ exists post, s = (m ++ post)%string.
Proof.
  induction n as [|n IH]; intros s m H.
  - injection H as <-. split; [reflexivity|]. split; [reflexivity|]. now exists s.
  - cbn [take_exact] in H. destruct s as [|c r]; [discriminate|].
    destruct (p c) eqn:Ec; [|discriminate].
    destruct (take_exact p n r) as [m'|] eqn:E; [|discriminate].
    injection H as <-. destruct (IH r m' E) as [H1 [H2 [post ->]]].
    split; [cbn [String.length]; now rewrite H1|].
    split; [cbn [all_chars]; now rewrite Ec|]. now exists post.
Qed.

Lemma take_exact_complete (p : ascii -> bool) (m post : string) :
  all_chars p m = true -> take_exact p (String.length m) (m ++ post)%string = Some m.
Proof.
  induction m as [|c m IH]; intros H; [reflexivity|].
  cbn [all_chars] in H. apply andb_true_iff in H. destruct H as [Hc Hm].
  cbn [String.length String.append take_exact]. now rewrite Hc, (IH Hm).
Qed.

(** What [re.search] finds for a class repeated [n] times: the leftmost
    window of [n] characters of the class; and nothing when there is none. *)
Lemma search_exact_spec (p : ascii -> bool) (n : nat) :
  forall s,
    match search_exact p n s with
    | Some m =>
        String.length m = n /\ all_chars p m = true
        /\ exists pre post,
             s = (pre ++ m ++ post)%string
             /\ forall pre' m' post',
                  s = (pre' ++ m' ++ post')%string ->
                  String.length m' = n -> all_chars p m' = true ->
                  (String.length pre <= String.length pre')%nat
    | None =>
        forall pre m post,
          s = (pre ++ m ++ post)%string -> String.length m = n ->
          all_chars p m = true -> False
    end.
Proof.
  induction s as [|c r IH].
  - cbn [search_exact]. destruct (take_exact p n EmptyString) as [m|] eqn:E.
    + destruct (take_exact_sound p n _ m E) as [H1 [H2 [post H3]]].
      split; [exact H1|]. split; [exact H2|]. exists EmptyString, post.
      split; [exact H3|]. intros; cbn [String.length]; lia.
    + intros pre m post Hs Hl Hm.
      destruct pre; [|discriminate]. cbn [String.append] in Hs.
      rewrite Hs, <- Hl, (take_exact_complete p m post Hm) in E. discriminate.
  - cbn [search_exact]. destruct (take_exact p n (String c r)) as [m|] eqn:E.
    + destruct (take_exact_sound p n _ m E) as [H1 [H2 [post H3]]].
      split; [exact H1|]. split; [exact H2|]. exists EmptyString, post.
      split; [exact H3|]. intros; cbn [String.length]; lia.
    + assert (Hfront : forall m post, String c r = (m ++ post)%string ->
                                      String.length m = n -> all_chars p m = true -> False).
      { intros m post Hs Hl Hm.
        rewrite Hs, <- Hl, (take_exact_complete p m post Hm) in E. discriminate. }
      destruct (search_exact p n r) as [m|].
      * destruct IH as [H1 [H2 [pre [post [H3 H4]]]]].
        split; [exact H1|]. split; [exact H2|].
        exists (String c pre), post. split; [cbn [String.append]; now rewrite H3|].
        intros pre' m' post' Hs Hl Hm. destruct pre' as [|c' pre'].
        -- exfalso. exact (Hfront m' post' Hs Hl Hm).
        -- cbn [String.append] in Hs. injection Hs as _ Hs.
           cbn [String.length]. apply le_n_S. exact (H4 pre' m' post' Hs Hl Hm).
      * intros pre m post Hs Hl Hm. destruct pre as [|c' pre].
        -- exact (Hfront m post Hs Hl Hm).
        -- cbn [String.append] in Hs. injection Hs as _ Hs.
           exact (IH pre m post Hs Hl Hm).
Qed.

Lemma parse_value_client_code (value : string) :
  parse_value value "client_code"
  = match search_exact is_digit 8 (strip value) with Some m => m | None => EmptyString end.
Proof. reflexivity. Qed.

Lemma parse_value_main_code (value : string) :
  parse_value value "main_code"
  = match search_exact is_alnum 10 (strip value) with Some m => m | None => EmptyString end.
Proof. reflexivity. Qed.

Lemma window_result (p : ascii -> bool) (n : nat) (s : string) :
  let r := match search_exact p (S n) s with Some m => m | None => EmptyString end in
  (r = EmptyString
   /\ forall pre m post,
        s = (pre ++ m ++ post)%string -> String.length m = S n ->
        all_chars p m = true -> False)
  \/ (String.length r = S n /\ all_chars p r = true
      /\ exists pre post,
           s = (pre ++ r ++ post)%string
           /\ forall pre' m' post',
                s = (pre' ++ m' ++ post')%string ->
                String.length m' = S n -> all_chars p m' = true ->
                (String.length pre <= String.length pre')%nat).
Proof.
  cbv zeta. pose proof (search_exact_spec p (S n) s) as H.
  destruct (search_exact p (S n) s) as [m|]; [right; exact H | left; auto].
Qed.

(** X11: for the type "client_code", [parse_value] returns the leftmost
    window of eight consecutive digits of the stripped value, and the empty
    string exactly when the value has no such window; for "main_code" the
    same with ten consecutive letters or digits.  The result is never a
    shorter or longer code. *)
Theorem parse_value_codes (value : string) :
  (let r := parse_value value "client_code" in
   (r = EmptyString
    /\ forall pre m post,
         strip value = (pre ++ m ++ post)%string -> String.length m = 8 ->
         all_chars is_digit m = true -> False)
   \/ (String.length r = 8 /\ all_chars is_digit r = true
       /\ exists pre post,
            strip value = (pre ++ r ++ post)%string
            /\ forall pre' m' post',
                 strip value = (pre' ++ m' ++ post')%string ->
                 String.length m' = 8 -> all_chars is_digit m' = true ->
                 (String.length pre <= String.length pre')%nat))
  /\ (let r := parse_value value "main_code" in
      (r = EmptyString
       /\ forall pre m post,
            strip value = (pre ++ m ++ post)%string -> String.length m = 10 ->
            all_chars is_alnum m = true -> False)
      \/ (String.length r = 10 /\ all_chars is_alnum r = true
          /\ exists pre post,
               strip value = (pre ++ r ++ post)%string
               /\ forall pre' m' post',
                    strip value = (pre' ++ m' ++ post')%string ->
                    String.length m' = 10 -> all_chars is_alnum m' = true ->
                    (String.length pre <= String.length pre')%nat)).
Proof.
  split; cbv zeta.
  - rewrite parse_value_client_code. apply (window_result is_digit 7 (strip value)).
  - rewrite parse_value_main_code. apply (window_result is_alnum 9 (strip value)).
Qed.

Lemma take_while_spec (p : ascii -> bool) (s : string) :
  s = (take_while p s ++ drop_while p s)%string
  /\ all_chars p (take_while p s) = true
  /\ (drop_while p s = EmptyString
      \/ exists c r, drop_while p s = String c r /\ p c = false).
Proof.
  induction s as [|c r IH]; [repeat split; now left|].
  cbn [take_while drop_while]. destruct (p c) eqn:Ec.
  - destruct IH as [H1 [H2 H3]].
    split; [cbn [String.append]; now rewrite <- H1|].
    split; [cbn [all_chars]; now rewrite Ec | exact H3].
  - split; [reflexivity|]. split; [reflexivity|]. right. now exists c, r.
Qed.

Lemma drop_while_none (p : ascii -> bool) (s : string) :
  drop_while p s = EmptyString <-> all_chars p s = true.
Proof.
  induction s as [|c r IH]; [tauto|].
  cbn [drop_while all_chars]. destruct (p c); [exact IH|].
  split; discriminate.
Qed.

Lemma take_while_empty (p : ascii -> bool) (s : string) :
  take_while p s = EmptyString ->
  s = EmptyString \/ exists c r, s = String c r /\ p c = false.
Proof.
  destruct s as [|c r]; [now left|]. cbn [take_while].
  destruct (p c) eqn:Ec; [discriminate|]. right. now exists c, r.
Qed.

Lemma parse_value_other (value type : string) :
  type <> "name" -> type <> "client_code" -> type <> "main_code" ->
  type <> "citizenship_no" -> type <> "fuzzy_match" ->
  parse_value value type = EmptyString.
Proof.
  intros H1 H2 H3 H4 H5. unfold parse_value.
  apply String.eqb_neq in H1, H2, H3, H4, H5. now rewrite H1, H2, H3, H4, H5.
Qed.

(** X12: for the type "citizenship_no", [parse_value] returns the longest
    prefix of the stripped value made of digits, slashes and hyphens, so a
    value that begins with any other character gives the empty string even
    when a number follows; for "fuzzy_match" it returns the first maximal
    run of digits, and the empty string exactly when the value has no digit;
    for a type that is none of the five it knows it returns the empty
    string. *)
Theorem parse_value_runs (value : string) :
  (let r := parse_value value "citizenship_no" in
   exists rest,
     strip value = (r ++ rest)%string
     /\ all_chars is_citizenship_char r = true
     /\ (rest = EmptyString
         \/ exists c rest', rest = String c rest' /\ is_citizenship_char c = false))
  /\ (let r := parse_value value "fuzzy_match" in
      all_chars is_digit r = true
      /\ (r = EmptyString
          <-> all_chars (fun c => negb (is_digit c)) (strip value) = true)
      /\ exists pre rest,
           strip value = (pre ++ r ++ rest)%string
           /\ all_chars (fun c => negb (is_digit c)) pre = true
           /\ (rest = EmptyString
               \/ exists c rest', rest = String c rest' /\ is_digit c = false))
  /\ (forall type,
        type <> "name" -> type <> "client_code" -> type <> "main_code" ->
        type <> "citizenship_no" -> type <> "fuzzy_match" ->
        parse_value value type = EmptyString).
Proof.
  split; [|split; [|intros; now apply parse_value_other]]; cbv zeta.
  - change (parse_value value "citizenship_no")
      with (take_while is_citizenship_char (strip value)).
    exists (drop_while is_citizenship_char (strip value)).
    apply take_while_spec.
  - set (s := strip value).
    set (tail := drop_while (fun c => negb (is_digit c)) s).
    assert (Hr : parse_value value "fuzzy_match" = take_while is_digit tail).
    { change (parse_value value "fuzzy_match")
        with (match search_plus is_digit s with Some m => m | None => EmptyString end).
      unfold search_plus. fold tail. now destruct (take_while is_digit tail). }
    rewrite Hr.
    destruct (take_while_spec (fun c => negb (is_digit c)) s) as [Hs [Hpre Htail]].
    fold tail in Hs, Htail.
    destruct (take_while_spec is_digit tail) as [Ht [Hrun Hrest]].
    split; [exact Hrun|]. split.
    + rewrite <- drop_while_none. fold tail. split.
      * intros E. destruct (take_while_empty _ _ E) as [H|[c [r [H Hc]]]]; [exact H|].
        destruct Htail as [Htail|[c' [r' [Htail Hc']]]]; [exact Htail|].
        rewrite H in Htail. injection Htail as -> ->. rewrite Hc in Hc'. discriminate.
      * intros ->. reflexivity.
    + exists (take_while (fun c => negb (is_digit c)) s), (drop_while is_digit tail).
      split; [now rewrite <- Ht|]. split; [exact Hpre | exact Hrest].
Qed.

End ParseFacts.

(* ====================================================================== *)
(** * Properties: the dates [standardize_date_format] returns *)
(* ====================================================================== *)

Module DateValidity.
Import PyStr PyNum RapidFuzz Utils Data FuzzyMatcherComponent SimilaritySpec.
Import SimilarityFacts SimilarityEdges.
Local Open Scope list_scope.
Local Open Scope nat_scope.

Lemma standardized_is_valid (s r : string) :
  standardize_date_format s = Some r ->
  exists t, valid_datetime t = true /\ r = strftime_Ymd t.
Proof.
  unfold standardize_date_format. destruct (String.eqb s ""); [discriminate|].
  intros H. apply DateFacts.try_formats_some in H.
  destruct H as [pre [f [post [t [_ [_ [Ht ->]]]]]]].
  exists t. split; [|reflexivity].
  unfold strptime in Ht.
  destruct (regex_match (parse_format f) epoch s) as [[t' rest]|]; [|discriminate].
  destruct rest; [|discriminate].
  destruct (valid_datetime t') eqn:E; [|discriminate]. now injection Ht as <-.
Qed.

(** Of two strings of the same length, only equal ones have a common
    subsequence of that length. *)
Lemma lcs_length_full (a : string) :
  forall b, String.length a = String.length b ->
            lcs_length a b = String.length a -> a = b.
Proof.
  induction a as [|x a IH]; intros [|y b] Hl H; try discriminate; [reflexivity|].
  change (lcs_length (String x a) (String y b))
    with (if Ascii.eqb x y then S (lcs_length a b)
          else Nat.max (lcs_length a (String y b)) (lcs_length (String x a) b)) in H.
  cbn [String.length] in Hl, H. injection Hl as Hl.
  destruct (Ascii.eqb x y) eqn:E.
  - apply Ascii.eqb_eq in E. subst y. f_equal. apply IH; [exact Hl | lia].
  - exfalso.
    destruct (lcs_length_bound a (String y b)) as [H1 _].
    destruct (lcs_length_bound (String x a) b) as [_ H2]. lia.
Qed.

Lemma cdist_uint8_eight (a b : string) :
  String.length a = 8 -> String.length b = 8 ->
  cdist_uint8 a b = 100%Z -> a = b.
Proof.
  intros Ha Hb H.
  destruct (Nat.eq_dec (lcs_length a b) 8) as [E|E].
  - apply lcs_length_full; [now rewrite Ha, Hb | now rewrite Ha].
  - exfalso. destruct (lcs_length_bound a b) as [H1 _]. rewrite Ha in H1.
    assert (Hr : (0 <= ratio a b /\ ratio a b <= inject_Z 88)%Q).
    { split; [apply ratio_range|]. unfold ratio. rewrite Ha, Hb.
      cbn [Nat.add]. unfold Qle, inject_Z. cbn [Qnum Qden]. lia. }
    pose proof (llround_range (ratio a b) 88 ltac:(lia) Hr) as Hll.
    unfold cdist_uint8 in H. rewrite Z.mod_small in H by lia. lia.
Qed.

Lemma digit_char_inj (a b : nat) : digit_char a = digit_char b -> a mod 10 = b mod 10.
Proof.
  unfold digit_char. intros H. apply (f_equal nat_of_ascii) in H.
  pose proof (Nat.mod_upper_bound a 10 ltac:(lia)).
  pose proof (Nat.mod_upper_bound b 10 ltac:(lia)).
  rewrite !nat_ascii_embedding in H by lia. lia.
Qed.

Lemma four_digits (y1 y2 : nat) :
  (Z.of_nat y1 <= 9999)%Z -> (Z.of_nat y2 <= 9999)%Z ->
  (y1 / 1000) mod 10 = (y2 / 1000) mod 10 -> (y1 / 100) mod 10 = (y2 / 100) mod 10 ->
  (y1 / 10) mod 10 = (y2 / 10) mod 10 -> y1 mod 10 = y2 mod 10 -> y1 = y2.
Proof.
  intros.
  pose proof (Nat.div_mod_eq y1 10). pose proof (Nat.div_mod_eq y2 10).
  pose proof (Nat.div_mod_eq (y1 / 10) 10). pose proof (Nat.div_mod_eq (y2 / 10) 10).
  pose proof (Nat.div_mod_eq (y1 / 10 / 10) 10).
  pose proof (Nat.div_mod_eq (y2 / 10 / 10) 10).
  rewrite !Nat.Div0.div_div in *.
  change (10 * 10) with 100 in *. change (100 * 10) with 1000 in *.
  assert (y1 / 1000 < 10) by (apply Nat.Div0.div_lt_upper_bound; lia).
  assert (y2 / 1000 < 10) by (apply Nat.Div0.div_lt_upper_bound; lia).
  rewrite (Nat.mod_small (y1 / 1000)) in * by lia.
  rewrite (Nat.mod_small (y2 / 1000)) in * by lia.
  lia.
Qed.

Lemma two_digits (m1 m2 : nat) :
  m1 <= 99 -> m2 <= 99 ->
  (m1 / 10) mod 10 = (m2 / 10) mod 10 -> m1 mod 10 = m2 mod 10 -> m1 = m2.
Proof.
  intros.
  pose proof (Nat.div_mod_eq m1 10). pose proof (Nat.div_mod_eq m2 10).
  assert (m1 / 10 < 10) by (apply Nat.Div0.div_lt_upper_bound; lia).
  assert (m2 / 10 < 10) by (apply Nat.Div0.div_lt_upper_bound; lia).
  rewrite (Nat.mod_small (m1 / 10)) in * by lia.
  rewrite (Nat.mod_small (m2 / 10)) in * by lia.
  lia.
Qed.

Lemma valid_datetime_bounds (t : datetime) :
  valid_datetime t = true ->
  1 <= year t /\ year t <= 9999 /\ 1 <= month t /\ month t <= 12
  /\ 1 <= day t /\ day t <= days_in_month (year t) (month t).
Proof.
  unfold valid_datetime. rewrite !andb_true_iff, !Nat.leb_le. tauto.
Qed.

Lemma days_in_month_bound (y m : nat) : days_in_month y m <= 31.
Proof.
  unfold days_in_month.
  destruct m as [|[|[|[|[|[|[|[|[|[|[|[|m]]]]]]]]]]]]; try lia.
  destruct (is_leap y); lia.
Qed.

Lemma strftime_Ymd_inj (t1 t2 : datetime) :
  valid_datetime t1 = true -> valid_datetime t2 = true ->
  strftime_Ymd t1 = strftime_Ymd t2 ->
  year t1 = year t2 /\ month t1 = month t2 /\ day t1 = day t2.
Proof.
  intros V1 V2 H.
  destruct (valid_datetime_bounds t1 V1) as [_ [Hy1 [_ [Hm1 [_ Hd1]]]]].
  destruct (valid_datetime_bounds t2 V2) as [_ [Hy2 [_ [Hm2 [_ Hd2]]]]].
  pose proof (days_in_month_bound (year t1) (month t1)).
  pose proof (days_in_month_bound (year t2) (month t2)).
  unfold strftime_Ymd, pad4, pad2 in H. cbn [String.append] in H.
  injection H as E1 E2 E3 E4 E5 E6 E7 E8.
  apply digit_char_inj in E1, E2, E3, E4, E5, E6, E7, E8.
  assert (Z1 : (Z.of_nat (year t1) <= 9999)%Z).
  { apply Nat2Z.inj_le in Hy1.
    let z := eval vm_compute in (Z.of_nat 9999) in
      change (Z.of_nat 9999) with z in Hy1.
    exact Hy1. }
  assert (Z2 : (Z.of_nat (year t2) <= 9999)%Z).
  { apply Nat2Z.inj_le in Hy2.
    let z := eval vm_compute in (Z.of_nat 9999) in
      change (Z.of_nat 9999) with z in Hy2.
    exact Hy2. }
  split; [now apply four_digits|]. split; apply two_digits; auto; lia.
Qed.

Lemma percent_is_one (k : Z) : (inject_Z k / 100 == 1)%Q <-> k = 100%Z.
Proof.
  unfold Qeq, Qdiv, Qmult, Qinv, inject_Z. cbn [Qnum Qden]. lia.
Qed.

(** X13: what [standardize_date_format] returns is always a day of the
    calendar, with a year from 1 to 9999, a month from 1 to 12 and a day the
    month has in that year, never 30 February or a thirteenth month; two
    such days are written alike only when they are the same day; and the
    date similarity of a parsable query and a parsable cell is 1 exactly
    when the two denote the same day. *)
Theorem standardized_dates_are_calendar_days :
  (forall s r,
      standardize_date_format s = Some r ->
      exists t,
        r = strftime_Ymd t
        /\ 1 <= year t /\ year t <= 9999 /\ 1 <= month t /\ month t <= 12
        /\ 1 <= day t /\ day t <= days_in_month (year t) (month t))
  /\ (forall t1 t2,
        valid_datetime t1 = true -> valid_datetime t2 = true ->
        (strftime_Ymd t1 = strftime_Ymd t2
         <-> year t1 = year t2 /\ month t1 = month t2 /\ day t1 = day t2))
  /\ (forall query_date c d1 d2,
        standardize_date_format query_date = Some d1 ->
        standardize_date_format (astype_str c) = Some d2 ->
        ((date_similarity query_date c == 1)%Q <-> d1 = d2)).
Proof.
  split; [|split].
  - intros s r H. destruct (standardized_is_valid s r H) as [t [V ->]].
    exists t. split; [reflexivity|]. now apply valid_datetime_bounds.
  - intros t1 t2 V1 V2. split; [now apply strftime_Ymd_inj|].
    intros [Hy [Hm Hd]]. unfold strftime_Ymd. now rewrite Hy, Hm, Hd.
  - intros q c d1 d2 H1 H2.
    assert (Hq : String.eqb q "" = false).
    { destruct (String.eqb q "") eqn:E; [|reflexivity].
      apply String.eqb_eq in E. subst q. discriminate. }
    unfold date_similarity, standardize_cell. rewrite Hq, H1, H2, percent_is_one.
    split.
    + intros H. symmetry.
      destruct (standardized_is_valid _ _ H1) as [t1 [_ ->]].
      destruct (standardized_is_valid _ _ H2) as [t2 [_ ->]].
      apply cdist_uint8_eight; [apply DateFacts.strftime_Ymd_shape .. | exact H].
    + intros ->. apply cdist_uint8_same.
Qed.

End DateValidity.

(* ====================================================================== *)
(** * Properties: the padding of account numbers *)
(* ====================================================================== *)

Module PaddingFacts.
Import PyStr PyNum Data FuzzyMatcherComponent.
Import DictFacts.
Local Open Scope list_scope.
Local Open Scope nat_scope.

Lemma length_repeat_char (c : ascii) (n : nat) : String.length (repeat_char c n) = n.
Proof. induction n as [|n IH]; [reflexivity|]. cbn [repeat_char String.length]. now rewrite IH. Qed.

Lemma length_append (a b : string) :
  String.length (a ++ b)%string = String.length a + String.length b.
Proof. induction a as [|c a IH]; [reflexivity|]. cbn [String.append String.length]. now rewrite IH. Qed.

Lemma zfill_length (width : nat) (s : string) :
  String.length (zfill width s) = Nat.max width (String.length s).
Proof.
  unfold zfill. destruct s as [|c r].
  - rewrite length_repeat_char. cbn [String.length]. lia.
  - destruct (Ascii.eqb c "+" || Ascii.eqb c "-").
    + cbn [String.length]. rewrite length_append, length_repeat_char.
      cbn [String.length]. lia.
    + rewrite length_append, length_repeat_char. cbn [String.length]. lia.
Qed.

Lemma zfill_long (width : nat) (s : string) :
  width <= String.length s -> zfill width s = s.
Proof.
  intros H. unfold zfill.
  replace (width - String.length s) with 0 by lia. cbn [repeat_char String.append].
  destruct s as [|c r]; [reflexivity|].
  now destruct (Ascii.eqb c "+" || Ascii.eqb c "-").
Qed.

Lemma zfill_twice (width : nat) (s : string) :
  zfill width (zfill width s) = zfill width s.
Proof. apply zfill_long. rewrite zfill_length. lia. Qed.

Lemma set_twice {V} (d : PyDict.dict V) (k : string) (v v' : V) :
  PyDict.set (PyDict.set d k v) k v' = PyDict.set d k v'.
Proof.
  induction d as [|[k0 v0] d IH].
  - cbn [PyDict.set]. now rewrite String.eqb_refl.
  - cbn [PyDict.set]. destruct (String.eqb k k0) eqn:E; cbn [PyDict.set]; rewrite E.
    + reflexivity.
    + now rewrite IH.
Qed.

Lemma cell_of_set_same (r : row) (k : string) (v : cell) :
  cell_of k (PyDict.set r k v) = v.
Proof. unfold cell_of. now rewrite get_set_same. Qed.

Lemma cell_of_set_other (r : row) (k k' : string) (v : cell) :
  k' <> k -> cell_of k' (PyDict.set r k v) = cell_of k' r.
Proof. intros H. unfold cell_of. now rewrite get_set_other. Qed.

(** X15: padding the account numbers of the working copy keeps the columns
    and the number of rows; it changes no cell of another column; every
    account cell becomes a string of at least 16 characters, an account
    number of 16 characters or more is left as it is, and a missing (NaN)
    account number becomes the text 0000000000000nan; the frame is returned
    as it is when the mapping has no account column or the frame lacks it;
    and padding a padded frame changes nothing. *)
Theorem pad_account_column_spec (field_mapping : mapping) (df : DataFrame) :
  columns (pad_account_column field_mapping df) = columns df
  /\ List.length (rows (pad_account_column field_mapping df)) = List.length (rows df)
  /\ pad_account_column field_mapping (pad_account_column field_mapping df)
     = pad_account_column field_mapping df
  /\ (cbs_field_of field_mapping "account_no" = None ->
      pad_account_column field_mapping df = df)
  /\ (forall acct,
        cbs_field_of field_mapping "account_no" = Some acct ->
        str_in acct (columns df) = false ->
        pad_account_column field_mapping df = df)
  /\ (forall acct,
        cbs_field_of field_mapping "account_no" = Some acct ->
        str_in acct (columns df) = true ->
        forall i r,
          nth_error (rows df) i = Some r ->
          exists r',
            nth_error (rows (pad_account_column field_mapping df)) i = Some r'
            /\ (forall col, col <> acct -> cell_of col r' = cell_of col r)
            /\ cell_of acct r' = Some (zfill 16 (astype_str (cell_of acct r)))
            /\ 16 <= String.length (zfill 16 (astype_str (cell_of acct r)))
            /\ (forall s, cell_of acct r = Some s -> 16 <= String.length s ->
                          cell_of acct r' = Some s)
            /\ (cell_of acct r = None -> cell_of acct r' = Some "0000000000000nan")).
Proof.
  unfold pad_account_column.
  destruct (cbs_field_of field_mapping "account_no") as [acct|] eqn:Ea.
  2: { split; [reflexivity|]. split; [reflexivity|]. split; [reflexivity|].
       split; [reflexivity|]. split; intros a Ha; discriminate Ha. }
  destruct (str_in acct (columns df)) eqn:Ec.
  - cbn [columns rows]. rewrite Ec. cbn [columns rows].
    split; [reflexivity|]. split; [apply length_map|]. split.
    { f_equal. rewrite map_map. apply map_ext. intros r.
      rewrite cell_of_set_same. cbn [astype_str]. now rewrite zfill_twice, set_twice. }
    split; [discriminate|]. split.
    { intros a Ha Hf. injection Ha as <-. congruence. }
    intros a Ha _ i r Hr. injection Ha as <-.
    exists (PyDict.set r acct (Some (zfill 16 (astype_str (cell_of acct r))))).
    split.
    { exact (SimilarityEdges.nth_error_map_some
               (fun r0 => PyDict.set r0 acct
                            (Some (zfill 16 (astype_str (cell_of acct r0)))))
               (rows df) i r Hr). }
    split; [intros col Hcol; now apply cell_of_set_other|].
    split; [apply cell_of_set_same|].
    split; [rewrite zfill_length; lia|]. split.
    + intros s Hs Hl. rewrite cell_of_set_same, Hs. cbn [astype_str].
      now rewrite zfill_long.
    + intros Hn. now rewrite cell_of_set_same, Hn.
  - rewrite ?Ec. split; [reflexivity|]. split; [reflexivity|].
    split; [reflexivity|]. split; [discriminate|]. split; [reflexivity|].
    intros a Ha Hin. injection Ha as <-. congruence.
Qed.

End PaddingFacts.

(* ====================================================================== *)
(** * Properties: the listings of the weight table *)
(* ====================================================================== *)

Module TableFacts.
Import PyStr PyNum WeightCalculator.
Local Open Scope list_scope.

Lemma existsb_eqb_In {A} (eqb : A -> A -> bool) (x : A) (l : list A) :
  (forall a b, eqb a b = true <-> a = b) ->
  existsb (eqb x) l = true <-> In x l.
Proof.
  intros Heq. rewrite existsb_exists. split.
  - intros [y [Hy E]]. apply Heq in E. now subst.
  - intros H. exists x. split; [exact H | now apply Heq].
Qed.

Lemma unique_from_spec {A} (eqb : A -> A -> bool) (l : list A) :
  (forall a b, eqb a b = true <-> a = b) ->
  forall seen,
    NoDup (unique_from eqb seen l)
    /\ forall x, In x (unique_from eqb seen l) <-> In x l /\ ~ In x seen.
Proof.
  intros Heq. induction l as [|y l IH]; intros seen.
  - split; [constructor|]. intros x. simpl. tauto.
  - cbn [unique_from]. destruct (existsb (eqb y) seen) eqn:E.
    + destruct (IH seen) as [H1 H2]. split; [exact H1|].
      apply (existsb_eqb_In eqb y seen Heq) in E.
      intros x. rewrite H2. simpl. split; [tauto|].
      intros [[->|H] Hn]; [contradiction | tauto].
    + destruct (IH (y :: seen)) as [H1 H2].
      assert (Hy : ~ In y seen).
      { intros H. apply (existsb_eqb_In eqb y seen Heq) in H. congruence. }
      split.
      * constructor; [|exact H1]. rewrite H2. simpl. tauto.
      * intros x. simpl. rewrite H2. simpl. split.
        -- intros [->|[H Hn]]; [tauto|]. tauto.
        -- intros [[->|H] Hn]; [now left|].
           destruct (eqb y x) eqn:Eyx.
           ++ left. now apply Heq.
           ++ right. split; [exact H|]. intros [Hyx|Hs]; [|contradiction].
              apply Heq in Hyx. rewrite Hyx in Eyx. discriminate.
Qed.

Lemma condition_eqb_eq (a b : option string) : condition_eqb a b = true <-> a = b.
Proof.
  destruct a as [x|], b as [y|]; cbn [condition_eqb];
    try (split; [discriminate | congruence]); [|tauto].
  rewrite String.eqb_eq. split; congruence.
Qed.

Lemma unique_spec {A} (eqb : A -> A -> bool) (l : list A) :
  (forall a b, eqb a b = true <-> a = b) ->
  NoDup (unique eqb l) /\ forall x, In x (unique eqb l) <-> In x l.
Proof.
  intros Heq. destruct (unique_from_spec eqb l Heq []) as [H1 H2].
  split; [exact H1|]. intros x. unfold unique. rewrite H2. simpl. tauto.
Qed.

Lemma string_eqb_iff (a b : string) : String.eqb a b = true <-> a = b.
Proof. apply String.eqb_eq. Qed.

(** X16: the listings of the weight table contain no value twice; the
    entities listed are those of the rows, the conditions listed are those
    of the rows (a cell that is no text counts as one value), and with an
    entity given those of the rows of that entity, compared without regard
    to case; an empty entity name lists every condition; and every entity
    that is listed has at least one condition listed for it. *)
Theorem table_listings (df : weight_table) :
  NoDup (get_all_entities df)
  /\ (forall e, In e (get_all_entities df) <-> exists r, In r df /\ Entity r = e)
  /\ (forall entity, NoDup (get_all_conditions df entity))
  /\ (forall c, In c (get_all_conditions df None)
                <-> exists r, In r df /\ Condition r = c)
  /\ (forall e c,
        e <> "" ->
        (In c (get_all_conditions df (Some e))
         <-> exists r, In r df /\ lower (Entity r) = lower e /\ Condition r = c))
  /\ get_all_conditions df (Some "") = get_all_conditions df None
  /\ (forall e, In e (get_all_entities df) -> e <> "" ->
                get_all_conditions df (Some e) <> []).
Proof.
  assert (Hent : forall e, In e (get_all_entities df)
                           <-> exists r, In r df /\ Entity r = e).
  { intros e. unfold get_all_entities. destruct df as [|r0 df'].
    - split; [intros [] | intros [r [[] _]]].
    - destruct (unique_spec String.eqb (map Entity (r0 :: df')) string_eqb_iff)
        as [_ H]. rewrite H, in_map_iff. split; intros [r Hr]; exists r; tauto. }
  assert (Hcond : forall e c,
            e <> "" ->
            (In c (get_all_conditions df (Some e))
             <-> exists r, In r df /\ lower (Entity r) = lower e /\ Condition r = c)).
  { intros e c He. unfold get_all_conditions. destruct df as [|r0 df'].
    - split; [intros [] | intros [r [[] _]]].
    - destruct e as [|x e]; [congruence|]. cbv zeta.
      destruct (unique_spec condition_eqb
                  (map Condition
                     (filter (fun r => String.eqb (lower (Entity r)) (lower (String x e)))
                             (r0 :: df'))) condition_eqb_eq) as [_ H].
      rewrite H, in_map_iff. split.
      + intros [r [Hc Hr]]. apply filter_In in Hr. destruct Hr as [Hr E].
        apply String.eqb_eq in E. exists r. tauto.
      + intros [r [Hr [E Hc]]]. exists r. split; [exact Hc|].
        apply filter_In. split; [exact Hr | now apply String.eqb_eq]. }
  split; [|split; [exact Hent|split; [|split; [|split; [exact Hcond|split]]]]].
  - unfold get_all_entities. destruct df; [constructor|].
    apply (unique_spec String.eqb _ string_eqb_iff).
  - intros entity. unfold get_all_conditions. destruct df; [constructor|].
    destruct entity as [[|x e]|]; apply (unique_spec condition_eqb _ condition_eqb_eq).
  - intros c. unfold get_all_conditions. destruct df as [|r0 df'].
    + split; [intros [] | intros [r [[] _]]].
    + destruct (unique_spec condition_eqb (map Condition (r0 :: df')) condition_eqb_eq)
        as [_ H]. rewrite H, in_map_iff. split; intros [r Hr]; exists r; tauto.
  - reflexivity.
  - intros e He Hne. apply Hent in He. destruct He as [r [Hr <-]].
    intros E.
    assert (H : In (Condition r) (get_all_conditions df (Some (Entity r)))).
    { apply Hcond; [exact Hne|]. exists r. auto. }
    rewrite E in H. destruct H.
Qed.

End TableFacts.

(* ====================================================================== *)
(** * Properties: the tickets of a run *)
(* ====================================================================== *)

Module ProcessFacts.
Import PyStr PyNum Data FuzzyMatcherComponent WeightageProcess.
Local Open Scope list_scope.
Local Open Scope nat_scope.

Lemma entity_type_is_value (name : string) (t : record) :
  entity_type_is name t = true -> get_value t "entity_type" = VStr name.
Proof.
  unfold entity_type_is, get_value.
  destruct (PyDict.get t "entity_type") as [[|s|d]|]; try discriminate.
  intros H. apply String.eqb_eq in H. now subst.
Qed.

Lemma entity_type_is_get (name : string) (t : record) :
  entity_type_is name t = true -> PyDict.get t "entity_type" = Some (VStr name).
Proof.
  unfold entity_type_is.
  destruct (PyDict.get t "entity_type") as [[|s|d]|]; try discriminate.
  intros H. apply String.eqb_eq in H. now subst.
Qed.

Lemma set_same_value {V} (d : PyDict.dict V) (k : string) (v : V) :
  PyDict.get d k = Some v -> PyDict.set d k v = d.
Proof.
  induction d as [|[k' v'] d IH]; cbn [PyDict.get PyDict.set]; [discriminate|].
  destruct (String.eqb k k').
  - intros H. injection H as ->. reflexivity.
  - intros H. now rewrite IH.
Qed.

Lemma In_firstn_filter {A} (p : A -> bool) (n : nat) (l : list A) (x : A) :
  In x (firstn n (filter p l)) -> In x l /\ p x = true.
Proof. intros H. apply MatchInvariants.In_firstn in H. now apply filter_In in H. Qed.

(** X17: a run processes at most four of the pending tickets: the first two
    whose entity type is exactly "individual", then the first two whose
    entity type is exactly "institution"; a ticket of any other entity type,
    or of one spelled otherwise, is never processed.  For each ticket it
    processes, the frame it is matched against and the field mapping [match]
    selects agree: an institution ticket meets the institution data with the
    institution mapping, an individual ticket the individual data with the
    individual mapping; and writing the entity type that is determined back
    into such a ticket, as [get_ticket_matches] does, leaves it as it is. *)
Theorem selected_tickets (pending_tickets : list record) :
  List.length (select_tickets pending_tickets) <= 4
  /\ select_tickets pending_tickets
     = firstn 2 (filter (entity_type_is "individual") pending_tickets)
       ++ firstn 2 (filter (entity_type_is "institution") pending_tickets)
  /\ (forall t, In t (select_tickets pending_tickets) ->
                In t pending_tickets
                /\ (entity_type_is "individual" t = true
                    \/ entity_type_is "institution" t = true))
  /\ (List.length (filter (entity_type_is "individual") pending_tickets) <= 2 ->
      List.length (filter (entity_type_is "institution") pending_tickets) <= 2 ->
      forall t, In t pending_tickets ->
                entity_type_is "individual" t = true
                \/ entity_type_is "institution" t = true ->
                In t (select_tickets pending_tickets))
  /\ (forall cbs_view_df institution_df INDIVIDUAL_FIELD_MAPPING
             INSTITUTION_FIELD_MAPPING t,
        In t (select_tickets pending_tickets) ->
        PyDict.set t "entity_type" (VStr (_determine_entity_type t)) = t
        /\ ((frame_for cbs_view_df institution_df t = institution_df
             /\ _determine_entity_type t = "institution"
             /\ field_mapping_of INDIVIDUAL_FIELD_MAPPING INSTITUTION_FIELD_MAPPING t
                = INSTITUTION_FIELD_MAPPING)
            \/ (frame_for cbs_view_df institution_df t = cbs_view_df
                /\ _determine_entity_type t = "individual"
                /\ field_mapping_of INDIVIDUAL_FIELD_MAPPING INSTITUTION_FIELD_MAPPING t
                   = INDIVIDUAL_FIELD_MAPPING))).
Proof.
  assert (Hsel : forall t, In t (select_tickets pending_tickets) ->
                           In t pending_tickets
                           /\ (entity_type_is "individual" t = true
                               \/ entity_type_is "institution" t = true)).
  { intros t H. unfold select_tickets in H. cbv zeta in H. apply in_app_or in H.
    destruct H as [H|H]; apply In_firstn_filter in H; tauto. }
  split; [|split; [reflexivity|split; [exact Hsel|split]]].
  - unfold select_tickets. cbv zeta. rewrite length_app, !length_firstn. lia.
  - intros H1 H2 t Hin Ht. unfold select_tickets. cbv zeta.
    rewrite !firstn_all2 by assumption. apply in_or_app.
    destruct Ht as [Ht|Ht]; [left | right]; apply filter_In; auto.
  - intros cbs inst IND INST t H. destruct (Hsel t H) as [_ [Ht|Ht]].
    all: split;
      [ pose proof (entity_type_is_value _ _ Ht) as Hv;
        unfold _determine_entity_type; rewrite Hv; cbn [String.eqb Ascii.eqb Bool.eqb];
        apply set_same_value; apply entity_type_is_get; exact Ht |].
    + right. pose proof (entity_type_is_value _ _ Ht) as Hv.
      assert (Hd : _determine_entity_type t = "individual")
        by (unfold _determine_entity_type; now rewrite Hv).
      split; [|split; [exact Hd|]].
      * unfold frame_for, entity_type_is in *.
        destruct (PyDict.get t "entity_type") as [[|s|d]|]; try discriminate.
        apply String.eqb_eq in Ht. now subst s.
      * unfold field_mapping_of, select_mapping. now rewrite Hd.
    + left. pose proof (entity_type_is_value _ _ Ht) as Hv.
      assert (Hd : _determine_entity_type t = "institution")
        by (unfold _determine_entity_type; now rewrite Hv).
      split; [|split; [exact Hd|]].
      * unfold frame_for. now rewrite Ht.
      * unfold field_mapping_of, select_mapping. now rewrite Hd.
Qed.

End ProcessFacts.

(* ====================================================================== *)
(** * Properties: the remark of a letter action *)
(* ====================================================================== *)

Module RemarksFacts.
Import PyStr Utils RemarksSpec.
Local Open Scope list_scope.
Local Open Scope nat_scope.

Local Abbreviation no_upper := (fun c => negb (is_upper c)).

Lemma lower_char_no_upper (c : ascii) : no_upper (lower_char c) = true.
Proof. destruct c as [[] [] [] [] [] [] [] []]; reflexivity. Qed.

Lemma squeeze_no_upper (s : string) : all_chars no_upper (squeeze s) = true.
Proof.
  unfold squeeze, strip, remove_blanks, lower.
  apply TextFacts.all_chars_lstrip, TextFacts.all_chars_rstrip,
    TextFacts.all_chars_filter, TextFacts.all_chars_map.
  exact lower_char_no_upper.
Qed.

Lemma lower_fixed (s : string) : all_chars no_upper s = true -> lower s = s.
Proof.
  unfold lower. induction s as [|c r IH]; [reflexivity|].
  cbn [all_chars map_chars]. intros H. apply andb_true_iff in H as [Hc Hr].
  rewrite (IH Hr). unfold lower_char.
  destruct (is_upper c); [discriminate|reflexivity].
Qed.

Lemma squeeze_normal_form (s : string) : strip (lower (squeeze s)) = squeeze s.
Proof.
  rewrite (lower_fixed _ (squeeze_no_upper s)).
  unfold squeeze. apply WeightErrors.strip_idempotent.
Qed.

Lemma contains_head_class (p : ascii -> bool) (s : string) (c : ascii) (r : string) :
  all_chars p s = true -> contains s (String c r) = true -> p c = true.
Proof.
  induction s as [|x s' IH]; cbn [contains all_chars String.prefix].
  - discriminate.
  - intros H Hc. apply andb_true_iff in H as [Hx Hs].
    apply orb_true_iff in Hc as [Hc|Hc]; [|now apply IH].
    destruct (ascii_dec c x) as [->|]; [assumption|discriminate].
Qed.

Lemma split_not_nil (sep : ascii) (s : string) : split sep s <> [].
Proof.
  induction s as [|x r IH]; cbn [split]; [discriminate|].
  destruct (Ascii.eqb x sep); [discriminate|].
  destruct (split sep r); [contradiction|discriminate].
Qed.

Lemma contains_char_cons (sep x : ascii) (r : string) :
  contains (String x r) (String sep "") = Ascii.eqb x sep || contains r (String sep "").
Proof.
  cbn [contains String.prefix].
  destruct (ascii_dec sep x) as [->|Hn].
  - rewrite Ascii.eqb_refl. now destruct r.
  - destruct (Ascii.eqb x sep) eqn:E; [|reflexivity].
    apply Ascii.eqb_eq in E. congruence.
Qed.

Lemma split_no_second (sep : ascii) (s : string) :
  contains s (String sep "") = false -> nth_error (split sep s) 1 = None.
Proof.
  induction s as [|x r IH]; [reflexivity|].
  rewrite contains_char_cons. intros H. apply orb_false_iff in H as [Hx Hr].
  cbn [split]. rewrite Hx. specialize (IH Hr).
  destruct (split sep r) as [|w ws]; [reflexivity|exact IH].
Qed.

Lemma split_second (sep : ascii) (s : string) :
  contains s (String sep "") = true ->
  exists code2, nth_error (split sep s) 1 = Some code2.
Proof.
  induction s as [|x r IH]; [discriminate|].
  rewrite contains_char_cons. intros H. cbn [split].
  destruct (Ascii.eqb x sep).
  - pose proof (split_not_nil sep r) as Hn.
    destruct (split sep r) as [|w ws]; [contradiction|]. now exists w.
  - cbn [orb] in H. destruct (IH H) as [code2 Hc].
    destruct (split sep r) as [|w ws]; [discriminate|]. now exists code2.
Qed.

Lemma status_loop_information (st : string) (keys : list string) (n : nat) :
  keys <> [] -> contains (strip (lower st)) "information" = true ->
  status_loop st keys n = Information.
Proof.
  destruct keys as [|k r]; [contradiction|]. intros _ H.
  cbn [status_loop]. now rewrite H.
Qed.

Lemma status_loop_spec (st : string) (keys : list string) (n : nat) :
  contains (strip (lower st)) "information" = false ->
  match List.find (fun item => contains st (squeeze item)) keys with
  | Some k => exists i, i < List.length keys
                        /\ status_loop st keys n = Status (Some k) (n + i)
  | None => status_loop st keys n = Status None (n + List.length keys)
  end.
Proof.
  intros Hi. revert n. induction keys as [|k r IH]; intros n.
  - cbn. now rewrite Nat.add_0_r.
  - cbn [List.find status_loop List.length]. rewrite Hi.
    destruct (contains st (squeeze k)).
    + exists 0. split; [lia|]. now rewrite Nat.add_0_r.
    + specialize (IH (S n)).
      destruct (List.find (fun item => contains st (squeeze item)) r).
      * destruct IH as [i [Hl E]]. exists (S i). split; [lia|].
        rewrite E. f_equal. lia.
      * rewrite IH. f_equal. lia.
Qed.

Lemma get_In {V} (d : PyDict.dict V) (k : string) (v : V) :
  PyDict.get d k = Some v -> In k (PyDict.keys d).
Proof.
  induction d as [|[k' v'] r IH]; cbn [PyDict.get PyDict.keys map fst]; [discriminate|].
  destruct (String.eqb k k') eqn:E.
  - apply String.eqb_eq in E. now left.
  - intros H. right. now apply IH.
Qed.

Lemma no_upper_not_key (d : PyDict.dict string) (x : string) :
  forallb (fun k => negb (all_chars no_upper k)) (PyDict.keys d) = true ->
  all_chars no_upper x = true -> PyDict.get d x = None.
Proof.
  intros Hd Hx. destruct (PyDict.get d x) eqn:E; [|reflexivity].
  apply get_In in E. rewrite forallb_forall in Hd. apply Hd in E.
  rewrite Hx in E. discriminate.
Qed.

Lemma find_none_first_key (test : string -> bool) (keys : list string) (x : string) :
  (forall k, In k keys -> test k = false) -> first_key test keys x = x.
Proof.
  intros H. unfold first_key.
  destruct (List.find test keys) eqn:E; [|reflexivity].
  apply find_some in E as [Hin Ht]. rewrite (H _ Hin) in Ht. discriminate.
Qed.

Lemma In_get {V} (d : PyDict.dict V) (k : string) :
  In k (PyDict.keys d) -> exists v, PyDict.get d k = Some v.
Proof.
  induction d as [|[k' v'] r IH]; cbn [PyDict.get PyDict.keys map fst In]; [contradiction|].
  intros H. destruct (String.eqb k k') eqn:E; [now exists v'|].
  destruct H as [H|H]; [|now apply IH].
  subst k'. rewrite String.eqb_refl in E. discriminate.
Qed.

Lemma squeeze_no_NRB (s : string) : contains (squeeze s) "NRB" = false.
Proof.
  destruct (contains (squeeze s) "NRB") eqn:E; [|reflexivity].
  pose proof (contains_head_class _ _ _ _ (squeeze_no_upper s) E) as H.
  discriminate.
Qed.

Lemma get_remarks_eq (source extracted_code agency accnt_status cases
                      chalani_no : string) :
  get_remarks source extracted_code agency accnt_status cases chalani_no
  = remarks_of source extracted_code agency accnt_status cases chalani_no.
Proof.
  unfold get_remarks, remarks_of, code2_of. cbv zeta.
  rewrite squeeze_no_NRB. cbn [orb].
  destruct (if contains (squeeze extracted_code) "nrb"
            then nth_error (split "-" (squeeze extracted_code)) 1
            else Some chalani_no) as [code2|]; [|reflexivity].
  destruct (contains (squeeze accnt_status) "information") eqn:Ei.
  - rewrite status_loop_information; [reflexivity|discriminate|].
    now rewrite squeeze_normal_form.
  - pose proof (status_loop_spec (squeeze accnt_status)
                  (PyDict.keys Constants.CODE_4) 0) as H.
    rewrite squeeze_normal_form in H. specialize (H Ei).
    destruct (List.find (fun item => contains (squeeze accnt_status) (squeeze item))
                        (PyDict.keys Constants.CODE_4)) as [k4|].
    + destruct H as [i [Hi E]]. rewrite E.
      replace (0 + i =? List.length (PyDict.keys Constants.CODE_4)) with false
        by (symmetry; apply Nat.eqb_neq; lia).
      reflexivity.
    + rewrite H. now rewrite Nat.eqb_refl.
Qed.

Lemma find_exists {A} (test : A -> bool) (l : list A) (x : A) :
  In x l -> test x = true -> exists y, List.find test l = Some y.
Proof.
  intros Hin Ht. destruct (List.find test l) eqn:E; [now eexists|].
  rewrite (find_none _ _ E _ Hin) in Ht. discriminate.
Qed.

Lemma find_absent {A} (test : A -> bool) (l : list A) :
  (forall x, In x l -> test x = false) -> List.find test l = None.
Proof.
  intros H. destruct (List.find test l) eqn:E; [|reflexivity].
  apply find_some in E as [Hin Ht]. rewrite (H _ Hin) in Ht. discriminate.
Qed.

Lemma code2_of_ok (ec chalani_no : string) :
  contains ec "nrb" = false \/ contains ec "-" = true ->
  exists code2, code2_of ec chalani_no = Some code2.
Proof.
  unfold code2_of. intros H. destruct (contains ec "nrb") eqn:E.
  - destruct H as [H|H]; [discriminate|]. now apply split_second.
  - now eexists.
Qed.

Lemma squeezed_is_no_agency (x : string) :
  PyDict.get Constants.CODE_3 (squeeze x) = None.
Proof. apply no_upper_not_key; [reflexivity|apply squeeze_no_upper]. Qed.

Lemma squeezed_is_no_case (x : string) :
  PyDict.get Constants.CODE_5 (squeeze x) = None.
Proof. apply no_upper_not_key; [reflexivity|apply squeeze_no_upper]. Qed.

(** X18: the ways [get_remarks] ends without a remark.  The test for an
    upper-case "NRB" never succeeds (the code is lower-cased first); a code
    that mentions "nrb" without a dash raises IndexError whatever the other
    arguments are.  Otherwise a status that mentions "information" gives the
    empty remark before any table is consulted; a status that names none of
    the four restrictions raises "No status found"; after that the first
    failing lookup raises KeyError: the source when it is not a key of CODE_1,
    else the squeezed agency when no agency name contains it, else the
    squeezed case text when it contains no case name.  The status is never
    read before it is bound. *)
Theorem get_remarks_failures
    (source extracted_code agency accnt_status cases chalani_no : string) :
  get_remarks source extracted_code agency accnt_status cases chalani_no
    <> Raise UnboundLocalError
  /\ contains (squeeze extracted_code) "NRB" = false
  /\ (contains (squeeze extracted_code) "nrb" = true ->
      contains (squeeze extracted_code) "-" = false ->
      get_remarks source extracted_code agency accnt_status cases chalani_no
      = Raise IndexError)
  /\ (contains (squeeze extracted_code) "nrb" = false
      \/ contains (squeeze extracted_code) "-" = true ->
      (contains (squeeze accnt_status) "information" = true ->
       get_remarks source extracted_code agency accnt_status cases chalani_no
       = Ok "")
      /\ (contains (squeeze accnt_status) "information" = false ->
          (forall k, In k (PyDict.keys Constants.CODE_4) ->
                     contains (squeeze accnt_status) (squeeze k) = false) ->
          get_remarks source extracted_code agency accnt_status cases chalani_no
          = Raise (NoStatusFound (squeeze accnt_status)))
      /\ (contains (squeeze accnt_status) "information" = false ->
          (exists k, In k (PyDict.keys Constants.CODE_4)
                     /\ contains (squeeze accnt_status) (squeeze k) = true) ->
          (PyDict.get Constants.CODE_1 source = None ->
           get_remarks source extracted_code agency accnt_status cases chalani_no
           = Raise (KeyError source))
          /\ (PyDict.get Constants.CODE_1 source <> None ->
              (forall k, In k (PyDict.keys Constants.CODE_3) ->
                         contains (squeeze k) (squeeze agency) = false) ->
              get_remarks source extracted_code agency accnt_status cases chalani_no
              = Raise (KeyError (squeeze agency)))
          /\ (PyDict.get Constants.CODE_1 source <> None ->
              (exists k, In k (PyDict.keys Constants.CODE_3)
                         /\ contains (squeeze k) (squeeze agency) = true) ->
              (forall k, In k (PyDict.keys Constants.CODE_5) ->
                         contains (squeeze cases) (squeeze k) = false) ->
              get_remarks source extracted_code agency accnt_status cases chalani_no
              = Raise (KeyError (squeeze cases))))).
Proof.
  rewrite get_remarks_eq. unfold remarks_of.
  split; [|split; [apply squeeze_no_NRB|split]].
  - destruct (code2_of (squeeze extracted_code) chalani_no); [|discriminate].
    destruct (contains (squeeze accnt_status) "information"); [discriminate|].
    destruct (List.find _ (PyDict.keys Constants.CODE_4)) as [k4|]; [|discriminate].
    unfold lookup_all.
    destruct (PyDict.get Constants.CODE_1 source); [|discriminate].
    destruct (PyDict.get Constants.CODE_3 _); [|discriminate].
    destruct (PyDict.get Constants.CODE_4 k4); [|discriminate].
    destruct (PyDict.get Constants.CODE_5 _); discriminate.
  - intros Hn Hd. unfold code2_of. rewrite Hn.
    now rewrite (split_no_second _ _ Hd).
  - intros Hc. destruct (code2_of_ok _ chalani_no Hc) as [code2 ->].
    split; [intros ->; reflexivity|]. split.
    + intros -> Hk. now rewrite (find_absent _ _ Hk).
    + intros -> [k [Hin Hk]].
      destruct (find_exists (fun item => contains (squeeze accnt_status) (squeeze item))
                            _ k Hin Hk) as [k4 E].
      rewrite E. unfold lookup_all.
      assert (H4 : exists c4, PyDict.get Constants.CODE_4 k4 = Some c4).
      { apply In_get. now apply find_some in E. }
      destruct H4 as [c4 H4]. rewrite H4.
      split; [intros ->; reflexivity|]. split.
      * intros H1 Hk3. destruct (PyDict.get Constants.CODE_1 source); [|contradiction].
        rewrite find_none_first_key by exact Hk3.
        now rewrite squeezed_is_no_agency.
      * intros H1 [k3 [Hin3 Hk3]] Hk5.
        destruct (PyDict.get Constants.CODE_1 source); [|contradiction].
        destruct (find_exists (fun item => contains (squeeze item) (squeeze agency))
                              _ k3 Hin3 Hk3) as [a E3].
        unfold first_key at 1. rewrite E3.
        assert (H3 : exists c3, PyDict.get Constants.CODE_3 a = Some c3).
        { apply In_get. now apply find_some in E3. }
        destruct H3 as [c3 ->].
        rewrite find_none_first_key by exact Hk5.
        now rewrite squeezed_is_no_case.
Qed.

Lemma agency_names_resolve (k : string) :
  In k (PyDict.keys Constants.CODE_3) ->
  first_key (fun item => contains (squeeze item) (squeeze k))
            (PyDict.keys Constants.CODE_3) (squeeze k) = k.
Proof.
  intros H.
  assert (Hall : forallb
            (fun k => String.eqb
               (first_key (fun item => contains (squeeze item) (squeeze k))
                          (PyDict.keys Constants.CODE_3) (squeeze k)) k)
            (PyDict.keys Constants.CODE_3) = true) by (vm_compute; reflexivity).
  rewrite forallb_forall in Hall. now apply String.eqb_eq, Hall.
Qed.

Lemma case_names_resolve (k : string) :
  In k (PyDict.keys Constants.CODE_5) ->
  first_key (fun item => contains (squeeze k) (squeeze item))
            (PyDict.keys Constants.CODE_5) (squeeze k) = k.
Proof.
  intros H.
  assert (Hall : forallb
            (fun k => String.eqb
               (first_key (fun item => contains (squeeze k) (squeeze item))
                          (PyDict.keys Constants.CODE_5) (squeeze k)) k)
            (PyDict.keys Constants.CODE_5) = true) by (vm_compute; reflexivity).
  rewrite forallb_forall in Hall. now apply String.eqb_eq, Hall.
Qed.

Lemma status_names_resolve (k : string) :
  In k (PyDict.keys Constants.CODE_4) ->
  contains (squeeze k) "information" = false
  /\ List.find (fun item => contains (squeeze k) (squeeze item))
               (PyDict.keys Constants.CODE_4) = Some k.
Proof.
  intros H.
  assert (Hall : forallb
            (fun k => negb (contains (squeeze k) "information")
                      && match List.find (fun item => contains (squeeze k) (squeeze item))
                                         (PyDict.keys Constants.CODE_4) with
                         | Some k' => String.eqb k' k
                         | None => false
                         end)
            (PyDict.keys Constants.CODE_4) = true) by (vm_compute; reflexivity).
  rewrite forallb_forall in Hall. specialize (Hall _ H).
  apply andb_true_iff in Hall as [H1 H2]. split.
  - now apply negb_true_iff.
  - destruct (List.find _ (PyDict.keys Constants.CODE_4)); [|discriminate].
    apply String.eqb_eq in H2. now subst.
Qed.

(** X19: the names of the tables are resolved to their own codes.  When the
    source is a key of CODE_1, and the agency, the account status and the case
    are names of CODE_3, CODE_4 and CODE_5 written in any letter case and with
    any blanks, and the extracted code does not mention "nrb", the remark is
    the five codes of these names joined by slashes, with the dispatch number
    in the middle: no name is shadowed by an earlier entry of its table. *)
Theorem get_remarks_official_names
    (source extracted_code agency accnt_status cases chalani_no : string)
    (c1 k3 k4 k5 : string) :
  PyDict.get Constants.CODE_1 source = Some c1 ->
  In k3 (PyDict.keys Constants.CODE_3) -> squeeze agency = squeeze k3 ->
  In k4 (PyDict.keys Constants.CODE_4) -> squeeze accnt_status = squeeze k4 ->
  In k5 (PyDict.keys Constants.CODE_5) -> squeeze cases = squeeze k5 ->
  contains (squeeze extracted_code) "nrb" = false ->
  exists c3 c4 c5,
    PyDict.get Constants.CODE_3 k3 = Some c3
    /\ PyDict.get Constants.CODE_4 k4 = Some c4
    /\ PyDict.get Constants.CODE_5 k5 = Some c5
    /\ get_remarks source extracted_code agency accnt_status cases chalani_no
       = Ok (c1 ++ "/" ++ c3 ++ "/" ++ chalani_no ++ "/" ++ c4 ++ "/" ++ c5)%string.
Proof.
  intros H1 H3 E3 H4 E4 H5 E5 Hn.
  destruct (In_get _ _ H3) as [c3 G3], (In_get _ _ H4) as [c4 G4],
           (In_get _ _ H5) as [c5 G5].
  exists c3, c4, c5. repeat split; try assumption.
  rewrite get_remarks_eq. unfold remarks_of, code2_of. rewrite Hn, E3, E4, E5.
  destruct (status_names_resolve _ H4) as [Hi Hf]. rewrite Hi, Hf.
  rewrite (agency_names_resolve _ H3), (case_names_resolve _ H5).
  unfold lookup_all. now rewrite H1, G3, G4, G5.
Qed.

Lemma get_remarks_official_names_witness :
  exists c3 c4 c5,
    PyDict.get Constants.CODE_3 "District Police Office" = Some c3
    /\ PyDict.get Constants.CODE_4 "Account Block" = Some c4
    /\ PyDict.get Constants.CODE_5 "Tax Evasion " = Some c5
    /\ get_remarks "Direct Letter" "5802" "district  police OFFICE" "ACCOUNT block"
                   "tax evasion" "731"
       = Ok ("DIR" ++ "/" ++ c3 ++ "/" ++ "731" ++ "/" ++ c4 ++ "/" ++ c5)%string.
Proof.
  apply (get_remarks_official_names
           "Direct Letter" "5802" "district  police OFFICE" "ACCOUNT block"
           "tax evasion" "731" "DIR" "District Police Office" "Account Block"
           "Tax Evasion ");
    first [reflexivity | vm_compute; tauto].
Defined.

Lemma first_key_found (test : string -> bool) (keys : list string) (x : string)
    (d : PyDict.dict string) (v : string) :
  PyDict.get d x = None ->
  PyDict.get d (first_key test keys x) = Some v ->
  In (first_key test keys x) keys /\ test (first_key test keys x) = true.
Proof.
  unfold first_key. intros Hx. destruct (List.find test keys) eqn:E.
  - intros _. now apply find_some in E.
  - rewrite Hx. discriminate.
Qed.

(** X20: every remark [get_remarks] returns is backed by its tables.  A
    returned remark is either empty, for a status that mentions "information",
    or five parts joined by slashes: the code of the source, the code of an
    agency whose squeezed name contains the squeezed agency, the code number,
    the code of a restriction whose squeezed name occurs in the squeezed
    status, and the code of a case whose squeezed name occurs in the squeezed
    case text.  The code number is the dispatch number unless the squeezed
    extracted code mentions "nrb", and then its second dash-separated piece. *)
Theorem get_remarks_sound
    (source extracted_code agency accnt_status cases chalani_no r : string) :
  get_remarks source extracted_code agency accnt_status cases chalani_no = Ok r ->
  (r = "" /\ contains (squeeze accnt_status) "information" = true)
  \/ (exists c1 k3 c3 code2 k4 c4 k5 c5,
        r = (c1 ++ "/" ++ c3 ++ "/" ++ code2 ++ "/" ++ c4 ++ "/" ++ c5)%string
        /\ contains (squeeze accnt_status) "information" = false
        /\ PyDict.get Constants.CODE_1 source = Some c1
        /\ PyDict.get Constants.CODE_3 k3 = Some c3
        /\ contains (squeeze k3) (squeeze agency) = true
        /\ PyDict.get Constants.CODE_4 k4 = Some c4
        /\ contains (squeeze accnt_status) (squeeze k4) = true
        /\ PyDict.get Constants.CODE_5 k5 = Some c5
        /\ contains (squeeze cases) (squeeze k5) = true
        /\ (if contains (squeeze extracted_code) "nrb"
            then nth_error (split "-"%char (squeeze extracted_code)) 1 = Some code2
            else code2 = chalani_no)).
Proof.
  rewrite get_remarks_eq. unfold remarks_of.
  destruct (code2_of (squeeze extracted_code) chalani_no) as [code2|] eqn:Ec;
    [|discriminate].
  destruct (contains (squeeze accnt_status) "information") eqn:Ei.
  { intros H. injection H as <-. now left. }
  destruct (List.find _ (PyDict.keys Constants.CODE_4)) as [k4|] eqn:E4;
    [|discriminate].
  unfold lookup_all.
  destruct (PyDict.get Constants.CODE_1 source) as [c1|] eqn:G1; [|discriminate].
  destruct (PyDict.get Constants.CODE_3 _) as [c3|] eqn:G3; [|discriminate].
  destruct (PyDict.get Constants.CODE_4 k4) as [c4|] eqn:G4; [|discriminate].
  destruct (PyDict.get Constants.CODE_5 _) as [c5|] eqn:G5; [|discriminate].
  intros H. injection H as <-. right.
  destruct (first_key_found _ _ _ _ _ (squeezed_is_no_agency agency) G3) as [_ T3].
  destruct (first_key_found _ _ _ _ _ (squeezed_is_no_case cases) G5) as [_ T5].
  apply find_some in E4 as [_ T4].
  eexists c1, _, c3, code2, k4, c4, _, c5.
  repeat (split; [first [reflexivity | eassumption]|]).
  unfold code2_of in Ec.
  destruct (contains (squeeze extracted_code) "nrb"); [exact Ec|].
  now injection Ec as <-.
Qed.

Lemma get_remarks_sound_witness :
  ("NRB/NRB/0065/D/BO" = ""
   /\ contains (squeeze "request for debit restriction") "information" = true)
  \/ (exists c1 k3 c3 code2 k4 c4 k5 c5,
        "NRB/NRB/0065/D/BO"
        = (c1 ++ "/" ++ c3 ++ "/" ++ code2 ++ "/" ++ c4 ++ "/" ++ c5)%string
        /\ contains (squeeze "request for debit restriction") "information" = false
        /\ PyDict.get Constants.CODE_1 "Nepal Rastra Bank" = Some c1
        /\ PyDict.get Constants.CODE_3 k3 = Some c3
        /\ contains (squeeze k3) (squeeze "rastra bank") = true
        /\ PyDict.get Constants.CODE_4 k4 = Some c4
        /\ contains (squeeze "request for debit restriction") (squeeze k4) = true
        /\ PyDict.get Constants.CODE_5 k5 = Some c5
        /\ contains (squeeze "banking offence (cheque)") (squeeze k5) = true
        /\ (if contains (squeeze "NRB-0065-77") "nrb"
            then nth_error (split "-"%char (squeeze "NRB-0065-77")) 1 = Some code2
            else code2 = "12")).
Proof.
  apply (get_remarks_sound
           "Nepal Rastra Bank" "NRB-0065-77" "rastra bank"
           "request for debit restriction" "banking offence (cheque)" "12"
           "NRB/NRB/0065/D/BO").
  vm_compute. reflexivity.
Defined.

End RemarksFacts.

(* ====================================================================== *)
(** * Properties: the similarity of two strings of a frame *)
(* ====================================================================== *)

Module CompareFacts.
Import PyStr PyNum RapidFuzz Utils.
Local Open Scope nat_scope.

Lemma upper_char_space (c : ascii) : is_space (upper_char c) = is_space c.
Proof. destruct c as [[] [] [] [] [] [] [] []]; reflexivity. Qed.

Lemma upper_lower_char (c : ascii) : upper_char (lower_char c) = upper_char c.
Proof. destruct c as [[] [] [] [] [] [] [] []]; reflexivity. Qed.

Lemma strip_upper (s : string) : strip (upper s) = upper (strip s).
Proof.
  unfold strip, upper.
  rewrite WeightErrors.rstrip_map by exact upper_char_space.
  now rewrite WeightErrors.lstrip_map by exact upper_char_space.
Qed.

Lemma upper_lower (s : string) : upper (lower s) = upper s.
Proof.
  unfold upper, lower. induction s as [|c r IH]; [reflexivity|].
  cbn [map_chars]. now rewrite IH, upper_lower_char.
Qed.

Lemma collapse_map (f : ascii -> ascii) (b : bool) (s : string) :
  (forall c, is_space (f c) = is_space c) -> f " "%char = " "%char ->
  collapse_from b (map_chars f s) = map_chars f (collapse_from b s).
Proof.
  intros Hs Hb. revert b. induction s as [|c r IH]; intros b; [reflexivity|].
  cbn [map_chars collapse_from]. rewrite Hs.
  destruct (is_space c); [destruct b|]; cbn [map_chars]; rewrite ?IH, ?Hb; reflexivity.
Qed.

Lemma lstrip_collapse (b : bool) (s : string) :
  lstrip_by is_space (collapse_from b s) = collapse_from false (lstrip_by is_space s).
Proof.
  revert b. induction s as [|c r IH]; intros b; [reflexivity|].
  cbn [collapse_from lstrip_by]. destruct (is_space c) eqn:E.
  - destruct b; [apply IH|]. cbn [lstrip_by].
    change (is_space " "%char) with true. cbv iota. apply IH.
  - cbn [lstrip_by collapse_from]. now rewrite E.
Qed.

Lemma rstrip_collapse (b : bool) (s : string) :
  rstrip_by is_space (collapse_from b s)
  = rstrip_by is_space (collapse_from b (rstrip_by is_space s)).
Proof.
  revert b. induction s as [|c r IH]; intros b; [reflexivity|].
  cbn [rstrip_by]. destruct (is_space c) eqn:E.
  - destruct (rstrip_by is_space r) as [|c' r'] eqn:Er.
    + cbn [collapse_from]. rewrite E.
      destruct b; [now rewrite IH|].
      cbn [rstrip_by]. now rewrite IH.
    + cbn [collapse_from]. rewrite E.
      destruct b; [now rewrite IH|].
      cbn [rstrip_by]. now rewrite IH.
  - assert (Hc : forall x, rstrip_by is_space (String c x) = String c (rstrip_by is_space x)).
    { intros x. cbn [rstrip_by]. rewrite E. now destruct (rstrip_by is_space x). }
    assert (Hr : match rstrip_by is_space r with
                 | "" => String c ""
                 | String c' r' => String c (String c' r')
                 end = String c (rstrip_by is_space r))
      by now destruct (rstrip_by is_space r).
    rewrite Hr. cbn [collapse_from]. rewrite E, !Hc. now rewrite IH.
Qed.

Lemma strip_collapse_strip (s : string) :
  strip (collapse_spaces (strip s)) = strip (collapse_spaces s).
Proof.
  unfold strip, collapse_spaces.
  rewrite <- (WeightErrors.strip_sides_commute is_space (collapse_from false _)).
  rewrite lstrip_collapse, WeightErrors.lstrip_twice, <- lstrip_collapse with (b := false).
  rewrite WeightErrors.strip_sides_commute, <- rstrip_collapse. reflexivity.
Qed.

Lemma lcs_length_nil_r (a : string) : lcs_length a "" = 0.
Proof. now destruct a. Qed.

Lemma lcs_length_sym (a b : string) : lcs_length a b = lcs_length b a.
Proof.
  revert b. induction a as [|x a' IHa]; intros b.
  - now rewrite lcs_length_nil_r.
  - induction b as [|y b' IHb]; [reflexivity|].
    change (lcs_length (String x a') (String y b'))
      with (if Ascii.eqb x y then S (lcs_length a' b')
            else Nat.max (lcs_length a' (String y b')) (lcs_length (String x a') b')).
    change (lcs_length (String y b') (String x a'))
      with (if Ascii.eqb y x then S (lcs_length b' a')
            else Nat.max (lcs_length b' (String x a')) (lcs_length (String y b') a')).
    rewrite (Ascii.eqb_sym y x). destruct (Ascii.eqb x y).
    + now rewrite IHa.
    + rewrite IHb, (IHa (String y b')). apply Nat.max_comm.
Qed.

Lemma Levenshtein_ratio_sym (a b : string) :
  Levenshtein_ratio a b = Levenshtein_ratio b a.
Proof.
  unfold Levenshtein_ratio.
  now rewrite lcs_length_sym, (Nat.add_comm (String.length a)).
Qed.

Lemma Levenshtein_ratio_range (a b : string) :
  (0 <= Levenshtein_ratio a b /\ Levenshtein_ratio a b <= 1)%Q.
Proof.
  unfold Levenshtein_ratio.
  destruct (String.length a + String.length b) as [|n] eqn:E.
  - split; unfold Qle; simpl; lia.
  - pose proof (SimilarityFacts.lcs_length_bound a b) as [H1 H2].
    split; unfold Qle; cbn [Qnum Qden]; [lia|].
    rewrite <- E.
    assert (Hp : Zpos (Pos.of_nat (String.length a + String.length b))
                 = Z.of_nat (String.length a + String.length b)).
    { rewrite E. rewrite <- Pos.of_nat_succ. lia. }
    rewrite Hp. lia.
Qed.

Lemma Levenshtein_ratio_same (a : string) : (Levenshtein_ratio a a == 1)%Q.
Proof.
  unfold Levenshtein_ratio. rewrite SimilarityEdges.lcs_length_refl.
  destruct (String.length a + String.length a) as [|n] eqn:E; [reflexivity|].
  unfold Qeq. cbn [Qnum Qden]. rewrite <- E.
  assert (Hp : Zpos (Pos.of_nat (String.length a + String.length a))
               = Z.of_nat (String.length a + String.length a)).
  { rewrite E. rewrite <- Pos.of_nat_succ. lia. }
  rewrite Hp. lia.
Qed.

Local Abbreviation norm s := (upper (strip (collapse_spaces s))).

Lemma compare_eq (string1 string2 : string) (soundex : bool) :
  compare_two_stirngs_in_df string1 (Some string2) (Some soundex)
  = Some (round2 (Levenshtein_ratio (norm string1) (norm string2) * 100)%Q).
Proof.
  unfold compare_two_stirngs_in_df. cbv zeta.
  now rewrite !strip_upper, strip_collapse_strip.
Qed.

Lemma norm_lower (s : string) : norm (lower s) = norm s.
Proof.
  unfold collapse_spaces, lower.
  rewrite collapse_map by (exact WeightErrors.lower_char_space || reflexivity).
  fold (lower (collapse_from false s)).
  now rewrite WeightErrors.strip_lower, upper_lower.
Qed.

Lemma upper_twice (s : string) : upper (upper s) = upper s.
Proof.
  unfold upper. induction s as [|c r IH]; [reflexivity|].
  cbn [map_chars]. rewrite IH. f_equal.
  destruct c as [[] [] [] [] [] [] [] []]; reflexivity.
Qed.

Lemma norm_upper (s : string) : norm (upper s) = norm s.
Proof.
  unfold collapse_spaces. unfold upper at 2.
  rewrite collapse_map by (exact upper_char_space || reflexivity).
  fold (upper (collapse_from false s)).
  now rewrite strip_upper, upper_twice.
Qed.

Lemma norm_strip (s : string) : norm (strip s) = norm s.
Proof. now rewrite strip_collapse_strip. Qed.

Lemma round2_percent (q : Q) :
  (0 <= q /\ q <= 1)%Q -> (0 <= round2 (q * 100) /\ round2 (q * 100) <= 100)%Q.
Proof.
  intros [H0 H1]. unfold round2.
  assert (L : (0 <= round_half_even (q * 100 * 100))%Z).
  { apply RoundFacts.round_half_even_ge. change (inject_Z 0) with 0%Q. nra. }
  assert (U : (round_half_even (q * 100 * 100) <= 10000)%Z).
  { apply RoundFacts.round_half_even_le.
    assert (E : (inject_Z 10000 == 10000)%Q) by reflexivity. rewrite E. nra. }
  split; unfold Qle; cbn [Qnum Qden]; lia.
Qed.

Lemma round2_full (q : Q) : (q == 1)%Q -> (round2 (q * 100) == 100)%Q.
Proof.
  intros H. unfold round2.
  rewrite (RoundFacts.round_half_even_integer (q * 100 * 100) 10000).
  - reflexivity.
  - rewrite H. reflexivity.
Qed.

(** X21: the score of [compare_two_stirngs_in_df].  Without the keyword
    [string2] or without the keyword [soundex] the result is NaN; with both,
    the value of [soundex] plays no part, the score is a percentage between 0
    and 100, and a string compared with itself scores 100. *)
Theorem compare_two_strings_score (string1 string2 : string) (soundex soundex' : bool) :
  (forall sx, compare_two_stirngs_in_df string1 None sx = None)
  /\ (forall s2, compare_two_stirngs_in_df string1 s2 None = None)
  /\ compare_two_stirngs_in_df string1 (Some string2) (Some soundex)
     = compare_two_stirngs_in_df string1 (Some string2) (Some soundex')
  /\ (exists v, compare_two_stirngs_in_df string1 (Some string2) (Some soundex) = Some v
                /\ (0 <= v /\ v <= 100)%Q)
  /\ (exists v, compare_two_stirngs_in_df string1 (Some string1) (Some soundex) = Some v
                /\ (v == 100)%Q).
Proof.
  split; [reflexivity|]. split; [now intros [s2|]|]. split; [reflexivity|]. split.
  - eexists. split; [apply compare_eq|].
    apply round2_percent, Levenshtein_ratio_range.
  - eexists. split; [apply compare_eq|].
    apply round2_full, Levenshtein_ratio_same.
Qed.

(** X22: what [compare_two_stirngs_in_df] does not see.  The score is the same
    when the two strings are exchanged, when either is put in lower or upper
    case, and when white space is removed from the ends of either; so the
    different treatment the code gives its two arguments makes no
    difference. *)
Theorem compare_two_strings_invariance (string1 string2 : string) (soundex : bool) :
  compare_two_stirngs_in_df string1 (Some string2) (Some soundex)
  = compare_two_stirngs_in_df string2 (Some string1) (Some soundex)
  /\ compare_two_stirngs_in_df (lower string1) (Some (upper string2)) (Some soundex)
     = compare_two_stirngs_in_df string1 (Some string2) (Some soundex)
  /\ compare_two_stirngs_in_df (upper string1) (Some (lower string2)) (Some soundex)
     = compare_two_stirngs_in_df string1 (Some string2) (Some soundex)
  /\ compare_two_stirngs_in_df (strip string1) (Some string2) (Some soundex)
     = compare_two_stirngs_in_df string1 (Some string2) (Some soundex)
  /\ compare_two_stirngs_in_df string1 (Some (strip string2)) (Some soundex)
     = compare_two_stirngs_in_df string1 (Some string2) (Some soundex).
Proof.
  rewrite !compare_eq.
  rewrite !norm_lower, !norm_upper, !norm_strip.
  split; [now rewrite Levenshtein_ratio_sym|]. repeat split.
Qed.

End CompareFacts.

(* ====================================================================== *)
(** * Properties: standardized dates are fixed points *)
(* ====================================================================== *)

Module DateFixedPoint.
Import PyStr Utils DateSpec.
Local Open Scope list_scope.
Local Open Scope nat_scope.

Lemma digit_val_digit_char (n : nat) : digit_val (digit_char n) = n mod 10.
Proof.
  unfold digit_val, digit_char, code.
  pose proof (Nat.mod_upper_bound n 10 ltac:(lia)) as H.
  rewrite nat_ascii_embedding by lia. lia.
Qed.

Lemma year_value (y : nat) :
  (Z.of_nat y <= 9999)%Z ->
  1000 * ((y / 1000) mod 10) + 100 * ((y / 100) mod 10)
  + 10 * ((y / 10) mod 10) + y mod 10 = y.
Proof.
  intros H.
  pose proof (Nat.div_mod_eq y 10). pose proof (Nat.div_mod_eq (y / 10) 10).
  pose proof (Nat.div_mod_eq (y / 10 / 10) 10).
  rewrite !Nat.Div0.div_div in *.
  change (10 * 10) with 100 in *. change (100 * 10) with 1000 in *.
  assert (y / 1000 < 10) by (apply Nat.Div0.div_lt_upper_bound; lia).
  rewrite (Nat.mod_small (y / 1000)) in * by lia.
  lia.
Qed.

Lemma four_digits_pad4 (y : nat) (rest : string) :
  (Z.of_nat y <= 9999)%Z ->
  Utils.four_digits (pad4 y ++ rest)%string = Some (y, rest).
Proof.
  intros H. unfold pad4, Utils.four_digits. cbn [String.append].
  rewrite !DateFacts.digit_char_is_digit. cbn [andb].
  rewrite !digit_val_digit_char. now rewrite year_value.
Qed.

Lemma month_day_match (t : datetime) (m d : nat) :
  1 <= m -> m <= 12 -> 1 <= d -> d <= 31 ->
  regex_match [Dir dm; Dir dd] t (pad2 m ++ pad2 d)%string
  = Some (store dd d (store dm m t), "").
Proof.
  intros Hm1 Hm2 Hd1 Hd2.
  assert (Hm : In m (seq 1 12)) by (apply in_seq; lia).
  assert (Hd : In d (seq 1 31)) by (apply in_seq; lia).
  clear Hm1 Hm2 Hd1 Hd2. cbn [seq In] in Hm, Hd.
  repeat (destruct Hm as [Hm|Hm]; [subst m|]); try contradiction;
    (repeat (destruct Hd as [Hd|Hd]; [subst d|]); try contradiction);
    reflexivity.
Qed.

Lemma year_then_literal (c : ascii) (fmt : list item) (t : datetime)
    (a b c0 d e : ascii) (r : string) (x : datetime * string) :
  regex_match (Dir dY :: Lit c :: fmt) t
     (String a (String b (String c0 (String d (String e r))))) = Some x ->
  c = e.
Proof.
  cbn [regex_match alternatives first_alt Utils.four_digits].
  destruct (is_digit a && is_digit b && is_digit c0 && is_digit d); [|discriminate].
  destruct (Ascii.eqb c e) eqn:E; [intros _; now apply Ascii.eqb_eq|discriminate].
Qed.

Lemma digits_not_short_then (p : ascii -> bool) (a b c : ascii) (r : string) :
  (forall x, p x = true -> is_digit x = false) ->
  is_digit b = true -> is_digit c = true ->
  ~ begins_short_then p (String a (String b (String c r))).
Proof.
  intros Hp Hb Hc [x [r' [[[y [E _]]|[y [z [E _]]]] Hx]]];
    injection E; intros; subst; apply Hp in Hx; congruence.
Qed.

Section FixedPoint.
Variable t : datetime.
Hypothesis Hvalid : valid_datetime t = true.

Let parsed : datetime :=
  store dd (day t) (store dm (month t) (store dY (year t) epoch)).

Lemma year_small : (Z.of_nat (year t) <= 9999)%Z.
Proof.
  destruct (DateValidity.valid_datetime_bounds t Hvalid) as [_ [Hy _]].
  apply Nat2Z.inj_le in Hy.
  let z := eval vm_compute in (Z.of_nat 9999) in
    change (Z.of_nat 9999) with z in Hy.
  exact Hy.
Qed.

Lemma parsed_valid : valid_datetime parsed = true.
Proof.
  unfold parsed, valid_datetime in *. cbn [store epoch year month day hour minute second].
  rewrite !andb_true_iff in *. repeat split; try tauto; reflexivity.
Qed.

Lemma parsed_prints_alike : strftime_Ymd parsed = strftime_Ymd t.
Proof. reflexivity. Qed.

Lemma compact_layout_parses :
  strptime (strftime_Ymd t) "%Y%m%d" = Some parsed.
Proof.
  destruct (DateValidity.valid_datetime_bounds t Hvalid)
    as [_ [_ [Hm1 [Hm2 [Hd1 Hd2]]]]].
  pose proof (DateValidity.days_in_month_bound (year t) (month t)) as Hd3.
  unfold strptime.
  change (parse_format "%Y%m%d") with [Dir dY; Dir dm; Dir dd].
  unfold strftime_Ymd.
  change (regex_match [Dir dY; Dir dm; Dir dd] epoch
            (pad4 (year t) ++ pad2 (month t) ++ pad2 (day t))%string)
    with (first_alt [Utils.four_digits]
            (fun v r => regex_match [Dir dm; Dir dd] (store dY v epoch) r)
            (pad4 (year t) ++ pad2 (month t) ++ pad2 (day t))%string).
  cbn [first_alt]. rewrite (four_digits_pad4 _ _ year_small).
  rewrite month_day_match by lia.
  fold parsed. now rewrite parsed_valid.
Qed.

Lemma dashed_layouts_fail (f : string) (c : ascii) (fmt : list item) :
  parse_format f = Dir dY :: Lit c :: fmt -> is_digit c = false ->
  strptime (strftime_Ymd t) f = None.
Proof.
  intros Hf Hc. unfold strptime. rewrite Hf.
  destruct (regex_match _ epoch (strftime_Ymd t)) as [x|] eqn:E; [|reflexivity].
  exfalso. unfold strftime_Ymd, pad4, pad2 in E. cbn [String.append] in E.
  apply year_then_literal in E. subst c.
  now rewrite DateFacts.digit_char_is_digit in Hc.
Qed.

Lemma short_layouts_fail (f : string) (d : directive) (c : ascii) (fmt : list item) :
  parse_format f = Dir d :: Lit c :: fmt -> d = dd \/ d = dm -> is_digit c = false ->
  strptime (strftime_Ymd t) f = None.
Proof.
  intros Hf Hd Hc. unfold strptime. rewrite Hf.
  assert (Hs : exists a b c0 r,
             strftime_Ymd t = String a (String b (String c0 r))
             /\ is_digit b = true /\ is_digit c0 = true).
  { eexists _, _, _, _. split; [reflexivity|].
    split; apply DateFacts.digit_char_is_digit. }
  destruct Hs as [a [b [c0 [r [Es [Hb Hc0]]]]]].
  generalize dependent (strftime_Ymd t).
  intros s Es. subst s.
  destruct (regex_match _ epoch _) as [x|] eqn:E; [|reflexivity].
  exfalso. apply (DateFacts.short_then_literal d c fmt epoch _ x Hd) in E.
  revert E. apply digits_not_short_then; [|assumption|assumption].
  intros y Hy. apply Ascii.eqb_eq in Hy. now subst y.
Qed.

Lemma early_layouts_fail :
  Forall (fun f => strptime (strftime_Ymd t) f = None) (firstn 5 date_formats).
Proof.
  assert (H1 : strptime (strftime_Ymd t) "%Y-%m-%d %H:%M:%S" = None).
  { apply (dashed_layouts_fail _ "-"%char (tl (tl (parse_format "%Y-%m-%d %H:%M:%S"))));
      [vm_compute; reflexivity|reflexivity]. }
  assert (H2 := dashed_layouts_fail "%Y-%m-%d" "-"%char _ eq_refl eq_refl).
  assert (H3 := short_layouts_fail "%d/%m/%Y" dd "/"%char _ eq_refl
                  (or_introl eq_refl) eq_refl).
  assert (H4 := short_layouts_fail "%m/%d/%Y" dm "/"%char _ eq_refl
                  (or_intror eq_refl) eq_refl).
  assert (H5 := dashed_layouts_fail "%Y/%m/%d" "/"%char _ eq_refl eq_refl).
  set (s := strftime_Ymd t) in *. clearbody s.
  unfold date_formats. cbn [firstn].
  repeat (apply Forall_cons; [assumption|]). apply Forall_nil.
Qed.

Lemma standardize_printed :
  standardize_date_format (strftime_Ymd t) = Some (strftime_Ymd t).
Proof.
  pose proof early_layouts_fail as Hf.
  pose proof compact_layout_parses as Hp.
  pose proof parsed_prints_alike as He.
  assert (Hn : String.eqb (strftime_Ymd t) "" = false) by reflexivity.
  unfold standardize_date_format. rewrite Hn. clear Hn.
  set (s := strftime_Ymd t) in *. clearbody s.
  unfold date_formats in *. cbn [firstn] in Hf.
  repeat match type of Hf with
         | Forall _ (_ :: _) =>
             let H := fresh "H" in
             pose proof (Forall_inv Hf) as H; cbv beta in H;
             apply Forall_inv_tail in Hf;
             cbn [try_formats]; rewrite H; clear H
         end.
  cbn [try_formats]. rewrite Hp. now rewrite He.
Qed.

End FixedPoint.

(** X23: a standardized date is a fixed point.  The text written for a valid
    date with a four-digit year is read back as the same day: the first five
    layouts reject it, the layout year-month-day without separators accepts
    it with the time of day at zero, and the result is the text itself; so
    standardizing a standardized date changes nothing. *)
Theorem standardized_date_is_fixed_point (t : datetime) :
  valid_datetime t = true -> 1000 <= year t ->
  standardize_date_format (strftime_Ymd t) = Some (strftime_Ymd t)
  /\ (exists t', strptime (strftime_Ymd t) "%Y%m%d" = Some t'
                 /\ year t' = year t /\ month t' = month t /\ day t' = day t
                 /\ hour t' = 0 /\ minute t' = 0 /\ second t' = 0)
  /\ Forall (fun f => strptime (strftime_Ymd t) f = None)
            (firstn 5 date_formats).
Proof.
  intros Hv _. split; [exact (standardize_printed t Hv)|]. split.
  - eexists. split; [exact (compact_layout_parses t Hv)|]. repeat split.
  - exact (early_layouts_fail t).
Qed.

Lemma standardized_date_fixed_point_witness :
  standardize_date_format "20240229" = Some "20240229".
Proof.
  pose (t := {| year := 2024; month := 2; day := 29;
                hour := 13; minute := 5; second := 0 |}).
  assert (Hv : valid_datetime t = true) by (vm_compute; reflexivity).
  assert (Hy : 1000 <= year t) by (apply Nat.leb_le; vm_compute; reflexivity).
  exact (proj1 (standardized_date_is_fixed_point t Hv Hy)).
Defined.

End DateFixedPoint.

(* ====================================================================== *)
(** * Properties: flattening and mapping the source record *)
(* ====================================================================== *)

Module MappingFacts.
Import PyStr Data FuzzyMatcherComponent.
Local Open Scope list_scope.
Local Open Scope nat_scope.

Lemma find_append {A} (p : A -> bool) (a b : list A) :
  List.find p (a ++ b)
  = match List.find p a with Some x => Some x | None => List.find p b end.
Proof.
  induction a as [|x a IH]; [reflexivity|].
  cbn [app List.find]. now destruct (p x).
Qed.

Lemma lowered_keys_get (ks : list string) (d : PyDict.dict string) (l : string) :
  PyDict.get
    (fold_left (fun d k => if String.eqb k "" then d else PyDict.set d (lower k) k)
               ks d) l
  = match List.find (fun k => negb (String.eqb k "") && String.eqb (lower k) l)
                    (rev ks) with
    | Some k => Some k
    | None => PyDict.get d l
    end.
Proof.
  revert d. induction ks as [|k ks IH]; intros d; [reflexivity|].
  cbn [fold_left rev]. rewrite IH, find_append.
  destruct (List.find _ (rev ks)); [reflexivity|].
  cbn [List.find]. destruct (String.eqb k "") eqn:Ek; cbn [negb andb]; [reflexivity|].
  destruct (String.eqb (lower k) l) eqn:El.
  - apply String.eqb_eq in El. subst l. apply DictFacts.get_set_same.
  - apply String.eqb_neq in El. apply DictFacts.get_set_other. congruence.
Qed.

Lemma source_dict_lower_get (flat : record) (l : string) :
  PyDict.get (source_dict_lower flat) l
  = List.find (fun k => negb (String.eqb k "") && String.eqb (lower k) l)
              (rev (PyDict.keys flat)).
Proof.
  unfold source_dict_lower. rewrite lowered_keys_get.
  now destruct (List.find _ (rev (PyDict.keys flat))).
Qed.

Section MapRecord.
Variable flat : record.

Let step (mapped_record : record) (entry : string * (string * string)) : record :=
  match PyDict.get (source_dict_lower flat) (lower (snd (snd entry))) with
  | Some original_key =>
      PyDict.set mapped_record (fst entry) (get_value flat original_key)
  | None => mapped_record
  end.

Lemma step_other (acc : record) (e : string * (string * string)) (k : string) :
  k <> fst e -> PyDict.get (step acc e) k = PyDict.get acc k.
Proof.
  intros H. unfold step. destruct (PyDict.get (source_dict_lower flat) _); [|reflexivity].
  now apply DictFacts.get_set_other.
Qed.

Lemma steps_other (fm : mapping) (acc : record) (k : string) :
  ~ In k (PyDict.keys fm) ->
  PyDict.get (fold_left step fm acc) k = PyDict.get acc k.
Proof.
  revert acc. induction fm as [|e fm IH]; intros acc H; [reflexivity|].
  cbn [fold_left]. cbn [PyDict.keys map In] in H.
  rewrite IH by (intros Hk; apply H; now right).
  apply step_other. intros ->. apply H. now left.
Qed.

Lemma steps_get (fm : mapping) (acc : record) (std cbs src : string) :
  NoDup (PyDict.keys fm) ->
  PyDict.get fm std = Some (cbs, src) ->
  PyDict.get (fold_left step fm acc) std
  = match PyDict.get (source_dict_lower flat) (lower src) with
    | Some original_key => Some (get_value flat original_key)
    | None => PyDict.get acc std
    end.
Proof.
  revert acc. induction fm as [|[k [c s]] fm IH]; intros acc Hnd Hg; [discriminate|].
  cbn [PyDict.keys map fst] in Hnd. apply NoDup_cons_iff in Hnd as [Hk Hnd].
  cbn [PyDict.get] in Hg. cbn [fold_left].
  destruct (String.eqb std k) eqn:E.
  - apply String.eqb_eq in E. subst k. injection Hg as -> ->.
    rewrite steps_other by exact Hk.
    unfold step. cbn [fst snd].
    destruct (PyDict.get (source_dict_lower flat) (lower src)); [|reflexivity].
    apply DictFacts.get_set_same.
  - rewrite (IH _ Hnd Hg).
    destruct (PyDict.get (source_dict_lower flat) (lower src)); [reflexivity|].
    apply step_other. cbn [fst]. apply String.eqb_neq in E. exact E.
Qed.

End MapRecord.

(** X24: how [match] reads a field of the source record.  For a field mapping
    with distinct standard names, the value recorded under a standard name is
    the value the flattened record has under the last of its non-empty keys
    that equals the mapped source name up to letter case; the field is absent
    when there is no such key, and a standard name outside the mapping is
    never recorded. *)
Theorem map_record_lookup (field_mapping : mapping) (flat : record)
    (std cbs src : string) :
  NoDup (PyDict.keys field_mapping) ->
  PyDict.get field_mapping std = Some (cbs, src) ->
  PyDict.get (map_record field_mapping flat) std
  = match List.find (fun k => negb (String.eqb k "")
                              && String.eqb (lower k) (lower src))
                    (rev (PyDict.keys flat)) with
    | Some original_key => Some (get_value flat original_key)
    | None => None
    end
  /\ (forall other, PyDict.get field_mapping other = None ->
                    PyDict.get (map_record field_mapping flat) other = None).
Proof.
  intros Hnd Hg. split.
  - unfold map_record. cbv zeta.
    etransitivity; [exact (steps_get flat field_mapping [] std cbs src Hnd Hg)|].
    now rewrite source_dict_lower_get.
  - intros other Ho. unfold map_record. cbv zeta.
    etransitivity; [apply (steps_other flat field_mapping [] other)|reflexivity].
    intros Hin.
    apply DictFacts.get_In_keys in Hin. contradiction.
Qed.

Lemma map_record_lookup_witness :
  PyDict.get (map_record Constants.FIELD_MAPPING
                [("Name", VStr "Ram"); ("dob", VStr "2001-01-01"); ("NAME", VStr "Hari")])
             "name"
  = Some (VStr "Hari").
Proof.
  refine (proj1 (map_record_lookup Constants.FIELD_MAPPING
                   [("Name", VStr "Ram"); ("dob", VStr "2001-01-01"); ("NAME", VStr "Hari")]
                   "name" "ACCT_NAME" "name" _ _)).
  - vm_compute. repeat constructor; cbn [In]; intuition discriminate.
  - reflexivity.
Defined.

Lemma update_get {V} (a b : PyDict.dict V) (k : string) :
  NoDup (PyDict.keys b) ->
  PyDict.get (PyDict.update a b) k
  = match PyDict.get b k with Some v => Some v | None => PyDict.get a k end.
Proof.
  unfold PyDict.update. revert a.
  induction b as [|[k' v'] b IH]; intros a Hnd; [reflexivity|].
  cbn [PyDict.keys map fst] in Hnd. apply NoDup_cons_iff in Hnd as [Hk Hnd].
  cbn [fold_left fst snd PyDict.get]. rewrite (IH _ Hnd).
  destruct (String.eqb k k') eqn:E.
  - apply String.eqb_eq in E. subst k'.
    assert (Hn : PyDict.get b k = None).
    { destruct (PyDict.get b k) eqn:G; [|reflexivity].
      exfalso. apply Hk. apply DictFacts.get_In_keys. congruence. }
    rewrite Hn. apply DictFacts.get_set_same.
  - destruct (PyDict.get b k); [reflexivity|].
    apply DictFacts.get_set_other. apply String.eqb_neq in E. exact E.
Qed.

Lemma update_keys {V} (a b : PyDict.dict V) (k : string) :
  In k (PyDict.keys (PyDict.update a b))
  <-> In k (PyDict.keys a) \/ In k (PyDict.keys b).
Proof.
  unfold PyDict.update. revert a.
  induction b as [|[k' v'] b IH]; intros a; cbn [fold_left fst snd].
  - cbn. tauto.
  - rewrite IH, DictFacts.keys_set_incl. cbn [PyDict.keys map fst In]. intuition.
Qed.

(** X25: the flattening of a source record.  The details nested under
    "individual_details" for an individual, "institution_details" for an
    institution, are merged into the top level: a key of the details takes the
    nested value, every other key keeps its top-level value, and no key is
    lost.  The record is left as it is when the details are not a dictionary,
    and for every other entity type; the details of the other entity type are
    never merged. *)
Theorem flatten_merges_details (entity_type : string) (source_record : record) :
  (entity_type <> "individual" -> entity_type <> "institution" ->
   flatten entity_type source_record = source_record)
  /\ (forall key,
        (entity_type = "individual" /\ key = "individual_details")
        \/ (entity_type = "institution" /\ key = "institution_details") ->
        (details source_record key = None ->
         flatten entity_type source_record = source_record)
        /\ (forall d,
              details source_record key = Some d ->
              (forall k, In k (PyDict.keys (flatten entity_type source_record))
                         <-> In k (PyDict.keys source_record) \/ In k (PyDict.keys d))
              /\ (NoDup (PyDict.keys d) ->
                  forall k,
                    PyDict.get (flatten entity_type source_record) k
                    = match PyDict.get d k with
                      | Some v => Some v
                      | None => PyDict.get source_record k
                      end))).
Proof.
  split.
  - intros H1 H2. unfold flatten.
    apply String.eqb_neq in H1, H2. now rewrite H1, H2.
  - intros key [[-> ->]|[-> ->]]; unfold flatten; cbn [String.eqb Ascii.eqb Bool.eqb];
      (split; [intros ->; reflexivity|]); intros d ->;
      (split; [intros k; apply update_keys | intros Hnd k; now apply update_get]).
Qed.

End MappingFacts.

(* ====================================================================== *)
(** * Properties: account numbers and leading zeros *)
(* ====================================================================== *)

Module AccountFacts.
Import PyStr PyNum Data FuzzyMatcherComponent TextSpec SimilaritySpec.
Local Open Scope list_scope.
Local Open Scope nat_scope.

Lemma append_empty (s : string) : (s ++ "")%string = s.
Proof. induction s as [|c s IH]; [reflexivity|]. cbn [String.append]. now rewrite IH. Qed.

Lemma append_assoc (a b c : string) : ((a ++ b) ++ c)%string = (a ++ (b ++ c))%string.
Proof. induction a as [|x a IH]; [reflexivity|]. cbn [String.append]. now rewrite IH. Qed.

Lemma repeat_char_add (c : ascii) (m n : nat) :
  repeat_char c (m + n) = (repeat_char c m ++ repeat_char c n)%string.
Proof. induction m as [|m IH]; [reflexivity|]. cbn [Nat.add repeat_char String.append]. now rewrite IH. Qed.

Lemma digit_is_no_sign (c : ascii) :
  is_digit c = true -> Ascii.eqb c "+"%char || Ascii.eqb c "-"%char = false.
Proof.
  destruct c as [[|] [|] [|] [|] [|] [|] [|] [|]]; vm_compute;
    intros H; first [reflexivity | discriminate H].
Qed.

Lemma digit_is_lower_word (c : ascii) : is_digit c = true -> lower_word c = true.
Proof. unfold lower_word. now intros ->. Qed.

Lemma zfill_digits (width : nat) (s : string) :
  all_chars is_digit s = true ->
  zfill width s = (repeat_char "0"%char (width - String.length s) ++ s)%string.
Proof.
  unfold zfill. destruct s as [|c r]; [now rewrite append_empty|].
  cbn [all_chars]. intros H. apply andb_true_iff in H as [Hc _].
  now rewrite (digit_is_no_sign c Hc).
Qed.

Lemma all_digits_zeros (k : nat) : all_chars is_digit (repeat_char "0"%char k) = true.
Proof. induction k as [|k IH]; [reflexivity|]. cbn [repeat_char all_chars]. now rewrite IH. Qed.

Lemma zfill_leading_zeros (width k : nat) (a : string) :
  all_chars is_digit a = true -> k + String.length a <= width ->
  zfill width (repeat_char "0"%char k ++ a)%string = zfill width a.
Proof.
  intros Ha Hk.
  rewrite zfill_digits
    by (rewrite ParseFacts.all_chars_app, all_digits_zeros; exact Ha).
  rewrite (zfill_digits width a Ha).
  rewrite PaddingFacts.length_append, PaddingFacts.length_repeat_char.
  rewrite <- append_assoc, <- repeat_char_add. f_equal. f_equal. lia.
Qed.

Lemma zfill_digits_class (width : nat) (s : string) :
  all_chars is_digit s = true -> all_chars is_digit (zfill width s) = true.
Proof.
  intros H. rewrite (zfill_digits width s H).
  now rewrite ParseFacts.all_chars_app, all_digits_zeros.
Qed.

Lemma padded_digits_similarity (a b : string) :
  all_chars is_digit a = true -> zfill 16 b = zfill 16 a ->
  (text_similarity (zfill 16 a) (Some (zfill 16 b)) == 1)%Q.
Proof.
  intros Ha E.
  assert (Hw : all_chars lower_word (zfill 16 a) = true).
  { apply (TextFacts.all_chars_impl is_digit); [exact digit_is_lower_word|].
    now apply zfill_digits_class. }
  assert (Hn : zfill 16 a <> "").
  { intros H. apply (f_equal String.length) in H.
    rewrite PaddingFacts.zfill_length in H. cbn [String.length] in H. lia. }
  apply SimilarityEdges.text_similarity_same.
  - exact Hn.
  - now rewrite (TextFacts.preprocess_text_fixed _ Hw).
  - cbn [fillna]. now rewrite E.
Qed.

(** X26: leading zeros of an account number make no difference.  When the
    mapping names the account column and the frame has it, a reference row
    whose account number is the account number of the source, both made of
    digits, with any number of zeros in front of either (up to sixteen
    characters in all), scores exactly 1 on account_no after the padding that
    [match] applies to both sides. *)
Theorem account_number_leading_zeros (field_mapping : mapping) (df : DataFrame)
    (acct a : string) (j k i : nat) (r : row) :
  cbs_field_of field_mapping "account_no" = Some acct ->
  str_in acct (columns df) = true ->
  nth_error (rows df) i = Some r ->
  all_chars is_digit a = true ->
  cell_of acct r = Some (repeat_char "0"%char k ++ a)%string ->
  k + String.length a <= 16 -> j + String.length a <= 16 ->
  exists v,
    nth_error
      (_calculate_batch_text_similarity
         (series acct (rows (pad_account_column field_mapping df)))
         (query_text "account_no" (VStr (repeat_char "0"%char j ++ a)%string))) i
    = Some v
    /\ (v == 1)%Q.
Proof.
  intros Hm Hc Hr Ha Hcell Hk Hj.
  rewrite SimilarityFacts.batch_text_map.
  unfold pad_account_column. rewrite Hm, Hc. cbn [rows].
  unfold series. rewrite !map_map.
  eexists. split.
  - apply (SimilarityEdges.nth_error_map_some _ _ _ _ Hr).
  - cbv beta. rewrite PaddingFacts.cell_of_set_same, Hcell.
    unfold query_text. cbn [String.eqb Ascii.eqb Bool.eqb py_str astype_str].
    rewrite !zfill_leading_zeros by assumption.
    now apply padded_digits_similarity.
Qed.

Lemma account_number_leading_zeros_witness :
  exists v,
    nth_error
      (_calculate_batch_text_similarity
         (series "ACCT_NUMBER"
            (rows (pad_account_column Constants.FIELD_MAPPING
                     {| columns := ["ACCT_NUMBER"];
                        rows := [[("ACCT_NUMBER", Some "00123")]] |})))
         (query_text "account_no" (VStr (repeat_char "0"%char 0 ++ "123")%string))) 0
    = Some v
    /\ (v == 1)%Q.
Proof.
  apply (account_number_leading_zeros Constants.FIELD_MAPPING
           {| columns := ["ACCT_NUMBER"];
              rows := [[("ACCT_NUMBER", Some "00123")]] |}
           "ACCT_NUMBER" "123" 0 2 0 [("ACCT_NUMBER", Some "00123")]);
    first [reflexivity | cbn [String.length]; lia].
Defined.

End AccountFacts.
